(* ===== verification/_CoqProject ===== *)
-Q . S2P
Prelude.v
RustStr.v
Num.v
Utf8.v
F64.v
F64Facts.v
Error.v
Json.v
JsonFacts.v
JsonUtf8.v
Toml.v
Rollback.v
Fault.v
Util.v
UtilFacts.v
Seccomp.v
Net.v
TomlFacts.v
Caps.v
Config.v
ConfigFacts.v
Process.v
State.v
StateFacts.v
Fs.v
FsFacts.v
FsTree.v
Host.v
KernFs.v
Mount.v
MountFacts.v
NatRules.v
NatFacts.v
Ipam.v
IpamFacts.v
Store.v
StoreFacts.v
Cgroup.v
CgroupFacts.v
Network.v
NetworkFacts.v
Ipc.v
IpcFacts.v
Netlink.v
NetlinkFacts.v
Spawn.v
Security.v
SecurityFacts.v
Filesystem.v
FilesystemFacts.v
Loop.v
Init.v
Supervisor.v
InitFacts.v
Shim.v
Lifecycle.v
Steady.v
Evolve.v
LifecycleFacts.v
Waiting.v
ShimFacts.v
SupervisorFacts.v
Machine.v
Cli.v
CliFacts.v
Stats.v
StatsFacts.v
Main.v
TableFacts.v
MainFacts.v
BatchFacts.v
MainMachine.v
LogFacts.v
