(* ===== verification/Prelude.v ===== *)
(** * A verification library for [myrun], a Linux container runtime

    ** The program

    [myrun] starts, supervises and removes containers.  The command line
    ([src/cli.rs], [src/main.rs]) turns options and a configuration file into
    a [ContainerConfig] ([src/config.rs]), validated before anything is
    created.  The supervisor ([src/runtime/supervisor.rs]) records the
    container in the state store ([src/runtime/state.rs]), takes an address
    ([src/runtime/ipam.rs]), builds cgroup, network and mounts, each with an
    undo action on a rollback stack ([src/rollback.rs]), and clones the init
    process, with which it talks over a socketpair ([src/runtime/ipc.rs]).
    Init reads [config.json] back, sets the container up, drops capabilities
    ([src/sys/caps.rs]), installs a seccomp filter ([src/sys/seccomp.rs]) and
    runs the workload as PID 1.  Every state file is JSON ([src/util/json.rs])
    written atomically ([src/util/mod.rs]) under file locks ([src/sys/mod.rs]).

    ** Files and what they model

    - [Prelude] (this file): automation, machine integers.  [RustStr], [Num],
      [Utf8], [F64]: the parts of the Rust standard library the code uses:
      string slices, integer parsing and printing, UTF-8, IEEE 754 doubles
      with decimal reading and shortest printing.  A [String] is the
      [string] of its bytes.
    - [Error]: [src/error.rs]; the [result] monad.
    - [Json], [JsonFacts], [JsonUtf8]: [src/util/json.rs], value, printer and
      parser; round trip, totality, and that the output is UTF-8.
    - [Rollback]: [src/rollback.rs] over an arbitrary world.  [Fault]:
      [src/fault.rs].
    - [Util], [UtilFacts]: the pure helpers of [src/util/mod.rs], and
      [veth_names] of [src/runtime/mod.rs].
    - [Seccomp]: [src/sys/seccomp.rs], for x86-64 and aarch64; the classic-BPF
      machine of the kernel is the class [CbpfMachine], with an instance.
    - [Net]: the address parsers of [src/sys/netlink.rs] and [in_subnet].
    - [Caps]: [src/sys/caps.rs]; the kernel's capability calls are the class
      [CapKernel], with an instance.
    - [Config], [ConfigFacts]: [src/config.rs], one module per structure.
    - [Process]: exit statuses, signals, waiting and [/proc/<pid>/stat] of
      [src/sys/process.rs].
    - [State], [StateFacts]: the status machine, the container state and its
      JSON form, of [src/runtime/state.rs].
    - [Fs], [FsFacts], [FsTree]: a tree of directories and files with paths,
      the file helpers of [src/util/mod.rs] and [FileLock] of
      [src/sys/mod.rs].
    - [Ipam], [IpamFacts]: [src/runtime/ipam.rs].
    - [Store], [StoreFacts]: the [Store] of [src/runtime/state.rs] and
      [runtime_root] and [ensure_root] of [src/runtime/mod.rs].
    - [Ipc], [IpcFacts]: [src/runtime/ipc.rs].
    - [Toml], [TomlFacts]: [src/util/toml.rs], lexer and parser, its totality
      and what it does with printed documents.
    - [Host], [KernFs]: the host on which the privileged components work, as
      an abstract type with classes of operations (below).
    - [Mount], [MountFacts]: the mount table in [/proc/self/mountinfo] and the
      search for the cgroup hierarchy, of [src/sys/mount.rs].
    - [Cgroup], [CgroupFacts]: [src/runtime/cgroup.rs].
    - [NatRules], [NatFacts]: [src/runtime/nat.rs]; rules as argument vectors
      and the [iptables] binary as a class with an instance.
    - [Network], [NetworkFacts]: [src/runtime/network.rs].
    - [Netlink], [NetlinkFacts]: the messages of [src/sys/netlink.rs].
    - [Spawn], [Loop]: the process calls of [src/sys/process.rs] the launch
      uses; a monad for code that can panic or not come to an end.
    - [Security], [SecurityFacts]: [src/runtime/security.rs] with what it uses
      of [src/sys/caps.rs], [src/sys/seccomp.rs] and [src/sys/mod.rs]; the
      calling thread is the class [Thread_ops], what the manual pages say of
      its calls [ThreadLaws], with an instance.
    - [Filesystem], [FilesystemFacts]: [src/runtime/filesystem.rs] and the
      calls of [src/sys/mount.rs]; the kernel is the class [MountKernel], one
      instance records the calls and another has a mount table.
    - [Init], [InitFacts]: [src/runtime/init.rs] and [src/sys/signal.rs]: the
      set-up inside the namespaces, the workload and the loop of PID 1.
    - [Supervisor], [SupervisorFacts]: [src/runtime/supervisor.rs].
    - [Shim], [ShimFacts]: [src/runtime/shim.rs], for detached containers.
    - [Lifecycle]: every verb of [src/runtime/lifecycle.rs] ([follow_logs] is
      in [Main]).  [Steady], [Evolve], [LifecycleFacts], [Waiting]: a
      relational logic for host programs, what it means for the store to
      evolve along the status machine, that the verbs respect this while
      other processes act, and that waiting ends.
    - [Machine]: a concrete host that implements every class, the witnesses of
      the theorems about the launch and the verbs, and examples.
    - [Cli], [CliFacts]: [src/cli.rs].
    - [Stats], [StatsFacts]: [src/runtime/stats.rs] and [format_bytes] of
      [src/util/mod.rs].
    - [Main]: [src/main.rs], every command up to the exit code, on the classes
      above and [CliHost] (the terminal and what only the commands need).
      [TableFacts], [BatchFacts], [LogFacts]: tables, verbs on several
      containers, [logs -f].  [MainFacts], [MainMachine]: what commands do to
      the records, and command lines from end to end on [Machine].

    ** How state and failures are modelled

    A computation on files is a function of type [Fs.M A], from a [World] to a
    result and a world.  The world carries a plan of faults: each call takes
    its next element, and fails with that error (a write after some bytes, a
    removal after some files) or succeeds; a theorem about all worlds covers
    every combination of I/O errors.  It also carries the history of trees
    other processes could have looked at, so atomicity is a statement about
    every element of it.  Locks make the lease operations, and the
    read-modify-write of one container's state, indivisible: a run of the
    system is a sequence of whole calls ([IpamFacts.system],
    [StoreFacts.history]).  The channel is modelled with a script of what the
    kernel does with each read and write.  Time, process id, entropy,
    environment, [/proc] and the kernel's answers are arguments.

    The components above the store work on a host of an arbitrary type [H]:
    [HM A] is a function from a host to a result and a host.  What the program
    uses of the kernel is in classes ([HasWorld] for its files, [KernFs] for
    cgroup and proc files, [Iptables], [Links], [Processes], [Spawner],
    [Shims], [MountKernel], [Thread_ops], [InitHost], [CliHost]); what it
    relies on is in further classes, which name documented
    behaviour of the kernel ([Rely]: other processes move the store only
    along the status machine; [Clock]: sleeping advances the clock;
    [Mortal]: a killed process dies).  Code that loops until the host
    changes, or that can panic, returns an [outcome]: [Answer], [Panicked],
    or [Pending] when the fuel given has run out.  [Machine] shows that every
    class has an instance.

    ** What the theorems show

    - Leases: no two containers of a subnet hold the same address in any run;
      the file refines the abstract table; the lowest free address is given;
      exhaustion is reported only when it is real.
    - Store: a save is all or nothing for every observer; names stay unique;
      [resolve], [create] and [reconcile] do what they promise.
    - File helpers: an atomic write is atomic under every fault.
    - Channel: what is received is a prefix of what was sent, all of it
      without failures; errors and exit codes of init reach the runtime.
    - Rollback: dropping an uncommitted stack restores the world.
    - Launch and verbs: a failed launch takes back what it had set up; init
      is let go only after everything else is in place; every verb moves
      containers along the status machine, whatever other processes do; stop,
      wait and delete come to an end within the time given, stop leaves no
      process and wait reports the exit code; the shim's report arrives.
    - Host set-up: cgroup limits are in the files, and removal ends; the
      network set-up is undone when it fails; adding and deleting NAT rules
      are inverse; netlink messages are well formed and replies are matched.
    - Confinement: the filter gives the verdict of the deny list on every
      call; [apply] leaves exactly the keep set; the keep set is what the
      options say, and has no dangerous capability by default; after the
      hardening steps a workload is confined and can regain nothing through
      an exec, no step takes away what a later one needs, and init forks the
      workload only from a thread that is confined.
    - Root file system: everything before the pivot happens beneath the new
      root, the first call makes mounts private, and a set-up that succeeds
      did all its steps in order.
    - PID 1: exactly the signals that were read are forwarded, in order, and
      the answer is the status of the workload.
    - Commands: over any sequence of command lines a container that no
      [delete] names keeps its record, which follows the status machine; a
      verb on several containers is tried on each and every failure reported;
      tables line up and are printed without an index out of range;
      [logs -f] writes a beginning of the log, each byte once; sizes are
      shown to the last digit.
    - Configuration and state: what is written reads back; what is accepted
      is consistent; reachable states have consistent time stamps; options of
      the command line arrive in the configuration.
    - Parsers and helpers: JSON, TOML, sizes, signals, addresses, dates, ids
      and interface names.

    Examples whose names do not promise a theorem show where the code departs
    from its own description: [IpamFacts.second_subnet_forgets_leases],
    [StoreFacts.name_shadowed_by_prefix], [JsonFacts.float_changes_type],
    [Machine.fallback_escapes_limits], [Machine.failed_launch_claims_running],
    [Machine.huge_timeout_panics], [FilesystemFacts.volume_escapes_root],
    [LogFacts.last_words_lost], [MainMachine.start_attach_deletes] and the
    like.

    ** Bounds and fuel

    The JSON and TOML parsers recurse on fuel computed from the length of the
    input, and [parse_total] and [toml_parse_total] show it is never used up;
    so do the walk over the bytes of a netlink reply and over the arguments
    of the command line.  The address search looks at no more candidates than
    there are addresses to avoid, plus three, and [search_total] shows that
    this is enough.  The shortest decimal of a double is searched among at
    most twenty digits (seventeen always suffice); [reap_all] is bounded by
    the number of scripted answers; [recv_all] by the length of the stream.
    [path.ancestors] is bounded by the length of the path.  The removal of a
    cgroup tries fifty times, as the code does.  The polling loops of stop,
    wait and delete take fuel as an argument, and [Waiting] shows how much is
    enough: twenty rounds per second of the limit for stop, ten for wait, one
    hundred and one for delete.  The loops of init (polling, reaping,
    forwarding) and of attached commands (polling, [stats -f], [logs -f]) wait
    for the kernel and take fuel too: their theorems hold at every fuel, and
    [follow_of_stopped] shows how much [logs -f] of a stopped container needs.

    ** What is not modelled

    What the cloned child does between [clone3] and [execve], the sealing of
    the executable and the descriptors behind [Spawner] and [Shims]
    ([src/sys/process.rs]); the lines of the log; signal masks and handlers
    beyond the set init watches; foreign function declarations and wrappers
    of system calls that add nothing to them; the helpers of the unit tests.
    Printing is taken to succeed, but for the sink of [logs -f].  Symbolic
    links inside a root file system are not followed.  In the file model,
    paths have no NUL byte, no symbolic links and no trailing separator, names
    are UTF-8, and a crash of the machine is not modelled (a killed process
    is: its next calls all fail). *)
From stdpp Require Export prelude strings gmap list pretty.
From Stdlib Require Export ZArith Lia.
From Stdlib Require Ascii.
Export Stdlib.Strings.Ascii (ascii(..), ascii_dec, N_of_ascii, ascii_of_N, ascii_of_nat, nat_of_ascii).
Export (notations) Stdlib.Strings.Ascii.

Open Scope Z_scope.

#[global] Arguments String.append !_ _ : simpl nomatch.

(** ** Automation *)

Create HintDb myrun discriminated.
Create Rewrite HintDb myrun.

(** Destructs the scrutinee of some [match] or [if] of the goal. *)
Ltac break_goal :=
  match goal with
  | |- context [match ?x with _ => _ end] => destruct x eqn:?
  end.

(** The same in a hypothesis. *)
Ltac break_hyp :=
  match goal with
  | H : context [match ?x with _ => _ end] |- _ => destruct x eqn:?
  end.

(** Splits every [match] of hypotheses and goal, discarding impossible cases. *)
Ltac crush_match :=
  repeat (simplify_eq /=; first [break_hyp | break_goal]); simplify_eq /=.

(** Booleans of the code as propositions. *)
Ltac bool_prop :=
  repeat match goal with
  | H : _ && _ = true |- _ => apply andb_prop in H; destruct H
  | H : _ || _ = false |- _ => apply orb_false_iff in H; destruct H
  | H : negb _ = true |- _ => apply negb_true_iff in H
  | H : negb _ = false |- _ => apply negb_false_iff in H
  | H : (_ <=? _) = true |- _ => apply Z.leb_le in H
  | H : (_ <=? _) = false |- _ => apply Z.leb_gt in H
  | H : (_ <? _) = true |- _ => apply Z.ltb_lt in H
  | H : (_ <? _) = false |- _ => apply Z.ltb_ge in H
  | H : (_ =? _) = true |- _ => apply Z.eqb_eq in H
  | H : (_ =? _) = false |- _ => apply Z.eqb_neq in H
  | H : bool_decide _ = true |- _ => apply bool_decide_eq_true_1 in H
  | H : bool_decide _ = false |- _ => apply bool_decide_eq_false_1 in H
  end.

(** ** Machine integers

    A [w]-bit Rust integer is a [Z] in its range; a cast [as uN]/[as iN] is
    the wrap-around written out. *)

Definition in_u (w z : Z) : Prop := 0 <= z < 2 ^ w.
Definition in_s (w z : Z) : Prop := - 2 ^ (w - 1) <= z < 2 ^ (w - 1).

Definition wrap_u (w z : Z) : Z := z `mod` 2 ^ w.
Definition wrap_s (w z : Z) : Z :=
  let r := z `mod` 2 ^ w in
  if r <? 2 ^ (w - 1) then r else r - 2 ^ w.

Abbreviation as_u8 := (wrap_u 8).
Abbreviation as_u16 := (wrap_u 16).
Abbreviation as_u32 := (wrap_u 32).
Abbreviation as_u64 := (wrap_u 64).
Abbreviation as_i32 := (wrap_s 32).
Abbreviation as_i64 := (wrap_s 64).

(** [saturating_sub] of an unsigned type. *)
Definition saturating_sub (a b : Z) : Z := Z.max 0 (a - b).

Lemma wrap_u_range w z : 0 <= w -> in_u w (wrap_u w z).
Proof. intros Hw. apply Z.mod_pos_bound. lia. Qed.

Lemma wrap_u_id w z : in_u w z -> wrap_u w z = z.
Proof. intros H. by apply Z.mod_small. Qed.

Lemma pow_pred w : 0 < w -> 2 ^ w = 2 * 2 ^ (w - 1).
Proof. intros Hw. rewrite <- Z.pow_succ_r by lia. f_equal. lia. Qed.

Lemma wrap_s_id w z : 0 < w -> in_s w z -> wrap_s w z = z.
Proof.
  intros Hw [Hlo Hhi]. unfold wrap_s. pose proof (pow_pred w Hw) as Hp.
  destruct (Z_le_gt_dec 0 z) as [Hz|Hz].
  - rewrite (Z.mod_small z) by lia. case_match; bool_prop; lia.
  - assert (z `mod` 2 ^ w = z + 2 ^ w) as ->.
    { rewrite <- (Z.mod_small (z + 2 ^ w) (2 ^ w)) by lia.
      by rewrite <- (Z.mul_1_l (2 ^ w)) at 2; rewrite Z_mod_plus_full. }
    case_match; bool_prop; lia.
Qed.

Lemma wrap_s_range w z : 0 < w -> in_s w (wrap_s w z).
Proof.
  intros Hw. unfold wrap_s, in_s. pose proof (pow_pred w Hw).
  pose proof (Z.mod_pos_bound z (2 ^ w)).
  case_match; bool_prop; lia.
Qed.

#[export] Hint Resolve wrap_u_id wrap_s_id : myrun.
