(* ===== verification/RustStr.v ===== *)
(** * The part of Rust's [str] API the runtime uses

    A Rust [str] is the sequence of its UTF-8 bytes; here it is a [string],
    one [ascii] per byte.  Operations the source performs per [char] are
    written per byte where the two agree on valid UTF-8 (every test is against
    an ASCII character, and no byte of a multi-byte sequence is ASCII) and per
    UTF-8 sequence otherwise. *)
From S2P Require Import Prelude.

Definition bz (a : ascii) : Z := Z.of_N (N_of_ascii a).

Definition str_is_empty (s : string) : bool :=
  match s with EmptyString => true | _ => false end.

(** [str::len]: the number of bytes. *)
Definition str_len (s : string) : Z := Z.of_nat (String.length s).

(** ** Appending *)

Lemma app_nil_r (s : string) : s +:+ "" = s.
Proof. induction s as [|a s IH]; simpl; [done|by rewrite IH]. Qed.

Lemma app_assoc (s t u : string) : s +:+ t +:+ u = (s +:+ t) +:+ u.
Proof. induction s as [|a s IH]; simpl; [done|by rewrite IH]. Qed.

Lemma app_cons (a : ascii) (s t : string) : String a s +:+ t = String a (s +:+ t).
Proof. done. Qed.

Lemma str_length_app (s t : string) :
  String.length (s +:+ t) = (String.length s + String.length t)%nat.
Proof. induction s as [|a s IH]; simpl; [done|by rewrite IH]. Qed.

(** ** Prefixes and suffixes *)

Fixpoint strip_prefix (p s : string) : option string :=
  match p, s with
  | EmptyString, _ => Some s
  | String a p', String b s' => if ascii_dec a b then strip_prefix p' s' else None
  | String _ _, EmptyString => None
  end.

Definition starts_with (p s : string) : bool :=
  match strip_prefix p s with Some _ => true | None => false end.

Definition strip_suffix (p s : string) : option string :=
  match strip_prefix (String.rev p) (String.rev s) with
  | Some r => Some (String.rev r)
  | None => None
  end.

Definition ends_with (p s : string) : bool :=
  match strip_suffix p s with Some _ => true | None => false end.

(** [str::contains] with a string pattern. *)
Fixpoint contains_str (p s : string) : bool :=
  starts_with p s ||
  match s with EmptyString => false | String _ s' => contains_str p s' end.

(** [str::contains] with an ASCII character. *)
Fixpoint contains_char (c : ascii) (s : string) : bool :=
  match s with
  | EmptyString => false
  | String a s' => if ascii_dec a c then true else contains_char c s'
  end.

Lemma strip_prefix_app (p s : string) : strip_prefix p (p +:+ s) = Some s.
Proof.
  induction p as [|a p IH]; simpl; [by destruct s|].
  by destruct (ascii_dec a a).
Qed.

Lemma strip_prefix_Some (p s r : string) : strip_prefix p s = Some r -> s = p +:+ r.
Proof.
  revert s. induction p as [|a p IH]; intros s H; simpl in H; [by destruct s; simplify_eq|].
  destruct s as [|b s]; [done|]. destruct (ascii_dec a b) as [->|]; [|done].
  simpl. by rewrite (IH s H).
Qed.

Lemma starts_with_app (p s : string) : starts_with p (p +:+ s) = true.
Proof. unfold starts_with. by rewrite strip_prefix_app. Qed.

Lemma starts_with_spec (p s : string) : starts_with p s = true <-> exists r, s = p +:+ r.
Proof.
  split.
  - unfold starts_with. case_match eqn:H; [|done]. intros _. eauto using strip_prefix_Some.
  - intros [r ->]. apply starts_with_app.
Qed.

Lemma contains_str_app (p s t : string) :
  contains_str p (s +:+ p +:+ t) = true.
Proof.
  induction s as [|a s IH]; simpl.
  - destruct (p +:+ t) eqn:E; simpl; rewrite <- E; by rewrite starts_with_app.
  - rewrite IH. apply orb_true_r.
Qed.

(** ** Splitting *)

(** [str::split] at an ASCII character: never the empty list. *)
Fixpoint split_on (c : ascii) (s : string) : list string :=
  match s with
  | EmptyString => [""]
  | String a s' =>
      if ascii_dec a c then "" :: split_on c s'
      else match split_on c s' with
           | w :: ws => String a w :: ws
           | [] => [String a ""]
           end
  end.

Fixpoint split_once (c : ascii) (s : string) : option (string * string) :=
  match s with
  | EmptyString => None
  | String a s' =>
      if ascii_dec a c then Some ("", s')
      else match split_once c s' with
           | Some (l, r) => Some (String a l, r)
           | None => None
           end
  end.

Fixpoint join (sep : string) (l : list string) : string :=
  match l with
  | [] => ""
  | [x] => x
  | x :: l' => x +:+ sep +:+ join sep l'
  end.

Lemma split_once_app (c : ascii) (l r : string) :
  contains_char c l = false -> split_once c (l +:+ String c r) = Some (l, r).
Proof.
  induction l as [|a l IH]; simpl; [by destruct (ascii_dec c c)|].
  destruct (ascii_dec a c); [done|]. intros H. by rewrite IH.
Qed.

Lemma split_once_None (c : ascii) (s : string) :
  contains_char c s = false -> split_once c s = None.
Proof.
  induction s as [|a s IH]; simpl; [done|]. destruct (ascii_dec a c); [done|].
  intros H. by rewrite IH.
Qed.

Lemma split_on_no (c : ascii) (s : string) :
  contains_char c s = false -> split_on c s = [s].
Proof.
  induction s as [|a s IH]; simpl; [done|]. destruct (ascii_dec a c); [done|].
  intros H. by rewrite IH.
Qed.

Lemma split_on_app (c : ascii) (l r : string) :
  contains_char c l = false -> split_on c (l +:+ String c r) = l :: split_on c r.
Proof.
  induction l as [|a l IH]; simpl; [by destruct (ascii_dec c c)|].
  destruct (ascii_dec a c); [done|]. intros H. by rewrite IH.
Qed.

Lemma contains_char_app (c : ascii) (s t : string) :
  contains_char c (s +:+ t) = contains_char c s || contains_char c t.
Proof.
  induction s as [|a s IH]; simpl; [done|]. by destruct (ascii_dec a c).
Qed.

(** [str::lines]: the pieces between newlines; one carriage return before a
    newline is dropped, a final empty piece is not a line. *)
Definition strip_cr (s : string) : string :=
  match strip_suffix (String "013" "") s with Some r => r | None => s end.

Fixpoint lines_go (l : list string) : list string :=
  match l with
  | [] => []
  | [x] => if str_is_empty x then [] else [x]
  | x :: l' => strip_cr x :: lines_go l'
  end.

Definition lines (s : string) : list string := lines_go (split_on "010" s).

(** ** White space

    [str::trim] and [split_whitespace] use the Unicode [White_Space] property;
    these are the UTF-8 encodings of its members. *)
Definition b2 (a b : nat) : string := String (ascii_of_nat a) (String (ascii_of_nat b) "").
Definition b3 (a b c : nat) : string := String (ascii_of_nat a) (b2 b c).

Definition whitespace : list string :=
  [String "009" ""; String "010" ""; String "011" ""; String "012" ""; String "013" ""; " ";
   b2 0xC2 0x85; b2 0xC2 0xA0; b3 0xE1 0x9A 0x80;
   b3 0xE2 0x80 0x80; b3 0xE2 0x80 0x81; b3 0xE2 0x80 0x82; b3 0xE2 0x80 0x83;
   b3 0xE2 0x80 0x84; b3 0xE2 0x80 0x85; b3 0xE2 0x80 0x86; b3 0xE2 0x80 0x87;
   b3 0xE2 0x80 0x88; b3 0xE2 0x80 0x89; b3 0xE2 0x80 0x8A; b3 0xE2 0x80 0xA8;
   b3 0xE2 0x80 0xA9; b3 0xE2 0x80 0xAF; b3 0xE2 0x81 0x9F; b3 0xE3 0x80 0x80].

(** The rest of [s] after one leading element of [ws]. *)
Fixpoint strip_one_of (ws : list string) (s : string) : option string :=
  match ws with
  | [] => None
  | w :: ws' => match strip_prefix w s with Some r => Some r | None => strip_one_of ws' s end
  end.

Fixpoint strip_all_of (fuel : nat) (ws : list string) (s : string) : string :=
  match fuel with
  | O => s
  | S f => match strip_one_of ws s with Some r => strip_all_of f ws r | None => s end
  end.

Definition trim_start (s : string) : string :=
  strip_all_of (String.length s) whitespace s.

Definition trim_end (s : string) : string :=
  String.rev (strip_all_of (String.length s) (map String.rev whitespace) (String.rev s)).

Definition trim (s : string) : string := trim_end (trim_start s).

(** [str::split_whitespace]: the maximal runs without white space. *)
Fixpoint words_of (fuel : nat) (cur s : string) : list string :=
  let flush := if str_is_empty cur then [] else [String.rev cur] in
  match fuel with
  | O => flush
  | S f =>
      match s with
      | EmptyString => flush
      | String a s' =>
          match strip_one_of whitespace s with
          | Some r => flush ++ words_of f "" r
          | None => words_of f (String a cur) s'
          end
      end
  end.

Definition split_whitespace (s : string) : list string :=
  words_of (S (String.length s)) "" s.

(** ** ASCII case *)

Definition in_range (lo hi : Z) (c : ascii) : bool := (lo <=? bz c) && (bz c <=? hi).

Definition is_ascii_digit : ascii -> bool := in_range 48 57.
Definition is_ascii_upper : ascii -> bool := in_range 65 90.
Definition is_ascii_lower : ascii -> bool := in_range 97 122.
Definition is_ascii_alphanumeric (c : ascii) : bool :=
  is_ascii_digit c || is_ascii_upper c || is_ascii_lower c.

Fixpoint str_map (f : ascii -> ascii) (s : string) : string :=
  match s with EmptyString => "" | String a s' => String (f a) (str_map f s') end.

Fixpoint str_all (f : ascii -> bool) (s : string) : bool :=
  match s with EmptyString => true | String a s' => f a && str_all f s' end.

Definition lower_char (c : ascii) : ascii :=
  if is_ascii_upper c then ascii_of_N (N_of_ascii c + 32) else c.
Definition upper_char (c : ascii) : ascii :=
  if is_ascii_lower c then ascii_of_N (N_of_ascii c - 32) else c.

Definition to_ascii_lowercase : string -> string := str_map lower_char.
Definition to_ascii_uppercase : string -> string := str_map upper_char.

Definition eq_ignore_ascii_case (a b : string) : bool :=
  bool_decide (to_ascii_lowercase a = to_ascii_lowercase b).

Lemma str_all_app (f : ascii -> bool) (s t : string) :
  str_all f (s +:+ t) = str_all f s && str_all f t.
Proof. induction s as [|a s IH]; simpl; [done|]. rewrite IH. apply andb_assoc. Qed.

Lemma str_all_impl (f g : ascii -> bool) (s : string) :
  (forall c, f c = true -> g c = true) -> str_all f s = true -> str_all g s = true.
Proof.
  intros Hfg. induction s as [|a s IH]; simpl; [done|].
  intros [Ha Hs]%andb_prop. by rewrite (Hfg a Ha), IH.
Qed.

Lemma str_all_not_contains (f : ascii -> bool) (c : ascii) (s : string) :
  f c = false -> str_all f s = true -> contains_char c s = false.
Proof.
  intros Hc. induction s as [|a s IH]; simpl; [done|].
  intros [Ha Hs]%andb_prop. destruct (ascii_dec a c) as [->|]; [congruence|auto].
Qed.

(** ** Debug formatting

    [format!("{:?}", s)] of a [str].  Only diagnostics use it; bytes from 0x80
    up are written through, which is what Rust does for printable characters. *)
Definition hex_char (n : N) : ascii :=
  if (n <? 10)%N then ascii_of_N (48 + n) else ascii_of_N (87 + n).

Definition debug_char (c : ascii) : string :=
  match c with
  | "034"%char => "\" +:+ String "034" ""
  | "\"%char => "\\"
  | "010"%char => "\n"
  | "013"%char => "\r"
  | "009"%char => "\t"
  | "000"%char => "\0"
  | _ =>
      let n := N_of_ascii c in
      if (n <? 16)%N then "\u{" +:+ String (hex_char n) "}"
      else if ((n <? 32) || (n =? 127))%N
      then "\u{" +:+ String (hex_char (n / 16)) (String (hex_char (n mod 16)) "}")
      else String c ""
  end.

Fixpoint str_flat_map (f : ascii -> string) (s : string) : string :=
  match s with EmptyString => "" | String a s' => f a +:+ str_flat_map f s' end.

Definition quote : string := String "034" "".

Definition debug_str (s : string) : string := quote +:+ str_flat_map debug_char s +:+ quote.

(** ** Trimming leaves graphic text alone *)

Definition is_graph : ascii -> bool := in_range 33 126.

Lemma strip_one_graph c s : is_graph c = true -> strip_one_of whitespace (String c s) = None.
Proof.
  destruct c as [[] [] [] [] [] [] [] []]; intros H; first [by vm_compute in H | reflexivity].
Qed.

Lemma strip_one_rev_graph c s :
  is_graph c = true -> strip_one_of (map String.rev whitespace) (String c s) = None.
Proof.
  destruct c as [[] [] [] [] [] [] [] []]; intros H; first [by vm_compute in H | reflexivity].
Qed.

Lemma strip_all_none fuel w s : strip_one_of w s = None -> strip_all_of fuel w s = s.
Proof. intros H. destruct fuel; cbn; by rewrite ?H. Qed.

Lemma str_all_rev f s : str_all f (String.rev s) = str_all f s.
Proof.
  unfold String.rev.
  enough (forall t, str_all f (String.rev_app s t) = str_all f s && str_all f t) as E
    by (rewrite E; cbn; by rewrite andb_true_r).
  induction s as [|a s IH]; intros t; cbn; [done|]. rewrite IH. cbn.
  destruct (f a), (str_all f s), (str_all f t); done.
Qed.

Lemma rev_involutive s : String.rev (String.rev s) = s.
Proof.
  unfold String.rev.
  enough (forall t, String.rev_app (String.rev_app s t) "" = String.rev_app t s) as E by apply E.
  induction s as [|a s IH]; intros t; cbn; [done|]. by rewrite IH.
Qed.

Lemma trim_graph s : str_all is_graph s = true -> trim s = s.
Proof.
  intros H. unfold trim, trim_start, trim_end.
  rewrite (strip_all_none _ whitespace).
  2: { destruct s as [|c s]; [done|]. apply strip_one_graph. by cbn in H; bool_prop. }
  rewrite strip_all_none; [apply rev_involutive|].
  rewrite <- str_all_rev in H. destruct (String.rev s) as [|c t]; [done|].
  apply strip_one_rev_graph. by cbn in H; bool_prop.
Qed.

(** Text that starts with a graphic character does not trim to nothing. *)
Lemma strip_prefix_keeps_last c p t r :
  contains_char c p = false -> strip_prefix p (t +:+ String c "") = Some r ->
  exists t', r = t' +:+ String c "".
Proof.
  revert t. induction p as [|a p IH]; intros t Hc H; cbn in *; [simplify_eq; eauto|].
  destruct (ascii_dec a c); [done|]. destruct t as [|b t]; cbn in H.
  - by destruct (ascii_dec a c).
  - destruct (ascii_dec a b); [|done]. by apply (IH t).
Qed.

Lemma strip_one_keeps_last c w t r :
  Forall (fun p => contains_char c p = false) w ->
  strip_one_of w (t +:+ String c "") = Some r -> exists t', r = t' +:+ String c "".
Proof.
  induction 1 as [|p w Hp Hw IH]; cbn; [done|].
  destruct (strip_prefix p _) eqn:E; [|done]. intros [= ->]. by eapply strip_prefix_keeps_last.
Qed.

Lemma strip_all_keeps_last fuel c w t :
  Forall (fun p => contains_char c p = false) w ->
  exists t', strip_all_of fuel w (t +:+ String c "") = t' +:+ String c "".
Proof.
  intros Hw. revert t. induction fuel as [|f IH]; intros t; cbn; [eauto|].
  destruct (strip_one_of w _) eqn:E; [|eauto].
  apply strip_one_keeps_last in E as [t' ->]; [|done]. apply IH.
Qed.

Lemma rev_app_last s t : String.rev_app s t = String.rev s +:+ t.
Proof.
  unfold String.rev. revert t. induction s as [|a s IH]; intros t; cbn; [done|].
  rewrite IH, (IH (String a "")). by rewrite <- app_assoc.
Qed.

Lemma graph_not_ws c : is_graph c = true ->
  Forall (fun p => contains_char c p = false) (map String.rev whitespace).
Proof.
  destruct c as [[] [] [] [] [] [] [] []]; intros H;
    first [by vm_compute in H | apply (bool_decide_unpack _); vm_compute; exact I].
Qed.

Lemma trim_graph_nonempty c s : is_graph c = true -> str_is_empty (trim (String c s)) = false.
Proof.
  intros Hc. unfold trim, trim_start. rewrite (strip_all_none _ whitespace)
    by (by apply strip_one_graph). unfold trim_end.
  change (String.rev (String c s)) with (String.rev_app s (String c "")). rewrite rev_app_last.
  destruct (strip_all_keeps_last (String.length (String c s)) c (map String.rev whitespace)
    (String.rev s) (graph_not_ws c Hc)) as [t' ->].
  assert (String.length (String.rev (t' +:+ String c "")) <> 0%nat) as Hl.
  { unfold String.rev. enough (forall u v, String.length (String.rev_app u v)
      = (String.length u + String.length v)%nat) as E by (rewrite E, str_length_app; cbn; lia).
    intros u. induction u as [|a u IH]; intros v; cbn; [done|]. rewrite IH. cbn. lia. }
  by destruct (String.rev _).
Qed.

(** ** Words *)

(** A word: visible ASCII characters, at least one. *)
Definition word_ok (w : string) : Prop := w <> "" /\ str_all is_graph w = true.

Lemma words_of_word w : str_all is_graph w = true -> forall s cur fuel, (String.length w <= fuel)%nat ->
  words_of fuel cur (w +:+ s) = words_of (fuel - String.length w) (String.rev w +:+ cur) s.
Proof.
  induction w as [|c w IH]; intros Hw s cur fuel Hf.
  { cbn. by rewrite Nat.sub_0_r. }
  cbn [str_all] in Hw. apply andb_prop in Hw as [Hc Hw].
  destruct fuel as [|fuel]; [cbn in Hf; lia|]. rewrite app_cons. cbn [words_of].
  rewrite strip_one_graph by done. rewrite IH by (done || cbn in Hf; lia).
  cbn [String.length Nat.sub]. f_equal. change (String.rev (String c w)) with (String.rev_app w (String c "")).
  rewrite rev_app_last, <- app_assoc. done.
Qed.

Lemma rev_is_empty w : str_is_empty (String.rev w) = str_is_empty w.
Proof. 
  destruct w as [|c w]; [done|]. change (String.rev (String c w)) with (String.rev_app w (String c "")).
  rewrite rev_app_last. by destruct (String.rev w).
Qed.

Lemma split_whitespace_join ws : Forall word_ok ws -> split_whitespace (join " " ws) = ws.
Proof.
  intros H. unfold split_whitespace. 
  assert (forall fuel, (String.length (join " " ws) < fuel)%nat -> words_of fuel "" (join " " ws) = ws) as Hg; [|apply Hg; lia].
  induction H as [|w ws [Hn Hw] _ IH]; intros fuel Hf; [by destruct fuel|].
  assert (He : str_is_empty (String.rev w) = false) by (rewrite rev_is_empty; by destruct w).
  destruct ws as [|v ws].
  - cbn [join] in *. rewrite <- (app_nil_r w) at 1. rewrite words_of_word by (done || lia).
    rewrite app_nil_r. destruct (fuel - String.length w)%nat; cbn [words_of]; rewrite He, rev_involutive; done.
  - change (join " " (w :: v :: ws)) with (w +:+ " " +:+ join " " (v :: ws)) in *.
    rewrite !str_length_app in Hf. cbn [String.length Nat.add] in Hf.
    rewrite words_of_word by (done || lia). destruct (fuel - String.length w)%nat as [|n] eqn:E; [lia|].
    rewrite app_cons. cbn [words_of]. 
    change (strip_one_of whitespace (String " " ("" +:+ ?s))) with (Some s). rewrite app_nil_r, He, rev_involutive.
    cbn [app]. f_equal. apply IH. lia.
Qed.

(** ** Lines *)

(** A text of whole lines, and what a line may be made of. *)
Fixpoint unlines (ls : list string) : string :=
  match ls with [] => "" | l :: ls' => l +:+ String "010" (unlines ls') end.

Definition plain_line (s : string) : bool :=
  negb (contains_char "010" s) && negb (ends_with (String "013" "") s).

Lemma split_on_nonempty c s : split_on c s <> [].
Proof. induction s as [|a s IH]; cbn; [done|]. destruct (ascii_dec a c); [done|]. by destruct (split_on c s). Qed.

Lemma lines_unlines ls : Forall (fun l => plain_line l = true) ls -> lines (unlines ls) = ls.
Proof.
  induction 1 as [|l ls Hl _ IH]; [done|]. unfold plain_line in Hl. apply andb_prop in Hl as [Hn Hc].
  unfold lines in *. cbn [unlines]. rewrite split_on_app by (by apply negb_true_iff).
  apply negb_true_iff in Hc. unfold ends_with in Hc. rewrite <- IH at 2.
  pose proof (split_on_nonempty "010" (unlines ls)) as Hs. destruct (split_on "010" (unlines ls)) as [|x r]; [done|].
  cbn [lines_go]. f_equal. unfold strip_cr. by destruct (strip_suffix _ _).
Qed.
