(* ===== verification/Num.v ===== *)
(** * Integers in text, and bytes of integers

    [str::parse] / [from_str_radix] and [Display] of Rust's integer types, and
    the [to_le_bytes] / [to_be_bytes] family, with the round trips every
    serialiser of the runtime rests on. *)
From S2P Require Import Prelude RustStr.

(** ** Parsing *)

(** [std::num::IntErrorKind]. *)
Inductive int_error := IntEmpty | InvalidDigit | PosOverflow | NegOverflow.

(** [Display] of [ParseIntError]. *)
Definition int_error_str (e : int_error) : string :=
  match e with
  | IntEmpty => "cannot parse integer from empty string"
  | InvalidDigit => "invalid digit found in string"
  | PosOverflow => "number too large to fit in target type"
  | NegOverflow => "number too small to fit in target type"
  end.

(** [char::to_digit]. *)
Definition to_digit (base : Z) (c : ascii) : option Z :=
  let d := if is_ascii_digit c then bz c - 48
           else if is_ascii_lower c then bz c - 87
           else if is_ascii_upper c then bz c - 55
           else 36 in
  if d <? base then Some d else None.

(** The checked accumulation loop; [maxv] is the largest magnitude. *)
Fixpoint parse_digits (base maxv : Z) (over : int_error) (s : string) (acc : Z)
    : int_error + Z :=
  match s with
  | EmptyString => inr acc
  | String c s' =>
      match to_digit base c with
      | None => inl InvalidDigit
      | Some d =>
          if (maxv <? acc * base) || (maxv <? acc * base + d) then inl over
          else parse_digits base maxv over s' (acc * base + d)
      end
  end.

(** An unsigned type: a leading [+] is accepted, a [-] is an invalid digit. *)
Definition parse_unsigned (w base : Z) (s : string) : int_error + Z :=
  let maxv := 2 ^ w - 1 in
  match s with
  | EmptyString => inl IntEmpty
  | String "+" s' =>
      if str_is_empty s' then inl InvalidDigit else parse_digits base maxv PosOverflow s' 0
  | _ => parse_digits base maxv PosOverflow s 0
  end.

Definition parse_signed (w base : Z) (s : string) : int_error + Z :=
  let maxp := 2 ^ (w - 1) - 1 in
  match s with
  | EmptyString => inl IntEmpty
  | String "+" s' =>
      if str_is_empty s' then inl InvalidDigit else parse_digits base maxp PosOverflow s' 0
  | String "-" s' =>
      if str_is_empty s' then inl InvalidDigit
      else match parse_digits base (maxp + 1) NegOverflow s' 0 with
           | inl e => inl e
           | inr n => inr (- n)
           end
  | _ => parse_digits base maxp PosOverflow s 0
  end.

Definition ok_of {E A : Type} (r : E + A) : option A :=
  match r with inl _ => None | inr a => Some a end.

Definition parse_u (w : Z) (s : string) : option Z := ok_of (parse_unsigned w 10 s).
Definition parse_i (w : Z) (s : string) : option Z := ok_of (parse_signed w 10 s).

(** ** Printing *)

Definition digit_char (d : Z) : ascii :=
  if d <? 10 then ascii_of_N (Z.to_N (48 + d)) else ascii_of_N (Z.to_N (87 + d)).

(** The digits of [n], most significant first; [fuel] bounds their number. *)
Fixpoint digits_go (fuel : nat) (base n : Z) : string :=
  match fuel with
  | O => ""
  | S f =>
      (if n <? base then "" else digits_go f base (n `div` base))
      +:+ String (digit_char (n `mod` base)) ""
  end.

(** Enough fuel: a number has no more digits than bits. *)
Definition show_u (base n : Z) : string := digits_go (S (Z.to_nat (Z.log2 n))) base n.

Definition show_dec (n : Z) : string :=
  if n <? 0 then String "-" (show_u 10 (- n)) else show_u 10 n.

Fixpoint str_repeat (n : nat) (c : ascii) : string :=
  match n with O => "" | S n' => String c (str_repeat n' c) end.

(** Zero padding of [{:0w}]. *)
Definition pad0 (w : nat) (s : string) : string :=
  str_repeat (w - String.length s) "0" +:+ s.

(** ** Round trips *)

Lemma bz_ascii_of_N n : (n < 256)%N -> bz (ascii_of_N n) = Z.of_N n.
Proof. intros H. unfold bz. by rewrite Ascii.N_ascii_embedding. Qed.

Lemma to_digit_char base d :
  0 <= d < base -> base <= 36 -> to_digit base (digit_char d) = Some d.
Proof.
  intros Hd Hb. unfold to_digit, digit_char, is_ascii_digit, is_ascii_lower, in_range.
  destruct (d <? 10) eqn:E; bool_prop;
    rewrite bz_ascii_of_N by lia; rewrite !Z2N.id by lia.
  - replace (48 <=? 48 + d) with true by (symmetry; apply Z.leb_le; lia).
    replace (48 + d <=? 57) with true by (symmetry; apply Z.leb_le; lia). simpl.
    replace (48 + d - 48) with d by lia.
    by replace (d <? base) with true by (symmetry; apply Z.ltb_lt; lia).
  - replace (87 + d <=? 57) with false by (symmetry; apply Z.leb_gt; lia).
    rewrite andb_false_r.
    replace (97 <=? 87 + d) with true by (symmetry; apply Z.leb_le; lia).
    replace (87 + d <=? 122) with true by (symmetry; apply Z.leb_le; lia). simpl.
    replace (87 + d - 87) with d by lia.
    by replace (d <? base) with true by (symmetry; apply Z.ltb_lt; lia).
Qed.

Lemma parse_digits_app base maxv over s t acc :
  parse_digits base maxv over (s +:+ t) acc =
  match parse_digits base maxv over s acc with
  | inl e => inl e
  | inr a => parse_digits base maxv over t a
  end.
Proof.
  revert acc. induction s as [|c s IH]; intros acc; simpl; [done|].
  destruct (to_digit base c) as [d|]; [|done].
  destruct (_ || _); [done|]. apply IH.
Qed.

Lemma parse_digits_go base maxv over fuel n :
  2 <= base <= 36 -> 0 <= n <= maxv -> n < base ^ Z.of_nat fuel ->
  parse_digits base maxv over (digits_go fuel base n) 0 = inr n.
Proof.
  intros Hb. revert n. induction fuel as [|f IH]; intros n Hn Hf; simpl.
  { simpl in Hf. assert (n = 0) by lia. by subst. }
  rewrite parse_digits_app.
  pose proof (Z.mod_pos_bound n base ltac:(lia)) as Hm.
  pose proof (Z.div_mod n base ltac:(lia)) as Hdm.
  assert (forall q, q * base + n `mod` base = n ->
    0 <= q -> parse_digits base maxv over (String (digit_char (n `mod` base)) "") q = inr n)
    as Hlast.
  { intros q Hq Hq0. simpl. rewrite to_digit_char by lia.
    replace (maxv <? q * base) with false by (symmetry; apply Z.ltb_ge; nia).
    rewrite Hq. by replace (maxv <? n) with false by (symmetry; apply Z.ltb_ge; lia). }
  destruct (n <? base) eqn:E; bool_prop.
  - simpl parse_digits at 1. apply Hlast; [|lia]. rewrite Z.mod_small; lia.
  - rewrite IH.
    + apply Hlast; [lia|]. apply Z.div_pos; lia.
    + split; [apply Z.div_pos; lia|]. apply Z.div_le_upper_bound; nia.
    + apply Z.div_lt_upper_bound; [lia|].
      rewrite Nat2Z.inj_succ, Z.pow_succ_r in Hf by lia. lia.
Qed.

Lemma show_u_fuel base n :
  2 <= base -> 0 <= n -> n < base ^ Z.of_nat (S (Z.to_nat (Z.log2 n))).
Proof.
  intros Hb Hn.
  rewrite Nat2Z.inj_succ, Z2Nat.id by apply Z.log2_nonneg.
  apply Z.lt_le_trans with (2 ^ Z.succ (Z.log2 n)).
  - destruct (Z.eq_dec n 0) as [->|]; [done|]. apply Z.log2_spec; lia.
  - apply Z.pow_le_mono_l. lia.
Qed.

Lemma parse_digits_show base maxv over n :
  2 <= base <= 36 -> 0 <= n <= maxv ->
  parse_digits base maxv over (show_u base n) 0 = inr n.
Proof. intros. apply parse_digits_go; [done..|]. apply show_u_fuel; lia. Qed.

Definition is_dec_char (c : ascii) : bool := is_ascii_digit c.

Lemma digits_go_dec fuel n :
  0 <= n -> str_all is_ascii_digit (digits_go fuel 10 n) = true.
Proof.
  revert n. induction fuel as [|f IH]; intros n Hn; simpl; [done|].
  rewrite str_all_app. pose proof (Z.mod_pos_bound n 10 ltac:(lia)).
  assert (str_all is_ascii_digit (String (digit_char (n `mod` 10)) "") = true) as ->.
  { simpl. unfold digit_char, is_ascii_digit, in_range.
    replace (n `mod` 10 <? 10) with true by (symmetry; apply Z.ltb_lt; lia).
    rewrite bz_ascii_of_N by lia. rewrite Z2N.id by lia.
    rewrite !andb_true_iff, !Z.leb_le. lia. }
  rewrite andb_true_r. destruct (n <? 10); [done|]. apply IH. apply Z.div_pos; lia.
Qed.

Lemma show_u_dec n : 0 <= n -> str_all is_ascii_digit (show_u 10 n) = true.
Proof. apply digits_go_dec. Qed.

Lemma show_u_cons base n : exists c s, show_u base n = String c s.
Proof.
  unfold show_u. cbn [digits_go].
  destruct ((if n <? base then "" else _) +:+ _) eqn:E; [|eauto].
  apply (f_equal String.length) in E. rewrite str_length_app in E. simpl in E. lia.
Qed.

(** A decimal string starts with a digit, hence with no sign. *)
Lemma show_u_head n c s :
  0 <= n -> show_u 10 n = String c s -> is_ascii_digit c = true.
Proof.
  intros Hn E. pose proof (show_u_dec n Hn) as H. rewrite E in H. simpl in H. by bool_prop.
Qed.

Lemma digit_not_sign c : is_ascii_digit c = true -> c <> "+"%char /\ c <> "-"%char.
Proof. by split; intros ->. Qed.

Lemma parse_unsigned_cons w base c s :
  c <> "+"%char ->
  parse_unsigned w base (String c s) =
  parse_digits base (2 ^ w - 1) PosOverflow (String c s) 0.
Proof. intros H. destruct c as [[] [] [] [] [] [] [] []]; done. Qed.

Lemma parse_signed_cons w base c s :
  c <> "+"%char -> c <> "-"%char ->
  parse_signed w base (String c s) =
  parse_digits base (2 ^ (w - 1) - 1) PosOverflow (String c s) 0.
Proof. intros H H'. destruct c as [[] [] [] [] [] [] [] []]; done. Qed.

Lemma parse_u_show w n : in_u w n -> parse_u w (show_u 10 n) = Some n.
Proof.
  intros [H0 H1]. unfold parse_u. destruct (show_u_cons 10 n) as (c & s & E).
  pose proof (digit_not_sign c (show_u_head n c s H0 E)) as [Hp _].
  rewrite E, parse_unsigned_cons, <- E, parse_digits_show by (done || lia). done.
Qed.

Lemma show_dec_nonneg n : 0 <= n -> show_dec n = show_u 10 n.
Proof. intros H. unfold show_dec. by replace (n <? 0) with false by (symmetry; apply Z.ltb_ge; lia). Qed.

Lemma show_dec_neg n : n < 0 -> show_dec n = String "-" (show_u 10 (- n)).
Proof. intros H. unfold show_dec. by replace (n <? 0) with true by (symmetry; apply Z.ltb_lt; lia). Qed.

Lemma parse_i_show w n : 0 < w -> in_s w n -> parse_i w (show_dec n) = Some n.
Proof.
  intros Hw [H0 H1]. unfold parse_i. destruct (Z_lt_ge_dec n 0) as [Hn|Hn].
  - rewrite show_dec_neg by done. destruct (show_u_cons 10 (- n)) as (c & s & E).
    simpl. rewrite E. simpl str_is_empty. cbv iota. rewrite <- E.
    rewrite parse_digits_show by lia. simpl. f_equal. lia.
  - rewrite show_dec_nonneg by lia. destruct (show_u_cons 10 n) as (c & s & E).
    pose proof (digit_not_sign c (show_u_head n c s ltac:(lia) E)) as [Hp Hm].
    rewrite E, parse_signed_cons, <- E, parse_digits_show by (done || lia). done.
Qed.

(** A parsed number is within the bounds of its type. *)
Lemma parse_digits_range base maxv over s acc n :
  2 <= base -> 0 <= acc <= maxv -> parse_digits base maxv over s acc = inr n -> 0 <= n <= maxv.
Proof.
  intros Hb. revert acc. induction s as [|c s IH]; intros acc Ha H; cbn in H; [by simplify_eq|].
  destruct (to_digit base c) as [d|] eqn:Ed; [|done].
  assert (0 <= d).
  { unfold to_digit, is_ascii_digit, is_ascii_lower, is_ascii_upper, in_range in Ed.
    repeat case_match; simplify_eq; bool_prop; lia. }
  destruct (_ || _) eqn:Eo; [done|]. bool_prop. apply IH in H; [done|]. nia.
Qed.

Lemma parse_u_range w s n : 0 <= w -> parse_u w s = Some n -> in_u w n.
Proof.
  intros Hw. unfold parse_u, ok_of. destruct (parse_unsigned w 10 s) as [e|m] eqn:E; [done|].
  intros [= ->]. assert (0 < 2 ^ w) by (apply Z.pow_pos_nonneg; lia).
  enough (0 <= n <= 2 ^ w - 1) by (unfold in_u; lia).
  unfold parse_unsigned in E. destruct s as [|c s]; [done|].
  assert (forall t, parse_digits 10 (2 ^ w - 1) PosOverflow t 0 = inr n -> 0 <= n <= 2 ^ w - 1)
    as Hd by (intros t; apply parse_digits_range; lia).
  destruct c as [[] [] [] [] [] [] [] []]; try (by apply Hd in E).
  destruct (str_is_empty s); [done|]. by apply Hd in E.
Qed.

#[export] Hint Rewrite parse_u_show parse_i_show using (done || lia) : myrun.

(** ** Bytes of integers *)

Fixpoint to_le_bytes (n : nat) (z : Z) : list Z :=
  match n with
  | O => []
  | S n' => z `mod` 256 :: to_le_bytes n' (z `div` 256)
  end.

Fixpoint from_le_bytes (l : list Z) : Z :=
  match l with
  | [] => 0
  | b :: l' => b + 256 * from_le_bytes l'
  end.

Definition to_be_bytes (n : nat) (z : Z) : list Z := reverse (to_le_bytes n z).
Definition from_be_bytes (l : list Z) : Z := from_le_bytes (reverse l).

Lemma length_to_le_bytes n z : length (to_le_bytes n z) = n.
Proof. revert z. induction n as [|n IH]; intros z; simpl; by rewrite ?IH. Qed.

Lemma from_to_le_bytes n z : from_le_bytes (to_le_bytes n z) = z `mod` 256 ^ Z.of_nat n.
Proof.
  revert z. induction n as [|n IH]; intros z; cbn [to_le_bytes from_le_bytes].
  { simpl. by rewrite Z.mod_1_r. }
  rewrite IH, Nat2Z.inj_succ, Z.pow_succ_r by lia.
  rewrite (Z.rem_mul_r z 256) by lia. done.
Qed.

Lemma to_from_le_bytes l :
  Forall (fun b => 0 <= b < 256) l -> to_le_bytes (length l) (from_le_bytes l) = l.
Proof.
  induction 1 as [|b l Hb _ IH]; simpl; [done|].
  rewrite (Z.add_comm b), (Z.mul_comm 256).
  rewrite Z.add_comm, Z_mod_plus_full, Z.mod_small by lia.
  rewrite Z.div_add, Z.div_small by lia. by rewrite Z.add_0_l, IH.
Qed.

Lemma from_le_bytes_range l :
  Forall (fun b => 0 <= b < 256) l -> 0 <= from_le_bytes l < 256 ^ Z.of_nat (length l).
Proof.
  induction 1 as [|b l Hb _ IH]; [simpl; lia|].
  rewrite length_cons, Nat2Z.inj_succ, Z.pow_succ_r by lia. simpl. lia.
Qed.
