(* ===== verification/Utf8.v ===== *)
(** * UTF-8: validity and encoding

    [std::str::from_utf8] (the well-formed byte sequences of the Unicode
    standard, table 3-7), [char::from_u32] and pushing a [char] on a
    [String]. *)
From S2P Require Import Prelude RustStr Num.

Definition is_cont : ascii -> bool := in_range 0x80 0xBF.

(** The range the second byte of a sequence starting with [a] must lie in. *)
Definition second_range (a : ascii) : Z * Z :=
  let z := bz a in
  if z =? 0xE0 then (0xA0, 0xBF)
  else if z =? 0xED then (0x80, 0x9F)
  else if z =? 0xF0 then (0x90, 0xBF)
  else if z =? 0xF4 then (0x80, 0x8F)
  else (0x80, 0xBF).

Definition second_ok (a b : ascii) : bool :=
  in_range (fst (second_range a)) (snd (second_range a)) b.

(** [str::from_utf8(..).is_ok()]. *)
Fixpoint valid_utf8 (s : string) : bool :=
  match s with
  | EmptyString => true
  | String a s1 =>
      if bz a <? 0x80 then valid_utf8 s1
      else match s1 with
      | EmptyString => false
      | String b s2 =>
          if in_range 0xC2 0xDF a then second_ok a b && valid_utf8 s2
          else match s2 with
          | EmptyString => false
          | String c s3 =>
              if in_range 0xE0 0xEF a
              then second_ok a b && is_cont c && valid_utf8 s3
              else match s3 with
              | EmptyString => false
              | String d s4 =>
                  in_range 0xF0 0xF4 a && second_ok a b && is_cont c && is_cont d
                  && valid_utf8 s4
              end
          end
      end
  end.

(** [char::from_u32(cp).unwrap_or('\u{fffd}')]. *)
Definition char_or_replacement (cp : Z) : Z :=
  if ((0xD800 <=? cp) && (cp <=? 0xDFFF)) || (0x10FFFF <? cp) then 0xFFFD else cp.

Definition byte_of (z : Z) : ascii := ascii_of_N (Z.to_N z).

(** [String::push] of the scalar value [cp]. *)
Definition utf8_encode (cp : Z) : string :=
  if cp <? 0x80 then String (byte_of cp) ""
  else if cp <? 0x800 then
    String (byte_of (0xC0 + cp `div` 64)) (String (byte_of (0x80 + cp `mod` 64)) "")
  else if cp <? 0x10000 then
    String (byte_of (0xE0 + cp `div` 4096))
      (String (byte_of (0x80 + (cp `div` 64) `mod` 64))
        (String (byte_of (0x80 + cp `mod` 64)) ""))
  else
    String (byte_of (0xF0 + cp `div` 262144))
      (String (byte_of (0x80 + (cp `div` 4096) `mod` 64))
        (String (byte_of (0x80 + (cp `div` 64) `mod` 64))
          (String (byte_of (0x80 + cp `mod` 64)) ""))).

(** The length the lead byte announces; what the parsers of the runtime use. *)
Definition seq_len (a : ascii) : nat :=
  if 0xF0 <=? bz a then 4 else if 0xE0 <=? bz a then 3 else 2.

(** [&b[..n]] when it exists, and what follows. *)
Fixpoint take_bytes (n : nat) (s : string) : option (string * string) :=
  match n with
  | O => Some ("", s)
  | S n' => match s with
            | EmptyString => None
            | String a s' => match take_bytes n' s' with
                             | Some (l, r) => Some (String a l, r)
                             | None => None
                             end
            end
  end.

Lemma take_bytes_app s t : take_bytes (String.length s) (s +:+ t) = Some (s, t).
Proof. induction s as [|a s IH]; simpl; [done|]. by rewrite IH. Qed.

Lemma take_bytes_Some n s l r :
  take_bytes n s = Some (l, r) -> s = l +:+ r /\ String.length l = n.
Proof.
  revert s l r. induction n as [|n IH]; intros s l r H; simpl in H; [by simplify_eq|].
  destruct s as [|a s]; [done|]. destruct (take_bytes n s) as [[l' r']|] eqn:E; [|done].
  simplify_eq. destruct (IH _ _ _ E) as [-> <-]. done.
Qed.

Lemma seq_len_2 a : in_range 0xC2 0xDF a = true -> seq_len a = 2%nat.
Proof.
  unfold seq_len, in_range. intros H. bool_prop.
  rewrite (proj2 (Z.leb_gt _ _)), (proj2 (Z.leb_gt _ _)); lia.
Qed.

Lemma seq_len_3 a : in_range 0xE0 0xEF a = true -> seq_len a = 3%nat.
Proof.
  unfold seq_len, in_range. intros H. bool_prop.
  rewrite (proj2 (Z.leb_gt _ _)), (proj2 (Z.leb_le _ _)); lia.
Qed.

Lemma seq_len_4 a : in_range 0xF0 0xF4 a = true -> seq_len a = 4%nat.
Proof.
  unfold seq_len, in_range. intros H. bool_prop. rewrite (proj2 (Z.leb_le _ _)); lia.
Qed.

Definition is_high (c : ascii) : bool := 0x80 <=? bz c.

Lemma in_range_high lo hi c : 0x80 <= lo -> in_range lo hi c = true -> is_high c = true.
Proof. unfold in_range, is_high. intros Hlo H. bool_prop. apply Z.leb_le. lia. Qed.

Lemma second_ok_high a b : second_ok a b = true -> is_high b = true.
Proof. apply in_range_high. unfold second_range. repeat case_match; simpl; lia. Qed.

Lemma is_cont_high c : is_cont c = true -> is_high c = true.
Proof. apply in_range_high. lia. Qed.

(** A valid string that starts with a non-ASCII byte starts with a whole valid
    sequence of the announced length, all of it outside ASCII. *)
Lemma valid_utf8_seq a s :
  valid_utf8 (String a s) = true -> is_high a = true ->
  exists chunk rest,
    String a s = String a chunk +:+ rest /\ S (String.length chunk) = seq_len a /\
    str_all is_high chunk = true /\
    valid_utf8 (String a chunk) = true /\ valid_utf8 rest = true.
Proof.
  intros H Ha. simpl in H.
  assert ((bz a <? 0x80) = false) as E0 by (apply Z.ltb_ge, Z.leb_le, Ha). rewrite E0 in H.
  destruct s as [|b s2]; [done|].
  destruct (in_range 0xC2 0xDF a) eqn:E2.
  { apply andb_prop in H as [H Hr]. exists (String b ""), s2. rewrite (seq_len_2 a E2).
    split_and!; [done..| | |done]; simpl; by rewrite ?E0, ?E2, ?H, ?(second_ok_high a b H). }
  destruct s2 as [|c s3]; [done|].
  destruct (in_range 0xE0 0xEF a) eqn:E3.
  { apply andb_prop in H as [H Hr]. exists (String b (String c "")), s3.
    rewrite (seq_len_3 a E3). split_and!; [done..| | |done]; simpl.
    - apply andb_prop in H as [H1 H2]. by rewrite (second_ok_high a b H1), (is_cont_high c H2).
    - by rewrite E0, E2, E3, H. }
  destruct s3 as [|d s4]; [done|]. apply andb_prop in H as [H Hr].
  exists (String b (String c (String d ""))), s4. split_and!; [done| | | |done].
  - rewrite seq_len_4; [done|]. by bool_prop.
  - apply andb_prop in H as [H H3]. apply andb_prop in H as [H H2].
    apply andb_prop in H as [_ H1]. simpl.
    by rewrite (second_ok_high a b H1), (is_cont_high c H2), (is_cont_high d H3).
  - simpl. by rewrite E0, E2, E3, H.
Qed.

(** [str::chars] as the list of UTF-8 sequences. *)
Fixpoint chars_go (fuel : nat) (s : string) : list string :=
  match fuel, s with
  | S f, String a s' =>
      if bz a <? 0x80 then String a "" :: chars_go f s'
      else match take_bytes (seq_len a) s with
           | Some (c, r) => c :: chars_go f r
           | None => [s]
           end
  | _, _ => []
  end.

Definition chars (s : string) : list string := chars_go (String.length s) s.

Fixpoint str_concat (l : list string) : string :=
  match l with [] => "" | x :: l' => x +:+ str_concat l' end.
