(* ===== verification/F64.v ===== *)
(** * IEEE 754 double precision, as the source uses [f64]

    A value is a [spec_float] of the Standard Library at precision 53 and
    maximal exponent 1024: parsing rounds to nearest even, [Display] prints
    the shortest digits that read back to the same value, casts to integers
    saturate and truncate, as Rust specifies. *)
From Stdlib Require Import SpecFloat.
From S2P Require Import Prelude RustStr Num.

Definition f64 : Type := spec_float.

#[export] Instance f64_eq_dec : EqDecision f64.
Proof. solve_decision. Defined.

Definition f64_of_Z (z : Z) : f64 := binary_normalize 53 1024 z 0 false.
Definition f64_mul : f64 -> f64 -> f64 := SFmul 53 1024.
Definition f64_ltb : f64 -> f64 -> bool := SFltb.
Definition f64_leb : f64 -> f64 -> bool := SFleb.

Definition f64_is_finite (f : f64) : bool :=
  match f with S754_zero _ | S754_finite _ _ _ => true | _ => false end.

(** ** Decimal text to the nearest double *)

(** The double nearest to [(-1)^neg * m * 10^e]. *)
Definition f64_of_decimal (neg : bool) (m e : Z) : f64 :=
  match m with
  | Zpos p =>
      if 0 <=? e then binary_round 53 1024 neg (Z.to_pos (m * 10 ^ e)) 0
      else let '(q, e', l) := SFdiv_core_binary 53 1024 m 0 (10 ^ (- e)) 0 in
           binary_round_aux 53 1024 neg q e' l
  | _ => S754_zero neg
  end.

(** A maximal run of decimal digits: its value, its length, what follows. *)
Fixpoint scan_digits (s : string) (v : Z) (n : nat) : Z * nat * string :=
  match s with
  | String c s' =>
      if is_ascii_digit c then scan_digits s' (v * 10 + (bz c - 48)) (S n) else (v, n, s)
  | EmptyString => (v, n, s)
  end.

(** [e[+-]digits], the whole of what is left; [Some 0] when absent. *)
Definition scan_exponent (s : string) : option Z :=
  match s with
  | EmptyString => Some 0
  | String c s' =>
      if bool_decide (c = "e"%char) || bool_decide (c = "E"%char) then
        let '(neg, s'') := match s' with
                           | String "-" t => (true, t)
                           | String "+" t => (false, t)
                           | _ => (false, s')
                           end in
        let '(v, n, rest) := scan_digits s'' 0 0 in
        if Nat.eqb n 0 || negb (str_is_empty rest) then None
        else Some (if neg then - v else v)
      else None
  end.

(** [<f64 as FromStr>::from_str]; the error carries no information the
    runtime keeps. *)
Definition f64_parse (s : string) : option f64 :=
  let '(neg, body) := match s with
                      | String "-" t => (true, t)
                      | String "+" t => (false, t)
                      | _ => (false, s)
                      end in
  if eq_ignore_ascii_case body "inf" || eq_ignore_ascii_case body "infinity"
  then Some (S754_infinity neg)
  else if eq_ignore_ascii_case body "nan" then Some S754_nan
  else
    let '(ip, ni, rest) := scan_digits body 0 0 in
    let '(m, nf, rest') := match rest with
                           | String "." t => scan_digits t ip 0
                           | _ => (ip, O, rest)
                           end in
    if Nat.eqb (ni + nf) 0 then None
    else match scan_exponent rest' with
         | None => None
         | Some e => Some (f64_of_decimal neg m (e - Z.of_nat nf))
         end.

(** ** Shortest decimal text *)

(** [x = num/den] for the positive value [m * 2^e]. *)
Definition num_den (m : positive) (e : Z) : Z * Z :=
  if 0 <=? e then (Zpos m * 2 ^ e, 1) else (Zpos m, 2 ^ (- e)).

(** [k] with [10^(k-1) <= num/den < 10^k]. *)
Fixpoint lead_zeros (fuel : nat) (num den : Z) : Z :=
  match fuel with
  | O => 0
  | S f => if num * 10 <? den then 1 + lead_zeros f (num * 10) den else 0
  end.

Definition dec_point (num den : Z) : Z :=
  if den <=? num then Z.of_nat (String.length (show_u 10 (num `div` den)))
  else - lead_zeros 400 num den.

(** [d * 10^x] reads back as [f]. *)
Definition reads_back (f : f64) (d x : Z) : bool :=
  bool_decide (f64_of_decimal false d x = f).

(** [d * 10^x] with [d = 10^n] taken back to [n] digits. *)
Definition carry (n d x : Z) : Z * Z :=
  if d =? 10 ^ n then (10 ^ (n - 1), x + 1) else (d, x).

(** The digits and the position of the decimal point: the first number of
    digits, from [n] on, for which the value rounded down or up reads back;
    when both do, the nearer one, upwards on a tie. *)
Fixpoint shortest (fuel : nat) (n : Z) (f : f64) (num den k : Z) : Z * Z :=
  let x := n - k in
  let sn := if 0 <=? x then num * 10 ^ x else num in
  let sd := if 0 <=? x then den else den * 10 ^ (- x) in
  let d := sn `div` sd in
  let r := sn `mod` sd in
  match fuel with
  | O => (d, k - n)
  | S fuel' =>
      let '(d', x') := carry n (d + 1) (k - n) in
      let down := reads_back f d (k - n) in
      let up := negb (r =? 0) && reads_back f d' x' in
      if down && negb (up && (sd <=? 2 * r)) then (d, k - n)
      else if up then (d', x')
      else shortest fuel' (n + 1) f num den k
  end.

(** 17 digits always identify a double; the bound is the one under which the
    search has come to the whole decimal expansion, which is exact. *)
Definition digits_fuel : nat := 2100.

(** Positional notation of [d * 10^x]. *)
Definition place_point (d x : Z) : string :=
  let ds := show_u 10 d in
  let len := String.length ds in
  if 0 <=? x then ds +:+ str_repeat (Z.to_nat x) "0"
  else let frac := Z.to_nat (- x) in
       if (frac <? len)%nat
       then String.substring 0 (len - frac) ds +:+ "." +:+ String.substring (len - frac) frac ds
       else "0." +:+ str_repeat (frac - len) "0" +:+ ds.

(** [Display]: never an exponent, no fraction part for integral values. *)
Definition f64_display (f : f64) : string :=
  match f with
  | S754_nan => "NaN"
  | S754_infinity neg => if neg then "-inf" else "inf"
  | S754_zero neg => if neg then "-0" else "0"
  | S754_finite neg m e =>
      let '(num, den) := num_den m e in
      let '(d, x) := shortest digits_fuel 1 (S754_finite false m e) num den (dec_point num den) in
      (if neg then "-" else "") +:+ place_point d x
  end.

(** ** Casts *)

(** Truncation of a finite value towards zero. *)
Definition f64_trunc_abs (m : positive) (e : Z) : Z :=
  let '(num, den) := num_den m e in num `div` den.

(** [as] to an integer type with range [lo, hi]: saturating, [NaN] to zero. *)
Definition f64_cast (lo hi : Z) (f : f64) : Z :=
  match f with
  | S754_nan => 0
  | S754_zero _ => 0
  | S754_infinity neg => if neg then lo else hi
  | S754_finite neg m e =>
      let t := f64_trunc_abs m e in
      Z.max lo (Z.min hi (if neg then - t else t))
  end.

Definition f64_as_i64 : f64 -> Z := f64_cast (- 2 ^ 63) (2 ^ 63 - 1).
Definition f64_as_u64 : f64 -> Z := f64_cast 0 (2 ^ 64 - 1).

(** [f64::round]: to the nearest integer, halves away from zero. *)
Definition f64_round (f : f64) : f64 :=
  match f with
  | S754_finite neg m e =>
      if 0 <=? e then f
      else let r := (2 * Zpos m + 2 ^ (- e)) `div` (2 * 2 ^ (- e)) in
           match r with
           | Zpos p => binary_round 53 1024 neg p 0
           | _ => S754_zero neg
           end
  | _ => f
  end.

Lemma f64_cast_range lo hi f : lo <= 0 <= hi -> lo <= f64_cast lo hi f <= hi.
Proof. intros H. destruct f as [|[]| |]; simpl; lia. Qed.

Lemma f64_as_u64_range f : in_u 64 (f64_as_u64 f).
Proof. pose proof (f64_cast_range 0 (2 ^ 64 - 1) f). unfold in_u, f64_as_u64. lia. Qed.

Lemma f64_as_i64_range f : in_s 64 (f64_as_i64 f).
Proof. pose proof (f64_cast_range (- 2 ^ 63) (2 ^ 63 - 1) f). unfold in_s, f64_as_i64. simpl. lia. Qed.

(** Spot checks against the values Rust prints and reads. *)
Example f64_parse_1_5 : f64_parse "1.5" = Some (S754_finite false 6755399441055744 (-52)).
Proof. vm_compute. reflexivity. Qed.

Example f64_display_checks :
  (fun s => f64_display <$> f64_parse s) <$>
    ["1.5"; "1.0"; "0.1"; "-2.5"; "1e21"; "0.3"; "123456.789"; "1e-7"; "5e-324"; "0"; "1e23"]
  = Some <$> ["1.5"; "1"; "0.1"; "-2.5"; "1000000000000000000000"; "0.3"; "123456.789";
     "0.0000001"; "0." +:+ str_repeat 323 "0" +:+ "5"; "0"; "100000000000000000000000"].
Proof. vm_compute. reflexivity. Qed.

Example f64_parse_rejects :
  f64_parse <$> [""; "."; "e5"; "1e"; "1e+"; "--1"; "1.2.3"; "0x10"; "1_0"] = replicate 9 None.
Proof. vm_compute. reflexivity. Qed.
