(* ===== verification/F64Facts.v ===== *)
(** * Theorems about [f64]

    A number of at most 53 bits is a double exactly; a decimal whose value is
    a double reads as that double; the text [Display] prints of a finite
    double reads back as the same double. *)
From Stdlib Require Import SpecFloat Zpower.
From S2P Require Import Prelude RustStr Num F64.

(** ** Exact arithmetic on normal numbers *)

Lemma digits2_log p : Zpos (digits2_pos p) = Z.log2 (Zpos p) + 1.
Proof.
  induction p as [p IH|p IH|]; cbn [digits2_pos]; [| |done]; rewrite Pos2Z.inj_succ, IH.
  - rewrite (Pos2Z.inj_xI p), Z.log2_succ_double by done. lia.
  - rewrite (Pos2Z.inj_xO p), Z.log2_double by done. lia.
Qed.

Lemma Zdigits2_log m : 0 < m -> Zdigits2 m = Z.log2 m + 1.
Proof. destruct m as [|p|p]; try done. intros _. apply digits2_log. Qed.

Lemma log2_range m n : 0 <= n -> 2 ^ n <= m < 2 ^ (n + 1) -> Z.log2 m = n.
Proof. intros Hn Hm. apply Z.log2_unique; [done|]. by rewrite <- Z.add_1_r. Qed.

(** A mantissa of 53 bits needs no rounding. *)
Definition normal (m e : Z) : Prop := 2 ^ 52 <= m < 2 ^ 53 /\ -1074 <= e <= 971.

Lemma normal_digits m e : normal m e -> Zdigits2 m = 53.
Proof. intros [Hm _]. rewrite Zdigits2_log by lia. by rewrite (log2_range m 52) by (lia || done). Qed.

Lemma normal_shift m e : normal m e -> shr_fexp 53 1024 m e loc_Exact = ({| shr_m := m; shr_r := false; shr_s := false |}, e).
Proof.
  intros Hn. pose proof Hn as [_ He]. unfold shr_fexp. rewrite (normal_digits m e Hn).
  unfold fexp, SpecFloat.emin. replace (Z.max (53 + e - 53) (3 - 1024 - 53) - e) with 0 by lia. done.
Qed.

Lemma round_normal m e : normal m e -> binary_round_aux 53 1024 false m e loc_Exact = S754_finite false (Z.to_pos m) e.
Proof.
  intros Hn. unfold binary_round_aux. rewrite (normal_shift m e Hn). cbn [shr_m loc_of_shr_record round_nearest_even].
  rewrite (normal_shift m e Hn). cbn [shr_m]. pose proof Hn as [Hm He]. destruct m as [|p|p]; [lia| |lia].
  by rewrite (proj2 (Z.leb_le _ _)) by (cbn; lia).
Qed.

(** The double of a number with at most 53 bits. *)
Definition excess (b : Z) : Z := 52 - Z.log2 b.

Lemma excess_range b : 0 < b < 2 ^ 53 -> 0 <= excess b <= 52 /\ normal (b * 2 ^ excess b) (- excess b).
Proof.
  intros Hb. unfold excess. pose proof (Z.log2_nonneg b). assert (Z.log2 b < 53) by (apply Z.log2_lt_pow2; lia).
  pose proof (Z.log2_spec b ltac:(lia)) as [L1 L2]. split; [lia|]. split; [|lia].
  assert (0 < 2 ^ (52 - Z.log2 b)) by (apply Z.pow_pos_nonneg; lia).
  replace (2 ^ 52) with (2 ^ Z.log2 b * 2 ^ (52 - Z.log2 b)) by (rewrite <- Z.pow_add_r by lia; f_equal; lia).
  replace (2 ^ 53) with (2 ^ Z.succ (Z.log2 b) * 2 ^ (52 - Z.log2 b)) by (rewrite <- Z.pow_add_r by lia; f_equal; lia).
  nia.
Qed.

Lemma shift_pos_val n p : Zpos (Pos.iter xO p n) = Zpos p * 2 ^ Zpos n.
Proof.
  change (Pos.iter xO p n) with (shift_pos n p). rewrite Zpower.shift_pos_correct. change (Z.pow_pos 2 n) with (2 ^ Zpos n). lia.
Qed.

Lemma f64_of_small b : 0 < b < 2 ^ 53 -> f64_of_Z b = S754_finite false (Z.to_pos (b * 2 ^ excess b)) (- excess b).
Proof.
  intros Hb. destruct (excess_range b Hb) as [Hx Hn]. destruct b as [|p|p]; try lia.
  unfold f64_of_Z, binary_normalize, binary_round, shl_align, fexp, SpecFloat.emin.
  rewrite digits2_log. replace (Z.max (Z.log2 (Zpos p) + 1 + 0 - 53) (3 - 1024 - 53) - 0) with (- excess (Zpos p)) by (unfold excess in *; lia).
  destruct (excess (Zpos p)) as [|k|k] eqn:Ek; [|cbn [Z.opp]|lia].
  - rewrite Z.mul_1_r in *. cbn [Z.opp]. apply (round_normal (Zpos p) 0). done.
  - replace (Z.max (Z.log2 (Zpos p) + 1 + 0 - 53) (3 - 1024 - 53)) with (- Zpos k) by (unfold excess in *; lia).
    change (binary_round_aux 53 1024 false (Zpos (Pos.iter xO p k)) (- Zpos k) loc_Exact =
            S754_finite false (Z.to_pos (Zpos p * 2 ^ Zpos k)) (- Zpos k)).
    by rewrite shift_pos_val, round_normal.
Qed.

(** ** Values that need no rounding *)

(** The doubles: the mantissa and the exponent are the canonical ones. *)
Definition f64_valid (f : f64) : bool := valid_binary 53 1024 f.

Definition canonical (m e : Z) : Prop := 0 < m /\ fexp 53 1024 (Zdigits2 m + e) = e /\ e <= 971.

Lemma valid_canonical neg m e : f64_valid (S754_finite neg m e) = true -> canonical (Zpos m) e.
Proof.
  unfold f64_valid, valid_binary, bounded, canonical_mantissa, canonical. intros [H1 H2]%andb_prop.
  apply Z.eqb_eq in H1. apply Z.leb_le in H2. split; [lia|]. split; [exact H1|]. lia.
Qed.

Lemma canonical_range m e : canonical m e -> -1074 <= e <= 971 /\ m < 2 ^ 53.
Proof.
  intros (Hm & Hf & He). unfold fexp, SpecFloat.emin in Hf. rewrite Zdigits2_log in Hf by done.
  split; [lia|]. apply Z.log2_lt_pow2; lia.
Qed.

Lemma shr_exact p m : 0 <= m ->
  SpecFloat.iter_pos shr_1 p {| shr_m := m * 2 ^ Zpos p; shr_r := false; shr_s := false |} =
  {| shr_m := m; shr_r := false; shr_s := false |}.
Proof.
  assert (forall a, 0 <= a -> shr_1 {| shr_m := a * 2; shr_r := false; shr_s := false |} =
                    {| shr_m := a; shr_r := false; shr_s := false |}) as H1.
  { intros [|q|q] Ha; [done| |lia]. rewrite Z.mul_comm. done. }
  revert m. induction p as [p IH|p IH|]; intros m Hm; cbn [SpecFloat.iter_pos].
  - replace (m * 2 ^ Zpos p~1) with (m * 2 ^ Zpos p * 2 ^ Zpos p * 2).
    + rewrite H1, IH, IH; [done|lia..].
    + replace (Zpos p~1) with (Zpos p + Zpos p + 1) by lia. rewrite !Z.pow_add_r by lia. lia.
  - replace (m * 2 ^ Zpos p~0) with (m * 2 ^ Zpos p * 2 ^ Zpos p).
    + rewrite IH, IH; [done|lia..].
    + replace (Zpos p~0) with (Zpos p + Zpos p) by lia. rewrite !Z.pow_add_r by lia. lia.
  - apply (H1 m Hm).
Qed.

Lemma canonical_shift m e n : canonical m e -> 0 <= n ->
  shr_fexp 53 1024 (m * 2 ^ n) (e - n) loc_Exact = ({| shr_m := m; shr_r := false; shr_s := false |}, e).
Proof.
  intros (Hm & Hf & He) Hn. unfold shr_fexp. assert (0 < 2 ^ n) by (apply Z.pow_pos_nonneg; lia).
  rewrite Zdigits2_log in * by lia. rewrite Z.log2_mul_pow2 by lia.
  replace (n + Z.log2 m + 1 + (e - n)) with (Z.log2 m + 1 + e) by lia. rewrite Hf.
  replace (e - (e - n)) with n by lia. cbn [shr_record_of_loc]. destruct n as [|p|p]; [|cbn [shr]|lia].
  - cbn [shr]. by rewrite Z.mul_1_r, Z.sub_0_r.
  - rewrite shr_exact by lia. f_equal. lia.
Qed.

(** Rounding a double is the identity, however its mantissa is scaled. *)
Lemma round_exact neg m e n : canonical m e -> 0 <= n ->
  binary_round_aux 53 1024 neg (m * 2 ^ n) (e - n) loc_Exact = S754_finite neg (Z.to_pos m) e.
Proof.
  intros Hc Hn. unfold binary_round_aux. rewrite (canonical_shift m e n Hc Hn).
  cbn [shr_m loc_of_shr_record round_nearest_even].
  pose proof (canonical_shift m e 0 Hc ltac:(lia)) as H0. rewrite Z.mul_1_r, Z.sub_0_r in H0.
  rewrite H0. cbn [shr_m]. destruct Hc as (Hm & _ & He). destruct m as [|p|p]; [lia| |lia].
  by rewrite (proj2 (Z.leb_le _ _)) by (cbn; lia).
Qed.

Lemma div_eucl_pair a b : Z.div_eucl a b = (a `div` b, a `mod` b).
Proof. unfold Z.div, Z.modulo. by destruct (Z.div_eucl a b). Qed.

(** A decimal fraction with the value of a double reads as that double. *)
Lemma decimal_exact m e d x : canonical (Zpos m) e -> x < 0 -> 0 < d ->
  d * (num_den m e).2 = (num_den m e).1 * 10 ^ (- x) ->
  f64_of_decimal false d x = S754_finite false m e.
Proof.
  intros Hc Hx Hd Hv. unfold f64_of_decimal. destruct d as [|p|p]; try lia.
  replace (0 <=? x) with false by (symmetry; apply Z.leb_gt; lia).
  assert (0 < 10 ^ (- x)) as HX by (apply Z.pow_pos_nonneg; lia). set (X := 10 ^ (- x)) in *.
  unfold SFdiv_core_binary.
  set (e' := Z.min (fexp 53 1024 (Zdigits2 (Zpos p) + 0 - (Zdigits2 X + 0))) (0 - 0)).
  assert (e' <= e) as He'.
  { subst e'. unfold num_den in Hv. destruct (0 <=? e) eqn:E; bool_prop; [lia|]. cbn [fst snd] in Hv.
    pose proof Hc as (_ & Hf & _). rewrite <- Hf. rewrite !Zdigits2_log by lia.
    assert (Z.log2 (Zpos p * 2 ^ (- e)) <= Z.log2 (Zpos m) + Z.log2 X + 1) as Hl
      by (rewrite Hv; apply Z.log2_mul_above; lia).
    rewrite Z.log2_mul_pow2 in Hl by lia. unfold fexp. lia. }
  assert (e' <= 0) as H0 by (subst e'; lia). clearbody e'.
  assert (Zpos p * 2 ^ (- e') = X * (Zpos m * 2 ^ (e - e'))) as Hq.
  { unfold num_den in Hv. destruct (0 <=? e) eqn:E; bool_prop; cbn [fst snd] in Hv.
    - replace (e - e') with (e + - e') by lia. rewrite Z.pow_add_r by lia.
      rewrite Z.mul_1_r in Hv. rewrite Hv. ring.
    - replace (2 ^ (- e')) with (2 ^ (- e + (e - e'))) by (f_equal; lia). rewrite Z.pow_add_r by lia.
      rewrite Z.mul_assoc, Hv. ring. }
  replace (match 0 - 0 - e' with Zpos _ => Z.shiftl (Zpos p) (0 - 0 - e') | Z0 => Zpos p | Zneg _ => Z0 end)
    with (Zpos p * 2 ^ (- e')).
  2: { replace (0 - 0 - e') with (- e') by lia. destruct (- e') as [|q|q] eqn:E; [lia| |lia].
       by rewrite Z.shiftl_mul_pow2 by lia. }
  rewrite Hq.
  assert (Z.div_eucl (X * (Zpos m * 2 ^ (e - e'))) X = (Zpos m * 2 ^ (e - e'), 0)) as ->.
  { rewrite div_eucl_pair, (Z.mul_comm X). by rewrite Z.div_mul, Z.mod_mul by lia. }
  assert (new_location X 0 = loc_Exact) as -> by (unfold new_location, new_location_even, new_location_odd; by destruct (Z.even X)).
  replace e' with (e - (e - e')) at 2 by lia. by rewrite round_exact by (done || lia).
Qed.

(** ** The digits that are printed *)

Lemma den_divides m e x : -1074 <= e -> 1074 <= x -> ((num_den m e).2 | 10 ^ x).
Proof.
  intros He Hx. unfold num_den. destruct (0 <=? e) eqn:E; bool_prop; cbn [snd]; [apply Z.divide_1_l|].
  replace x with (- e + (x + e)) by lia. rewrite Z.pow_add_r by lia.
  apply Z.divide_mul_l. change 10 with (2 * 5). rewrite Z.pow_mul_l. apply Z.divide_factor_l.
Qed.

Lemma num_den_pos m e : 0 < (num_den m e).1 /\ 0 < (num_den m e).2.
Proof.
  unfold num_den. destruct (0 <=? e) eqn:E; bool_prop; cbn [fst snd]; lia.
Qed.

(** The search ends with digits that read back, at the latest with the exact
    expansion. *)
Lemma shortest_reads_back m e fuel n k : canonical (Zpos m) e -> 1074 + k <= n + Z.of_nat fuel ->
  let '(d, x) := shortest fuel n (S754_finite false m e) (num_den m e).1 (num_den m e).2 k in
  f64_of_decimal false d x = S754_finite false m e.
Proof.
  intros Hc. revert n. induction fuel as [|fuel IH]; intros n Hn.
  - cbn [shortest]. replace (0 <=? n - k) with true by (symmetry; apply Z.leb_le; lia).
    destruct (canonical_range _ _ Hc) as [[He _] _].
    destruct (den_divides m e (n - k) He ltac:(lia)) as [c Hd].
    destruct (num_den_pos m e) as [Hp Hq]. assert (0 < 10 ^ (n - k)) by (apply Z.pow_pos_nonneg; lia).
    assert (0 < c) by nia.
    assert ((num_den m e).1 * 10 ^ (n - k) = (num_den m e).1 * c * (num_den m e).2) as E by (rewrite Hd; ring).
    rewrite E, Z.div_mul by lia. apply decimal_exact; [done|lia|nia|].
    by rewrite <- E; replace (- (k - n)) with (n - k) by lia.
  - cbn [shortest]. destruct (carry _ _ _) as [d' x'].
    destruct (reads_back _ _ (k - n)) eqn:Hdown.
    + unfold reads_back in Hdown. apply bool_decide_eq_true in Hdown.
      destruct (negb _ && reads_back _ d' x') eqn:Hup; cbn [andb negb].
      * apply andb_prop in Hup as [_ Hup]. unfold reads_back in Hup. apply bool_decide_eq_true in Hup.
        by destruct (_ <=? 2 * _).
      * done.
    + cbn [andb]. destruct (negb _ && reads_back _ d' x') eqn:Hup.
      * apply andb_prop in Hup as [_ Hup]. unfold reads_back in Hup. by apply bool_decide_eq_true in Hup.
      * apply IH. lia.
Qed.

Lemma digits_go_short fuel base n : (String.length (digits_go fuel base n) <= fuel)%nat.
Proof.
  revert n. induction fuel as [|f IH]; intros n; [done|]. cbn [digits_go].
  rewrite str_length_app. cbn [String.length]. destruct (n <? base); cbn [String.length]; [lia|].
  specialize (IH (n `div` base)). lia.
Qed.

Lemma lead_zeros_nonneg fuel num den : 0 <= lead_zeros fuel num den.
Proof. revert num. induction fuel as [|f IH]; intros num; cbn; [lia|]. destruct (_ <? _); [|lia]. specialize (IH (num * 10)). lia. Qed.

Lemma dec_point_bound m e : canonical (Zpos m) e -> dec_point (num_den m e).1 (num_den m e).2 <= 1024.
Proof.
  intros Hc. destruct (canonical_range _ _ Hc) as [[H1 H2] H3]. unfold dec_point.
  destruct (_ <=? _) eqn:E; [|pose proof (lead_zeros_nonneg 400 (num_den m e).1 (num_den m e).2); lia].
  destruct (num_den_pos m e) as [Hp Hq]. bool_prop. unfold show_u.
  pose proof (digits_go_short (S (Z.to_nat (Z.log2 ((num_den m e).1 `div` (num_den m e).2)))) 10
    ((num_den m e).1 `div` (num_den m e).2)) as Hl.
  assert (Z.log2 ((num_den m e).1 `div` (num_den m e).2) < 1024); [|lia].
  apply Z.log2_lt_pow2; [apply Z.div_str_pos; lia|]. apply Z.div_lt_upper_bound; [done|].
  apply Z.lt_le_trans with (1 * 2 ^ 1024); [|apply Z.mul_le_mono_nonneg_r; [apply Z.pow_nonneg; lia|lia]].
  rewrite Z.mul_1_l.
  unfold num_den. destruct (0 <=? e) eqn:E'; bool_prop; cbn [fst].
  - replace 1024 with (53 + 971) by lia. rewrite Z.pow_add_r by lia.
    apply Z.lt_le_trans with (2 ^ 53 * 2 ^ e).
    + apply Z.mul_lt_mono_pos_r; [apply Z.pow_pos_nonneg; lia|done].
    + apply Z.mul_le_mono_nonneg_l; [lia|]. apply Z.pow_le_mono_r; lia.
  - apply Z.lt_trans with (2 ^ 53); [done|]. apply Z.pow_lt_mono_r; lia.
Qed.

(** The digits and the exponent [Display] prints. *)
Definition digits (m : positive) (e : Z) : Z * Z :=
  shortest digits_fuel 1 (S754_finite false m e) (num_den m e).1 (num_den m e).2
    (dec_point (num_den m e).1 (num_den m e).2).

Lemma digits_read_back m e : canonical (Zpos m) e ->
  0 < (digits m e).1 /\ f64_of_decimal false (digits m e).1 (digits m e).2 = S754_finite false m e.
Proof.
  intros Hc. pose proof (dec_point_bound m e Hc) as Hk.
  pose proof (shortest_reads_back m e digits_fuel 1 (dec_point (num_den m e).1 (num_den m e).2) Hc) as H.
  change (Z.of_nat digits_fuel) with 2100 in H. specialize (H ltac:(lia)). unfold digits.
  destruct (shortest digits_fuel _ _ _ _ _) as [d x]. cbn [fst snd]. split; [|done].
  destruct d as [|p|p]; [done|lia|done].
Qed.

(** ** Digits in text *)

(** The value of a run of digits, after [v]. *)
Fixpoint dval (v : Z) (s : string) : Z :=
  match s with
  | EmptyString => v
  | String c s' => dval (v * 10 + (bz c - 48)) s'
  end.

Lemma dval_app v s t : dval v (s +:+ t) = dval (dval v s) t.
Proof. revert v. induction s as [|c s IH]; intros v; [done|]. apply IH. Qed.

Lemma dval_zeros v n : dval v (str_repeat n "0") = v * 10 ^ Z.of_nat n.
Proof.
  revert v. induction n as [|n IH]; intros v; [cbn; lia|]. cbn [str_repeat dval].
  rewrite IH. change (bz "0") with 48. rewrite Nat2Z.inj_succ, Z.pow_succ_r by lia. ring.
Qed.

Lemma parse_digits_dval maxv over s v n :
  str_all is_ascii_digit s = true -> parse_digits 10 maxv over s v = inr n -> n = dval v s.
Proof.
  revert v. induction s as [|c s IH]; intros v Hs H; cbn in H |- *; [by simplify_eq|].
  apply andb_prop in Hs as [Hc Hs]. unfold to_digit in H. rewrite Hc in H.
  destruct (_ <? 10); [|done]. destruct (_ || _); [done|]. by apply IH.
Qed.

Lemma dval_show d : 0 <= d -> dval 0 (show_u 10 d) = d.
Proof.
  intros Hd. symmetry. apply (parse_digits_dval d PosOverflow); [by apply show_u_dec|].
  apply parse_digits_show; lia.
Qed.

Definition digit_free (s : string) : Prop :=
  match s with EmptyString => True | String c _ => is_ascii_digit c = false end.

Lemma scan_digits_run s t v n : str_all is_ascii_digit s = true -> digit_free t ->
  scan_digits (s +:+ t) v n = (dval v s, (n + String.length s)%nat, t).
Proof.
  revert v n. induction s as [|c s IH]; intros v n Hs Ht.
  - cbn. rewrite Nat.add_0_r. destruct t as [|c t]; [done|]. cbn in *. by rewrite Ht.
  - cbn in Hs. apply andb_prop in Hs as [Hc Hs]. cbn [String.append scan_digits]. rewrite Hc, IH by done.
    cbn [dval String.length]. by rewrite Nat.add_succ_r.
Qed.

Lemma digits_repeat n : str_all is_ascii_digit (str_repeat n "0") = true.
Proof. by induction n. Qed.

(** A text of digits, a point and digits. *)
Lemma f64_parse_text neg ip fp : str_all is_ascii_digit ip = true -> ip <> "" ->
  str_all is_ascii_digit fp = true ->
  f64_parse ((if neg : bool then "-" else "") +:+ ip +:+ "." +:+ fp) =
  Some (f64_of_decimal neg (dval 0 (ip +:+ fp)) (- Z.of_nat (String.length fp))).
Proof.
  intros Hi Hn Hf. destruct ip as [|c ip]; [done|]. cbn in Hi. apply andb_prop in Hi as [Hc Hi].
  assert (forall t, digit_free ("." +:+ t)) as Hdot by done.
  assert (let body := String c ip +:+ "." +:+ fp in
          scan_digits body 0 0 = (dval 0 (String c ip), String.length (String c ip), "." +:+ fp)) as Hs.
  { cbn zeta. rewrite scan_digits_run; [done| |done]. cbn. by rewrite Hc. }
  cbn zeta in Hs.
  assert (scan_digits fp (dval 0 (String c ip)) 0 = (dval 0 (String c ip +:+ fp), String.length fp, "")) as Hs2.
  { rewrite <- (app_nil_r fp) at 1. rewrite scan_digits_run by done. by rewrite dval_app. }
  assert (f64_parse (String c ip +:+ "." +:+ fp) =
    Some (f64_of_decimal false (dval 0 (String c ip +:+ fp)) (- Z.of_nat (String.length fp))) /\
    f64_parse ("-" +:+ String c ip +:+ "." +:+ fp) =
    Some (f64_of_decimal true (dval 0 (String c ip +:+ fp)) (- Z.of_nat (String.length fp)))) as [H1 H2].
  { unfold f64_parse. cbn [String.append] in *.
    destruct c as [[] [] [] [] [] [] [] []]; try discriminate Hc; cbn [String.append] in *; cbn zeta;
      change (eq_ignore_ascii_case (String _ _) "inf") with false;
      change (eq_ignore_ascii_case (String _ _) "infinity") with false;
      change (eq_ignore_ascii_case (String _ _) "nan") with false; cbn [orb];
      rewrite Hs, Hs2; cbn [String.length Nat.add Nat.eqb scan_exponent]; rewrite Z.sub_0_l; done. }
  by destruct neg.
Qed.

Lemma f64_parse_whole neg ip : str_all is_ascii_digit ip = true -> ip <> "" ->
  f64_parse ((if neg : bool then "-" else "") +:+ ip) = Some (f64_of_decimal neg (dval 0 ip) 0).
Proof.
  intros Hi Hn. destruct ip as [|c ip]; [done|].
  assert (scan_digits (String c ip) 0 0 = (dval 0 (String c ip), String.length (String c ip), "")) as Hs.
  { rewrite <- (app_nil_r (String c ip)) at 1. by rewrite scan_digits_run. }
  cbn in Hi. apply andb_prop in Hi as [Hc Hi].
  assert (f64_parse (String c ip) = Some (f64_of_decimal false (dval 0 (String c ip)) 0) /\
    f64_parse ("-" +:+ String c ip) = Some (f64_of_decimal true (dval 0 (String c ip)) 0)) as [H1 H2].
  { unfold f64_parse. cbn [String.append] in *.
    destruct c as [[] [] [] [] [] [] [] []]; try discriminate Hc; cbn zeta;
      change (eq_ignore_ascii_case (String _ _) "inf") with false;
      change (eq_ignore_ascii_case (String _ _) "infinity") with false;
      change (eq_ignore_ascii_case (String _ _) "nan") with false; cbn [orb];
      rewrite Hs; cbn [String.length Nat.add Nat.eqb scan_exponent]; done. }
  by destruct neg.
Qed.

Lemma substring_full s : String.substring 0 (String.length s) s = s.
Proof. induction s as [|c s IH]; [done|]. cbn. by rewrite IH. Qed.

Lemma substring_split n s : (n <= String.length s)%nat ->
  String.substring 0 n s +:+ String.substring n (String.length s - n) s = s.
Proof.
  revert n. induction s as [|c s IH]; intros [|n] Hn; [done|cbn in Hn; lia|by rewrite Nat.sub_0_r, substring_full|].
  cbn [String.length String.substring String.append Nat.sub]. f_equal. apply IH. cbn in Hn. lia.
Qed.

Lemma substring_length n k s : (n + k <= String.length s)%nat -> String.length (String.substring n k s) = k.
Proof.
  revert n k. induction s as [|c s IH]; intros [|n] [|k] Hn; cbn in *; try done; try lia.
  - f_equal. apply (IH 0%nat). lia.
  - apply (IH n 0%nat). lia.
  - apply (IH n (S k)). lia.
Qed.

(** The text of [d * 10^x]: digits, and a point with digits when [x < 0]. *)
Lemma place_point_shape d x : 0 < d -> exists ip fp,
  str_all is_ascii_digit ip = true /\ ip <> "" /\ str_all is_ascii_digit fp = true /\
  place_point d x = ip +:+ (if 0 <=? x then "" else "." +:+ fp) /\
  dval 0 (ip +:+ fp) = d * 10 ^ Z.max 0 x /\ Z.of_nat (String.length fp) = Z.max 0 (- x).
Proof.
  intros Hd. pose proof (show_u_dec d ltac:(lia)) as Hs. pose proof (dval_show d ltac:(lia)) as Hv.
  destruct (show_u_cons 10 d) as (c & s & Ec). unfold place_point. set (ds := show_u 10 d) in *.
  destruct (0 <=? x) eqn:E; bool_prop.
  - exists (ds +:+ str_repeat (Z.to_nat x) "0"), "".
    rewrite str_all_app, Hs, digits_repeat, !app_nil_r, dval_app, Hv, dval_zeros. rewrite Ec.
    split_and!; try done; [|cbn; lia]. do 2 f_equal. lia.
  - destruct (_ <? _)%nat eqn:El.
    + apply Nat.ltb_lt in El. set (n := (String.length ds - Z.to_nat (- x))%nat) in *.
      pose proof (substring_split n ds ltac:(lia)) as Hj.
      replace (String.length ds - n)%nat with (Z.to_nat (- x)) in Hj by lia.
      pose proof Hs as Hs'. rewrite <- Hj, str_all_app in Hs'. apply andb_prop in Hs' as [H1 H2].
      exists (String.substring 0 n ds), (String.substring n (Z.to_nat (- x)) ds).
      rewrite Hj, Hv, substring_length by lia. split_and!; try done.
      * intros H0. apply (f_equal String.length) in H0. rewrite substring_length in H0 by lia. change (String.length "") with 0%nat in H0. lia.
      * replace (Z.max 0 x) with 0 by lia. lia.
      * lia.
    + apply Nat.ltb_ge in El. exists "0", (str_repeat (Z.to_nat (- x) - String.length ds) "0" +:+ ds).
      rewrite str_all_app, digits_repeat, Hs. split_and!; try done.
      * rewrite !dval_app, dval_zeros. change (dval 0 "0") with 0. rewrite Z.mul_0_l, Hv.
        replace (Z.max 0 x) with 0 by lia. lia.
      * assert (forall k, String.length (str_repeat k "0") = k) as Hr by (intros k; induction k; cbn; congruence).
        rewrite str_length_app, Hr. lia.
Qed.

(** ** The sign *)

Lemma round_opp q e l : binary_round_aux 53 1024 true q e l = SFopp (binary_round_aux 53 1024 false q e l).
Proof.
  unfold binary_round_aux. destruct (shr_fexp _ _ _ _ l) as [r1 e1]. destruct (shr_fexp _ _ _ e1 _) as [r2 e2].
  destruct (shr_m r2); [done| |done]. by destruct (_ <=? _).
Qed.

Lemma decimal_opp d x : f64_of_decimal true d x = SFopp (f64_of_decimal false d x).
Proof.
  unfold f64_of_decimal, binary_round. destruct d as [|p|p]; [done| |done].
  destruct (0 <=? x).
  - destruct (shl_align _ _ _). apply round_opp.
  - destruct (SFdiv_core_binary _ _ _ _ _ _) as [[q e] l]. apply round_opp.
Qed.

Lemma f64_of_Z_decimal neg i : 0 < i -> f64_of_Z (if neg : bool then - i else i) = f64_of_decimal neg i 0.
Proof. intros Hi. destruct i as [|p|p]; [lia| |lia]. unfold f64_of_decimal. rewrite Z.mul_1_r. by destruct neg. Qed.

Lemma decimal_scale neg d x : 0 < d -> 0 <= x -> f64_of_decimal neg (d * 10 ^ x) 0 = f64_of_decimal neg d x.
Proof.
  intros Hd Hx. assert (0 < d * 10 ^ x) by (apply Z.mul_pos_pos; [done|]; apply Z.pow_pos_nonneg; lia).
  unfold f64_of_decimal. destruct (d * 10 ^ x) as [|q|q] eqn:E; try lia. destruct d as [|p|p]; try lia.
  rewrite (proj2 (Z.leb_le 0 x) Hx). by rewrite Z.mul_1_r.
Qed.

(** ** Display and from_str *)

Lemma display_digits neg m e :
  f64_display (S754_finite neg m e) =
  (if neg then "-" else "") +:+ place_point (digits m e).1 (digits m e).2.
Proof.
  unfold f64_display, digits. destruct (num_den m e) as [num den]. cbn [fst snd].
  by destruct (shortest digits_fuel _ _ _ _ _) as [d x].
Qed.

Lemma digits_value neg m e : f64_valid (S754_finite neg m e) = true ->
  0 < (digits m e).1 /\ f64_of_decimal neg (digits m e).1 (digits m e).2 = S754_finite neg m e.
Proof.
  intros Hf. destruct (digits_read_back m e (valid_canonical _ _ _ Hf)) as [Hp Hr].
  split; [done|]. destruct neg; [|done]. by rewrite decimal_opp, Hr.
Qed.

(** The text of a finite double reads back as that double. *)
Lemma f64_display_parse f : f64_valid f = true -> f64_is_finite f = true -> f64_parse (f64_display f) = Some f.
Proof.
  destruct f as [[]| | |neg m e]; intros Hf Hfin; try done.
  destruct (digits_value neg m e Hf) as [Hd Hv]. rewrite display_digits.
  destruct (digits m e) as [d x]. cbn [fst snd] in *.
  destruct (place_point_shape _ x Hd) as (ip & fp & Hi & Hn & Hfp & -> & Hval & Hlen).
  destruct (0 <=? x) eqn:Ex; bool_prop.
  - assert (fp = "") as -> by (destruct fp; [done|cbn in Hlen; lia]).
    rewrite !app_nil_r in *. rewrite f64_parse_whole, Hval by done.
    rewrite Z.max_r, decimal_scale by lia. by rewrite Hv.
  - rewrite f64_parse_text, Hval by done. rewrite Hlen, Z.max_l, Z.mul_1_r, Z.max_r, Z.opp_involutive by lia.
    by rewrite Hv.
Qed.

(** ** Integral values *)

Definition f64_integral (f : f64) : bool :=
  match f with
  | S754_zero _ => true
  | S754_finite _ m e => (0 <=? e) || (Zpos m `mod` 2 ^ (- e) =? 0)
  | _ => false
  end.

Lemma shr_fexp_exp m e l : e <= (shr_fexp 53 1024 m e l).2.
Proof. unfold shr_fexp, shr. destruct (_ - _); cbn [snd]; lia. Qed.

Lemma round_exp neg q e l m e' : binary_round_aux 53 1024 neg q e l = S754_finite neg m e' -> e <= e'.
Proof.
  unfold binary_round_aux. pose proof (shr_fexp_exp q e l) as H1. destruct (shr_fexp _ _ q e l) as [r1 e1].
  cbn [snd] in H1. set (q1 := round_nearest_even _ _).
  pose proof (shr_fexp_exp q1 e1 loc_Exact) as H2. destruct (shr_fexp _ _ q1 e1 _) as [r2 e2]. cbn [snd] in H2.
  destruct (shr_m r2); [done| |done]. destruct (_ <=? _); [|done]. intros [=]. lia.
Qed.

(** The double of a positive integer is integral. *)
Lemma f64_of_pos_integral i m e : 0 < i -> f64_of_Z i = S754_finite false m e -> f64_integral (S754_finite false m e) = true.
Proof.
  intros Hi H. destruct (decide (i < 2 ^ 53)) as [Hs|Hb].
  - rewrite f64_of_small in H by lia. destruct (excess_range i ltac:(lia)) as [Hx [Hn _]].
    injection H as <- <-. cbn [f64_integral]. rewrite Z.opp_involutive, Z2Pos.id by lia.
    rewrite Z.mod_mul, orb_true_r by lia. done.
  - destruct i as [|p|p]; [lia| |lia]. unfold f64_of_Z, binary_normalize, binary_round, shl_align in H.
    assert (0 <= fexp 53 1024 (Zpos (digits2_pos p) + 0)) as Hf.
    { rewrite digits2_log. assert (53 <= Z.log2 (Zpos p)) by (apply Z.log2_le_pow2; lia). unfold fexp. lia. }
    destruct (fexp _ _ _ - 0) eqn:E; [| |lia]; apply round_exp in H; cbn [f64_integral];
      by rewrite (proj2 (Z.leb_le _ _) H).
Qed.

Lemma f64_of_pos_sign i neg m e : 0 < i -> f64_of_Z i = S754_finite neg m e -> neg = false.
Proof.
  destruct i as [|p|p]; try lia. intros _ H. unfold f64_of_Z, binary_normalize, binary_round in H.
  destruct (shl_align _ _ _) as [z ez]. unfold binary_round_aux in H. repeat case_match; congruence.
Qed.

Lemma f64_of_Z_integral i neg m e : f64_of_Z i = S754_finite neg m e -> f64_integral (S754_finite neg m e) = true.
Proof.
  intros H. destruct (decide (i < 0)) as [Hi|Hi].
  - assert (f64_of_Z (- i) = S754_finite (negb neg) m e) as H'.
    { pose proof (f64_of_Z_decimal true (- i) ltac:(lia)) as E1. pose proof (f64_of_Z_decimal false (- i) ltac:(lia)) as E2.
      cbv iota in E1, E2. rewrite Z.opp_involutive, H, decimal_opp in E1. rewrite E2.
      destruct (f64_of_decimal false (- i) 0); try done. injection E1 as -> -> ->. by rewrite negb_involutive. }
    pose proof (f64_of_pos_sign (- i) _ _ _ ltac:(lia) H') as En. rewrite En in H'.
    by apply (f64_of_pos_integral (- i) m e) in H'; [|lia].
  - destruct (decide (i = 0)) as [->|]; [done|].
    pose proof (f64_of_pos_sign i _ _ _ ltac:(lia) H) as ->.
    apply (f64_of_pos_integral i m e); [lia|done].
Qed.

(** ** Text with a fraction *)

(** A finite double written with a point: an integral one with all its digits
    and [.0], any other as [Display] does. *)
Definition f64_text (f : f64) : string :=
  match f with
  | S754_zero neg => (if neg then "-" else "") +:+ "0" +:+ "." +:+ "0"
  | S754_finite neg m e =>
      if f64_integral f then (if neg then "-" else "") +:+ show_u 10 (f64_trunc_abs m e) +:+ "." +:+ "0"
      else f64_display f
  | _ => f64_display f
  end.

Lemma integral_value neg m e : f64_integral (S754_finite neg m e) = true ->
  0 < f64_trunc_abs m e /\ f64_trunc_abs m e * (num_den m e).2 = (num_den m e).1.
Proof.
  unfold f64_integral, f64_trunc_abs, num_den. destruct (0 <=? e) eqn:E; cbn [orb fst snd].
  - intros _. rewrite Z.div_1_r. bool_prop. lia.
  - intros H%Z.eqb_eq. bool_prop. pose proof (Z.div_mod (Zpos m) (2 ^ (- e)) ltac:(lia)). split; nia.
Qed.

Lemma f64_text_shape f : f64_valid f = true -> f64_is_finite f = true ->
  exists (neg : bool) ip fp, str_all is_ascii_digit ip = true /\ ip <> "" /\ str_all is_ascii_digit fp = true /\
    f64_text f = (if neg then "-" else "") +:+ ip +:+ "." +:+ fp /\ f64_parse (f64_text f) = Some f.
Proof.
  intros Hv Hfin. destruct f as [neg| | |neg m e]; try done.
  { exists neg, "0", "0". by destruct neg. }
  cbn [f64_text]. destruct (f64_integral _) eqn:Hi.
  - destruct (integral_value _ _ _ Hi) as [Hp Hd]. exists neg, (show_u 10 (f64_trunc_abs m e)), "0".
    pose proof (show_u_dec (f64_trunc_abs m e) ltac:(lia)) as Hs.
    assert (show_u 10 (f64_trunc_abs m e) <> "") as Hn
      by (destruct (show_u_cons 10 (f64_trunc_abs m e)) as (c & s & ->); done).
    split_and!; [done..|]. rewrite f64_parse_text by done. rewrite dval_app, dval_show by lia.
    cbn [dval String.length]. change (bz "0" - 48) with 0. change (- Z.of_nat 1) with (-1). rewrite Z.add_0_r. f_equal.
    assert (f64_of_decimal false (f64_trunc_abs m e * 10) (-1) = S754_finite false m e) as E.
    { apply decimal_exact; [by eapply valid_canonical|lia|lia|]. change (- -1) with 1. nia. }
    destruct neg; [by rewrite decimal_opp, E|exact E].
  - pose proof (f64_display_parse _ Hv Hfin) as Hp. rewrite display_digits in *.
    destruct (digits_value neg m e Hv) as [Hd Hdv]. destruct (digits m e) as [d x]. cbn [fst snd] in *.
    destruct (place_point_shape d x Hd) as (ip & fp & H1 & H2 & H3 & E & _). rewrite E in *.
    destruct (0 <=? x) eqn:Ex; [|by exists neg, ip, fp]. exfalso. bool_prop.
    assert (f64_of_Z (if neg then - (d * 10 ^ x) else d * 10 ^ x) = S754_finite neg m e) as Hz.
    { rewrite f64_of_Z_decimal, decimal_scale by lia. done. }
    apply f64_of_Z_integral in Hz. congruence.
Qed.
