(* ===== verification/Error.v ===== *)
(** * [src/error.rs]: the error type, exit codes and the [Result] monad *)
From S2P Require Import Prelude RustStr Num.

(** ** Exit codes, [mod exit] *)
Module exit.
Definition USAGE : Z := 64.
Definition CONFIG : Z := 65.
Definition NOT_FOUND : Z := 66.
Definition STATE : Z := 67.
Definition SYSCALL : Z := 70.
Definition UNSUPPORTED : Z := 71.
Definition FAULT : Z := 72.
Definition GENERIC : Z := 1.
End exit.

(** [enum Error]. *)
Inductive Error :=
| Usage (m : string)
| Config (m : string)
| NotFound (m : string)
| AlreadyExists (m : string)
| InvalidState (m : string)
| Syscall (call : string) (errno : Z) (ctx : string)
| Io (m : string)
| Parse (m : string)
| Container (m : string)
| Fault (m : string)
| Unsupported (m : string).

#[export] Instance Error_eq_dec : EqDecision Error.
Proof. solve_decision. Defined.

(** [Error::exit_code]. *)
Definition exit_code (e : Error) : Z :=
  match e with
  | Usage _ => exit.USAGE
  | Config _ | Parse _ => exit.CONFIG
  | NotFound _ => exit.NOT_FOUND
  | AlreadyExists _ | InvalidState _ => exit.STATE
  | Syscall _ _ _ => exit.SYSCALL
  | Unsupported _ => exit.UNSUPPORTED
  | Fault _ => exit.FAULT
  | Io _ | Container _ => exit.GENERIC
  end.

(** [Error::errno]. *)
Definition errno (e : Error) : option Z :=
  match e with Syscall _ n _ => Some n | _ => None end.

(** [Error::is_errno]. *)
Definition is_errno (e : Error) (n : Z) : bool := bool_decide (errno e = Some n).

(** [errno_name]. *)
Definition errno_name (e : Z) : string :=
  match e with
  | 1 => "EPERM" | 2 => "ENOENT" | 3 => "ESRCH" | 4 => "EINTR" | 5 => "EIO"
  | 9 => "EBADF" | 11 => "EAGAIN" | 12 => "ENOMEM" | 13 => "EACCES" | 14 => "EFAULT"
  | 16 => "EBUSY" | 17 => "EEXIST" | 18 => "EXDEV" | 19 => "ENODEV" | 20 => "ENOTDIR"
  | 21 => "EISDIR" | 22 => "EINVAL" | 23 => "ENFILE" | 24 => "EMFILE" | 25 => "ENOTTY"
  | 28 => "ENOSPC" | 32 => "EPIPE" | 36 => "ENAMETOOLONG" | 38 => "ENOSYS"
  | 39 => "ENOTEMPTY" | 61 => "ENODATA" | 62 => "ETIME" | 95 => "EOPNOTSUPP"
  | 98 => "EADDRINUSE" | 110 => "ETIMEDOUT" | 111 => "ECONNREFUSED"
  | _ => "E?"
  end.

(** [impl Display for Error]. *)
Definition error_str (e : Error) : string :=
  match e with
  | Usage m => m
  | Config m => "invalid configuration: " +:+ m
  | NotFound m => "not found: " +:+ m
  | AlreadyExists m => "already exists: " +:+ m
  | InvalidState m => "invalid state: " +:+ m
  | Syscall call n ctx =>
      call +:+ "(2) failed: " +:+ errno_name n +:+ " (" +:+ show_dec n +:+ ")"
      +:+ (if str_is_empty ctx then "" else ": " +:+ ctx)
  | Io m => "io error: " +:+ m
  | Parse m => "parse error: " +:+ m
  | Container m => "container error: " +:+ m
  | Fault m => "injected fault: " +:+ m
  | Unsupported m => "unsupported: " +:+ m
  end.

(** ** [Result] *)

Inductive result (A : Type) : Type :=
| Ok (a : A)
| Err (e : Error).
Arguments Ok {A} a.
Arguments Err {A} e.

#[export] Instance result_ret : MRet result := fun A a => Ok a.
#[export] Instance result_bind : MBind result := fun A B f r =>
  match r with Ok a => f a | Err e => Err e end.

Definition map_err {A : Type} (f : Error -> Error) (r : result A) : result A :=
  match r with Ok a => Ok a | Err e => Err (f e) end.

Definition ok {A : Type} (r : result A) : option A :=
  match r with Ok a => Some a | Err _ => None end.

Definition ok_or {A : Type} (e : Error) (o : option A) : result A :=
  match o with Some a => Ok a | None => Err e end.

Definition is_ok {A : Type} (r : result A) : bool :=
  match r with Ok _ => true | Err _ => false end.

Definition unwrap_or {A : Type} (d : A) (o : option A) : A := default d o.

(** [iter().map(f).collect::<Result<Vec<_>>>()]. *)
Fixpoint try_map {A B : Type} (f : A -> result B) (l : list A) : result (list B) :=
  match l with
  | [] => Ok []
  | x :: l' => y ← f x; ys ← try_map f l'; Ok (y :: ys)
  end.

Lemma bind_ok {A B : Type} (r : result A) (f : A -> result B) b :
  (r ≫= f) = Ok b <-> exists a, r = Ok a /\ f a = Ok b.
Proof.
  destruct r as [a|e]; cbn; split.
  - eauto.
  - by intros (a' & [= <-] & H).
  - done.
  - by intros (a' & [=] & _).
Qed.
