(* ===== verification/Json.v ===== *)
(** * [src/util/json.rs]: the JSON value, its printer and its parser *)
From S2P Require Import Prelude RustStr Num Utf8 F64 Error.

Module json.

(** ** Values *)

(** [enum Json]; objects keep insertion order. *)
Inductive Json :=
| JNull
| JBool (b : bool)
| JInt (i : Z)
| JFloat (f : f64)
| JStr (s : string)
| JArr (a : list Json)
| JObj (m : list (string * Json)).

(** Induction with hypotheses for the elements of arrays and objects. *)
Section Json_ind.
Context (P : Json -> Prop).
Context (HNull : P JNull) (HBool : forall b, P (JBool b)) (HInt : forall i, P (JInt i))
  (HFloat : forall f, P (JFloat f)) (HStr : forall s, P (JStr s))
  (HArr : forall a, Forall P a -> P (JArr a))
  (HObj : forall m, Forall (fun kv => P (snd kv)) m -> P (JObj m)).

Fixpoint Json_nested_ind (v : Json) : P v :=
  match v with
  | JNull => HNull
  | JBool b => HBool b
  | JInt i => HInt i
  | JFloat f => HFloat f
  | JStr s => HStr s
  | JArr a =>
      HArr a ((fix go (l : list Json) : Forall P l :=
        match l with
        | [] => List.Forall_nil _
        | x :: l' => List.Forall_cons _ _ _ (Json_nested_ind x) (go l')
        end) a)
  | JObj m =>
      HObj m ((fix go (l : list (string * Json)) : Forall (fun kv => P (snd kv)) l :=
        match l with
        | [] => List.Forall_nil _
        | (k, x) :: l' => List.Forall_cons (fun kv => P (snd kv)) (k, x) l'
                            (Json_nested_ind x) (go l')
        end) m)
  end.
End Json_ind.

(** [Json::obj]. *)
Definition obj : Json := JObj [].

(** The slot update of [Json::set]: the first entry with the key is
    overwritten, otherwise the pair is pushed. *)
Fixpoint set_slot (k : string) (v : Json) (m : list (string * Json)) : list (string * Json) :=
  match m with
  | [] => [(k, v)]
  | (ek, ev) :: m' => if decide (ek = k) then (ek, v) :: m' else (ek, ev) :: set_slot k v m'
  end.

(** [Json::set]; a no-op on a value that is not an object. *)
Definition set (o : Json) (k : string) (v : Json) : Json :=
  match o with JObj m => JObj (set_slot k v m) | _ => o end.

Fixpoint find_key (k : string) (m : list (string * Json)) : option Json :=
  match m with
  | [] => None
  | (ek, v) :: m' => if decide (ek = k) then Some v else find_key k m'
  end.

(** [Json::get]. *)
Definition get (o : Json) (k : string) : option Json :=
  match o with JObj m => find_key k m | _ => None end.

Definition as_str (j : Json) : option string :=
  match j with JStr s => Some s | _ => None end.

Definition as_i64 (j : Json) : option Z :=
  match j with JInt i => Some i | JFloat f => Some (f64_as_i64 f) | _ => None end.

Definition as_u64 (j : Json) : option Z :=
  match j with
  | JInt i => if 0 <=? i then Some i else None
  | JFloat f => if f64_leb (f64_of_Z 0) f then Some (f64_as_u64 f) else None
  | _ => None
  end.

Definition as_f64 (j : Json) : option f64 :=
  match j with JInt i => Some (f64_of_Z i) | JFloat f => Some f | _ => None end.

Definition as_bool (j : Json) : option bool :=
  match j with JBool b => Some b | _ => None end.

Definition as_array (j : Json) : option (list Json) :=
  match j with JArr a => Some a | _ => None end.

Definition as_object (j : Json) : option (list (string * Json)) :=
  match j with JObj m => Some m | _ => None end.

(** [Json::strings]. *)
Definition strings (l : list string) : Json := JArr (JStr <$> l).

(** ** The printer *)

(** One character of [escape_into].  The source walks over [char]s; a
    non-ASCII [char] is pushed unchanged, so its bytes are. *)
Definition escape_char (c : ascii) : string :=
  match c with
  | "034"%char => "\" +:+ quote
  | "\"%char => "\\"
  | "010"%char => "\n"
  | "013"%char => "\r"
  | "009"%char => "\t"
  | "008"%char => "\b"
  | "012"%char => "\f"
  | _ => if bz c <? 0x20 then "\u" +:+ pad0 4 (show_u 16 (bz c)) else String c ""
  end.

(** [escape_into]. *)
Definition escape (s : string) : string := quote +:+ str_flat_map escape_char s +:+ quote.

(** The closure [nl] of [Json::write]. *)
Definition nl (indent : option nat) (depth : nat) : string :=
  match indent with
  | Some step => String "010" (str_repeat (step * depth) " ")
  | None => ""
  end.

(** [Json::write]: the text appended to [out]. *)
Fixpoint write (indent : option nat) (depth : nat) (v : Json) : string :=
  match v with
  | JNull => "null"
  | JBool true => "true"
  | JBool false => "false"
  | JInt i => show_dec i
  | JFloat f => if f64_is_finite f then f64_display f else "null"
  | JStr s => escape s
  | JArr a =>
      match a with
      | [] => "[]"
      | _ :: _ =>
          "[" +:+
          (fix go (first : bool) (l : list Json) : string :=
            match l with
            | [] => ""
            | x :: l' => (if first then "" else ",") +:+ nl indent (S depth)
                         +:+ write indent (S depth) x +:+ go false l'
            end) true a
          +:+ nl indent depth +:+ "]"
      end
  | JObj m =>
      match m with
      | [] => "{}"
      | _ :: _ =>
          "{" +:+
          (fix go (first : bool) (l : list (string * Json)) : string :=
            match l with
            | [] => ""
            | (k, x) :: l' => (if first then "" else ",") +:+ nl indent (S depth)
                              +:+ escape k +:+ ":"
                              +:+ (match indent with Some _ => " " | None => "" end)
                              +:+ write indent (S depth) x +:+ go false l'
            end) true m
          +:+ nl indent depth +:+ "}"
      end
  end.

Definition to_string (v : Json) : string := write None 0 v.
Definition to_string_pretty (v : Json) : string := write (Some 2%nat) 0 v.

(** ** The parser

    [Parser { b, i }] is kept as the unread bytes [b[i..]]; with the length of
    the whole input, the index the messages print is recovered by [offset].
    The loops and the recursion are bounded by fuel; [PFuel] is proved
    unreachable from [parse]. *)

Inductive presult (A : Type) : Type :=
| POk (a : A) (rest : string)
| PErr (e : Error)
| PFuel.
Arguments POk {A} a rest.
Arguments PErr {A} e.
Arguments PFuel {A}.

Definition pbind {A B : Type} (p : presult A) (k : A -> string -> presult B) : presult B :=
  match p with POk a r => k a r | PErr e => PErr e | PFuel => PFuel end.

Section Parser.
Context (len : nat).

Definition offset (r : string) : Z := Z.of_nat (len - String.length r).

Definition perr {A : Type} (msg r : string) : presult A :=
  PErr (Parse (msg +:+ " at byte offset " +:+ show_dec (offset r))).

Definition is_ws (c : ascii) : bool :=
  match c with " "%char | "009"%char | "010"%char | "013"%char => true | _ => false end.

(** [Parser::ws]. *)
Fixpoint ws (r : string) : string :=
  match r with
  | String c r' => if is_ws c then ws r' else r
  | EmptyString => r
  end.

(** The loop of [Parser::string], after the opening quote. *)
Fixpoint string_go (fuel : nat) (s r : string) : presult string :=
  match fuel with
  | O => PFuel
  | S f =>
      match r with
      | EmptyString => perr "unterminated string" r
      | String c r1 =>
          if ascii_dec c "034" then POk s r1
          else if ascii_dec c "\" then
            match r1 with
            | EmptyString => perr "unterminated escape" r1
            | String e r2 =>
                match e with
                | "034"%char => string_go f (s +:+ quote) r2
                | "\"%char => string_go f (s +:+ "\") r2
                | "/"%char => string_go f (s +:+ "/") r2
                | "n"%char => string_go f (s +:+ String "010" "") r2
                | "r"%char => string_go f (s +:+ String "013" "") r2
                | "t"%char => string_go f (s +:+ String "009" "") r2
                | "b"%char => string_go f (s +:+ String "008" "") r2
                | "f"%char => string_go f (s +:+ String "012" "") r2
                | "u"%char =>
                    match take_bytes 4 r2 with
                    | None => perr "truncated \u escape" r2
                    | Some (hex, r3) =>
                        if valid_utf8 hex then
                          match parse_unsigned 32 16 hex with
                          | inl _ => PErr (Parse "bad \u escape")
                          | inr cp => string_go f (s +:+ utf8_encode (char_or_replacement cp)) r3
                          end
                        else PErr (Parse "bad \u escape")
                    end
                | _ => perr "unknown escape" r2
                end
            end
          else if bz c <? 0x20 then perr "control character in string" r1
          else if bz c <? 0x80 then string_go f (s +:+ String c "") r1
          else
            match take_bytes (seq_len c) r with
            | None => perr "truncated utf-8 sequence" r1
            | Some (chunk, r2) =>
                if valid_utf8 chunk then string_go f (s +:+ chunk) r2
                else PErr (Parse "invalid utf-8 in string")
            end
      end
  end.

(** [Parser::string], called with the opening quote as the next byte. *)
Definition pstring (r : string) : presult string :=
  match r with
  | String _ r' => string_go (S (String.length r')) "" r'
  | EmptyString => PFuel
  end.

Definition is_num_char (c : ascii) : bool :=
  match c with
  | "."%char | "e"%char | "E"%char | "-"%char | "+"%char => true
  | _ => false
  end.

(** The scanning loop of [Parser::number]: the text, whether it is a float. *)
Fixpoint scan_num (r : string) : string * bool * string :=
  match r with
  | EmptyString => ("", false, r)
  | String c r' =>
      if is_ascii_digit c then let '(t, f, rest) := scan_num r' in (String c t, f, rest)
      else if is_num_char c then let '(t, _, rest) := scan_num r' in (String c t, true, rest)
      else ("", false, r)
  end.

Definition bad_number (text : string) : presult Json :=
  PErr (Parse ("bad number " +:+ debug_str text +:+ ": invalid float literal")).

(** The optional sign [Parser::number] starts with. *)
Definition split_sign (r : string) : string * string :=
  match r with
  | String "-" r' => ("-", r')
  | String "+" r' => ("+", r')
  | _ => ("", r)
  end.

(** [Parser::number]. *)
Definition number (r : string) : presult Json :=
  let '(sign, r1) := split_sign r in
  let '(t, float, rest) := scan_num r1 in
  let text := sign +:+ t in
  if str_is_empty text then perr "expected a value" rest
  else if float then
    match f64_parse text with Some f => POk (JFloat f) rest | None => bad_number text end
  else match parse_i 64 text with
       | Some i => POk (JInt i) rest
       | None => match f64_parse text with
                 | Some f => POk (JFloat f) rest
                 | None => bad_number text
                 end
       end.

(** [self.lit(..)] in [Parser::value]. *)
Definition literal (word : string) (v : Json) (r : string) : presult Json :=
  match strip_prefix word r with Some r' => POk v r' | None => perr "invalid token" r end.

Definition peek_is (c : ascii) (r : string) : bool :=
  match r with String d _ => bool_decide (d = c) | EmptyString => false end.

(** [self.i += 1]. *)
Definition advance (r : string) : string :=
  match r with String _ r' => r' | EmptyString => "" end.

(** [Parser::value], the loops of [Parser::object] and of [Parser::array]. *)
Fixpoint value (fuel : nat) (r : string) : presult Json :=
  match fuel with
  | O => PFuel
  | S f =>
      match r with
      | EmptyString => perr "unexpected end of input" r
      | String c r1 =>
          match c with
          | "{"%char =>
              let r2 := ws r1 in
              if peek_is "}" r2 then POk (JObj []) (advance r2) else object_loop f [] r2
          | "["%char =>
              let r2 := ws r1 in
              if peek_is "]" r2 then POk (JArr []) (advance r2) else array_loop f [] r2
          | "034"%char => pbind (pstring r) (fun s r' => POk (JStr s) r')
          | "t"%char => literal "true" (JBool true) r
          | "f"%char => literal "false" (JBool false) r
          | "n"%char => literal "null" JNull r
          | _ => number r
          end
      end
  end
with object_loop (fuel : nat) (m : list (string * Json)) (r : string) : presult Json :=
  match fuel with
  | O => PFuel
  | S f =>
      let r1 := ws r in
      if negb (peek_is "034" r1) then perr "expected object key" r1
      else pbind (pstring r1) (fun k r2 =>
        let r3 := ws r2 in
        if negb (peek_is ":" r3) then perr "expected ':'" r3
        else pbind (value f (ws (advance r3))) (fun v r4 =>
          let m' := m ++ [(k, v)] in
          let r5 := ws r4 in
          if peek_is "," r5 then object_loop f m' (advance r5)
          else if peek_is "}" r5 then POk (JObj m') (advance r5)
          else perr "expected ',' or '}'" r5))
  end
with array_loop (fuel : nat) (a : list Json) (r : string) : presult Json :=
  match fuel with
  | O => PFuel
  | S f =>
      pbind (value f (ws r)) (fun v r1 =>
        let a' := a ++ [v] in
        let r2 := ws r1 in
        if peek_is "," r2 then array_loop f a' (advance r2)
        else if peek_is "]" r2 then POk (JArr a') (advance r2)
        else perr "expected ',' or ']'" r2)
  end.

End Parser.

(** [json::parse]; [None] stands for exhausted fuel. *)
Definition parse_fuel (input : string) : nat := 2 * String.length input + 2.

Definition parse_opt (input : string) : option (result Json) :=
  let len := String.length input in
  match value len (parse_fuel input) (ws input) with
  | PFuel => None
  | PErr e => Some (Err e)
  | POk v r =>
      let r' := ws r in
      if str_is_empty r' then Some (Ok v)
      else Some (Err (Parse ("trailing data at byte offset " +:+ show_dec (offset len r'))))
  end.

(** The value the exhausted case takes is irrelevant: it never arises. *)
Definition parse (input : string) : result Json :=
  default (Err (Parse "")) (parse_opt input).

(** The samples of the module's unit tests. *)
Definition q (s : string) : string := quote +:+ s +:+ quote.

Example parse_sample :
  parse ("{" +:+ q "a" +:+ ":1," +:+ q "b" +:+ ":[true,null," +:+ q "x" +:+ "],"
         +:+ q "c" +:+ ":{" +:+ q "d" +:+ ":-2.5}}")
  = Ok (JObj [("a", JInt 1); ("b", JArr [JBool true; JNull; JStr "x"]);
              ("c", JObj [("d", JFloat (SpecFloat.S754_finite true 5629499534213120 (-51)))])]).
Proof. vm_compute. reflexivity. Qed.

Example parse_rejects :
  is_ok ∘ parse <$> ["{} junk"; ""; "{" +:+ q "a" +:+ ":}"; "{"; "}"; "["; "[1,";
     quote +:+ "unterminated"; q "\u00"; q "\q"; "nul"; "-"; "1e"]
  = replicate 13 false.
Proof. vm_compute. reflexivity. Qed.

End json.
