(* ===== verification/JsonFacts.v ===== *)
(** * Theorems about the JSON printer and parser

    The parser always answers (its fuel is never exhausted), and it inverts
    both printers on every document whose strings are UTF-8, whose integers
    are 64-bit and whose floats are doubles; objects keep their keys and order,
    finite floats their value. *)
From S2P Require Import Prelude RustStr Num Utf8 F64 F64Facts Error Json.
Import json.

Local Abbreviation slen := String.length.

(** ** Progress: what is left gets shorter *)

Lemma ws_length r : (slen (ws r) <= slen r)%nat.
Proof. induction r as [|c r IH]; simpl; [lia|]. destruct (is_ws c); simpl; lia. Qed.

Lemma advance_length r : (slen (advance r) <= slen r)%nat.
Proof. destruct r; simpl; lia. Qed.

Lemma peek_advance c r : peek_is c r = true -> S (slen (advance r)) = slen r.
Proof. by destruct r. Qed.

Lemma strip_prefix_length p s r : strip_prefix p s = Some r -> slen s = (slen p + slen r)%nat.
Proof. intros ->%strip_prefix_Some. apply str_length_app. Qed.

Lemma take_bytes_length n s l r : take_bytes n s = Some (l, r) -> slen s = (n + slen r)%nat.
Proof. intros [-> <-]%take_bytes_Some. apply str_length_app. Qed.

(** The parser answered on [r], and a value took at least one byte of it. *)
Definition advances {A : Type} (r : string) (p : presult A) : Prop :=
  match p with POk _ r' => (slen r' < slen r)%nat | PErr _ => True | PFuel => False end.

Lemma advances_le {A : Type} r r' (p : presult A) :
  (slen r' <= slen r)%nat -> advances r' p -> advances r p.
Proof. destruct p; simpl; [lia|done..]. Qed.

Lemma advances_bind {A B : Type} r (p : presult A) (k : A -> string -> presult B) :
  advances r p -> (forall a r', (slen r' < slen r)%nat -> advances r (k a r')) ->
  advances r (pbind p k).
Proof. destruct p; simpl; auto. Qed.

Lemma advances_err {A : Type} len msg r r' : advances (A := A) r (perr len msg r').
Proof. done. Qed.

Section Progress.
Context (len : nat).

Lemma seq_len_pos c : (0 < seq_len c)%nat.
Proof. unfold seq_len. repeat case_match; lia. Qed.

(** With fuel for every byte the string loop answers, and consumes a byte. *)
Lemma string_go_progress fuel s r :
  (slen r < fuel)%nat -> advances r (string_go len fuel s r).
Proof.
  revert s r. induction fuel as [|f IH]; intros s r Hf; [lia|].
  assert (forall s' r', (slen r' < slen r)%nat -> advances r (string_go len f s' r')) as Hrec.
  { intros s' r' Hlt. apply (advances_le r r'); [lia|]. apply IH. lia. }
  destruct r as [|c r1]; cbn [string_go]; [done|].
  repeat first
    [ done
    | solve [simpl; lia]
    | apply Hrec; solve [simpl; lia]
    | match goal with
      | H : take_bytes _ _ = Some _ |- _ =>
          apply Hrec; apply take_bytes_length in H;
          try pose proof (seq_len_pos c); solve [simpl in *; lia]
      end
    | case_match; subst ].
Qed.

Lemma pstring_progress r : r <> "" -> advances r (pstring len r).
Proof.
  destruct r as [|c r]; [done|]. intros _. unfold pstring.
  apply (advances_le _ r); [simpl; lia|]. apply string_go_progress. lia.
Qed.

Lemma scan_num_length r t f rest :
  scan_num r = (t, f, rest) -> slen r = (slen t + slen rest)%nat.
Proof.
  revert t f rest. induction r as [|c r IH]; intros t f rest H; simpl in H; [by simplify_eq|].
  destruct (scan_num r) as [[t' f'] rest'].
  specialize (IH _ _ _ eq_refl). crush_match; simpl; lia.
Qed.

Lemma split_sign_length r : slen r = (slen (split_sign r).1 + slen (split_sign r).2)%nat.
Proof. by destruct r as [|[[] [] [] [] [] [] [] []] r]. Qed.

Lemma number_progress r : advances r (number len r).
Proof.
  unfold number. pose proof (split_sign_length r) as Hp.
  destruct (split_sign r) as [sign r1]. simpl in Hp.
  destruct (scan_num r1) as [[t fl] rest] eqn:E. apply scan_num_length in E.
  destruct (str_is_empty (sign +:+ t)) eqn:Ee; [done|].
  assert (0 < slen sign + slen t)%nat.
  { rewrite <- str_length_app. destruct (sign +:+ t); [done|simpl; lia]. }
  repeat case_match; simpl; done || lia.
Qed.

Lemma literal_progress word v r :
  (0 < slen word)%nat -> advances r (literal len word v r).
Proof.
  intros Hw. unfold literal. case_match eqn:E; [|done].
  apply strip_prefix_length in E. simpl. lia.
Qed.

(** Fuel twice the unread bytes (plus one or two) is enough. *)
Definition value_ok (fuel : nat) : Prop := forall r,
  (2 * slen r < fuel)%nat -> advances r (value len fuel r).

Definition loop_ok (loop : nat -> string -> presult Json) (fuel : nat) : Prop := forall r,
  (2 * slen r + 1 < fuel)%nat -> advances r (loop fuel r).

Lemma value_step f :
  (forall m, loop_ok (fun fu => object_loop len fu m) f) ->
  (forall a, loop_ok (fun fu => array_loop len fu a) f) ->
  value_ok (S f).
Proof.
  intros Ho Ha r Hf. destruct r as [|c r1]; [done|].
  simpl in Hf. pose proof (ws_length r1) as Hws.
  pose proof (number_progress (String c r1)) as Hn.
  assert (forall w v, (0 < slen w)%nat -> advances (String c r1) (literal len w v (String c r1)))
    as Hl by (intros; by apply literal_progress).
  assert (advances (String c r1)
    (pbind (pstring len (String c r1)) (fun s r' => POk (JStr s) r'))) as Hs.
  { apply advances_bind; [by apply pstring_progress|done]. }
  pose proof (advance_length (ws r1)).
  destruct c as [[] [] [] [] [] [] [] []]; cbn [value];
    first [ exact Hn | exact Hs | apply Hl; simpl; lia
          | case_match; [simpl; lia|]; apply (advances_le _ (ws r1)); [simpl; lia|];
            first [apply Ho | apply Ha]; lia ].
Qed.

Lemma object_loop_step f m :
  value_ok f -> (forall m', loop_ok (fun fu => object_loop len fu m') f) ->
  loop_ok (fun fu => object_loop len fu m) (S f).
Proof.
  intros Hv Ho r Hf. cbn [object_loop]. pose proof (ws_length r) as H1.
  destruct (peek_is "034" (ws r)) eqn:E1; simpl; [|done].
  apply (advances_le _ (ws r)); [done|].
  apply advances_bind; [apply pstring_progress; by destruct (ws r)|]. intros k r2 Hr2.
  pose proof (ws_length r2) as H2. destruct (peek_is ":" (ws r2)) eqn:E2; simpl; [|done].
  apply peek_advance in E2. pose proof (ws_length (advance (ws r2))) as H3.
  apply advances_bind.
  { apply (advances_le _ (ws (advance (ws r2)))); [lia|]. apply Hv. lia. }
  intros v r4 Hr4. pose proof (ws_length r4) as H4. destruct (peek_is "," (ws r4)) eqn:E3.
  - apply peek_advance in E3. apply (advances_le _ (advance (ws r4))); [lia|]. apply Ho. lia.
  - destruct (peek_is "}" (ws r4)) eqn:E4; [|done]. apply peek_advance in E4. simpl. lia.
Qed.

Lemma array_loop_step f a :
  value_ok f -> (forall a', loop_ok (fun fu => array_loop len fu a') f) ->
  loop_ok (fun fu => array_loop len fu a) (S f).
Proof.
  intros Hv Ha r Hf. cbn [array_loop]. pose proof (ws_length r) as H1.
  apply (advances_le _ (ws r)); [done|].
  apply advances_bind; [apply Hv; lia|]. intros v r1 Hr1.
  pose proof (ws_length r1) as H2. destruct (peek_is "," (ws r1)) eqn:E1.
  - apply peek_advance in E1. apply (advances_le _ (advance (ws r1))); [lia|]. apply Ha. lia.
  - destruct (peek_is "]" (ws r1)) eqn:E2; [|done]. apply peek_advance in E2. simpl. lia.
Qed.

Lemma fuel_enough fuel :
  value_ok fuel /\ (forall m, loop_ok (fun fu => object_loop len fu m) fuel)
  /\ (forall a, loop_ok (fun fu => array_loop len fu a) fuel).
Proof.
  induction fuel as [|f (Hv & Ho & Ha)].
  - split_and!; repeat intro; lia.
  - split_and!; intros; eauto using value_step, object_loop_step, array_loop_step.
Qed.

End Progress.

(** [parse] answers on every input: the recursion of the parser terminates. *)
Theorem parse_total (input : string) : exists r, parse_opt input = Some r.
Proof.
  unfold parse_opt, parse_fuel.
  destruct (fuel_enough (slen input) (2 * slen input + 2)) as [Hv _].
  pose proof (ws_length input).
  specialize (Hv (ws input) ltac:(lia)).
  destruct (value _ _ (ws input)); simpl in Hv; [|eauto|done]. case_match; eauto.
Qed.

(** ** Strings round-trip *)

Section StringRoundTrip.
Context (len : nat).

Lemma string_go_ascii f s c r :
  bz c < 0x80 ->
  string_go len (S f) s (escape_char c +:+ r) = string_go len f (s +:+ String c "") r.
Proof.
  intros Hc. destruct c as [[] [] [] [] [] [] [] []];
    first [reflexivity | exfalso; vm_compute in Hc; done].
Qed.

Lemma escape_high s : str_all is_high s = true -> str_flat_map escape_char s = s.
Proof.
  induction s as [|c s IH]; simpl; [done|]. intros [Hc Hs]%andb_prop. rewrite (IH Hs).
  by destruct c as [[] [] [] [] [] [] [] []].
Qed.

Lemma string_go_chunk f s a chunk r :
  is_high a = true -> S (slen chunk) = seq_len a -> valid_utf8 (String a chunk) = true ->
  string_go len (S f) s (String a chunk +:+ r) = string_go len f (s +:+ String a chunk) r.
Proof.
  intros Ha Hl Hv. cbn [string_go String.append].
  destruct (ascii_dec a "034") as [->|]; [done|].
  destruct (ascii_dec a "\") as [->|]; [done|].
  assert (0x80 <= bz a) by (by apply Z.leb_le).
  rewrite (proj2 (Z.ltb_ge (bz a) 0x20)), (proj2 (Z.ltb_ge (bz a) 0x80)) by lia.
  rewrite <- Hl. change (String a (chunk +:+ r)) with (String a chunk +:+ r).
  change (S (slen chunk)) with (slen (String a chunk)).
  by rewrite take_bytes_app, Hv.
Qed.

Lemma str_flat_map_app g s t :
  str_flat_map g (s +:+ t) = str_flat_map g s +:+ str_flat_map g t.
Proof. induction s as [|c s IH]; simpl; [done|]. by rewrite IH, app_assoc. Qed.

Lemma string_go_escape fuel acc s r :
  valid_utf8 s = true -> (slen s < fuel)%nat ->
  string_go len fuel acc (str_flat_map escape_char s +:+ quote +:+ r) = POk (acc +:+ s) r.
Proof.
  revert acc s. induction fuel as [|f IH]; intros acc s Hv Hf; [lia|].
  destruct s as [|a s]; [simpl; by rewrite app_nil_r|].
  destruct (is_high a) eqn:Ha.
  - destruct (valid_utf8_seq a s Hv Ha) as (chunk & rest & E & Hl & Hh & Hc & Hr).
    rewrite E, str_flat_map_app, <- app_assoc, escape_high by (simpl; by rewrite Ha).
    rewrite string_go_chunk, IH, app_assoc by (done || (apply (f_equal slen) in E;
      rewrite str_length_app in E; simpl in *; lia)). done.
  - cbn [str_flat_map]. rewrite <- app_assoc.
    assert (bz a < 0x80) as Hlt by (by apply Z.leb_gt).
    rewrite string_go_ascii by done. simpl in Hv, Hf.
    rewrite (proj2 (Z.ltb_lt _ _) Hlt) in Hv.
    rewrite IH by (done || lia). by rewrite <- app_assoc.
Qed.

Lemma escape_char_length c : (0 < slen (escape_char c))%nat.
Proof. destruct c as [[] [] [] [] [] [] [] []]; vm_compute; lia. Qed.

Lemma escape_length s : (slen s <= slen (str_flat_map escape_char s))%nat.
Proof.
  induction s as [|c s IH]; simpl; [lia|]. rewrite str_length_app.
  pose proof (escape_char_length c). lia.
Qed.

Lemma pstring_escape s r :
  valid_utf8 s = true -> pstring len (escape s +:+ r) = POk s r.
Proof.
  intros Hv. unfold escape, quote at 1. cbn [String.append]. unfold pstring.
  rewrite <- app_assoc, string_go_escape; [done..|].
  rewrite str_length_app. pose proof (escape_length s). lia.
Qed.

End StringRoundTrip.

(** ** Numbers round-trip *)

(** What may follow a number: the end, or a byte that ends the scan. *)
Definition num_end (r : string) : bool :=
  match r with
  | EmptyString => true
  | String c _ => negb (is_ascii_digit c) && negb (is_num_char c)
  end.

Lemma scan_num_end r : num_end r = true -> scan_num r = ("", false, r).
Proof.
  destruct r as [|c r]; [done|]. simpl. intros [H1 H2]%andb_prop.
  apply negb_true_iff in H1, H2. by rewrite H1, H2.
Qed.

Lemma scan_num_digits s r :
  str_all is_ascii_digit s = true -> num_end r = true ->
  scan_num (s +:+ r) = (s, false, r).
Proof.
  intros Hs Hr. induction s as [|c s IH]; simpl in *; [by apply scan_num_end|].
  apply andb_prop in Hs as [Hc Hs]. by rewrite Hc, (IH Hs).
Qed.

(** A text the scan takes whole is taken whole before any [num_end] rest. *)
Lemma scan_num_ext s t f r :
  scan_num s = (t, f, "") -> num_end r = true -> scan_num (s +:+ r) = (t, f, r).
Proof.
  revert t f. induction s as [|c s IH]; intros t f H Hr; simpl in *.
  - simplify_eq. by apply scan_num_end.
  - destruct (scan_num s) as [[t' f'] rest'].
    destruct (is_ascii_digit c); [|destruct (is_num_char c)]; simplify_eq/=;
      by rewrite (IH _ _ eq_refl Hr).
Qed.

Lemma split_sign_none c s :
  c <> "+"%char -> c <> "-"%char -> split_sign (String c s) = ("", String c s).
Proof. intros. by destruct c as [[] [] [] [] [] [] [] []]. Qed.

Lemma split_sign_app c s r :
  split_sign (String c s +:+ r)
  = ((split_sign (String c s)).1, (split_sign (String c s)).2 +:+ r).
Proof. by destruct c as [[] [] [] [] [] [] [] []]. Qed.

Section NumberRoundTrip.
Context (len : nat).

Lemma number_int i r :
  in_s 64 i -> num_end r = true -> number len (show_dec i +:+ r) = POk (JInt i) r.
Proof.
  intros Hi Hr. pose proof (parse_i_show 64 i ltac:(lia) Hi) as Hp. unfold number.
  destruct (decide (i < 0)) as [Hneg|Hpos].
  - rewrite show_dec_neg in * by done. cbn [String.append split_sign].
    rewrite scan_num_digits by (done || apply show_u_dec; lia).
    cbn [String.append str_is_empty]. by rewrite Hp.
  - rewrite show_dec_nonneg in * by lia.
    destruct (show_u_cons 10 i) as (c & s & E).
    pose proof (show_u_dec i ltac:(lia)) as Hd. rewrite E in *.
    pose proof Hd as [Hc _]%andb_prop. apply digit_not_sign in Hc as [Hc1 Hc2].
    pose proof (scan_num_digits (String c s) r Hd Hr) as Hsc.
    cbn [String.append] in *.
    rewrite split_sign_none by done.
    rewrite Hsc. cbn [String.append str_is_empty]. by rewrite Hp.
Qed.

Lemma number_ext s v r :
  number 0 s = POk v "" -> num_end r = true -> number len (s +:+ r) = POk v r.
Proof.
  intros H Hr. unfold number in *.
  destruct s as [|c s]; [done|].
  rewrite split_sign_app. destruct (split_sign (String c s)) as [sign r1]. cbn [fst snd].
  destruct (scan_num r1) as [[t fl] rest] eqn:E.
  assert (rest = "") as -> by (repeat case_match; by simplify_eq).
  rewrite (scan_num_ext _ _ _ _ E Hr).
  repeat case_match; by simplify_eq.
Qed.

(** The first byte of an accepted number. *)
Definition num_start (c : ascii) : bool := is_ascii_digit c || is_num_char c.

Lemma number_head s v r :
  number len s = POk v r -> exists c s', s = String c s' /\ num_start c = true.
Proof.
  unfold number, num_start. destruct s as [|c s]; [done|]. intros H. exists c, s. split; [done|].
  destruct (is_ascii_digit c) eqn:E1, (is_num_char c) eqn:E2; [done..|]. exfalso.
  assert (num_end (String c s) = true) as He by (simpl; by rewrite E1, E2).
  apply scan_num_end in He.
  rewrite split_sign_none in H by (intros ->; done).
  by rewrite He in H.
Qed.

Lemma value_number f c s :
  num_start c = true -> value len (S f) (String c s) = number len (String c s).
Proof. by destruct c as [[] [] [] [] [] [] [] []]. Qed.

End NumberRoundTrip.

(** ** Documents round-trip *)

(** What a printed float is read back as; [norm_float_reads] below says what
    that is for every double. *)
Definition norm_float (f : f64) : Json :=
  if f64_is_finite f then
    match number 0 (f64_display f) with POk v "" => v | _ => JFloat f end
  else JNull.

Fixpoint norm (v : Json) : Json :=
  match v with
  | JFloat f => norm_float f
  | JArr a => JArr (norm <$> a)
  | JObj m => JObj (prod_map id norm <$> m)
  | _ => v
  end.

(** The documents the Rust type holds: integers of 64 bits, doubles, strings
    in UTF-8. *)
Fixpoint json_ok (v : Json) : bool :=
  match v with
  | JNull | JBool _ => true
  | JInt i => (- 2 ^ 63 <=? i) && (i <? 2 ^ 63)
  | JFloat f => f64_valid f
  | JStr s => valid_utf8 s
  | JArr a => forallb json_ok a
  | JObj m => forallb (fun kv => valid_utf8 kv.1 && json_ok kv.2) m
  end.

(** The loops inside [write]. *)
Definition write_elems (indent : option nat) (depth : nat) : bool -> list Json -> string :=
  fix go (first : bool) (l : list Json) : string :=
    match l with
    | [] => ""
    | x :: l' => (if first then "" else ",") +:+ nl indent (S depth)
                 +:+ write indent (S depth) x +:+ go false l'
    end.

Definition colon (indent : option nat) : string :=
  match indent with Some _ => " " | None => "" end.

Definition write_members (indent : option nat) (depth : nat)
  : bool -> list (string * Json) -> string :=
  fix go (first : bool) (l : list (string * Json)) : string :=
    match l with
    | [] => ""
    | (k, x) :: l' => (if first then "" else ",") +:+ nl indent (S depth)
                      +:+ escape k +:+ ":" +:+ colon indent
                      +:+ write indent (S depth) x +:+ go false l'
    end.

(** What a double may be read back as: itself; the integer whose double it is,
    when its text has no point; zero without its sign; [null] when it is not
    finite. *)
Inductive reads_float (f : f64) : Json -> Prop :=
  | reads_same neg m e : f = SpecFloat.S754_finite neg m e -> reads_float f (JFloat f)
  | reads_integer neg m e i : f = SpecFloat.S754_finite neg m e -> f64_integral f = true ->
      in_s 64 i -> f64_of_Z i = f -> reads_float f (JInt i)
  | reads_zero neg : f = SpecFloat.S754_zero neg -> reads_float f (JInt 0)
  | reads_null : f64_is_finite f = false -> reads_float f JNull.

Lemma parse_i_digits neg ip i : str_all is_ascii_digit ip = true -> ip <> "" ->
  parse_i 64 ((if neg : bool then "-" else "") +:+ ip) = Some i ->
  in_s 64 i /\ i = if neg : bool then - dval 0 ip else dval 0 ip.
Proof.
  intros Hi Hn.
  destruct ip as [|c ip]; [done|]. pose proof Hi as [Hc _]%andb_prop. apply digit_not_sign in Hc as [Hc1 Hc2].
  unfold parse_i. destruct neg; cbn [String.append].
  - cbn [parse_signed str_is_empty]. destruct (parse_digits _ _ _ _ _) as [|n] eqn:E; [done|].
    pose proof E as Hr. apply parse_digits_range in Hr; [|lia..].
    apply parse_digits_dval in E; [|done]. cbn [ok_of]. intros [= <-]. unfold in_s. split; lia.
  - rewrite parse_signed_cons by done. destruct (parse_digits _ _ _ _ _) as [|n] eqn:E; [done|].
    pose proof E as Hr. apply parse_digits_range in Hr; [|lia..].
    apply parse_digits_dval in E; [|done]. cbn [ok_of]. intros [= <-]. unfold in_s. split; lia.
Qed.

Lemma scan_num_point ip fp : str_all is_ascii_digit ip = true -> str_all is_ascii_digit fp = true ->
  scan_num (ip +:+ "." +:+ fp) = (ip +:+ "." +:+ fp, true, "").
Proof.
  intros Hi Hf. induction ip as [|c ip IH].
  - cbn [String.append scan_num]. pose proof (scan_num_digits fp "" Hf eq_refl) as H. rewrite app_nil_r in H.
    by rewrite H.
  - apply andb_prop in Hi as [Hc Hi]. change (scan_num (String c ip +:+ ?t)) with
      (if is_ascii_digit c then let '(u, f, rest) := scan_num (ip +:+ t) in (String c u, f, rest)
       else if is_num_char c then let '(u, _, rest) := scan_num (ip +:+ t) in (String c u, true, rest)
       else ("", false, String c ip +:+ t)).
    by rewrite Hc, (IH Hi).
Qed.

Lemma split_sign_digits (neg : bool) ip t : str_all is_ascii_digit ip = true -> ip <> "" ->
  split_sign ((if neg then "-" else "") +:+ ip +:+ t) = (if neg then "-" else "", ip +:+ t).
Proof.
  intros Hi Hn. destruct ip as [|c ip]; [done|]. pose proof Hi as [Hc _]%andb_prop. apply digit_not_sign in Hc as [Hc1 Hc2].
  destruct neg; [done|]. by apply split_sign_none.
Qed.

(** The printed text of a finite double is a number, and which. *)
Lemma number_display f : f64_valid f = true -> f64_is_finite f = true ->
  exists v, number 0 (f64_display f) = POk v "" /\ reads_float f v.
Proof.
  intros Hv Hfin. pose proof (f64_display_parse f Hv Hfin) as Hp.
  destruct f as [neg|?| |neg m e]; try done.
  { exists (JInt 0). split; [by destruct neg|by eapply reads_zero]. }
  destruct (digits_value neg m e Hv) as [Hd Hdv]. rewrite display_digits in *.
  destruct (digits m e) as [d x]. cbn [fst snd] in *.
  destruct (place_point_shape d x Hd) as (ip & fp & Hi & Hn & Hfp & E & Hval & Hlen). rewrite E in *.
  unfold number. rewrite split_sign_digits by done. destruct (0 <=? x) eqn:Ex; bool_prop.
  - assert (fp = "") as -> by (destruct fp; [done|cbn in Hlen; lia]).
    rewrite app_nil_r in Hp. pose proof (scan_num_digits ip "" Hi eq_refl) as Hs. rewrite Hs.
    assert (str_is_empty ((if neg then "-" else "") +:+ ip) = false) as -> by (destruct neg, ip; done).
    destruct (parse_i 64 _) as [i|] eqn:Ei.
    + exists (JInt i). split; [done|]. apply parse_i_digits in Ei as [Hr ->]; [|done..].
      rewrite app_nil_r in Hval. rewrite Hval in *.
      assert (f64_of_Z (if neg then - (d * 10 ^ Z.max 0 x) else d * 10 ^ Z.max 0 x) = SpecFloat.S754_finite neg m e) as Hz.
      { rewrite Z.max_r by lia. rewrite f64_of_Z_decimal, decimal_scale by lia. done. }
      eapply reads_integer; [done|by eapply f64_of_Z_integral|done|done].
    + rewrite Hp. exists (JFloat (SpecFloat.S754_finite neg m e)). split; [done|by eapply reads_same].
  - rewrite scan_num_point by done.
    assert (str_is_empty ((if neg then "-" else "") +:+ ip +:+ "." +:+ fp) = false) as -> by (destruct neg, ip; done).
    rewrite Hp. exists (JFloat (SpecFloat.S754_finite neg m e)). split; [done|by eapply reads_same].
Qed.

Lemma float_number f : f64_valid f = true -> f64_is_finite f = true ->
  number 0 (f64_display f) = POk (norm_float f) "".
Proof.
  intros Hv Hf. destruct (number_display f Hv Hf) as (v & Hn & _). unfold norm_float. by rewrite Hf, Hn.
Qed.

Lemma norm_float_reads f : f64_valid f = true -> reads_float f (norm_float f).
Proof.
  intros Hv. destruct (f64_is_finite f) eqn:Hf.
  - destruct (number_display f Hv Hf) as (v & Hn & Hr). unfold norm_float. by rewrite Hf, Hn.
  - unfold norm_float. rewrite Hf. by apply reads_null.
Qed.

(** A double that is not integral comes back as itself. *)
Lemma norm_float_same f : f64_valid f = true -> f64_is_finite f = true -> f64_integral f = false ->
  norm_float f = JFloat f.
Proof.
  intros Hv Hf Hi. destruct (norm_float_reads f Hv) as [| | |]; [done|congruence|subst; done|congruence].
Qed.

(** [w] is [v] with its floats read back. *)
Inductive reads_as : Json -> Json -> Prop :=
  | reads_plain v : match v with JFloat _ | JArr _ | JObj _ => False | _ => True end -> reads_as v v
  | reads_number f w : reads_float f w -> reads_as (JFloat f) w
  | reads_array a b : Forall2 reads_as a b -> reads_as (JArr a) (JArr b)
  | reads_object m n : Forall2 (fun x y => x.1 = y.1 /\ reads_as x.2 y.2) m n -> reads_as (JObj m) (JObj n).

Lemma norm_reads v : json_ok v = true -> reads_as v (norm v).
Proof.
  induction v as [|b|z|f|s|a IH|m IH] using Json_nested_ind; intros Hok; try by apply reads_plain.
  - apply reads_number, norm_float_reads, Hok.
  - apply reads_array. cbn [norm json_ok] in *. induction IH as [|x l Hx HF IHl]; [constructor|].
    cbn in Hok. apply andb_prop in Hok as [H1 H2]. constructor; [by apply Hx|by apply IHl].
  - apply reads_object. cbn [norm json_ok] in *. induction IH as [|x l Hx HF IHl]; [constructor|].
    cbn in Hok. apply andb_prop in Hok as [H1 H2]. apply andb_prop in H1 as [H0 H1].
    constructor; [split; [by destruct x|destruct x; by apply Hx]|by apply IHl].
Qed.

Lemma ws_repeat n t : ws (str_repeat n " " +:+ t) = ws t.
Proof. induction n as [|n IH]; [done|]. exact IH. Qed.

Lemma ws_nl i d t : ws (nl i d +:+ t) = ws t.
Proof. destruct i; [|done]. apply ws_repeat. Qed.

Lemma ws_colon i t : ws (colon i +:+ t) = ws t.
Proof. by destruct i. Qed.

Lemma num_end_nl i d t : num_end t = true -> num_end (nl i d +:+ t) = true.
Proof. by destruct i. Qed.

(** The first byte of a printed value is not white space and closes nothing. *)
Definition head_ok (s : string) : Prop :=
  exists c s', s = String c s' /\ is_ws c = false /\ c <> "]"%char /\ c <> "}"%char.

Lemma num_start_head c s : num_start c = true -> head_ok (String c s).
Proof.
  intros H. exists c, s. split; [done|]. by destruct c as [[] [] [] [] [] [] [] []].
Qed.

Lemma write_head i d v : json_ok v = true -> head_ok (write i d v).
Proof.
  assert (forall c s, is_ws c = false -> c <> "]"%char -> c <> "}"%char -> head_ok (String c s))
    as Hc by (intros c s; exists c, s; done).
  destruct v as [|[]|z|f|s|[]|[]]; simpl; intros H; try (by apply Hc).
  - assert (in_s 64 z) as Hz by (unfold in_s; simpl; bool_prop; lia).
    pose proof (number_int 0 z "" Hz eq_refl) as Hn. rewrite app_nil_r in Hn.
    apply number_head in Hn as (c & s' & -> & ?). by apply num_start_head.
  - destruct (f64_is_finite f) eqn:Hf; [|by apply Hc].
    apply float_number in H as Hn; [|done].
    apply number_head in Hn as (c & s' & -> & ?). by apply num_start_head.
Qed.

Lemma head_ok_ws s t : head_ok s -> ws (s +:+ t) = s +:+ t.
Proof. intros (c & s' & -> & Hc & _). simpl. by rewrite Hc. Qed.

Lemma head_ok_length s : head_ok s -> (0 < slen s)%nat.
Proof. intros (c & s' & -> & _). simpl. lia. Qed.

Lemma head_ok_peek c s t :
  head_ok s -> c = "]"%char \/ c = "}"%char -> peek_is c (s +:+ t) = false.
Proof.
  intros (c' & s' & -> & _ & H1 & H2) Hc. cbn. apply bool_decide_eq_false_2.
  intros ->. naive_solver.
Qed.

Section DocumentRoundTrip.
Context (len : nat) (i : option nat).

(** The parser inverts the printer on [v], at every depth. *)
Definition inverts (v : Json) : Prop := json_ok v = true -> forall d r fuel,
  num_end r = true -> (2 * slen (write i d v +:+ r) < fuel)%nat ->
  value len fuel (write i d v +:+ r) = POk (norm v) r.

Lemma array_loop_ws fuel a t t' : ws t = ws t' -> array_loop len fuel a t = array_loop len fuel a t'.
Proof. intros E. destruct fuel; [done|]. cbn [array_loop]. by rewrite E. Qed.

Lemma object_loop_ws fuel m t t' : ws t = ws t' -> object_loop len fuel m t = object_loop len fuel m t'.
Proof. intros E. destruct fuel; [done|]. cbn [object_loop]. by rewrite E. Qed.

Lemma elems_end d l r : num_end (write_elems i d false l +:+ nl i d +:+ "]" +:+ r) = true.
Proof. destruct l; [by apply num_end_nl|done]. Qed.

Lemma members_end d l r : num_end (write_members i d false l +:+ nl i d +:+ "}" +:+ r) = true.
Proof. destruct l as [|[k v] l]; [by apply num_end_nl|done]. Qed.

Lemma array_loop_write d l r x acc fuel :
  Forall inverts (x :: l) -> forallb json_ok (x :: l) = true ->
  let s := write i (S d) x +:+ write_elems i d false l +:+ nl i d +:+ "]" +:+ r in
  (2 * slen s + 1 < fuel)%nat ->
  array_loop len fuel acc s = POk (JArr (acc ++ (norm <$> x :: l))) r.
Proof.
  revert x acc fuel. induction l as [|y l IH]; intros x acc fuel HF Hok s Hfuel;
    apply Forall_cons in HF as [Hx HF]; simpl in Hok; apply andb_prop in Hok as [Hok Hok'];
    destruct fuel as [|f]; try (exfalso; lia); subst s; cbn [array_loop];
    rewrite head_ok_ws by (by apply write_head).
  - rewrite (Hx Hok) by (apply (elems_end d []) || lia). cbn [pbind write_elems String.append].
    rewrite ws_nl. cbn. done.
  - rewrite (Hx Hok) by (apply (elems_end d (y :: l)) || lia). cbn [pbind].
    change (write_elems i d false (y :: l)) with
      ("," +:+ nl i (S d) +:+ write i (S d) y +:+ write_elems i d false l) in *.
    rewrite <- !app_assoc in *. cbn [String.append ws is_ws peek_is advance].
    rewrite bool_decide_eq_true_2 by done.
    rewrite (array_loop_ws _ _ _ _ (ws_nl _ _ _)).
    rewrite IH; [by rewrite <- (assoc_L (++))|done..|].
    rewrite !str_length_app in *. simpl in *. lia.
Qed.

Lemma object_loop_write d l r k x acc fuel :
  Forall (fun kv => inverts kv.2) ((k, x) :: l) ->
  forallb (fun kv => valid_utf8 kv.1 && json_ok kv.2) ((k, x) :: l) = true ->
  let s := escape k +:+ ":" +:+ colon i +:+ write i (S d) x
           +:+ write_members i d false l +:+ nl i d +:+ "}" +:+ r in
  (2 * slen s + 1 < fuel)%nat ->
  object_loop len fuel acc s = POk (JObj (acc ++ (prod_map id norm <$> (k, x) :: l))) r.
Proof.
  revert k x acc fuel. induction l as [|[k' y] l IH]; intros k x acc fuel HF Hok s Hfuel;
    apply Forall_cons in HF as [Hx HF]; simpl in Hok; apply andb_prop in Hok as [Hok Hok'];
    apply andb_prop in Hok as [Hk Hok];
    destruct fuel as [|f]; try (exfalso; lia); subst s; cbn [object_loop];
    change (ws (escape k +:+ ?t)) with (escape k +:+ t);
    change (peek_is "034" (escape k +:+ ?t)) with true; cbn [negb];
    rewrite pstring_escape by done; cbn [pbind];
    change (ws (":" +:+ ?t)) with (":" +:+ t);
    change (peek_is ":" (":" +:+ ?t)) with true; cbn [negb];
    change (advance (":" +:+ ?t)) with t; rewrite ws_colon, head_ok_ws by (by apply write_head).
  - rewrite (Hx Hok);
      [|apply (members_end d [])|rewrite !str_length_app in *; simpl in *; lia].
    cbn [pbind write_members String.append]. by rewrite ws_nl.
  - rewrite (Hx Hok);
      [|apply (members_end d ((k', y) :: l))|rewrite !str_length_app in *; simpl in *; lia].
    cbn [pbind].
    change (write_members i d false ((k', y) :: l)) with
      ("," +:+ nl i (S d) +:+ escape k' +:+ ":" +:+ colon i +:+ write i (S d) y
       +:+ write_members i d false l) in *.
    rewrite <- !app_assoc in *.
    change (ws ("," +:+ ?t)) with ("," +:+ t);
    change (peek_is "," ("," +:+ ?t)) with true; cbv iota;
    change (advance ("," +:+ ?t)) with t.
    rewrite (object_loop_ws _ _ _ _ (ws_nl _ _ _)).
    rewrite IH; [by rewrite <- (assoc_L (++))|done..|].
    rewrite !str_length_app in *. simpl in *. lia.
Qed.

Lemma write_inverts v : inverts v.
Proof.
  induction v as [|b|z|f|s|a IH|m IH] using Json_nested_ind; intros Hok d r fuel Hr Hf;
    destruct fuel as [|fu]; try (exfalso; lia).
  - done.
  - by destruct b.
  - assert (in_s 64 z) as Hz by (simpl in Hok; unfold in_s; simpl; bool_prop; lia).
    pose proof (number_int len z r Hz Hr) as Hn. cbn [write norm].
    destruct (number_head _ _ _ _ Hn) as (c & s' & E & Hc).
    rewrite <- Hn, E. by apply value_number.
  - simpl in Hok. cbn [write norm]. destruct (f64_is_finite f) eqn:Hfin.
    2: { unfold norm_float. by rewrite Hfin. }
    pose proof (float_number f Hok Hfin) as Hn.
    pose proof (number_ext len _ _ r Hn Hr) as Hn'.
    destruct (number_head _ _ _ _ Hn') as (c & s' & E & Hc).
    rewrite <- Hn', E. by apply value_number.
  - simpl in Hok. cbn [write].
    change (value len (S fu) (escape s +:+ r)) with
      (pbind (pstring len (escape s +:+ r)) (fun s r' => POk (JStr s) r')).
    by rewrite pstring_escape.
  - destruct a as [|x l]; [done|].
    change (write i d (JArr (x :: l))) with
      ("[" +:+ (nl i (S d) +:+ write i (S d) x +:+ write_elems i d false l)
       +:+ nl i d +:+ "]") in *.
    rewrite <- !app_assoc in *.
    change (value len (S fu) ("[" +:+ ?t)) with
      (if peek_is "]" (ws t) then POk (JArr []) (advance (ws t)) else array_loop len fu [] (ws t)).
    assert (json_ok x = true) as Hx by (simpl in Hok; by bool_prop).
    rewrite ws_nl, head_ok_ws, head_ok_peek by auto using write_head.
    apply array_loop_write; [done..|]. rewrite !str_length_app in *. simpl in *. lia.
  - destruct m as [|[k x] l]; [done|].
    change (write i d (JObj ((k, x) :: l))) with
      ("{" +:+ (nl i (S d) +:+ escape k +:+ ":" +:+ colon i +:+ write i (S d) x
        +:+ write_members i d false l) +:+ nl i d +:+ "}") in *.
    rewrite <- !app_assoc in *.
    change (value len (S fu) ("{" +:+ ?t)) with
      (if peek_is "}" (ws t) then POk (JObj []) (advance (ws t)) else object_loop len fu [] (ws t)).
    rewrite ws_nl. change (ws (escape k +:+ ?t)) with (escape k +:+ t).
    change (peek_is "}" (escape k +:+ ?t)) with false. cbv iota.
    apply object_loop_write; [done..|]. rewrite !str_length_app in *. simpl in *. lia.
Qed.

End DocumentRoundTrip.

Lemma parse_write i v : json_ok v = true -> parse (write i 0 v) = Ok (norm v).
Proof.
  intros Hok. unfold parse, parse_opt, parse_fuel.
  pose proof (head_ok_ws _ "" (write_head i 0 v Hok)) as Hws. rewrite app_nil_r in Hws.
  pose proof (write_inverts (slen (write i 0 v)) i v Hok 0%nat "" (2 * slen (write i 0 v) + 2)%nat
    eq_refl) as Hv.
  rewrite app_nil_r in Hv. rewrite Hws, Hv by lia. done.
Qed.

(** C7: the compact and the indented text of a document both parse back to the
    same document, keys, order and nesting included: strings, integers,
    booleans and nulls are the same, a finite float comes back as the same
    double, or, when it is integral, possibly as the 64-bit integer whose
    double it is (zero of either sign as 0), and a float that is not finite
    as null. *)
Theorem parse_to_string (v : Json) :
  json_ok v = true ->
  exists w, parse (to_string v) = Ok w /\ parse (to_string_pretty v) = Ok w /\ reads_as v w.
Proof. intros H. exists (norm v). split_and!; [by apply parse_write..|by apply norm_reads]. Qed.

Definition sample_doc : Json :=
  JObj [("id", JStr "web-1"); ("pid", JInt (-7));
        ("cpus", JFloat (SpecFloat.S754_finite false 6755399441055744 (-52)));
        ("env", JArr [JStr (String "195" (String "169" "")); JBool true; JNull]); ("o", JObj [])].

Lemma parse_to_string_witness : json_ok sample_doc = true /\
  exists w, parse (to_string sample_doc) = Ok w /\ parse (to_string_pretty sample_doc) = Ok w /\ reads_as sample_doc w.
Proof. split; [vm_compute; reflexivity|]. apply parse_to_string. vm_compute. reflexivity. Defined.

(** The floats that are not read back as floats: integral ones and those that
    are not finite.  Of a large integral one the shortest digits are printed,
    so that the integer read is another one with the same double. *)
Example float_changes_type :
  parse (to_string sample_doc) = Ok sample_doc /\
  parse (to_string (JFloat (f64_of_Z (2 ^ 60)))) = Ok (JInt 1152921504606847000) /\
  (parse (to_string (JFloat (f64_of_Z 2))), parse (to_string (JFloat (SpecFloat.S754_infinity false))))
  = (Ok (JInt 2), Ok JNull).
Proof. vm_compute. split_and!; reflexivity. Qed.

(** ** Objects as maps *)

Definition is_obj (o : Json) : bool := match o with JObj _ => true | _ => false end.

Lemma find_key_set_slot k k' v m :
  find_key k (set_slot k' v m) = if decide (k' = k) then Some v else find_key k m.
Proof.
  induction m as [|[ek ev] m IH]; cbn [set_slot find_key]; [done|].
  destruct (decide (ek = k')) as [->|Hne]; cbn [find_key].
  - by destruct (decide (k' = k)).
  - rewrite IH. destruct (decide (ek = k)) as [->|]; [|done]. by rewrite decide_False by congruence.
Qed.

(** [Json::set] and [Json::get] are insertion and lookup. *)
Lemma get_set o k k' v :
  is_obj o = true -> get (set o k' v) k = if decide (k' = k) then Some v else get o k.
Proof. destruct o; try done. intros _. apply find_key_set_slot. Qed.

Lemma get_set_eq o k v : is_obj o = true -> get (set o k v) k = Some v.
Proof. intros. by rewrite get_set, decide_True. Qed.

Lemma get_set_ne o k k' v : is_obj o = true -> k' <> k -> get (set o k' v) k = get o k.
Proof. intros. by rewrite get_set, decide_False. Qed.

Lemma norm_set o k v : is_obj o = true -> norm (set o k v) = set (norm o) k (norm v).
Proof.
  destruct o as [| | | | | |m]; try done. intros _. cbn [set norm]. f_equal.
  induction m as [|[ek ev] m IH]; cbn [set_slot fmap list_fmap prod_map fst snd id]; [done|].
  case_decide; cbn [fmap list_fmap prod_map fst snd id]; [done|]. by rewrite IH.
Qed.

Lemma json_ok_set o k v :
  json_ok o = true -> valid_utf8 k = true -> json_ok v = true -> json_ok (set o k v) = true.
Proof.
  intros Ho Hk Hv. destruct o as [| | | | | |m]; try done. cbn [set json_ok] in *.
  induction m as [|[ek ev] m IH]; cbn [set_slot forallb fst snd] in *; [by rewrite Hk, Hv|].
  apply andb_prop in Ho as [H1 H2]. case_decide; cbn [forallb fst snd].
  - apply andb_prop in H1 as [-> _]. by rewrite Hv, H2.
  - by rewrite H1, IH.
Qed.

Lemma norm_strings l : norm (strings l) = strings l.
Proof. unfold strings. cbn. f_equal. rewrite <- list_fmap_compose. done. Qed.

Lemma json_ok_strings l : Forall (fun s => valid_utf8 s = true) l -> json_ok (strings l) = true.
Proof. induction 1 as [|s l Hs Hl IH]; cbn in *; [done|]. by rewrite Hs. Qed.

Lemma norm_arr {A : Type} (f : A -> Json) l :
  (forall x, norm (f x) = f x) -> norm (JArr (f <$> l)) = JArr (f <$> l).
Proof.
  intros H. cbn. f_equal. rewrite <- list_fmap_compose. apply list_fmap_ext. intros. apply H.
Qed.

Lemma json_ok_arr {A : Type} (f : A -> Json) l :
  Forall (fun x => json_ok (f x) = true) l -> json_ok (JArr (f <$> l)) = true.
Proof. induction 1 as [|s l Hs Hl IH]; cbn in *; [done|]. by rewrite Hs. Qed.

(** Looks up a key in a chain of [set]s. *)
Ltac json_get :=
  repeat first [ rewrite get_set_eq by done | rewrite get_set_ne by (done || discriminate) ].

(** [json_ok] of a chain of [set]s, leaving the fields. *)
Ltac json_ok_fields :=
  repeat match goal with
  | |- json_ok (set _ _ _) = true => apply json_ok_set; [|reflexivity|]
  end; [reflexivity|..].
