(* ===== verification/JsonUtf8.v ===== *)
(** * What the JSON printer writes is UTF-8, so [read_to_string] accepts it *)
From S2P Require Import Prelude RustStr Num Utf8 F64 Error Json JsonFacts.
Import json.

Definition is_low (c : ascii) : bool := bz c <? 0x80.

Lemma valid_utf8_app s t :
  valid_utf8 s = true -> valid_utf8 t = true -> valid_utf8 (s +:+ t) = true.
Proof.
  intros Hs Ht. remember (String.length s) as n eqn:En.
  assert (String.length s <= n)%nat as Hn by lia. clear En.
  revert s Hs Hn. induction n as [|n IH]; intros s Hs Hn; [destruct s; cbn in *; [done|lia]|].
  destruct s as [|a s]; [done|]. cbn [valid_utf8 String.append String.length] in *.
  destruct (bz a <? 0x80); [apply IH; [done|lia]|].
  destruct s as [|b s]; [done|]. cbn [String.append String.length] in *.
  destruct (in_range 0xC2 0xDF a).
  { bool_prop. apply andb_true_intro. split; [done|]. apply IH; [done|lia]. }
  destruct s as [|c s]; [done|]. cbn [String.append String.length] in *.
  destruct (in_range 0xE0 0xEF a).
  { apply andb_prop in Hs as [-> Hs]. apply IH; [done|lia]. }
  destruct s as [|d s]; [done|]. cbn [String.append String.length] in *.
  apply andb_prop in Hs as [-> Hs]. apply IH; [done|lia].
Qed.

Lemma low_utf8 s : str_all is_low s = true -> valid_utf8 s = true.
Proof.
  induction s as [|c s IH]; [done|]. cbn [str_all valid_utf8]. unfold is_low at 1.
  intros [-> Hs]%andb_prop. by apply IH.
Qed.

Lemma escape_char_low c : is_low c = true -> str_all is_low (escape_char c) = true.
Proof. destruct c as [[] [] [] [] [] [] [] []]; vm_compute; done. Qed.

Lemma escaped_utf8 s : valid_utf8 s = true -> valid_utf8 (str_flat_map escape_char s) = true.
Proof.
  intros Hv. remember (String.length s) as n eqn:En.
  assert (String.length s <= n)%nat as Hn by lia. clear En.
  revert s Hv Hn. induction n as [|n IH]; intros s Hv Hn; [destruct s; cbn in *; [done|lia]|].
  destruct s as [|a s]; [done|]. destruct (is_high a) eqn:Ha.
  - destruct (valid_utf8_seq a s Hv Ha) as (chunk & rest & E & _ & Hh & Hc & Hr).
    rewrite E, str_flat_map_app, escape_high by (cbn; by rewrite Ha).
    apply valid_utf8_app; [done|]. apply IH; [done|].
    apply (f_equal String.length) in E. rewrite str_length_app in E. cbn in *. lia.
  - cbn [str_flat_map]. assert (is_low a = true) as Hlow
      by (apply Z.ltb_lt, Z.leb_gt; done).
    apply valid_utf8_app; [by apply low_utf8, escape_char_low|].
    cbn [valid_utf8] in Hv. unfold is_low in Hlow. rewrite Hlow in Hv. apply IH; [done|]. cbn in Hn. lia.
Qed.

Lemma escape_utf8 s : valid_utf8 s = true -> valid_utf8 (escape s) = true.
Proof.
  intros H. unfold escape. apply valid_utf8_app; [done|].
  apply valid_utf8_app; [by apply escaped_utf8|done].
Qed.

Lemma scan_num_low r t f rest : scan_num r = (t, f, rest) -> rest = "" -> str_all is_low r = true.
Proof.
  revert t f. induction r as [|c r IH]; intros t f; [done|]. cbn [scan_num str_all].
  destruct (scan_num r) as [[t' f'] rest'] eqn:E.
  destruct (is_ascii_digit c) eqn:E1; [|destruct (is_num_char c) eqn:E2]; intros [= <- <- <-] Hr;
    [| |done]; rewrite (IH _ _ eq_refl Hr), andb_true_r;
    by destruct c as [[] [] [] [] [] [] [] []].
Qed.

Lemma number_low s v : number 0 s = POk v "" -> str_all is_low s = true.
Proof.
  unfold number. intros H. destruct (split_sign s) as [sign r1] eqn:Es.
  destruct (scan_num r1) as [[t fl] rest] eqn:E.
  assert (rest = "") as -> by (repeat case_match; by simplify_eq).
  pose proof (scan_num_low _ _ _ _ E eq_refl) as Hl.
  destruct s as [|c s]; [done|]. cbn [str_all].
  destruct (is_low c) eqn:Hc; [cbn|by destruct c as [[] [] [] [] [] [] [] []]; cbn in Es; simplify_eq].
  destruct (decide (c = "+"%char)) as [->|]; [by simplify_eq/=|].
  destruct (decide (c = "-"%char)) as [->|]; [by simplify_eq/=|].
  rewrite split_sign_none in Es by done. simplify_eq. cbn in Hl. by apply andb_prop in Hl as [_ ?].
Qed.

Lemma show_dec_low i : str_all is_low (show_dec i) = true.
Proof.
  assert (forall n, 0 <= n -> str_all is_low (show_u 10 n) = true) as H.
  { intros n Hn. apply (str_all_impl is_ascii_digit); [|by apply show_u_dec].
    intros c. by destruct c as [[] [] [] [] [] [] [] []]. }
  destruct (decide (i < 0)) as [Hneg|Hpos].
  - rewrite show_dec_neg by done. cbn. apply H. lia.
  - rewrite show_dec_nonneg by lia. apply H. lia.
Qed.

Lemma nl_utf8 i d : valid_utf8 (nl i d) = true.
Proof.
  apply low_utf8. destruct i as [n|]; [|done]. cbn [nl str_all]. cbn [andb is_low].
  induction (n * d)%nat as [|k IH]; [done|]. exact IH.
Qed.

Lemma write_utf8 v : json_ok v = true -> forall i d, valid_utf8 (write i d v) = true.
Proof.
  induction v as [|b|z|f|s|a IH|m IH] using Json_nested_ind; intros Hok i d.
  - done.
  - by destruct b.
  - apply low_utf8, show_dec_low.
  - cbn. destruct (f64_is_finite f) eqn:E; [|done].
    by eapply low_utf8, number_low, float_number.
  - by apply escape_utf8.
  - destruct a as [|x a]; [done|]. cbn in Hok. fold (forallb json_ok a) in Hok.
    change (valid_utf8 ("[" +:+ write_elems i d true (x :: a) +:+ nl i d +:+ "]") = true).
    apply valid_utf8_app; [done|]. apply valid_utf8_app; [|by apply valid_utf8_app; [apply nl_utf8|]].
    change (forallb json_ok (x :: a) = true) in Hok. generalize true at 1. revert IH Hok.
    generalize (x :: a). clear. intros l IH Hok. induction IH as [|y l Hy _ IHl]; intros b; [done|].
    cbn in Hok. apply andb_prop in Hok as [Hok1 Hok2]. cbn [write_elems].
    repeat apply valid_utf8_app; [by destruct b|apply nl_utf8|by apply Hy|by apply IHl].
  - destruct m as [|x m]; [done|].
    change (valid_utf8 ("{" +:+ write_members i d true (x :: m) +:+ nl i d +:+ "}") = true).
    apply valid_utf8_app; [done|]. apply valid_utf8_app; [|by apply valid_utf8_app; [apply nl_utf8|]].
    change (forallb (fun kv => valid_utf8 kv.1 && json_ok kv.2) (x :: m) = true) in Hok.
    generalize true at 1. revert IH Hok.
    generalize (x :: m). clear. intros l IH Hok. induction IH as [|[k y] l Hy _ IHl]; intros b; [done|].
    cbn in Hok. apply andb_prop in Hok as [Hok1 Hok2]. apply andb_prop in Hok1 as [Hk Hok1].
    cbn [write_members].
    apply valid_utf8_app; [by destruct b|]. apply valid_utf8_app; [apply nl_utf8|].
    apply valid_utf8_app; [by apply escape_utf8|]. apply valid_utf8_app; [done|].
    apply valid_utf8_app; [by destruct i|]. apply valid_utf8_app; [by apply Hy|by apply IHl].
Qed.
