(* ===== verification/Toml.v ===== *)
(** * [src/util/toml.rs]: the TOML subset reader

    It lowers a document to the [Json] of [src/util/json.rs].  A byte index
    into the text is kept as the unread rest.  Cutting a [str] inside a
    character panics in Rust; the one place where the reader can do that gives
    [TPanic].  The recursion on nested arrays is bounded by fuel, and [TFuel]
    is proved unreachable from [parse]. *)
From S2P Require Import Prelude RustStr Num Utf8 F64 Error Json.
Import json.

Module toml.

Inductive tres (A : Type) : Type :=
| TOk (a : A)
| TErr (e : Error)
| TPanic
| TFuel.
Arguments TOk {A} a.
Arguments TErr {A} e.
Arguments TPanic {A}.
Arguments TFuel {A}.

Definition tbind {A B : Type} (p : tres A) (k : A -> tres B) : tres B :=
  match p with TOk a => k a | TErr e => TErr e | TPanic => TPanic | TFuel => TFuel end.

Definition of_result {A : Type} (r : result A) : tres A :=
  match r with Ok a => TOk a | Err e => TErr e end.

(** ** Quotes and brackets *)

(** What a byte means to the three scanners, given the two quote flags. *)
Inductive class := Escape | Basic | Literal | Open | Close | Hash | Comma | Plain.

Definition classify (in_basic in_literal : bool) (c : ascii) : class :=
  if bool_decide (c = "\"%char) && in_basic then Escape
  else if bool_decide (c = "034"%char) && negb in_literal then Basic
  else if bool_decide (c = "'"%char) && negb in_basic then Literal
  else if bool_decide (c = "["%char) && negb in_basic && negb in_literal then Open
  else if bool_decide (c = "]"%char) && negb in_basic && negb in_literal then Close
  else if bool_decide (c = "#"%char) && negb in_basic && negb in_literal then Hash
  else if bool_decide (c = ","%char) && negb in_basic && negb in_literal then Comma
  else Plain.

(** [bracket_depth]: the loop, from the flags and the depth so far. *)
Fixpoint bracket_go (b l : bool) (depth : Z) (s : string) : Z :=
  match s with
  | EmptyString => depth
  | String c s' =>
      match classify b l c with
      | Escape => match s' with EmptyString => depth | String _ s'' => bracket_go b l depth s'' end
      | Basic => bracket_go (negb b) l depth s'
      | Literal => bracket_go b (negb l) depth s'
      | Open => bracket_go b l (depth + 1) s'
      | Close => bracket_go b l (depth - 1) s'
      | Hash | Comma | Plain => bracket_go b l depth s'
      end
  end.

Definition bracket_depth (s : string) : Z := bracket_go false false 0 s.

(** [strip_comment]: the text before an unquoted hash sign. *)
Fixpoint strip_go (b l : bool) (s : string) : string :=
  match s with
  | EmptyString => ""
  | String c s' =>
      match classify b l c with
      | Escape =>
          match s' with
          | EmptyString => String c ""
          | String d s'' => String c (String d (strip_go b l s''))
          end
      | Basic => String c (strip_go (negb b) l s')
      | Literal => String c (strip_go b (negb l) s')
      | Hash => ""
      | Open | Close | Comma | Plain => String c (strip_go b l s')
      end
  end.

Definition strip_comment (line : string) : string := strip_go false false line.

(** [split_top_level]: [cur] is [s[start..i]]. *)
Fixpoint split_go (b l : bool) (depth : Z) (cur s : string) : list string :=
  match s with
  | EmptyString => [cur]
  | String c s' =>
      let next := cur +:+ String c "" in
      match classify b l c with
      | Escape =>
          match s' with
          | EmptyString => [next]
          | String d s'' => split_go b l depth (next +:+ String d "") s''
          end
      | Basic => split_go (negb b) l depth next s'
      | Literal => split_go b (negb l) depth next s'
      | Open => split_go b l (depth + 1) next s'
      | Close => split_go b l (depth - 1) next s'
      | Comma => if depth =? 0 then cur :: split_go b l depth "" s'
                 else split_go b l depth next s'
      | Hash | Plain => split_go b l depth next s'
      end
  end.

Definition split_top_level (s : string) : list string := split_go false false 0 "" s.

(** ** Lines *)

Definition unterminated_array (start : Z) : Error :=
  Parse ("unterminated array starting on line " +:+ show_dec (start + 1)).

(** The two loops of [logical_lines]: [pending] is the line and text of a
    value whose brackets are still open. *)
Fixpoint logical_go (i : Z) (pending : option (Z * string)) (physical : list string)
    : result (list (Z * string)) :=
  match physical with
  | [] => match pending with Some (start, _) => Err (unterminated_array start) | None => Ok [] end
  | p :: ps =>
      let text := trim (strip_comment p) in
      let value start joined :=
        if 0 <? bracket_depth joined then logical_go (i + 1) (Some (start, joined)) ps
        else rest ← logical_go (i + 1) None ps; Ok ((start, joined) :: rest) in
      match pending with
      | Some (start, joined) =>
          if str_is_empty text then logical_go (i + 1) pending ps
          else value start (joined +:+ " " +:+ text)
      | None =>
          if str_is_empty text then logical_go (i + 1) None ps
          else if starts_with "[" text && negb (contains_char "=" text) then
            rest ← logical_go (i + 1) None ps; Ok ((i, text) :: rest)
          else value i text
      end
  end.

Definition logical_lines (input : string) : result (list (Z * string)) :=
  logical_go 0 None (lines input).

(** ** Keys *)

(** [s[1..s.len() - 1]], for a text of at least two bytes. *)
Fixpoint but_last (s : string) : string :=
  match s with
  | EmptyString | String _ EmptyString => ""
  | String c s' => String c (but_last s')
  end.
Definition inner (s : string) : string :=
  match s with EmptyString => "" | String _ s' => but_last s' end.

Definition enclosed (q : string) (k : string) : bool :=
  (2 <=? str_len k) && (starts_with q k && ends_with q k).

Definition unquote_key (k : string) : result string :=
  if enclosed quote k then Ok (inner k)
  else if enclosed "'" k then Ok (inner k)
  else if str_is_empty k then Err (Parse "empty key")
  else Ok k.

Definition split_key_path (s : string) : result (list string) :=
  try_map (fun part =>
    let p := trim part in
    if str_is_empty p then Err (Parse "empty key segment in table header") else unquote_key p)
  (split_on "." s).

(** ** Tables

    [table_at] navigates to the table at a path and runs [k] on it; the
    [&mut] it returns in Rust is the place whose new value [k] gives. *)

Definition not_a_table (seg : string) : string := "`" +:+ seg +:+ "` is not a table".

(** [if node.get(seg).is_none() { node.set(seg, v) }]. *)
Definition set_default (node : Json) (seg : string) (v : Json) : Json :=
  match get node seg with None => set node seg v | Some _ => node end.

Fixpoint table_at (node : Json) (path : list string) (k : Json -> string + Json) : string + Json :=
  match path with
  | [] => k node
  | seg :: rest =>
      let node1 := set_default node seg obj in
      match get node1 seg with
      | None => inl (not_a_table seg)
      | Some (JArr a) =>
          match last a with
          | None => inl ("array of tables `" +:+ seg +:+ "` is empty")
          | Some (JObj m) =>
              match table_at (JObj m) rest k with
              | inl e => inl e
              | inr n => inr (set node1 seg (JArr (removelast a ++ [n])))
              end
          | Some _ => inl (not_a_table seg)
          end
      | Some (JObj m) =>
          match table_at (JObj m) rest k with
          | inl e => inl e
          | inr n => inr (set node1 seg n)
          end
      | Some _ => inl (not_a_table seg)
      end
  end.

Definition ensure_table (root : Json) (path : list string) : string + Json := table_at root path inr.

(** What [push_array_table] does to the parent table. *)
Definition push_element (key : string) (parent : Json) : string + Json :=
  let parent1 := set_default parent key (JArr []) in
  match get parent1 key with
  | Some (JArr a) => inr (set parent1 key (JArr (a ++ [obj])))
  | _ => inl ("`" +:+ key +:+ "` is not an array of tables")
  end.

Definition push_array_table (root : Json) (path : list string) : string + Json :=
  match last path with
  | None => inl "empty table path"
  | Some key => table_at root (removelast path) (push_element key)
  end.

(** ** Values *)

(** The loop of [parse_basic_string], on the bytes after the opening quote.
    A continuation byte cannot start a rest of a [str]; the [None] arm of the
    source steps over it. *)
Fixpoint basic_go (fuel : nat) (out r : string) : tres string :=
  match fuel with
  | O => TFuel
  | S f =>
      match r with
      | EmptyString => TErr (Parse "unterminated string")
      | String c r1 =>
          if ascii_dec c "034" then
            if str_is_empty r1 then TOk out
            else TErr (Parse "trailing data after string value")
          else if ascii_dec c "\" then
            match r1 with
            | EmptyString => TErr (Parse "unterminated escape")
            | String e r2 =>
                match e with
                | "n"%char => basic_go f (out +:+ String "010" "") r2
                | "t"%char => basic_go f (out +:+ String "009" "") r2
                | "r"%char => basic_go f (out +:+ String "013" "") r2
                | "034"%char => basic_go f (out +:+ quote) r2
                | "\"%char => basic_go f (out +:+ "\") r2
                | "0"%char => basic_go f (out +:+ String "000" "") r2
                | "u"%char =>
                    match take_bytes 4 r2 with
                    | None => TErr (Parse "truncated \u escape")
                    | Some (hex, r3) =>
                        match r3 with
                        | String d _ =>
                            if is_cont d then TPanic
                            else match parse_unsigned 32 16 hex with
                                 | inl _ => TErr (Parse "bad \u escape")
                                 | inr cp => basic_go f (out +:+ utf8_encode (char_or_replacement cp)) r3
                                 end
                        | EmptyString =>
                            match parse_unsigned 32 16 hex with
                            | inl _ => TErr (Parse "bad \u escape")
                            | inr cp => basic_go f (out +:+ utf8_encode (char_or_replacement cp)) r3
                            end
                        end
                    end
                | _ => TErr (Parse ("unknown escape \" +:+ utf8_encode (bz e)))
                end
            end
          else if bz c <? 0x80 then basic_go f (out +:+ String c "") r1
          else if is_cont c then basic_go f out r1
          else match take_bytes (seq_len c) r with
               | Some (ch, r2) => basic_go f (out +:+ ch) r2
               | None => basic_go f out r1
               end
      end
  end.

Definition parse_basic_string (s : string) : tres string :=
  match s with
  | String q r =>
      if (str_len s <? 2) || negb (bool_decide (q = "034"%char)) then TErr (Parse "unterminated string")
      else basic_go (S (String.length r)) "" r
  | EmptyString => TErr (Parse "unterminated string")
  end.

Fixpoint str_filter (f : ascii -> bool) (s : string) : string :=
  match s with
  | EmptyString => ""
  | String c s' => if f c then String c (str_filter f s') else str_filter f s'
  end.

(** The prefixes [0x], [0o] and [0b]. *)
Definition radix_of (body : string) : option (Z * string) :=
  match strip_prefix "0x" body with
  | Some h => Some (16, h)
  | None =>
      match strip_prefix "0o" body with
      | Some o => Some (8, o)
      | None => match strip_prefix "0b" body with Some b => Some (2, b) | None => None end
      end
  end.

Definition parse_number (s : string) : result Json :=
  let cleaned := str_filter (fun c => negb (bool_decide (c = "_"%char))) s in
  let '(sign, body) :=
    match strip_prefix "-" cleaned with
    | Some r => (-1, r)
    | None => match strip_prefix "+" cleaned with Some r => (1, r) | None => (1, cleaned) end
    end in
  match radix_of body with
  | Some (base, digits) =>
      match parse_signed 64 base digits with
      | inr v => Ok (JInt (wrap_s 64 (sign * v)))
      | inl e => Err (Parse ("bad integer " +:+ debug_str s +:+ ": " +:+ int_error_str e))
      end
  | None =>
      match parse_i 64 cleaned with
      | Some i => Ok (JInt i)
      | None =>
          match f64_parse cleaned with
          | Some f => Ok (JFloat f)
          | None => Err (Parse ("unrecognised value " +:+ debug_str s +:+ " (strings must be quoted)"))
          end
      end
  end.

Definition triple_quote : string := quote +:+ quote +:+ quote.

(** The loop over the items of an array. *)
Fixpoint parse_items (value : string -> tres Json) (l : list string) : tres (list Json) :=
  match l with
  | [] => TOk []
  | item :: l' =>
      let t := trim item in
      if str_is_empty t then parse_items value l'
      else tbind (value t) (fun v => tbind (parse_items value l') (fun vs => TOk (v :: vs)))
  end.

Fixpoint parse_value (fuel : nat) (s : string) : tres Json :=
  match fuel with
  | O => TFuel
  | S f =>
      if str_is_empty s then TErr (Parse "missing value")
      else if starts_with triple_quote s || starts_with "'''" s then
        TErr (Parse "multi-line strings are not supported")
      else if starts_with "{" s then TErr (Parse "inline tables are not supported")
      else if starts_with quote s then tbind (parse_basic_string s) (fun v => TOk (JStr v))
      else if starts_with "'" s then
        if negb (ends_with "'" s) || (str_len s <? 2) then TErr (Parse "unterminated literal string")
        else TOk (JStr (inner s))
      else if starts_with "[" s then
        if negb (ends_with "]" s) then
          TErr (Parse "unterminated array: the brackets do not balance")
        else
          tbind (parse_items (parse_value f) (split_top_level (inner s)))
            (fun out => TOk (JArr out))
      else if bool_decide (s = "true") then TOk (JBool true)
      else if bool_decide (s = "false") then TOk (JBool false)
      else of_result (parse_number s)
  end.

(** ** Documents *)

Definition line_err (lineno : Z) (m : string) : Error :=
  Parse (m +:+ " (line " +:+ show_dec (lineno + 1) +:+ ")").

(** [map_err(err)] of a result with a message. *)
Definition at_line {A : Type} (lineno : Z) (r : string + A) : tres A :=
  match r with inl m => TErr (line_err lineno m) | inr a => TOk a end.

(** [parse_value(..).map_err(|e| err(e.to_string()))]. *)
Definition value_at (lineno : Z) (s : string) : tres Json :=
  match parse_value (S (String.length s)) s with
  | TErr e => TErr (line_err lineno (error_str e))
  | r => r
  end.

(** One round of the loop of [parse]: the document and the current table. *)
Definition parse_line (root : Json) (cur : list string) (lineno : Z) (line : string)
    : tres (Json * list string) :=
  if starts_with "[[" line then
    if negb (ends_with "]]" line) then TErr (line_err lineno "unterminated [[array of tables]] header")
    else tbind (of_result (split_key_path (inner (inner line)))) (fun path =>
         tbind (at_line lineno (push_array_table root path)) (fun root' => TOk (root', path)))
  else if starts_with "[" line then
    if negb (ends_with "]" line) then TErr (line_err lineno "unterminated [table] header")
    else tbind (of_result (split_key_path (inner line))) (fun path =>
         tbind (at_line lineno (ensure_table root path)) (fun root' => TOk (root', path)))
  else
    match split_once "=" line with
    | None => TErr (line_err lineno ("expected `key = value`, got " +:+ debug_str line))
    | Some (k, v) =>
        tbind (of_result (unquote_key (trim k))) (fun key =>
        tbind (value_at lineno (trim v)) (fun value =>
        tbind (at_line lineno (table_at root cur (fun t => inr (set t key value)))) (fun root' =>
        TOk (root', cur))))
    end.

Fixpoint parse_lines (root : Json) (cur : list string) (ls : list (Z * string)) : tres Json :=
  match ls with
  | [] => TOk root
  | (lineno, line) :: ls' =>
      tbind (parse_line root cur lineno line) (fun '(root', cur') => parse_lines root' cur' ls')
  end.

Definition parse (input : string) : tres Json :=
  tbind (of_result (logical_lines input)) (parse_lines obj []).

End toml.
