(* ===== verification/Rollback.v ===== *)
(** * [src/rollback.rs]: transactional setup with LIFO rollback

    An undo action is a closure over the world it changes; the world [W] is a
    parameter, instantiated by the components that register actions. *)
From S2P Require Import Prelude RustStr Num Error.

Module rollback.

Section Rollback.
Context {W : Type}.

(** [type Action]: a fallible step on the world. *)
Definition Action : Type := W -> result unit * W.

(** [struct Rollback]. *)
Record Rollback := { actions : list (string * Action); committed : bool }.

(** [Rollback::new]. *)
Definition new : Rollback := {| actions := []; committed := false |}.

(** [Rollback::push]: [Vec::push] appends. *)
Definition push (rb : Rollback) (name : string) (f : Action) : Rollback :=
  {| actions := actions rb ++ [(name, f)]; committed := committed rb |}.

(** [Rollback::commit]. *)
Definition commit (rb : Rollback) : Rollback := {| actions := []; committed := true |}.

Definition len (rb : Rollback) : nat := length (actions rb).
Definition is_empty (rb : Rollback) : bool :=
  match actions rb with [] => true | _ :: _ => false end.

(** The loop of [unwind]: [Vec::pop] takes from the end, so the loop runs
    over the reversed vector; it gives the messages of the actions that
    failed, in the order they ran. *)
Fixpoint unwind_go (popped : list (string * Action)) (s : W) : list string * W :=
  match popped with
  | [] => ([], s)
  | (name, f) :: rest =>
      match f s with
      | (Ok _, s') => unwind_go rest s'
      | (Err e, s') =>
          let '(failed, s'') := unwind_go rest s' in
          ((name +:+ ": " +:+ error_str e) :: failed, s'')
      end
  end.

(** [Rollback::unwind]: the failures, the emptied rollback and the world. *)
Definition unwind (rb : Rollback) (s : W) : list string * Rollback * W :=
  let '(failed, s') := unwind_go (reverse (actions rb)) s in
  (failed, {| actions := []; committed := committed rb |}, s').

(** [impl Drop for Rollback]. *)
Definition drop (rb : Rollback) (s : W) : W :=
  if negb (committed rb) && negb (is_empty rb)
  then let '(_, _, s') := unwind rb s in s'
  else s.

(** ** Properties *)

Lemma unwind_push rb name f s :
  unwind (push rb name f) s =
  let '(r, s1) := f s in
  let '(failed, rb', s2) := unwind rb s1 in
  (match r with Ok _ => failed | Err e => (name +:+ ": " +:+ error_str e) :: failed end, rb', s2).
Proof.
  unfold unwind, push. cbn [actions committed]. rewrite reverse_app. cbn.
  destruct (f s) as [[u|e] s1]; by destruct (unwind_go _ s1).
Qed.

Lemma unwind_nil c s : unwind {| actions := []; committed := c |} s
  = ([], {| actions := []; committed := c |}, s).
Proof. done. Qed.

(** [unwind] is the fold of all registered actions, the newest first: no
    action's failure keeps another from running. *)
Definition run_all (rb : Rollback) (s : W) : W :=
  foldr (fun nf s => (nf.2 s).2) s (actions rb).

Lemma unwind_go_run l s : (unwind_go l s).2 = foldl (fun s nf => (nf.2 s).2) s l.
Proof.
  revert s. induction l as [|[name f] l IH]; intros s; cbn; [done|].
  destruct (f s) as [[u|e] s1]; cbn; [done|]. rewrite <- IH. by destruct (unwind_go l s1).
Qed.

Lemma unwind_run rb s : (unwind rb s).2 = run_all rb s.
Proof.
  unfold unwind, run_all. destruct (unwind_go _ s) as [fl s'] eqn:E. cbn.
  apply (f_equal snd) in E. rewrite unwind_go_run in E. cbn in E. rewrite <- E.
  generalize (actions rb). intros l. clear. revert s. induction l as [|x l IH] using rev_ind;
    intros s; [done|]. by rewrite reverse_snoc, foldr_app; cbn.
Qed.

Lemma drop_run rb s : committed rb = false -> drop rb s = run_all rb s.
Proof.
  intros H. unfold drop. rewrite H. destruct (is_empty rb) eqn:E; cbn.
  - unfold is_empty, run_all in *. by destruct (actions rb).
  - rewrite <- unwind_run. by destruct (unwind rb s) as [[]].
Qed.

Lemma drop_committed rb s : committed rb = true -> drop rb s = s.
Proof. intros H. unfold drop. by rewrite H. Qed.

Lemma run_all_push rb name f s : run_all (push rb name f) s = run_all rb (f s).2.
Proof. unfold run_all, push. cbn. by rewrite foldr_app. Qed.

(** ** Transactions

    A setup is a sequence of steps, each registering its undo action once it
    succeeded.  [restores undo s s'] says that [undo], run in [s'], gives [s]
    back, whatever it returns. *)
Definition restores (undo : Action) (s s' : W) : Prop := (undo s').2 = s.

(** [trace s0 rb s]: from [s0], the steps whose undo actions are in [rb] led
    to [s]. *)
Inductive trace (s0 : W) : Rollback -> W -> Prop :=
| trace_new : trace s0 new s0
| trace_step rb s name undo s' :
    trace s0 rb s -> restores undo s s' -> trace s0 (push rb name undo) s'.

Lemma trace_uncommitted s0 rb s : trace s0 rb s -> committed rb = false.
Proof. by induction 1. Qed.

Lemma trace_restored s0 rb s : trace s0 rb s -> run_all rb s = s0.
Proof.
  induction 1 as [|rb s name undo s' H IH Hu]; [done|]. rewrite run_all_push, Hu. exact IH.
Qed.

(** C5: dropping a rollback that was not committed puts the world back to what
    it was before the first step, however many steps succeeded and whichever
    undo actions report an error; a committed one leaves it alone. *)
Theorem drop_restores s0 rb s :
  trace s0 rb s -> drop rb s = s0 /\ drop (commit rb) s = s.
Proof.
  intros H. split; [|by apply drop_committed].
  rewrite drop_run by (by eapply trace_uncommitted). by apply trace_restored.
Qed.

(** What the [i]-th action of [l] reports, run after the [i] before it. *)
Definition report (l : list (string * Action)) (s : W) (i : nat) : option string :=
  match l !! i with
  | Some (name, f) =>
      match (f (foldl (fun s nf => (nf.2 s).2) s (take i l))).1 with
      | Ok _ => None
      | Err e => Some (name +:+ ": " +:+ error_str e)
      end
  | None => None
  end.

Lemma omap_cons {A B : Type} (g : A -> option B) x l :
  omap g (x :: l) = match g x with Some y => y :: omap g l | None => omap g l end.
Proof. done. Qed.

Lemma unwind_go_reports l s : (unwind_go l s).1 = omap (report l s) (seq 0 (length l)).
Proof.
  revert s. induction l as [|[name f] l IH]; intros s; [done|].
  cbn [unwind_go length seq]. rewrite <- fmap_S_seq.
  assert (omap (report ((name, f) :: l) s) (S <$> seq 0 (length l)) = (unwind_go l (f s).2).1) as E.
  { rewrite IH. generalize (seq 0 (length l)). intros k. induction k as [|i k IHk]; [done|].
    rewrite fmap_cons, !omap_cons, IHk. done. }
  rewrite omap_cons, E. unfold report at 1. cbn. destruct (f s) as [[u|e] s1]; cbn; [done|]. by destruct (unwind_go l s1).
Qed.

(** [unwind] runs every action, newest first, even after one failed,
    reports exactly one message for each that fails, and leaves nothing to
    undo twice. *)
Theorem unwind_complete rb s :
  let '(failed, rb', s') := unwind rb s in
  s' = run_all rb s /\ actions rb' = [] /\ drop rb' s' = s' /\
  failed = omap (report (reverse (actions rb)) s) (seq 0 (len rb)).
Proof.
  pose proof (unwind_run rb s) as H. pose proof (unwind_go_reports (reverse (actions rb)) s) as Hr.
  unfold unwind in *. destruct (unwind_go (reverse (actions rb)) s) as [failed s']. cbn in H, Hr.
  split_and!; [done|done| |].
  - unfold drop, is_empty. cbn. by rewrite andb_false_r.
  - rewrite Hr, length_reverse. done.
Qed.

End Rollback.
Arguments Action : clear implicits.
Arguments Rollback : clear implicits.

(** A two-step setup on a list of resources, whose second undo also reports
    an error. *)
Definition release (r : string) (report : result unit) : Action (list string) :=
  fun w => (report, filter (.≠ r) w).

Lemma drop_restores_witness :
  let rb := push (push new "cgroup" (release "cg" (Ok tt))) "veth" (release "v" (Err (Io "gone"))) in
  drop rb ["v"; "cg"; "x"] = ["x"] /\ drop (commit rb) ["v"; "cg"; "x"] = ["v"; "cg"; "x"].
Proof.
  apply (drop_restores ["x"]).
  apply trace_step with ["cg"; "x"]; [|reflexivity].
  apply trace_step with ["x"]; [constructor|reflexivity].
Defined.

End rollback.
