(* ===== verification/Fault.v ===== *)
(** * [src/fault.rs]: deterministic fault injection

    The value of [MYRUN_FAULT] is a parameter: [None] when it is unset (or
    not UTF-8, which [std::env::var] reports the same way). *)
From S2P Require Import Prelude RustStr Num Error.

Module fault.

(** [POINTS]. *)
Definition POINTS : list string :=
  [ "before_state_create"; "after_state_create"; "after_cgroup_create";
    "after_cgroup_limits"; "before_clone"; "after_clone"; "after_bridge_create";
    "after_veth_create"; "after_veth_master"; "after_ip_alloc"; "after_netns_move";
    "after_nat_rules"; "before_go_signal"; "after_go_signal"; "before_pivot_root";
    "after_pivot_root"; "before_exec"; "after_start"; "before_teardown" ].

Section Fault.
Context (MYRUN_FAULT : option string).

(** [armed]. *)
Definition armed : list string :=
  match MYRUN_FAULT with
  | Some v => filter (fun s => str_is_empty s = false) (trim <$> split_on "," v)
  | None => []
  end.

(** [check]. *)
Definition check (point : string) : result unit :=
  let a := armed in
  match a with
  | [] => Ok tt
  | _ :: _ => if bool_decide (point ∈ a) then Err (Fault point) else Ok tt
  end.

(** [is_armed]. *)
Definition is_armed (point : string) : bool := bool_decide (point ∈ armed).

Fixpoint validate_points (l : list string) : result unit :=
  match l with
  | [] => Ok tt
  | p :: l' =>
      if bool_decide (p ∈ POINTS) then validate_points l'
      else Err (Config ("MYRUN_FAULT names unknown injection point " +:+ debug_str p
                        +:+ "; known points: " +:+ join ", " POINTS))
  end.

(** [validate_env]. *)
Definition validate_env : result unit := validate_points armed.

Lemma check_armed p : check p = if is_armed p then Err (Fault p) else Ok tt.
Proof. unfold check, is_armed. by destruct armed. Qed.

Lemma validate_points_spec l :
  match validate_points l with
  | Ok _ => forall p, p ∈ l -> p ∈ POINTS
  | Err e => exit_code e = exit.CONFIG /\ exists p, p ∈ l /\ p ∉ POINTS
  end.
Proof.
  induction l as [|p l IH]; [by intros p ?%elem_of_nil|].
  cbn [validate_points]. case_bool_decide as Hp.
  - destruct (validate_points l) as [|e].
    + intros p' [->|?]%elem_of_cons; auto.
    + destruct IH as [He (p' & ? & ?)]. split; [done|]. exists p'. by rewrite elem_of_cons; auto.
  - split; [done|]. exists p. by rewrite elem_of_cons; auto.
Qed.

(** A validated [MYRUN_FAULT] names injection points only, [check] fails at
    exactly the armed ones, with the point's name; a misspelt point is a
    configuration error, never a silent no-op. *)
Theorem validated_faults :
  match validate_env with
  | Ok _ => forall p, check p = if is_armed p then Err (Fault p) else Ok tt
  | Err e => exit_code e = exit.CONFIG
  end /\
  (validate_env = Ok tt <-> forall p, check p <> Ok tt -> p ∈ POINTS).
Proof.
  pose proof (validate_points_spec armed) as H. unfold validate_env.
  assert (forall p, check p <> Ok tt <-> p ∈ armed) as Hc.
  { intros p. rewrite check_armed. unfold is_armed. case_bool_decide; naive_solver. }
  destruct (validate_points armed) as [[]|e].
  - split; [apply check_armed|]. split; [|done]. intros _ p ?%Hc. by apply H.
  - destruct H as [He (p & Hp & Hn)]. split; [done|]. split; [done|].
    intros Hall. destruct Hn. apply Hall. by apply Hc.
Qed.

End Fault.

(** The module's unit test. *)
Example injection_lifecycle :
  (validate_env None, check None "before_clone",
   check (Some "after_veth_create, after_nat_rules") "after_nat_rules",
   check (Some "after_veth_create, after_nat_rules") "before_clone",
   is_ok (validate_env (Some "typo_here")))
  = (Ok tt, Ok tt, Err (Fault "after_nat_rules"), Ok tt, false).
Proof. vm_compute. reflexivity. Qed.

Example points_are_unique : bool_decide (NoDup POINTS) = true.
Proof. vm_compute. reflexivity. Qed.

End fault.
