(* ===== verification/Util.v ===== *)
(** * The pure helpers of [src/util/mod.rs], and [veth_names] of
    [src/runtime/mod.rs]: sizes, dates, hashes, identifiers *)
From S2P Require Import Prelude RustStr Num Utf8 F64 Error.

Module util.

(** ** Time *)

(** [civil_from_epoch]: [div_euclid]/[rem_euclid] by a positive constant are
    [Z.div]/[Z.modulo]; the other divisions of the source truncate. *)
Definition civil_from_epoch (secs : Z) : Z * Z * Z * Z * Z * Z :=
  let days := secs `div` 86400 in
  let rem := secs `mod` 86400 in
  let z := days + 719468 in
  let era := (if 0 <=? z then z else z - 146096) `quot` 146097 in
  let doe := z - era * 146097 in
  let yoe := (doe - doe `quot` 1460 + doe `quot` 36524 - doe `quot` 146096) `quot` 365 in
  let y := yoe + era * 400 in
  let doy := doe - (365 * yoe + yoe `quot` 4 - yoe `quot` 100) in
  let mp := (5 * doy + 2) `quot` 153 in
  let d := as_u32 (doy - (153 * mp + 2) `quot` 5 + 1) in
  let m := as_u32 (if mp <? 10 then mp + 3 else mp - 9) in
  let y := if m <=? 2 then y + 1 else y in
  (y, m, d, as_u32 (rem `quot` 3600), as_u32 ((rem `rem` 3600) `quot` 60), as_u32 (rem `rem` 60)).

(** [{:0w}] of an integer: the sign counts towards the width. *)
Definition fmt0 (w : nat) (n : Z) : string :=
  if n <? 0 then String "-" (pad0 (w - 1) (show_u 10 (- n))) else pad0 w (show_u 10 n).

(** [format_time]. *)
Definition format_time (ms : Z) : string :=
  if ms =? 0 then "-"
  else
    let secs := as_i64 (ms `div` 1000) in
    let '(y, mo, d, h, mi, s) := civil_from_epoch secs in
    fmt0 4 y +:+ "-" +:+ fmt0 2 mo +:+ "-" +:+ fmt0 2 d +:+ "T"
    +:+ fmt0 2 h +:+ ":" +:+ fmt0 2 mi +:+ ":" +:+ fmt0 2 s +:+ "Z".

(** [format_duration_ms]. *)
Definition format_duration_ms (ms : Z) : string :=
  let s := ms `div` 1000 in
  if s <? 60 then show_dec s +:+ "s"
  else if s <? 3600 then show_dec (s `div` 60) +:+ "m" +:+ show_dec (s `mod` 60) +:+ "s"
  else if s <? 86400
       then show_dec (s `div` 3600) +:+ "h" +:+ show_dec ((s `mod` 3600) `div` 60) +:+ "m"
  else show_dec (s `div` 86400) +:+ "d" +:+ show_dec ((s `mod` 86400) `div` 3600) +:+ "h".

(** ** Sizes *)

(** The [if let]-chain of [parse_size]. *)
Fixpoint size_suffix (table : list (string * Z)) (t : string) : string * Z :=
  match table with
  | [] => (t, 1)
  | (suf, mult) :: table' =>
      match strip_suffix suf t with Some p => (p, mult) | None => size_suffix table' t end
  end.

Definition size_table : list (string * Z) :=
  [ ("kib", 1024); ("mib", 1024 * 1024); ("gib", 1024 * 1024 * 1024);
    ("kb", 1024); ("mb", 1024 * 1024); ("gb", 1024 * 1024 * 1024);
    ("k", 1024); ("m", 1024 * 1024); ("g", 1024 * 1024 * 1024); ("b", 1) ].

(** [parse_size]. *)
Definition parse_size (s : string) : result (option Z) :=
  let t := to_ascii_lowercase (trim s) in
  if str_is_empty t then Err (Config "empty size value")
  else if bool_decide (t = "-1") || bool_decide (t = "max") || bool_decide (t = "unlimited")
  then Ok None
  else
    let '(num_part, mult) := size_suffix size_table t in
    n ← ok_or (Config ("cannot parse size " +:+ debug_str s)) (f64_parse (trim num_part));
    if f64_ltb n (f64_of_Z 0) then Err (Config ("negative size " +:+ debug_str s))
    else Ok (Some (f64_as_u64 (f64_mul n (f64_of_Z mult)))).

(** ** Hashes and identifiers *)

(** [fnv1a] over the bytes of its argument. *)
Definition fnv1a_step (h b : Z) : Z := as_u64 (Z.lxor h b * 0x100000001b3).
Definition fnv1a (data : list Z) : Z := foldl fnv1a_step 0xcbf29ce484222325 data.

(** [as_bytes]. *)
Fixpoint as_bytes (s : string) : list Z :=
  match s with EmptyString => [] | String c s' => bz c :: as_bytes s' end.

(** [hex]: two digits per byte, most significant first. *)
Fixpoint hex (bytes : list Z) : string :=
  match bytes with
  | [] => ""
  | b :: rest => String (digit_char (Z.shiftr b 4)) (String (digit_char (Z.land b 0xf)) (hex rest))
  end.

(** [generate_id]: [bytes] is the 16-byte buffer after the attempt to fill it
    from [/dev/urandom] (all zero when that failed), [nanos] and [pid] what
    the fallback mixes. *)
Definition generate_id (bytes : list Z) (nanos pid : Z) : string :=
  if forallb (fun b => b =? 0) bytes then
    let mix := Z.lxor (fnv1a (to_le_bytes 8 nanos)) (fnv1a (to_le_bytes 8 pid)) in
    hex (to_le_bytes 8 mix ++ to_le_bytes 8 (fnv1a (to_be_bytes 8 mix)))
  else hex bytes.

Definition id_char (c : ascii) : bool :=
  is_ascii_alphanumeric c || bool_decide (c = "-"%char) || bool_decide (c = "_"%char)
  || bool_decide (c = "."%char).

(** [validate_id]: the source tests [char]s; the bytes of a non-ASCII [char]
    fail the test as the [char] does. *)
Definition validate_id (id : string) : result unit :=
  if str_is_empty id || (64 <? str_len id)
  then Err (Config "container id must be between 1 and 64 characters")
  else if negb (str_all id_char id)
  then Err (Config ("container id " +:+ debug_str id +:+ " may only contain [A-Za-z0-9._-]"))
  else if starts_with "." id then Err (Config "container id may not start with '.'")
  else Ok tt.

(** [short_id]: the first twelve [char]s. *)
Definition short_id (id : string) : string := str_concat (take 12 (chars id)).

(** [runtime::veth_names]. *)
Definition veth_names (id : string) : string * string :=
  let h := fnv1a (as_bytes id) in
  let suffix := pad0 8 (show_u 16 (as_u32 (Z.land h 0xffffffff))) in
  ("mrv" +:+ suffix, "mrp" +:+ suffix).

(** The module's unit tests. *)
Example sizes :
  parse_size <$> ["256m"; "1g"; "512k"; "1024"; "1.5m"; "max"; "-1"]
  = [Ok (Some 268435456); Ok (Some 1073741824); Ok (Some 524288); Ok (Some 1024);
     Ok (Some 1572864); Ok None; Ok None].
Proof. vm_compute. reflexivity. Qed.

Example time_formatting :
  (format_time 0, format_time 1609459200000, format_duration_ms 90000)
  = ("-", "2021-01-01T00:00:00Z", "1m30s").
Proof. vm_compute. reflexivity. Qed.

(** Sizes that are not numbers are accepted: [inf] saturates and [nan] is 0. *)
Example parse_size_not_a_number :
  parse_size <$> ["inf"; "nan"] = [Ok (Some (2 ^ 64 - 1)); Ok (Some 0)].
Proof. vm_compute. reflexivity. Qed.

End util.
