(* ===== verification/UtilFacts.v ===== *)
(** * Theorems about the helpers of [src/util/mod.rs]: the calendar algorithm
    agrees with the Gregorian calendar, generated ids are valid ids, valid
    ids are safe path components, interface names fit the kernel's limit *)
From S2P Require Import Prelude RustStr Num Utf8 F64 Error Util.
Import util.

(** ** Dates *)

(** The Gregorian calendar, independently of the algorithm of the code. *)
Definition leap (y : Z) : bool :=
  (y `mod` 4 =? 0) && (negb (y `mod` 100 =? 0) || (y `mod` 400 =? 0)).

Definition days_in_month (y m : Z) : Z :=
  match m with 2 => if leap y then 29 else 28 | 4 | 6 | 9 | 11 => 30 | _ => 31 end.

(** Days of a common year before month [m]. *)
Definition month_start (m : Z) : Z :=
  match m with
  | 1 => 0 | 2 => 31 | 3 => 59 | 4 => 90 | 5 => 120 | 6 => 151
  | 7 => 181 | 8 => 212 | 9 => 243 | 10 => 273 | 11 => 304 | _ => 334
  end.

Definition days_before_year (y : Z) : Z :=
  365 * (y - 1) + (y - 1) `div` 4 - (y - 1) `div` 100 + (y - 1) `div` 400.

(** Days since 0001-01-01. *)
Definition day_number (y m d : Z) : Z :=
  days_before_year y + month_start m + (if leap y && (2 <? m) then 1 else 0) + (d - 1).

Lemma leap_spec y :
  leap y = true <-> y `mod` 4 = 0 /\ (y `mod` 100 <> 0 \/ y `mod` 400 = 0).
Proof.
  unfold leap. by rewrite andb_true_iff, orb_true_iff, negb_true_iff, !Z.eqb_eq, Z.eqb_neq.
Qed.

Lemma days_before_next y :
  days_before_year (y + 1) = days_before_year y + 365 + (if leap y then 1 else 0).
Proof.
  unfold days_before_year. pose proof (leap_spec y) as H.
  destruct (leap y); Z.to_euclidean_division_equations; lia.
Qed.

Lemma days_before_era era yoe : 0 <= yoe <= 399 ->
  days_before_year (yoe + era * 400 + 1) = era * 146097 + 365 * yoe + yoe `div` 4 - yoe `div` 100.
Proof. intros. unfold days_before_year. Z.to_euclidean_division_equations; lia. Qed.

(** The year of the era and the day of that year, which starts in March. *)
Definition year_of_era (doe : Z) : Z :=
  (doe - doe `div` 1460 + doe `div` 36524 - doe `div` 146096) `div` 365.
Definition day_of_year (doe : Z) : Z :=
  let yoe := year_of_era doe in doe - (365 * yoe + yoe `div` 4 - yoe `div` 100).

Lemma year_of_era_range doe : 0 <= doe < 146097 ->
  0 <= year_of_era doe <= 399 /\ 0 <= day_of_year doe <= 365.
Proof.
  intros H. unfold day_of_year, year_of_era.
  split; Z.to_euclidean_division_equations; lia.
Qed.

Lemma last_day_leap doe era : 0 <= doe < 146097 -> day_of_year doe = 365 ->
  leap (year_of_era doe + era * 400 + 1) = true.
Proof.
  intros H E. apply leap_spec. unfold day_of_year, year_of_era in *.
  Z.to_euclidean_division_equations; lia.
Qed.

(** The month, counted from March, and the day of the month. *)
Definition civil_ok (era yoe doy y m d : Z) : Prop :=
  1 <= m <= 12 /\ 1 <= d <= days_in_month y m /\
  day_number y m d = era * 146097 + 365 * yoe + yoe `div` 4 - yoe `div` 100 + doy - 306.

Lemma month_day_ok era yoe doy :
  0 <= yoe <= 399 -> 0 <= doy <= 365 ->
  (doy = 365 -> leap (yoe + era * 400 + 1) = true) ->
  let mp := (5 * doy + 2) `div` 153 in
  let m := if mp <? 10 then mp + 3 else mp - 9 in
  let y := yoe + era * 400 in
  civil_ok era yoe doy (if m <=? 2 then y + 1 else y) m (doy - (153 * mp + 2) `div` 5 + 1).
Proof.
  intros Hy Hd Hl mp m y. unfold civil_ok, day_number.
  pose proof (days_before_era era yoe Hy) as E1. fold y in E1, Hl.
  pose proof (days_before_next y) as E2.
  assert (153 * mp <= 5 * doy + 2 < 153 * mp + 153 /\ 0 <= mp <= 11) as [Hmp Hr].
  { subst mp. Z.to_euclidean_division_equations; lia. }
  remember ((153 * mp + 2) `div` 5) as q eqn:Eq.
  remember (if m <=? 2 then y + 1 else y) as y' eqn:Ey.
  clearbody y. clearbody mp.
  assert (mp = 0 \/ mp = 1 \/ mp = 2 \/ mp = 3 \/ mp = 4 \/ mp = 5 \/ mp = 6 \/ mp = 7
          \/ mp = 8 \/ mp = 9 \/ mp = 10 \/ mp = 11) as Hc by lia.
  destruct_or! Hc; subst mp; vm_compute in Eq; vm_compute in m; subst m q;
    cbn [Z.leb Z.compare Pos.compare Pos.compare_cont] in Ey; subst y';
    cbn [days_in_month month_start andb Z.ltb Z.compare Pos.compare Pos.compare_cont];
    rewrite ?andb_true_r, ?andb_false_r; (split; [lia|]);
    destruct (leap y), (leap (y + 1)); naive_solver lia.
Qed.

Lemma civil_from_epoch_nonneg secs : 0 <= secs ->
  let z := secs `div` 86400 + 719468 in
  let era := z `div` 146097 in
  let doe := z `mod` 146097 in
  let yoe := year_of_era doe in
  let doy := day_of_year doe in
  let mp := (5 * doy + 2) `div` 153 in
  let m := if mp <? 10 then mp + 3 else mp - 9 in
  let r := secs `mod` 86400 in
  civil_from_epoch secs =
  (if m <=? 2 then yoe + era * 400 + 1 else yoe + era * 400, m, doy - (153 * mp + 2) `div` 5 + 1,
   r `div` 3600, (r `mod` 3600) `div` 60, r `mod` 60).
Proof.
  intros Hs z era doe yoe doy mp m r.
  assert (0 <= doe < 146097) as Hdoe by (apply Z.mod_pos_bound; lia).
  destruct (year_of_era_range doe Hdoe) as [Hyoe Hdoy]. fold yoe doy in Hyoe, Hdoy.
  assert (0 <= r < 86400) as Hr by (apply Z.mod_pos_bound; lia).
  assert (0 <= mp <= 11 /\ 1 <= doy - (153 * mp + 2) `div` 5 + 1 <= 400) as [Hmp Hd].
  { subst mp. clearbody doy. Z.to_euclidean_division_equations; lia. }
  unfold civil_from_epoch. fold z.
  assert (0 <= z) as Hz by (subst z; Z.to_euclidean_division_equations; lia).
  rewrite (proj2 (Z.leb_le 0 z) Hz), (Z.quot_div_nonneg z) by lia. fold era.
  assert (z - era * 146097 = doe) as -> by (subst doe era; pose proof (Z.div_mod z 146097); lia).
  assert (forall a b, 0 <= a -> 0 < b -> a `quot` b = a `div` b) as Q
    by (intros; by apply Z.quot_div_nonneg).
  assert (0 <= doe - doe `div` 1460 + doe `div` 36524 - doe `div` 146096) as Hn.
  { clear -Hdoe. clearbody doe. Z.to_euclidean_division_equations; lia. }
  rewrite !(Q doe) by lia. rewrite (Q _ 365) by lia. fold (year_of_era doe). fold yoe.
  rewrite !(Q yoe) by lia.
  change (doe - (365 * yoe + yoe `div` 4 - yoe `div` 100)) with doy.
  rewrite (Q (5 * doy + 2)) by lia. fold mp. rewrite (Q (153 * mp + 2)) by lia. fold m.
  assert (1 <= m <= 12) as Hm by (subst m; case_match; bool_prop; lia).
  fold r. rewrite !Z.rem_mod_nonneg by lia.
  pose proof (Z.mod_pos_bound r 3600). pose proof (Z.mod_pos_bound r 60).
  rewrite !Q by lia. rewrite !wrap_u_id; [done|..];
    split; try lia; try (apply Z.div_pos; lia); apply Z.div_lt_upper_bound; lia.
Qed.

(** The printed date is the Gregorian date of the time stamp: a real day of
    a real month whose day number is that of 1970-01-01 plus the days elapsed,
    and a time of day that adds up to the seconds left. *)
Theorem civil_from_epoch_correct (secs : Z) : 0 <= secs ->
  let '(y, m, d, h, mi, s) := civil_from_epoch secs in
  1 <= m <= 12 /\ 1 <= d <= days_in_month y m /\
  day_number y m d = day_number 1970 1 1 + secs `div` 86400 /\
  0 <= h < 24 /\ 0 <= mi < 60 /\ 0 <= s < 60 /\
  3600 * h + 60 * mi + s = secs `mod` 86400.
Proof.
  intros Hs. rewrite civil_from_epoch_nonneg by done. cbv beta iota zeta.
  set (z := secs `div` 86400 + 719468). set (doe := z `mod` 146097).
  assert (0 <= doe < 146097) as Hdoe by (apply Z.mod_pos_bound; lia).
  destruct (year_of_era_range doe Hdoe) as [Hyoe Hdoy].
  destruct (month_day_ok (z `div` 146097) _ _ Hyoe Hdoy (last_day_leap _ _ Hdoe)) as (H1 & H2 & H3).
  split_and!; [lia..| | | | | | | |]; try (clear; Z.to_euclidean_division_equations; lia).
  rewrite H3. change (day_number 1970 1 1) with 719162. unfold day_of_year.
  pose proof (Z.div_mod z 146097). subst doe z. lia.
Qed.

Lemma civil_from_epoch_correct_witness :
  1 <= 2 <= 12 /\ 1 <= 29 <= days_in_month 2024 2 /\
  day_number 2024 2 29 = day_number 1970 1 1 + 1709210096 `div` 86400 /\
  0 <= 12 < 24 /\ 0 <= 34 < 60 /\ 0 <= 56 < 60 /\
  3600 * 12 + 60 * 34 + 56 = 1709210096 `mod` 86400.
Proof. exact (civil_from_epoch_correct 1709210096 ltac:(lia)). Defined.

(** ** Identifiers *)

Lemma validate_id_spec id :
  validate_id id = Ok tt <->
  (0 < str_len id <= 64 /\ str_all id_char id = true /\ starts_with "." id = false).
Proof.
  unfold validate_id, str_len. destruct (str_is_empty id) eqn:E1; cbn.
  { destruct id; [|done]. split; [done|]. cbn. lia. }
  assert (0 < Z.of_nat (String.length id)) by (destruct id; cbn; [done|lia]).
  destruct (64 <? _) eqn:E2; bool_prop; [split; [done|lia]|].
  destruct (str_all id_char id); cbn; [|naive_solver].
  destruct (starts_with "." id); naive_solver lia.
Qed.

(** An accepted container id is a single safe path component: joining it to
    a directory names an entry of that directory, since it has no separator
    and is neither empty, [.], [..] nor any hidden name. *)
Theorem valid_id_path_safe (id : string) : validate_id id = Ok tt ->
  contains_char "/" id = false /\ contains_char "000" id = false /\
  contains_char " " id = false /\ contains_char "010" id = false /\
  id <> "" /\ id <> "." /\ id <> ".." /\ 0 < str_len id <= 64.
Proof.
  intros (Hl & Ha & Hd)%validate_id_spec.
  split_and!; try (by apply (str_all_not_contains id_char)); try lia; intros ->;
    vm_compute in Hl, Hd; first [discriminate Hd | by destruct Hl].
Qed.

Lemma valid_id_path_safe_witness :
  contains_char "/" "web-1" = false /\ contains_char "000" "web-1" = false /\
  contains_char " " "web-1" = false /\ contains_char "010" "web-1" = false /\
  "web-1" <> "" /\ "web-1" <> "." /\ "web-1" <> ".." /\ 0 < str_len "web-1" <= 64.
Proof. apply valid_id_path_safe. vm_compute. reflexivity. Defined.

Definition is_hex (c : ascii) : bool := is_ascii_digit c || in_range 97 102 c.

Lemma digit_char_hex d : 0 <= d < 16 -> is_hex (digit_char d) = true.
Proof.
  intros H. unfold digit_char, is_hex, is_ascii_digit, in_range.
  case_match; bool_prop; rewrite bz_ascii_of_N, Z2N.id by lia;
    rewrite orb_true_iff, !andb_true_iff, !Z.leb_le; lia.
Qed.

Lemma hex_spec bytes : Forall (in_u 8) bytes ->
  str_all is_hex (hex bytes) = true /\ String.length (hex bytes) = (2 * length bytes)%nat.
Proof.
  induction 1 as [|b l Hb _ [IH1 IH2]]; [done|]. cbn [hex str_all String.length length].
  split; [|lia].
  rewrite IH1, !digit_char_hex; [done|..].
  - change 0xf with (Z.ones 4). rewrite Z.land_ones by lia. apply Z.mod_pos_bound. lia.
  - rewrite Z.shiftr_div_pow2 by lia. unfold in_u in Hb.
    split; [apply Z.div_pos; lia|apply Z.div_lt_upper_bound; lia].
Qed.

Lemma to_le_bytes_u8 n z : Forall (in_u 8) (to_le_bytes n z).
Proof.
  revert z. induction n as [|n IH]; intros z; cbn; constructor; [|done].
  apply Z.mod_pos_bound. lia.
Qed.

Lemma hex_id_char c : is_hex c = true -> id_char c = true.
Proof. by destruct c as [[] [] [] [] [] [] [] []]. Qed.

Lemma hex_no_dot s : str_all is_hex s = true -> starts_with "." s = false.
Proof.
  destruct s as [|c s]; [done|]. cbn [str_all]. intros [H _]%andb_prop.
  destruct c as [[] [] [] [] [] [] [] []]; first [reflexivity | by vm_compute in H].
Qed.

(** Every generated id is 32 lower-case hexadecimal characters and passes
    [validate_id], with or without entropy from the kernel. *)
Theorem generate_id_valid (bytes : list Z) (nanos pid : Z) :
  length bytes = 16%nat -> Forall (in_u 8) bytes ->
  let id := generate_id bytes nanos pid in
  String.length id = 32%nat /\ str_all is_hex id = true /\ validate_id id = Ok tt.
Proof.
  intros Hl Hb id.
  assert (String.length id = 32%nat /\ str_all is_hex id = true) as [H1 H2].
  { subst id. unfold generate_id. case_match.
    - match goal with |- context [hex ?l] => destruct (hex_spec l) as [-> ->] end.
      + apply Forall_app. split; apply to_le_bytes_u8.
      + rewrite length_app, !length_to_le_bytes. done.
    - destruct (hex_spec bytes Hb) as [-> ->]. rewrite Hl. done. }
  split_and!; [done..|]. apply validate_id_spec. unfold str_len. split_and!; [lia..| |].
  - by apply (str_all_impl is_hex); [apply hex_id_char|].
  - by apply hex_no_dot.
Qed.

Lemma generate_id_valid_witness :
  let id := generate_id (replicate 16 0) 12345 77 in
  String.length id = 32%nat /\ str_all is_hex id = true /\ validate_id id = Ok tt.
Proof. apply generate_id_valid; [reflexivity|]. repeat constructor; cbn; lia. Defined.

(** ** Interface names *)

Lemma digits_go_length fuel base n k :
  2 <= base -> 0 <= n < base ^ Z.of_nat k -> (0 < k)%nat ->
  (String.length (digits_go fuel base n) <= k)%nat.
Proof.
  revert n k. induction fuel as [|f IH]; intros n k Hb Hn Hk; cbn [digits_go]; [cbn; lia|].
  rewrite str_length_app. cbn [String.length]. destruct (n <? base) eqn:E; [cbn; lia|].
  bool_prop. destruct k as [|[|k]]; [lia| |].
  - rewrite Z.pow_1_r in Hn. lia.
  - assert (String.length (digits_go f base (n `div` base)) <= S k)%nat; [|lia].
    apply IH; [done| |lia]. rewrite Nat2Z.inj_succ, Z.pow_succ_r in Hn by lia.
    split; [apply Z.div_pos; lia|]. apply Z.div_lt_upper_bound; lia.
Qed.

Lemma str_repeat_length n c : String.length (str_repeat n c) = n.
Proof. induction n; cbn; congruence. Qed.

Lemma pad0_length w s : (String.length s <= w)%nat -> String.length (pad0 w s) = w.
Proof. intros. unfold pad0. rewrite str_length_app, str_repeat_length. lia. Qed.

(** For every container id the two interface names are 11 bytes long, within
    the kernel's limit of 15, and different from each other. *)
Theorem veth_names_fit (id : string) :
  let '(host, peer) := veth_names id in
  str_len host = 11 /\ str_len peer = 11 /\ host <> peer.
Proof.
  unfold veth_names. set (suffix := pad0 8 _).
  assert (String.length suffix = 8%nat) as Hs.
  { apply pad0_length. apply digits_go_length; [lia| |lia].
    apply (wrap_u_range 32). lia. }
  unfold str_len. rewrite !str_length_app, Hs. split_and!; [done..|]. by intros [=].
Qed.

(** [parse_size] gives a 64-bit number of bytes or no limit, and its only
    errors are configuration errors. *)
Theorem parse_size_range (s : string) :
  match parse_size s with
  | Ok (Some n) => in_u 64 n
  | Ok None => True
  | Err e => exit_code e = exit.CONFIG
  end.
Proof.
  unfold parse_size. repeat case_match; try done;
    repeat match goal with
    | H : (_ ≫= _) = _ |- _ => destruct (ok_or _ _) eqn:?; cbn in H
    | H : ok_or _ ?o = _ |- _ => destruct o; cbn in H
    end; crush_match; auto using f64_as_u64_range.
Qed.
