(* ===== verification/Seccomp.v ===== *)
(** * [src/sys/seccomp.rs]: the seccomp-BPF filter

    The assembler is translated with the target architecture as a parameter
    ([cfg!(target_arch)]).  The machine that runs the program is the kernel's:
    it is an interface, [CbpfMachine], with the documented behaviour of the
    five instructions the assembler emits; [bpf_exec] is an instance of it. *)
From S2P Require Import Prelude RustStr Num Error.

Module seccomp.

(** ** Constants and instructions of [src/sys/ffi.rs] *)

Definition SECCOMP_RET_KILL_PROCESS : Z := 0x80000000.
Definition SECCOMP_RET_ERRNO : Z := 0x00050000.
Definition SECCOMP_RET_ALLOW : Z := 0x7fff0000.
Definition SECCOMP_RET_DATA : Z := 0x0000ffff.
Definition EPERM : Z := 1.

Definition BPF_LD : Z := 0x00.
Definition BPF_JMP : Z := 0x05.
Definition BPF_RET : Z := 0x06.
Definition BPF_W : Z := 0x00.
Definition BPF_ABS : Z := 0x20.
Definition BPF_JEQ : Z := 0x10.
Definition BPF_JGE : Z := 0x30.
Definition BPF_K : Z := 0x00.

Inductive Arch := X86_64 | Aarch64.
#[global] Instance Arch_eq_dec : EqDecision Arch.
Proof. solve_decision. Defined.

Definition AUDIT_ARCH_NATIVE (arch : Arch) : Z :=
  match arch with X86_64 => 0xc000003e | Aarch64 => 0xc00000b7 end.

(** [struct SockFilter]. *)
Record SockFilter := { code : Z; jt : Z; jf : Z; k : Z }.

(** ** Modes *)

Inductive SeccompMode := Unconfined | Default | Strict.
#[global] Instance SeccompMode_eq_dec : EqDecision SeccompMode.
Proof. solve_decision. Defined.

(** [SeccompMode::parse]. *)
Definition parse (s : string) : result SeccompMode :=
  let t := to_ascii_lowercase (trim s) in
  if bool_decide (t = "unconfined") || bool_decide (t = "off") || bool_decide (t = "none")
  then Ok Unconfined
  else if bool_decide (t = "default") || bool_decide (t = "on") then Ok Default
  else if bool_decide (t = "strict") then Ok Strict
  else Err (Config ("unknown seccomp mode " +:+ debug_str t
                    +:+ " (expected unconfined|default|strict)")).

(** [SeccompMode::as_str]. *)
Definition as_str (m : SeccompMode) : string :=
  match m with Unconfined => "unconfined" | Default => "default" | Strict => "strict" end.

(** [SYSCALLS]. *)
Definition SYSCALLS : list (string * Z * Z) :=
  [ ("mount", 165, 40); ("umount2", 166, 39); ("pivot_root", 155, 41);
    ("chroot", 161, 51); ("swapon", 167, 224); ("swapoff", 168, 225);
    ("reboot", 169, 142); ("sethostname", 170, 161); ("setdomainname", 171, 162);
    ("init_module", 175, 105); ("finit_module", 313, 273); ("delete_module", 176, 106);
    ("kexec_load", 246, 104); ("kexec_file_load", 320, 294);
    ("open_by_handle_at", 304, 265); ("name_to_handle_at", 303, 264);
    ("add_key", 248, 217); ("request_key", 249, 218); ("keyctl", 250, 219);
    ("setns", 308, 268); ("unshare", 272, 97); ("bpf", 321, 280);
    ("perf_event_open", 298, 241); ("clock_settime", 227, 112);
    ("clock_adjtime", 305, 266); ("settimeofday", 164, 170); ("adjtimex", 159, 171);
    ("acct", 163, 89); ("quotactl", 179, 60); ("ioperm", 173, -1); ("iopl", 172, -1);
    ("uselib", 134, -1); ("nfsservctl", 180, -1); ("fsopen", 430, 430);
    ("fsconfig", 431, 431); ("fsmount", 432, 432); ("move_mount", 429, 429);
    ("open_tree", 428, 428); ("mount_setattr", 442, 442);
    ("ptrace", 101, 117); ("process_vm_readv", 310, 270);
    ("process_vm_writev", 311, 271); ("syslog", 103, 116) ].

(** [DEFAULT_DENY]. *)
Definition DEFAULT_DENY : list string :=
  [ "mount"; "umount2"; "pivot_root"; "chroot"; "swapon"; "swapoff"; "reboot";
    "sethostname"; "setdomainname"; "init_module"; "finit_module"; "delete_module";
    "kexec_load"; "kexec_file_load"; "open_by_handle_at"; "name_to_handle_at";
    "add_key"; "request_key"; "keyctl"; "setns"; "unshare"; "bpf"; "perf_event_open";
    "clock_settime"; "clock_adjtime"; "settimeofday"; "adjtimex"; "acct"; "quotactl";
    "ioperm"; "iopl"; "uselib"; "nfsservctl"; "fsopen"; "fsconfig"; "fsmount";
    "move_mount"; "open_tree"; "mount_setattr" ].

(** [STRICT_EXTRA]. *)
Definition STRICT_EXTRA : list string :=
  [ "ptrace"; "process_vm_readv"; "process_vm_writev"; "syslog" ].

Section Filter.
Context (arch : Arch).

Fixpoint find_syscall (name : string) (l : list (string * Z * Z)) : option (string * Z * Z) :=
  match l with
  | [] => None
  | (n, x, a) :: l' => if decide (n = name) then Some (n, x, a) else find_syscall name l'
  end.

(** [syscall_nr]. *)
Definition syscall_nr (name : string) : option Z :=
  '(_, x, a) ← find_syscall name SYSCALLS;
  let v := match arch with X86_64 => x | Aarch64 => a end in
  if v <? 0 then None else Some (as_u32 v).

(** [denied_syscalls]. *)
Definition denied_syscalls (mode : SeccompMode) : list string :=
  match mode with
  | Unconfined => []
  | Default => DEFAULT_DENY
  | Strict => DEFAULT_DENY ++ STRICT_EXTRA
  end.

Definition stmt (code k : Z) : SockFilter := {| code := code; jt := 0; jf := 0; k := k |}.
Definition jump (code k jt jf : Z) : SockFilter :=
  {| code := code; jt := jt; jf := jf; k := k |}.

Definition LD : Z := Z.lor (Z.lor BPF_LD BPF_W) BPF_ABS.
Definition JEQ : Z := Z.lor (Z.lor BPF_JMP BPF_JEQ) BPF_K.
Definition JGE : Z := Z.lor (Z.lor BPF_JMP BPF_JGE) BPF_K.
Definition RET : Z := Z.lor BPF_RET BPF_K.

(** The [for]-loop over the numbers; [idx] is [first_check + i]. *)
Fixpoint checks (deny_idx idx : Z) (nrs : list Z) : list SockFilter :=
  match nrs with
  | [] => []
  | nr :: rest => jump JEQ nr (as_u8 (deny_idx - idx - 1)) 0 :: checks deny_idx (idx + 1) rest
  end.

Definition deny_action (mode : SeccompMode) : Z :=
  if bool_decide (mode = Strict) then SECCOMP_RET_KILL_PROCESS
  else Z.lor SECCOMP_RET_ERRNO (Z.land EPERM SECCOMP_RET_DATA).

Definition has_x32_guard : bool := match arch with X86_64 => true | Aarch64 => false end.

(** [build_filter]. *)
Definition build_filter (mode : SeccompMode) : result (list SockFilter) :=
  let names := denied_syscalls mode in
  let nrs := omap syscall_nr names in
  let n := Z.of_nat (length nrs) in
  let first_check := if has_x32_guard then 4 else 3 in
  let allow_idx := first_check + n in
  let deny_idx := allow_idx + 1 in
  let kill_idx := allow_idx + 2 in
  if 250 <? kill_idx
  then Err (Unsupported "seccomp filter too large for 8-bit jump offsets")
  else Ok
    ([ stmt LD 4;
       jump JEQ (AUDIT_ARCH_NATIVE arch) 0 (as_u8 (kill_idx - 2));
       stmt LD 0 ]
     ++ (if has_x32_guard then [jump JGE 0x40000000 (as_u8 (kill_idx - 4)) 0] else [])
     ++ checks deny_idx first_check nrs
     ++ [ stmt RET SECCOMP_RET_ALLOW;
          stmt RET (deny_action mode);
          stmt RET SECCOMP_RET_KILL_PROCESS ]).

End Filter.

(** ** The machine *)

(** What a filter sees of a system call: [struct seccomp_data]. *)
Record seccomp_data := { nr : Z; data_arch : Z }.

(** [exec prog d pc a]: the verdict of running [prog] on [d] from instruction
    [pc] with accumulator [a]. *)
Class CbpfMachine (exec : list SockFilter -> seccomp_data -> nat -> Z -> option Z) : Prop := {
  exec_ld_nr prog d pc a :
    prog !! pc = Some (stmt LD 0) -> exec prog d pc a = exec prog d (S pc) (nr d);
  exec_ld_arch prog d pc a :
    prog !! pc = Some (stmt LD 4) -> exec prog d pc a = exec prog d (S pc) (data_arch d);
  exec_jeq prog d pc a k jt jf :
    prog !! pc = Some (jump JEQ k jt jf) ->
    exec prog d pc a = exec prog d (S pc + Z.to_nat (if (a =? k)%Z then jt else jf))%nat a;
  exec_jge prog d pc a k jt jf :
    prog !! pc = Some (jump JGE k jt jf) ->
    exec prog d pc a = exec prog d (S pc + Z.to_nat (if (k <=? a)%Z then jt else jf))%nat a;
  exec_ret prog d pc a k :
    prog !! pc = Some (stmt RET k) -> exec prog d pc a = Some k
}.

(** The verdict the module's documentation promises. *)
Definition verdict (arch : Arch) (mode : SeccompMode) (d : seccomp_data) : Z :=
  if negb (data_arch d =? AUDIT_ARCH_NATIVE arch) then SECCOMP_RET_KILL_PROCESS
  else if has_x32_guard arch && (0x40000000 <=? nr d) then SECCOMP_RET_KILL_PROCESS
  else if bool_decide (nr d ∈ omap (syscall_nr arch) (denied_syscalls mode))
  then deny_action mode
  else SECCOMP_RET_ALLOW.

Section Correct.
Context (exec : list SockFilter -> seccomp_data -> nat -> Z -> option Z) `{!CbpfMachine exec}.

Lemma length_checks di i l : length (checks di i l) = length l.
Proof. revert i. induction l; intros i; cbn; auto. Qed.

(** Running the comparisons: [pre] is what precedes them, [deny] and [allow]
    the two verdicts that follow. *)
Lemma exec_checks pre nrs allow deny post d :
  let idx := Z.of_nat (length pre) in
  let di := idx + Z.of_nat (length nrs) + 1 in
  di < 256 ->
  exec (pre ++ checks di idx nrs ++ stmt RET allow :: stmt RET deny :: post) d (length pre) (nr d)
  = Some (if bool_decide (nr d ∈ nrs) then deny else allow).
Proof.
  revert pre. induction nrs as [|n l IH]; intros pre idx di Hdi; cbn [checks app].
  - erewrite exec_ret by (apply list_lookup_middle; done). done.
  - assert (as_u8 (di - idx - 1) = Z.of_nat (S (length l))) as ->.
    { subst di. cbn [length] in *. rewrite wrap_u_id; [lia|]. split; lia. }
    erewrite exec_jeq by (by apply list_lookup_middle).
    destruct (nr d =? n) eqn:E; bool_prop.
    + rewrite bool_decide_eq_true_2 by (subst; constructor).
      assert (forall x : SockFilter, (pre ++ x :: checks di (idx + 1) l ++ stmt RET allow
          :: stmt RET deny :: post) !! (S (length pre) + Z.to_nat (Z.of_nat (S (length l))))%nat
          = Some (stmt RET deny)) as Hl.
      { intros x. rewrite Nat2Z.id. rewrite lookup_app_r by lia.
        replace (S (length pre) + S (length l) - length pre)%nat with (S (S (length l))) by lia.
        change ((x :: ?t) !! S ?n) with (t !! n).
        rewrite lookup_app_r by (rewrite length_checks; lia).
        rewrite length_checks. by replace (S (length l) - length l)%nat with 1%nat by lia. }
      by rewrite (exec_ret _ _ _ _ _ (Hl _)).
    + change (Z.to_nat 0) with 0%nat. rewrite Nat.add_0_r.
      set (x := jump JEQ n _ 0). specialize (IH (pre ++ [x])).
      rewrite length_app in IH. cbn [length] in IH. rewrite Nat.add_comm in IH. cbn [Nat.add] in IH.
      rewrite <- (assoc_L (++)) in IH. cbn [app] in IH.
      replace (Z.of_nat (S (length pre)) + Z.of_nat (length l) + 1) with di in IH
        by (subst di idx; cbn [length]; lia).
      replace (Z.of_nat (S (length pre))) with (idx + 1) in IH by lia.
      rewrite IH by done. f_equal.
      rewrite (bool_decide_ext (nr d ∈ n :: l) (nr d ∈ l)); [done|]. set_solver.
Qed.

Lemma lookup_kill {A : Type} (l : list A) x y z : (l ++ [x; y; z]) !! (length l + 2)%nat = Some z.
Proof. rewrite lookup_app_r by lia. by replace (length l + 2 - length l)%nat with 2%nat by lia. Qed.

(** [build_filter_correct], for use in other proofs. *)
Lemma build_filter_verdict (arch : Arch) (mode : SeccompMode) (prog : list SockFilter)
    (d : seccomp_data) :
  build_filter arch mode = Ok prog -> exec prog d 0 0 = Some (verdict arch mode d).
Proof.
  unfold build_filter, verdict. set (nrs := omap _ _). intros H.
  destruct (250 <? _) eqn:Hlen in H; [done|]. bool_prop. injection H as <-.
  set (fc := if has_x32_guard arch then 4 else 3) in *.
  assert (0 <= fc <= 4) by (subst fc; case_match; lia).
  set (kill := fc + Z.of_nat (length nrs) + 2) in *.
  rewrite !wrap_u_id by (split; subst kill fc; case_match; lia).
  rewrite !(assoc_L (++)).
  change (exec (?a :: ?b :: ?c :: (?g ++ ?cs) ++ ?e)) with (exec ((([a; b; c] ++ g) ++ cs) ++ e)).
  match goal with |- exec ((?p ++ ?c) ++ ?e) _ _ _ = _ => set (pre := p); set (cs := c) end.
  assert (length pre = Z.to_nat fc) as Hpre by (subst pre fc; by destruct (has_x32_guard arch)).
  assert (length (pre ++ cs) = Z.to_nat (kill - 2)) as Hkill.
  { rewrite length_app, Hpre. subst cs kill. rewrite length_checks. lia. }
  rewrite exec_ld_arch by done. erewrite exec_jeq by done.
  destruct (data_arch d =? _) eqn:Ea; cbn [negb].
  2: { erewrite exec_ret; [done|].
       replace (S 1 + Z.to_nat (kill - 2))%nat with (length (pre ++ cs) + 2)%nat by lia.
       apply lookup_kill. }
  cbn [Z.to_nat Nat.add]. rewrite exec_ld_nr by done.
  assert (exec ((pre ++ cs) ++ [stmt RET SECCOMP_RET_ALLOW; stmt RET (deny_action mode);
      stmt RET SECCOMP_RET_KILL_PROCESS]) d (length pre) (nr d)
    = Some (if bool_decide (nr d ∈ nrs) then deny_action mode else SECCOMP_RET_ALLOW)) as Hrun.
  { rewrite <- (assoc_L (++)). subst cs.
    replace fc with (Z.of_nat (length pre)) by lia. apply exec_checks. lia. }
  destruct (has_x32_guard arch) eqn:Ex; cbn [andb]; subst fc.
  - erewrite exec_jge by done. destruct (0x40000000 <=? nr d).
    + erewrite exec_ret; [done|].
      match goal with |- _ !! ?i = _ => replace i with (length (pre ++ cs) + 2)%nat by lia end.
      apply lookup_kill.
    + rewrite Hpre in Hrun. exact Hrun.
  - rewrite Hpre in Hrun. exact Hrun.
Qed.

(** C2: on every system call the program [build_filter] assembles gives the
    documented verdict: a foreign architecture and an x32 number kill the
    process, a denied number gets the mode's denial, anything else is allowed;
    all jumps stay inside the program. *)
Theorem build_filter_correct (arch : Arch) (mode : SeccompMode) (prog : list SockFilter)
    (d : seccomp_data) :
  build_filter arch mode = Ok prog -> exec prog d 0 0 = Some (verdict arch mode d).
Proof. apply build_filter_verdict. Qed.

End Correct.

(** ** An instance: the interpreter *)

(** [skip] instructions are passed over before the next one runs. *)
Fixpoint bpf_run (d : seccomp_data) (prog : list SockFilter) (skip : nat) (a : Z) : option Z :=
  match prog with
  | [] => None
  | i :: rest =>
      match skip with
      | S n => bpf_run d rest n a
      | O =>
          if code i =? LD then bpf_run d rest 0 (if k i =? 0 then nr d else data_arch d)
          else if code i =? JEQ then bpf_run d rest (Z.to_nat (if a =? k i then jt i else jf i)) a
          else if code i =? JGE then bpf_run d rest (Z.to_nat (if k i <=? a then jt i else jf i)) a
          else if code i =? RET then Some (k i)
          else None
      end
  end.

Definition bpf_exec (prog : list SockFilter) (d : seccomp_data) (pc : nat) (a : Z) : option Z :=
  bpf_run d prog pc a.

Lemma bpf_run_at d prog pc i a :
  prog !! pc = Some i ->
  bpf_run d prog pc a = bpf_run d (i :: drop (S pc) prog) 0 a /\
  forall n a', bpf_run d prog (S pc + n)%nat a' = bpf_run d (drop (S pc) prog) n a'.
Proof.
  revert pc. induction prog as [|x prog IH]; intros pc; [done|]. destruct pc as [|pc].
  - by intros [= ->].
  - intros H. by apply (IH pc).
Qed.

#[export] Instance bpf_machine : CbpfMachine bpf_exec.
Proof.
  split; unfold bpf_exec; intros prog d pc a; intros;
    match goal with H : _ !! _ = Some _ |- _ => destruct (bpf_run_at d _ _ _ a H) as [-> Hs] end;
    rewrite ?Hs; try reflexivity;
    specialize (Hs 0%nat); rewrite Nat.add_0_r in Hs; by rewrite Hs.
Qed.

(** Both modes assemble on both architectures: the size guard never
    rejects a filter the program asks for. *)
Theorem build_filter_ok (arch : Arch) (mode : SeccompMode) :
  exists prog, build_filter arch mode = Ok prog /\ (0 < length prog <= 251)%nat.
Proof. destruct arch, mode; eexists; (split; [vm_compute; reflexivity|]); cbn; lia. Qed.

(** Mounting is refused with [EPERM] by the default filter and kills the
    process under the strict one; an i386 call is killed. *)
Lemma build_filter_correct_witness :
  (exists prog, build_filter X86_64 Default = Ok prog /\
    bpf_exec prog {| nr := 165; data_arch := 0xc000003e |} 0 0 = Some 0x50001) /\
  (exists prog, build_filter Aarch64 Strict = Ok prog /\
    bpf_exec prog {| nr := 40; data_arch := 0xc00000b7 |} 0 0 = Some 0x80000000) /\
  (exists prog, build_filter X86_64 Default = Ok prog /\
    bpf_exec prog {| nr := 1; data_arch := 0x40000003 |} 0 0 = Some 0x80000000).
Proof.
  split_and!; (eexists; split; [vm_compute; reflexivity|]);
    [ rewrite (build_filter_correct bpf_exec X86_64 Default)
    | rewrite (build_filter_correct bpf_exec Aarch64 Strict)
    | rewrite (build_filter_correct bpf_exec X86_64 Default) ]; vm_compute; reflexivity.
Defined.

(** [as_str] and [parse] of a mode. *)
Lemma seccomp_parse_as_str m : parse (as_str m) = Ok m.
Proof. by destruct m. Qed.

End seccomp.
