(* ===== verification/Net.v ===== *)
(** * IPv4 addresses: [parse_ipv4], [format_ipv4] and [parse_cidr] of
    [src/sys/netlink.rs], [in_subnet] of [src/config.rs]

    A [[u8; 4]] is a list of four octets; [u32::from_be_bytes] and
    [to_be_bytes] convert. *)
From S2P Require Import Prelude RustStr Num Error.

Module net.

Definition u32_of (a : list Z) : Z := from_be_bytes a.
Definition octets_of (n : Z) : list Z := to_be_bytes 4 n.

(** [parse_ipv4]. *)
Definition parse_ipv4 (s : string) : result (list Z) :=
  let parts := split_on "." (trim s) in
  if negb (length parts =? 4)%nat then Err (Config ("invalid IPv4 address " +:+ debug_str s))
  else try_map (fun p =>
         ok_or (Config ("invalid IPv4 octet " +:+ debug_str p +:+ " in " +:+ debug_str s))
           (parse_u 8 p)) parts.

(** [format_ipv4]. *)
Definition format_ipv4 (a : list Z) : string := join "." (show_u 10 <$> a).

(** [parse_cidr]. *)
Definition parse_cidr (s : string) : result (list Z * Z) :=
  match split_once "/" s with
  | None => Err (Config ("expected CIDR a.b.c.d/len, got " +:+ debug_str s))
  | Some (ip, pfx) =>
      prefix ← ok_or (Config ("invalid prefix length in " +:+ debug_str s)) (parse_u 8 pfx);
      if 32 <? prefix then Err (Config ("prefix length " +:+ show_dec prefix +:+ " > 32"))
      else a ← parse_ipv4 ip; Ok (a, prefix)
  end.

(** [if prefix == 0 { 0 } else { u32::MAX << (32 - prefix) }]. *)
Definition mask_of (prefix : Z) : Z :=
  if prefix =? 0 then 0 else as_u32 (Z.shiftl (2 ^ 32 - 1) (32 - prefix)).

(** [config::in_subnet]. *)
Definition in_subnet (addr net : list Z) (prefix : Z) : bool :=
  let mask := mask_of prefix in
  Z.land (u32_of addr) mask =? Z.land (u32_of net) mask.

(** ** Facts *)

Definition is_addr (a : list Z) : Prop := length a = 4%nat /\ Forall (in_u 8) a.

#[export] Instance is_addr_dec a : Decision (is_addr a).
Proof.
  unfold is_addr, in_u. apply _.
Defined.

Lemma try_map_ok {A B : Type} (f : A -> result B) l l' :
  try_map f l = Ok l' <-> Forall2 (fun a b => f a = Ok b) l l'.
Proof.
  revert l'. induction l as [|x l IH]; intros l'; cbn.
  - split; [intros [= <-]; constructor|]. by intros ->%Forall2_nil_inv_l.
  - split.
    + intros (y & Hy & (ys & Hys & [= <-])%bind_ok)%bind_ok. constructor; [done|]. by apply IH.
    + intros (y & ys & Hy & Hys%IH & ->)%Forall2_cons_inv_l. rewrite Hy. cbn. by rewrite Hys.
Qed.

Lemma try_map_err {A B : Type} (f : A -> result B) l e :
  try_map f l = Err e -> exists x, f x = Err e.
Proof.
  induction l as [|x l IH]; cbn; [done|]. destruct (f x) as [y|e'] eqn:E; cbn.
  - destruct (try_map f l); cbn; [done|]. intros [= ->]. by apply IH.
  - intros [= ->]. eauto.
Qed.

(** The only errors are configuration errors. *)
Lemma parse_ipv4_err s e : parse_ipv4 s = Err e -> exists m, e = Config m.
Proof.
  unfold parse_ipv4. case_match; [intros [= <-]; eauto|].
  intros [p Hp]%try_map_err. destruct (parse_u 8 p); cbn in Hp; [done|]. simplify_eq. eauto.
Qed.

Lemma parse_cidr_err s e : parse_cidr s = Err e -> exists m, e = Config m.
Proof.
  unfold parse_cidr. destruct (split_once "/" s) as [[a b]|]; [|intros [= <-]; eauto].
  destruct (parse_u 8 b) as [p|]; cbn; [|intros [= <-]; eauto].
  destruct (32 <? p); [intros [= <-]; eauto|].
  destruct (parse_ipv4 a) eqn:E; cbn; [done|]. intros [= ->]. by eapply parse_ipv4_err.
Qed.

(** What is parsed is an address. *)
Lemma parse_ipv4_addr s a : parse_ipv4 s = Ok a -> is_addr a.
Proof.
  unfold parse_ipv4. destruct (length _ =? 4)%nat eqn:E; cbn; [|done].
  apply Nat.eqb_eq in E. intros H%try_map_ok. split.
  - by rewrite <- E, (Forall2_length _ _ _ H).
  - apply (Forall2_Forall_r _ _ _ _ H). apply Forall_true. intros p b Hb.
    destruct (parse_u 8 p) as [n|] eqn:Ep; cbn in Hb; [|done]. simplify_eq.
    by apply parse_u_range in Ep.
Qed.

Lemma parse_cidr_ok s a p : parse_cidr s = Ok (a, p) -> is_addr a /\ 0 <= p <= 32.
Proof.
  unfold parse_cidr. destruct (split_once "/" s) as [[ip pfx]|]; [|done].
  intros (n & Hn & H)%bind_ok. destruct (32 <? n) eqn:E; [done|]. bool_prop.
  apply bind_ok in H as (x & Hx%parse_ipv4_addr & [= <- <-]). split; [done|].
  destruct (parse_u 8 pfx) eqn:Ep; cbn in Hn; [|done]. simplify_eq.
  apply parse_u_range in Ep; [|done]. unfold in_u in Ep. lia.
Qed.

Lemma digit_graph c : is_ascii_digit c = true -> is_graph c = true.
Proof. unfold is_ascii_digit, is_graph, in_range. intros. bool_prop. by rewrite andb_true_iff, !Z.leb_le; lia. Qed.

Lemma show_u_graph n : 0 <= n -> str_all is_graph (show_u 10 n) = true.
Proof. intros. apply (str_all_impl is_ascii_digit); [apply digit_graph|]. by apply show_u_dec. Qed.

Lemma show_u_no_dot n : 0 <= n -> contains_char "." (show_u 10 n) = false.
Proof. intros. by apply (str_all_not_contains is_ascii_digit); [|apply show_u_dec]. Qed.

Lemma split_join c l :
  l <> [] -> Forall (fun x => contains_char c x = false) l ->
  split_on c (join (String c "") l) = l.
Proof.
  intros Hn HF. induction HF as [|x l Hx HF IH]; [done|].
  destruct l as [|y l]; [by apply split_on_no|].
  change (join (String c "") (x :: y :: l)) with (x +:+ String c (join (String c "") (y :: l))).
  rewrite split_on_app by done. f_equal. by apply IH.
Qed.

Lemma str_all_join f sep l :
  str_all f sep = true -> Forall (fun x => str_all f x = true) l ->
  str_all f (join sep l) = true.
Proof.
  intros Hs HF. induction HF as [|x l Hx HF IH]; [done|].
  destruct l as [|y l]; [done|].
  change (join sep (x :: y :: l)) with (x +:+ sep +:+ join sep (y :: l)).
  by rewrite !str_all_app, Hx, Hs, IH.
Qed.

Lemma parse_format_ipv4 a : is_addr a -> parse_ipv4 (format_ipv4 a) = Ok a.
Proof.
  intros [Hl Ha]. unfold parse_ipv4, format_ipv4.
  rewrite trim_graph.
  2: { apply str_all_join; [done|]. apply Forall_fmap. apply (Forall_impl _ _ _ Ha).
       intros z [? ?]. by apply show_u_graph. }
  rewrite split_join.
  2: { by destruct a. }
  2: { apply Forall_fmap. apply (Forall_impl _ _ _ Ha). intros z [? ?]. by apply show_u_no_dot. }
  rewrite length_fmap, Hl. cbn [Nat.eqb negb]. apply try_map_ok.
  apply Forall2_fmap_l. apply Forall_Forall2_diag. apply (Forall_impl _ _ _ Ha).
  intros z Hz. unfold compose.
  by rewrite parse_u_show.
Qed.

Lemma u32_of_range a : is_addr a -> in_u 32 (u32_of a).
Proof.
  intros [Hl Ha]. unfold u32_of, from_be_bytes, in_u.
  pose proof (from_le_bytes_range (reverse a)) as H. rewrite length_reverse, Hl in H.
  apply H. by apply Forall_reverse.
Qed.

Lemma octets_addr n : is_addr (octets_of n).
Proof.
  unfold octets_of, to_be_bytes. split; [by rewrite length_reverse, length_to_le_bytes|].
  apply Forall_reverse. generalize 4%nat. intros k. revert n.
  induction k as [|k IH]; intros n; cbn; constructor; [|done]. apply Z.mod_pos_bound. lia.
Qed.

Lemma u32_octets n : in_u 32 n -> u32_of (octets_of n) = n.
Proof.
  intros H. unfold u32_of, octets_of, from_be_bytes, to_be_bytes.
  rewrite reverse_involutive, from_to_le_bytes. by apply Z.mod_small.
Qed.

Lemma octets_u32 a : is_addr a -> octets_of (u32_of a) = a.
Proof.
  intros [Hl Ha]. unfold u32_of, octets_of, from_be_bytes, to_be_bytes.
  rewrite <- Hl, <- length_reverse, to_from_le_bytes by (by apply Forall_reverse).
  apply reverse_involutive.
Qed.

(** ** Masks *)

(** A subnet mask keeps the high bits: masking rounds down to a multiple of
    the subnet's size. *)
Lemma land_mask n prefix :
  in_u 32 n -> 0 <= prefix <= 32 ->
  Z.land n (mask_of prefix) = n - n `mod` 2 ^ (32 - prefix).
Proof.
  intros Hn Hp. unfold mask_of. destruct (prefix =? 0) eqn:E; bool_prop.
  - subst. rewrite Z.land_0_r. change (32 - 0) with 32. rewrite Z.mod_small by done. lia.
  - set (h := 32 - prefix). assert (0 <= h < 32) by lia.
    assert (as_u32 (Z.shiftl (2 ^ 32 - 1) h) = Z.shiftl (Z.ones prefix) h) as ->.
    { unfold wrap_u. change (2 ^ 32 - 1) with (Z.ones 32). rewrite <- Z.land_ones by lia.
      apply Z.bits_inj'. intros i Hi. rewrite Z.land_spec, !Z.shiftl_spec by done.
      rewrite !Z.testbit_ones by lia. apply eq_true_iff_eq.
      rewrite !andb_true_iff, !Z.leb_le, !Z.ltb_lt. subst h. lia. }
    assert (n = n `mod` 2 ^ h + 2 ^ h * (n `div` 2 ^ h)) as En
      by (rewrite Z.add_comm; apply Z.div_mod; lia).
    assert (Z.land n (Z.shiftl (Z.ones prefix) h) = Z.shiftl (n `div` 2 ^ h) h) as ->.
    { rewrite <- Z.shiftr_div_pow2 by lia. apply Z.bits_inj'. intros i Hi.
      rewrite Z.land_spec, !Z.shiftl_spec by done. rewrite Z.testbit_ones by lia.
      destruct (Z.leb_spec h i).
      - rewrite Z.shiftr_spec by lia. replace (i - h + h) with i by lia.
        destruct (Z.ltb_spec (i - h) prefix).
        + rewrite (proj2 (Z.leb_le 0 (i - h))) by lia. by rewrite andb_true_r.
        + rewrite andb_false_r, andb_false_r. symmetry.
          destruct (decide (n = 0)) as [->|]; [apply Z.testbit_0_l|].
          apply Z.bits_above_log2; [apply Hn|]. apply Z.log2_lt_pow2; [unfold in_u in Hn; lia|].
          destruct Hn. apply Z.lt_le_trans with (2 ^ 32); [done|]. apply Z.pow_le_mono_r; lia.
      - rewrite (Z.testbit_neg_r _ (i - h)) by lia.
        rewrite (proj2 (Z.leb_gt 0 (i - h))) by lia. by rewrite !andb_false_r. }
    rewrite Z.shiftl_mul_pow2 by lia. lia.
Qed.

(** The addresses of a subnet are an interval of the size of its host part. *)
Definition net_base (net : list Z) (prefix : Z) : Z :=
  u32_of net - u32_of net `mod` 2 ^ (32 - prefix).

Lemma in_subnet_interval addr net prefix :
  is_addr addr -> is_addr net -> 0 <= prefix <= 32 ->
  in_subnet addr net prefix = true <->
  net_base net prefix <= u32_of addr < net_base net prefix + 2 ^ (32 - prefix).
Proof.
  intros Ha Hn Hp. unfold in_subnet, net_base.
  rewrite !land_mask, Z.eqb_eq by (done || by apply u32_of_range).
  set (s := 2 ^ (32 - prefix)). assert (0 < s) by (apply Z.pow_pos_nonneg; lia).
  set (x := u32_of addr). set (y := u32_of net).
  pose proof (Z.mod_pos_bound x s). pose proof (Z.mod_pos_bound y s).
  pose proof (Z.div_mod x s). pose proof (Z.div_mod y s). split; [lia|]. intros ?.
  enough (x `div` s = y `div` s) by nia.
  replace x with (y - y `mod` s + (x - (y - y `mod` s))) by lia.
  replace (y - y `mod` s) with (y `div` s * s) by lia.
  rewrite Z.div_add_l by lia. rewrite (Z.div_small (x - _)) by lia. lia.
Qed.

(** Addresses survive printing and reading, and whatever text is accepted
    denotes four octets; an accepted CIDR has a prefix of at most 32 bits. *)
Theorem ipv4_roundtrip :
  (forall a, is_addr a -> parse_ipv4 (format_ipv4 a) = Ok a) /\
  (forall s a, parse_ipv4 s = Ok a -> is_addr a /\ parse_ipv4 (format_ipv4 a) = Ok a) /\
  (forall s a p, parse_cidr s = Ok (a, p) -> is_addr a /\ 0 <= p <= 32).
Proof.
  split_and!.
  - exact parse_format_ipv4.
  - intros s a H%parse_ipv4_addr. split; [done|]. by apply parse_format_ipv4.
  - exact parse_cidr_ok.
Qed.

Example ip_parsing :
  (parse_ipv4 "10.87.0.1", format_ipv4 [192; 168; 1; 5], parse_cidr "10.87.0.0/24",
   is_ok <$> [parse_ipv4 "10.87.0"; parse_ipv4 "10.87.0.300"],
   is_ok <$> [parse_cidr "10.87.0.0"; parse_cidr "10.87.0.0/33"])
  = (Ok [10; 87; 0; 1], "192.168.1.5", Ok ([10; 87; 0; 0], 24), [false; false], [false; false]).
Proof. vm_compute. reflexivity. Qed.

End net.
