(* ===== verification/TomlFacts.v ===== *)
(** * Theorems about the TOML reader: what it makes of documents, that it always
    answers, and that it agrees with the JSON reader *)
From S2P Require Import Prelude RustStr Num Utf8 F64 F64Facts Error Json JsonFacts Toml Net.
Import json toml.

Local Abbreviation slen := String.length.

(** ** Trimming *)

Abbreviation spaces n := (str_repeat n " "%char).

(** Text that starts and ends with a graphic character. *)
Definition framed (t : string) : Prop :=
  (exists c s, t = String c s /\ is_graph c = true) /\
  (exists s c, t = s +:+ String c "" /\ is_graph c = true).

Lemma strip_all_spaces w n t :
  (forall s, strip_one_of w (String " " s) = Some s) -> strip_one_of w t = None ->
  forall fuel, (n <= fuel)%nat -> strip_all_of fuel w (spaces n +:+ t) = t.
Proof.
  intros Hs Ht. induction n as [|n IH]; intros fuel Hf; cbn; [by apply strip_all_none|].
  destruct fuel as [|fuel]; [lia|]. cbn [strip_all_of]. rewrite Hs. apply IH. lia.
Qed.

Lemma rev_app (a b : string) : String.rev (a +:+ b) = String.rev b +:+ String.rev a.
Proof.
  rewrite <- rev_app_last. unfold String.rev.
  enough (forall t, String.rev_app (a +:+ b) t = String.rev_app b (String.rev_app a t)) as E by apply E.
  induction a as [|c a IH]; intros t; cbn; [done|]. apply IH.
Qed.

Lemma repeat_snoc n c : str_repeat n c +:+ String c "" = String c (str_repeat n c).
Proof. induction n as [|n IH]; cbn; [done|]. by rewrite IH. Qed.

Lemma rev_spaces n : String.rev (spaces n) = spaces n.
Proof.
  induction n as [|n IH]; [done|]. cbn [str_repeat].
  change (String " " (spaces n)) with (" " +:+ spaces n) at 1.
  rewrite rev_app, IH. apply repeat_snoc.
Qed.

Lemma rev_length s : slen (String.rev s) = slen s.
Proof.
  induction s as [|c s IH]; [done|]. change (String c s) with (String c "" +:+ s) at 1.
  rewrite rev_app, str_length_app, IH. cbn. lia.
Qed.

Lemma length_repeat n c : slen (str_repeat n c) = n.
Proof. induction n; cbn; congruence. Qed.

Lemma trim_framed n t m : framed t -> trim (spaces n +:+ t +:+ spaces m) = t.
Proof.
  intros [(c & s & -> & Hc) (s' & c' & E & Hc')]. unfold trim, trim_start.
  rewrite (strip_all_spaces whitespace n);
    [|reflexivity|by apply strip_one_graph|rewrite str_length_app, length_repeat; lia].
  unfold trim_end. rewrite rev_app, rev_spaces.
  rewrite (strip_all_spaces (map String.rev whitespace) m);
    [apply rev_involutive|reflexivity| |rewrite str_length_app, length_repeat; lia].
  rewrite E, rev_app. by apply strip_one_rev_graph.
Qed.

Lemma trim_none t : framed t -> trim t = t.
Proof.
  intros H. pose proof (trim_framed 0 t 0 H) as E. change (trim (t +:+ "") = t) in E.
  by rewrite app_nil_r in E.
Qed.

Lemma trim_spaces n : trim (spaces n) = "".
Proof.
  unfold trim, trim_start. rewrite <- (app_nil_r (spaces n)) at 2.
  by rewrite (strip_all_spaces whitespace n) by (done || rewrite ?app_nil_r, length_repeat; lia).
Qed.

Lemma framed_graph t : str_all is_graph t = true -> t <> "" -> framed t.
Proof.
  intros H Hn. split.
  - destruct t as [|c t]; [done|]. cbn in H. bool_prop. eauto.
  - rewrite <- str_all_rev in H. destruct (String.rev t) as [|c r] eqn:E.
    { destruct t; [done|]. apply (f_equal slen) in E. rewrite rev_length in E. done. }
    exists (String.rev r), c. cbn in H. bool_prop. split; [|done].
    rewrite <- (rev_involutive t), E. change (String c r) with (String c "" +:+ r). by rewrite rev_app.
Qed.

Lemma framed_app a m b : framed a -> framed b -> framed (a +:+ m +:+ b).
Proof.
  intros [(c & s & -> & Hc) _] [_ (s' & c' & -> & Hc')]. split; [eexists c, _; by cbn|].
  exists (String c s +:+ m +:+ s'), c'. split; [|done]. by rewrite <- !app_assoc.
Qed.

(** ** Scanning *)

(** Text the scanners pass over, outside quotes and at a depth that is not
    negative. *)
Record neutral (t : string) : Prop := {
  neutral_bracket : forall d r, bracket_go false false d (t +:+ r) = bracket_go false false d r;
  neutral_strip : forall r, strip_go false false (t +:+ r) = t +:+ strip_go false false r;
  neutral_split : forall d cur r, 0 <= d ->
    split_go false false d cur (t +:+ r) = split_go false false d (cur +:+ t) r
}.

(** The same with the commas of an array's body, one level down. *)
Record nested (t : string) : Prop := {
  nested_bracket : forall d r, bracket_go false false d (t +:+ r) = bracket_go false false d r;
  nested_strip : forall r, strip_go false false (t +:+ r) = t +:+ strip_go false false r;
  nested_split : forall d cur r, 0 < d ->
    split_go false false d cur (t +:+ r) = split_go false false d (cur +:+ t) r
}.

Lemma neutral_nested t : neutral t -> nested t.
Proof. intros [H1 H2 H3]. split; [done..|]. intros. apply H3. lia. Qed.

Lemma neutral_nil : neutral "".
Proof. split; intros; cbn; by rewrite ?app_nil_r. Qed.

Lemma neutral_app a b : neutral a -> neutral b -> neutral (a +:+ b).
Proof.
  intros [A1 A2 A3] [B1 B2 B3].
  split; intros; rewrite <- app_assoc, ?A1, ?A2, ?A3, ?B1, ?B2, ?B3, ?app_assoc by done; done.
Qed.

Lemma nested_app a b : nested a -> nested b -> nested (a +:+ b).
Proof.
  intros [A1 A2 A3] [B1 B2 B3].
  split; intros; rewrite <- app_assoc, ?A1, ?A2, ?A3, ?B1, ?B2, ?B3, ?app_assoc by done; done.
Qed.

Lemma neutral_plain t : str_all (fun c => match classify false false c with Plain => true | _ => false end) t = true ->
  neutral t.
Proof.
  induction t as [|c t IH]; intros H; [apply neutral_nil|]. cbn in H. apply andb_prop in H as [Hc H].
  change (String c t) with (String c "" +:+ t). apply neutral_app; [|by apply IH].
  destruct (classify false false c) eqn:E; try done.
  split; intros; rewrite app_cons; cbn [bracket_go strip_go split_go]; rewrite E; by cbn.
Qed.

(** Scans one concrete character. *)
Ltac scan_char :=
  rewrite app_cons; cbn [bracket_go strip_go split_go];
  match goal with
  | |- context [classify ?b ?l ?c] =>
      let v := eval vm_compute in (classify b l c) in change (classify b l c) with v
  end; cbv iota.

Lemma nested_comma : nested ",".
Proof.
  split; intros; scan_char; [done..|]. by rewrite (proj2 (Z.eqb_neq d 0)) by lia.
Qed.

(** An array's body may have commas. *)
Lemma neutral_brackets t : nested t -> neutral ("[" +:+ t +:+ "]").
Proof.
  intros [H1 H2 H3]. split; intros; rewrite <- !app_assoc; scan_char.
  - change ("" +:+ t +:+ "]" +:+ r) with (t +:+ "]" +:+ r). rewrite H1. scan_char. f_equal. lia.
  - change ("" +:+ t +:+ "]" +:+ r) with (t +:+ "]" +:+ r). rewrite H2. by scan_char.
  - change ("" +:+ t +:+ "]" +:+ r) with (t +:+ "]" +:+ r). rewrite H3 by lia. scan_char.
    replace (d + 1 - 1) with d by lia. rewrite <- !app_assoc. done.
Qed.

(** ** Strings *)

Definition esc_char (c : ascii) : string :=
  match c with
  | "034"%char => "\" +:+ quote
  | "\"%char => "\\"
  | "010"%char => "\n"
  | "013"%char => "\r"
  | _ => String c ""
  end.

Definition quoted (s : string) : string := quote +:+ str_flat_map esc_char s +:+ quote.

(** What is written for one character inside quotes. *)
Lemma esc_char_cases c :
  (exists d, esc_char c = String "\" (String d "")) \/
  (esc_char c = String c "" /\ classify true false c = Plain /\ c <> "034"%char /\ c <> "\"%char
   /\ c <> "010"%char /\ c <> "013"%char).
Proof.
  destruct c as [[] [] [] [] [] [] [] []]; first
    [ left; by eexists | right; split_and!; [reflexivity|vm_compute; reflexivity|discriminate..] ].
Qed.

Lemma scan_escaped s :
  (forall d r, bracket_go true false d (str_flat_map esc_char s +:+ r) = bracket_go true false d r) /\
  (forall r, strip_go true false (str_flat_map esc_char s +:+ r)
             = str_flat_map esc_char s +:+ strip_go true false r) /\
  (forall d cur r, split_go true false d cur (str_flat_map esc_char s +:+ r)
                   = split_go true false d (cur +:+ str_flat_map esc_char s) r).
Proof.
  induction s as [|c s (H1 & H2 & H3)].
  { split_and!; intros; cbn; by rewrite ?app_nil_r. }
  cbn [str_flat_map]. destruct (esc_char_cases c) as [[e ->]|(-> & Hc & _)].
  - split_and!; intros; rewrite <- app_assoc; scan_char.
    + apply H1.
    + cbn. do 2 f_equal. apply H2.
    + cbn. rewrite H3. rewrite <- !app_assoc. done.
  - split_and!; intros; rewrite <- app_assoc, app_cons; cbn [bracket_go strip_go split_go]; rewrite Hc.
    + apply H1.
    + cbn. f_equal. apply H2.
    + cbn [String.append]. rewrite H3. by rewrite <- app_assoc.
Qed.

Lemma neutral_quoted s : neutral (quoted s).
Proof.
  destruct (scan_escaped s) as (H1 & H2 & H3). unfold quoted.
  split; intros; rewrite <- !app_assoc; unfold quote at 1; scan_char; cbn [negb String.append].
  - rewrite H1. unfold quote. by scan_char.
  - rewrite H2. unfold quote. by scan_char.
  - rewrite H3. unfold quote at 1. scan_char. cbn [negb]. rewrite <- !app_assoc. done.
Qed.

Lemma framed_quoted s : framed (quoted s).
Proof.
  split; [by eexists "034"%char, _|]. exists (quote +:+ str_flat_map esc_char s), "034"%char.
  split; [|done]. unfold quoted, quote. by rewrite app_assoc.
Qed.

Lemma basic_go_ascii f out c r :
  bz c < 0x80 -> basic_go (S f) out (esc_char c +:+ r) = basic_go f (out +:+ String c "") r.
Proof.
  intros Hc. destruct c as [[] [] [] [] [] [] [] []];
    first [reflexivity | exfalso; vm_compute in Hc; done].
Qed.

Lemma esc_high s : str_all is_high s = true -> str_flat_map esc_char s = s.
Proof.
  induction s as [|c s IH]; simpl; [done|]. intros [Hc Hs]%andb_prop. rewrite (IH Hs).
  by destruct c as [[] [] [] [] [] [] [] []].
Qed.

(** A lead byte is not a continuation byte. *)
Lemma lead_not_cont a s : is_high a = true -> valid_utf8 (String a s) = true -> is_cont a = false.
Proof.
  unfold is_high, is_cont, in_range. intros Ha Hv. apply Z.leb_le in Ha. cbn in Hv.
  rewrite (proj2 (Z.ltb_ge _ _)) in Hv by lia.
  destruct (Z.leb_spec (bz a) 0xBF); [|by rewrite andb_false_r]. exfalso.
  assert (forall lo hi, 0xBF < lo -> in_range lo hi a = false) as Hr.
  { intros lo hi Hlo. unfold in_range. by rewrite (proj2 (Z.leb_gt lo _)) by lia. }
  destruct s as [|b s]; [done|]. rewrite (Hr 0xC2) in Hv by lia.
  destruct s as [|c s]; [done|]. rewrite (Hr 0xE0) in Hv by lia.
  destruct s as [|d s]; [done|]. by rewrite (Hr 0xF0) in Hv by lia.
Qed.

Lemma basic_go_chunk f out a chunk r :
  is_high a = true -> S (slen chunk) = seq_len a -> valid_utf8 (String a chunk) = true ->
  basic_go (S f) out (String a chunk +:+ r) = basic_go f (out +:+ String a chunk) r.
Proof.
  intros Ha Hl Hv. cbn [basic_go String.append].
  destruct (ascii_dec a "034") as [->|]; [done|].
  destruct (ascii_dec a "\") as [->|]; [done|].
  assert (0x80 <= bz a) by (by apply Z.leb_le).
  rewrite (proj2 (Z.ltb_ge (bz a) 0x80)) by lia. rewrite (lead_not_cont a chunk) by done.
  rewrite <- Hl. change (String a (chunk +:+ r)) with (String a chunk +:+ r).
  change (S (slen chunk)) with (slen (String a chunk)). by rewrite take_bytes_app.
Qed.

Lemma basic_go_quoted fuel out s :
  valid_utf8 s = true -> (slen s < fuel)%nat ->
  basic_go fuel out (str_flat_map esc_char s +:+ quote) = TOk (out +:+ s).
Proof.
  revert out s. induction fuel as [|f IH]; intros out s Hv Hf; [lia|].
  destruct s as [|a s]; [simpl; by rewrite app_nil_r|].
  destruct (is_high a) eqn:Ha.
  - destruct (valid_utf8_seq a s Hv Ha) as (chunk & rest & E & Hl & Hh & Hc & Hr).
    rewrite E, str_flat_map_app, <- app_assoc, esc_high by (simpl; by rewrite Ha).
    rewrite basic_go_chunk, IH, app_assoc by (done || (apply (f_equal slen) in E;
      rewrite str_length_app in E; simpl in *; lia)). done.
  - cbn [str_flat_map]. rewrite <- app_assoc.
    assert (bz a < 0x80) as Hlt by (by apply Z.leb_gt).
    rewrite basic_go_ascii by done. simpl in Hv, Hf.
    rewrite (proj2 (Z.ltb_lt _ _) Hlt) in Hv.
    rewrite IH by (done || lia). by rewrite <- app_assoc.
Qed.

Lemma esc_length s : (slen s <= slen (str_flat_map esc_char s))%nat.
Proof.
  induction s as [|c s IH]; simpl; [lia|]. rewrite str_length_app.
  destruct (esc_char_cases c) as [[e ->]|[-> _]]; cbn; lia.
Qed.

Lemma basic_string_quoted s : valid_utf8 s = true -> parse_basic_string (quoted s) = TOk s.
Proof.
  intros Hv. unfold parse_basic_string, quoted, quote at 1. cbn [String.append].
  rewrite bool_decide_true by done. rewrite (proj2 (Z.ltb_ge _ 2)).
  - cbn [orb negb]. rewrite basic_go_quoted; [done..|]. rewrite str_length_app.
    pose proof (esc_length s). lia.
  - unfold str_len. cbn [slen]. rewrite !str_length_app. change (slen quote) with 1%nat. lia.
Qed.

(** ** Values *)

(** What is written after an equals sign: strings, integers, finite floats,
    truth values and arrays of these. *)
Fixpoint plain (v : Json) : Prop :=
  match v with
  | JStr s => valid_utf8 s = true
  | JInt i => in_s 64 i
  | JFloat f => f64_valid f = true /\ f64_is_finite f = true
  | JBool _ => True
  | JArr a => (fix go (l : list Json) : Prop := match l with [] => True | x :: l' => plain x /\ go l' end) a
  | _ => False
  end.

Fixpoint print_value (v : Json) : string :=
  match v with
  | JStr s => quoted s
  | JInt i => show_dec i
  | JFloat f => f64_text f
  | JBool b => if b then "true" else "false"
  | JArr a => "[" +:+ join ", " (print_value <$> a) +:+ "]"
  | _ => ""
  end.

Lemma plain_arr a : plain (JArr a) <-> Forall plain a.
Proof.
  induction a as [|x a IH]; [split; [constructor|done]|]. rewrite Forall_cons, <- IH. done.
Qed.

Lemma digits_plain s : str_all is_ascii_digit s = true -> neutral s.
Proof.
  intros H. apply neutral_plain. revert H. apply str_all_impl.
  intros c. destruct c as [[] [] [] [] [] [] [] []]; vm_compute; done.
Qed.

Lemma neutral_show i : neutral (show_dec i).
Proof.
  destruct (Z_lt_le_dec i 0).
  - rewrite show_dec_neg by lia. change (String "-" ?s) with ("-" +:+ s).
    apply neutral_app; [by apply neutral_plain|]. apply digits_plain, show_u_dec. lia.
  - rewrite show_dec_nonneg by lia. apply digits_plain, show_u_dec. lia.
Qed.

(** The characters of a float. *)
Definition float_char (c : ascii) : bool := is_ascii_digit c || bool_decide (c = "."%char) || bool_decide (c = "-"%char).

Lemma float_text_chars f : f64_valid f = true -> f64_is_finite f = true ->
  str_all float_char (f64_text f) = true /\ f64_text f <> "".
Proof.
  intros H1 H2. destruct (f64_text_shape f H1 H2) as (neg & ip & fp & Hi & Hn & Hf & -> & _).
  assert (forall s, str_all is_ascii_digit s = true -> str_all float_char s = true) as Hd.
  { intros s. apply str_all_impl. intros c Hc. unfold float_char. by rewrite Hc. }
  rewrite !str_all_app, (Hd ip Hi), (Hd fp Hf). split; [by destruct neg|]. by destruct neg, ip.
Qed.

Lemma neutral_float f : f64_valid f = true -> f64_is_finite f = true -> neutral (f64_text f).
Proof.
  intros H1 H2. apply neutral_plain. apply (str_all_impl float_char); [|by apply float_text_chars].
  intros c. destruct c as [[] [] [] [] [] [] [] []]; vm_compute; done.
Qed.

Lemma nested_join l : Forall neutral l -> nested (join ", " l).
Proof.
  intros H. induction H as [|x l Hx Hl IH]; [apply neutral_nested, neutral_nil|].
  destruct l as [|y l]; [by apply neutral_nested|].
  change (join ", " (x :: y :: l)) with (x +:+ ("," +:+ " ") +:+ join ", " (y :: l)).
  apply nested_app; [by apply neutral_nested|]. apply nested_app; [|done].
  apply nested_app; [apply nested_comma|]. by apply neutral_nested, neutral_plain.
Qed.

Lemma neutral_value v : plain v -> neutral (print_value v).
Proof.
  induction v as [| | | | |a IH|] using Json_nested_ind; intros Hv; try done; cbn [print_value].
  - destruct b; by apply neutral_plain.
  - apply neutral_show.
  - by apply neutral_float; apply Hv.
  - apply neutral_quoted.
  - apply neutral_brackets, nested_join. apply plain_arr in Hv. apply Forall_fmap.
    apply (Forall_impl (fun x => plain x /\ (plain x -> neutral (print_value x)))).
    + by apply Forall_and.
    + intros x [? H]. by apply H.
Qed.

Lemma digits_graph s : str_all is_ascii_digit s = true -> str_all is_graph s = true.
Proof. apply str_all_impl. apply net.digit_graph. Qed.

Lemma framed_show i : framed (show_dec i).
Proof.
  apply framed_graph.
  - destruct (Z_lt_le_dec i 0).
    + rewrite show_dec_neg by lia. cbn. apply net.show_u_graph. lia.
    + rewrite show_dec_nonneg by lia. apply net.show_u_graph. lia.
  - unfold show_dec. destruct (i <? 0); [done|]. by destruct (show_u_cons 10 i) as (c & s & ->).
Qed.

Lemma framed_value v : plain v -> framed (print_value v).
Proof.
  destruct v as [|b|i|f|s|a|]; intros Hv; try done; cbn [print_value].
  - destruct b; by apply framed_graph.
  - apply framed_show.
  - destruct Hv as [H1 H2]. destruct (float_text_chars f H1 H2) as [Hc Hn].
    apply framed_graph; [|by destruct (f64_text f)].
    apply (str_all_impl float_char); [|done]. intros c. destruct c as [[] [] [] [] [] [] [] []]; vm_compute; done.
  - apply framed_quoted.
  - apply framed_app; by apply framed_graph.
Qed.

(** *** Reading a value back *)

Lemma split_items cur x l :
  neutral x -> Forall neutral l ->
  split_go false false 0 cur (join ", " (x :: l)) = (cur +:+ x) :: ((fun y => " " +:+ y) <$> l).
Proof.
  intros Hx Hl. revert cur x Hx. induction Hl as [|y l Hy Hl IH]; intros cur x Hx.
  - cbn [join fmap list_fmap]. rewrite <- (app_nil_r x) at 1. by rewrite (neutral_split x Hx) by done.
  - change (join ", " (x :: y :: l)) with (x +:+ "," +:+ " " +:+ join ", " (y :: l)).
    rewrite (neutral_split x Hx) by done. scan_char. cbn [Z.eqb].
    cbn [fmap list_fmap]. f_equal. rewrite <- (IH " " y Hy).
    apply (neutral_split " "); [by apply neutral_plain|done].
Qed.

Lemma framed_nonempty t : framed t -> str_is_empty t = false.
Proof. by intros [(c & s & -> & _) _]. Qed.

Lemma trim_space t : framed t -> trim (" " +:+ t) = t.
Proof.
  intros H. pose proof (trim_framed 1 t 0 H) as E. change (trim (" " +:+ t +:+ "") = t) in E.
  by rewrite app_nil_r in E.
Qed.

Lemma parse_items_map value vs texts :
  Forall2 (fun v t => framed (trim t) /\ value (trim t) = TOk v) vs texts ->
  parse_items value texts = TOk vs.
Proof.
  induction 1 as [|v t vs ts [Hf Hv] _ IH]; [done|]. cbn [parse_items].
  by rewrite (framed_nonempty _ Hf), Hv, IH.
Qed.

Lemma but_last_snoc s c : but_last (s +:+ String c "") = s.
Proof.
  induction s as [|a s IH]; [done|]. cbn [String.append but_last]. rewrite IH.
  by destruct (s +:+ String c "") eqn:E; [destruct s|].
Qed.

Lemma ends_with_app a b : ends_with b (a +:+ b) = true.
Proof. unfold ends_with, strip_suffix. rewrite rev_app. by rewrite strip_prefix_app. Qed.

(** The first character of a written value. *)
Lemma show_dec_head i : exists c s, show_dec i = String c s /\ (is_ascii_digit c = true \/ c = "-"%char).
Proof.
  unfold show_dec. destruct (i <? 0) eqn:E; [by eexists _, _; eauto|]. bool_prop.
  destruct (show_u_cons 10 i) as (c & s & Es). exists c, s. split; [done|]. left.
  pose proof (show_u_dec i ltac:(lia)) as H. rewrite Es in H. cbn in H. by bool_prop.
Qed.

Lemma filter_id f s : str_all f s = true -> str_filter f s = s.
Proof. induction s as [|c s IH]; cbn; [done|]. intros [-> H]%andb_prop. by rewrite IH. Qed.

Lemma strip_digits p s :
  str_all is_ascii_digit s = true -> str_all is_ascii_digit p = false -> strip_prefix p s = None.
Proof.
  intros Hs Hp. destruct (strip_prefix p s) eqn:E; [|done]. apply strip_prefix_Some in E as ->.
  rewrite str_all_app in Hs. apply andb_prop in Hs as [Hs _]. congruence.
Qed.

Lemma radix_digits s : str_all is_ascii_digit s = true -> radix_of s = None.
Proof. intros H. unfold radix_of. by rewrite !strip_digits. Qed.

Lemma parse_number_show i : in_s 64 i -> parse_number (show_dec i) = Ok (JInt i).
Proof.
  intros Hi. unfold parse_number.
  assert (forall c, is_ascii_digit c = true -> negb (bool_decide (c = "_"%char)) = true) as Hd
    by (intros c; destruct c as [[] [] [] [] [] [] [] []]; vm_compute; done).
  rewrite filter_id.
  2: { destruct (Z_lt_le_dec i 0).
       - rewrite show_dec_neg by lia. cbn. apply (str_all_impl is_ascii_digit); [done|]. apply show_u_dec. lia.
       - rewrite show_dec_nonneg by lia. apply (str_all_impl is_ascii_digit); [done|]. apply show_u_dec. lia. }
  assert (radix_of (match strip_prefix "-" (show_dec i) with
    | Some r => (-1, r)
    | None => match strip_prefix "+" (show_dec i) with Some r => (1, r) | None => (1, show_dec i) end
    end).2 = None) as Hr.
  { destruct (Z_lt_le_dec i 0).
    - rewrite show_dec_neg by lia. apply radix_digits, show_u_dec. lia.
    - rewrite show_dec_nonneg by lia. pose proof (show_u_dec i ltac:(lia)).
      rewrite !strip_digits by done. by apply radix_digits. }
  destruct (match strip_prefix "-" (show_dec i) with Some r => _ | None => _ end) as [sign body].
  cbn in Hr. by rewrite Hr, parse_i_show.
Qed.

Lemma radix_point ip fp : str_all is_ascii_digit ip = true -> ip <> "" -> radix_of (ip +:+ "." +:+ fp) = None.
Proof.
  intros Hi Hn. destruct ip as [|c [|d ip]]; [done| |].
  - unfold radix_of. cbn [String.append strip_prefix].
    by destruct (ascii_dec "0" c).
  - cbn in Hi. apply andb_prop in Hi as [_ [Hd _]%andb_prop]. unfold radix_of. cbn [String.append strip_prefix].
    destruct (ascii_dec "0" c); [|done].
    destruct (ascii_dec "x" d) as [<-|]; [by vm_compute in Hd|]. destruct (ascii_dec "o" d) as [<-|]; [by vm_compute in Hd|].
    by destruct (ascii_dec "b" d) as [<-|]; [by vm_compute in Hd|].
Qed.

Lemma parse_digits_point m o ip fp acc : str_all is_ascii_digit ip = true ->
  exists e, parse_digits 10 m o (ip +:+ "." +:+ fp) acc = inl e.
Proof.
  intros Hi. rewrite parse_digits_app. destruct (parse_digits _ _ _ ip acc) as [e|n]; [by eexists|].
  exists InvalidDigit. done.
Qed.

Lemma parse_number_float f : f64_valid f = true -> f64_is_finite f = true -> parse_number (f64_text f) = Ok (JFloat f).
Proof.
  intros H1 H2. pose proof (float_text_chars f H1 H2) as [Hc _].
  destruct (f64_text_shape f H1 H2) as (neg & ip & fp & Hi & Hn & Hf & E & Hp).
  unfold parse_number. rewrite filter_id.
  2: { apply (str_all_impl float_char); [|done]. intros c. destruct c as [[] [] [] [] [] [] [] []]; vm_compute; done. }
  assert (exists sign, match strip_prefix "-" (f64_text f) with
    | Some r => (-1, r)
    | None => match strip_prefix "+" (f64_text f) with Some r => (1, r) | None => (1, f64_text f) end
    end = (sign, ip +:+ "." +:+ fp)) as [sign ->].
  { rewrite E. destruct neg; [by exists (-1)|]. exists 1. destruct ip as [|c ip]; [done|].
    cbn in Hi. apply andb_prop in Hi as [Hcd _]. apply digit_not_sign in Hcd as [Hs1 Hs2].
    cbn [String.append strip_prefix]. destruct (ascii_dec "-" c); [congruence|]. by destruct (ascii_dec "+" c); [congruence|]. }
  rewrite radix_point by done.
  assert (parse_i 64 (f64_text f) = None) as ->; [|by rewrite Hp].
  rewrite E. unfold parse_i. destruct ip as [|c ip]; [done|]. destruct neg.
  - cbn [String.append parse_signed str_is_empty].
    destruct (parse_digits_point (2 ^ (64 - 1) - 1 + 1) NegOverflow (String c ip) fp 0 Hi) as [e He].
    cbn [String.append] in He. by rewrite He.
  - pose proof Hi as Hi'. cbn in Hi'. apply andb_prop in Hi' as [Hcd _]. apply digit_not_sign in Hcd as [Hs1 Hs2].
    cbn [String.append]. rewrite parse_signed_cons by done.
    destruct (parse_digits_point (2 ^ (64 - 1) - 1) PosOverflow (String c ip) fp 0 Hi) as [e He].
    cbn [String.append] in He. by rewrite He.
Qed.

Lemma starts_with_ne a p c s : a <> c -> starts_with (String a p) (String c s) = false.
Proof. intros H. unfold starts_with. cbn. by destruct (ascii_dec a c). Qed.

(** A value that starts like a word or a number. *)
Lemma parse_value_word f c s :
  c <> "034"%char -> c <> "'"%char -> c <> "{"%char -> c <> "["%char ->
  parse_value (S f) (String c s)
  = if bool_decide (String c s = "true") then TOk (JBool true)
    else if bool_decide (String c s = "false") then TOk (JBool false)
    else of_result (parse_number (String c s)).
Proof.
  intros H1 H2 H3 H4. cbn [parse_value str_is_empty]. unfold triple_quote, quote.
  cbn [String.append]. by rewrite !starts_with_ne.
Qed.

Lemma parse_value_quoted f s : valid_utf8 s = true -> parse_value (S f) (quoted s) = TOk (JStr s).
Proof.
  intros Hv. cbn [parse_value]. rewrite (framed_nonempty _ (framed_quoted s)).
  assert (starts_with triple_quote (quoted s) = false) as ->.
  { unfold quoted, triple_quote, quote. destruct s as [|a s]; [done|]. cbn [str_flat_map].
    destruct (esc_char_cases a) as [[d ->]|(-> & _ & Ha & _)]; [done|].
    unfold starts_with. cbn [String.append strip_prefix]. destruct (ascii_dec "034" "034"); [|done].
    by destruct (ascii_dec "034" a); [congruence|]. }
  rewrite (basic_string_quoted s Hv). done.
Qed.

Lemma inner_brackets t : inner ("[" +:+ t +:+ "]") = t.
Proof. apply but_last_snoc. Qed.

Lemma length_join_le l x : x ∈ l -> (slen x <= slen (join ", " l))%nat.
Proof.
  induction l as [|y l IH]; intros H; [by apply not_elem_of_nil in H|].
  destruct l as [|z l].
  - apply list_elem_of_singleton in H as ->. done.
  - change (join ", " (y :: z :: l)) with (y +:+ ", " +:+ join ", " (z :: l)).
    rewrite !str_length_app. apply elem_of_cons in H as [->|H]; [lia|]. apply IH in H. lia.
Qed.

Lemma split_printed vs :
  Forall plain vs ->
  exists texts, split_top_level (join ", " (print_value <$> vs)) = texts /\
    match vs with
    | [] => texts = [""]
    | _ => Forall2 (fun v t => trim t = print_value v) vs texts
    end.
Proof.
  intros H. eexists. split; [done|]. destruct vs as [|v vs]; [done|].
  apply Forall_cons in H as [Hv H]. unfold split_top_level. cbn [fmap list_fmap].
  rewrite split_items.
  - constructor; [cbn; by apply trim_none, framed_value|].
    clear Hv. induction H as [|x l Hx _ IH]; cbn [fmap list_fmap]; constructor; [|exact IH].
    by apply trim_space, framed_value.
  - by apply neutral_value.
  - apply Forall_fmap. apply (Forall_impl _ _ _ H). intros x. apply neutral_value.
Qed.

Lemma parse_print_value v : plain v -> forall fuel, (slen (print_value v) < fuel)%nat ->
  parse_value fuel (print_value v) = TOk v.
Proof.
  induction v as [|b|i|f|s|a IH|m IH] using Json_nested_ind; intros Hv fuel Hf; try done;
    (destruct fuel as [|fuel]; [lia|]); cbn [print_value] in *.
  - by destruct b.
  - destruct (show_dec_head i) as (c & t & E & Hc). pose proof (parse_number_show i Hv) as Hn.
    rewrite E in *. rewrite parse_value_word by (destruct Hc as [Hc| ->]; [intros ->; by vm_compute in Hc|done]).
    rewrite !bool_decide_false by (intros [= -> _]; destruct Hc as [Hc|Hc]; by vm_compute in Hc). by rewrite Hn.
  - destruct Hv as [H1 H2]. pose proof (parse_number_float f H1 H2) as Hn. destruct (float_text_chars f H1 H2) as [Hc Hne].
    destruct (f64_text f) as [|c t]; [done|]. cbn [str_all] in Hc. apply andb_prop in Hc as [Hc _].
    rewrite parse_value_word by (intros ->; by vm_compute in Hc).
    rewrite !bool_decide_false by (intros [= -> _]; by vm_compute in Hc). by rewrite Hn.
  - by apply parse_value_quoted.
  - apply plain_arr in Hv. destruct (split_printed a Hv) as (texts & Hs & Ht).
    set (body := join ", " (print_value <$> a)) in *.
    change (parse_value (S fuel) ("[" +:+ body +:+ "]"))
      with (if negb (ends_with "]" ("[" +:+ body +:+ "]"))
            then TErr (Parse "unterminated array: the brackets do not balance")
            else tbind (parse_items (parse_value fuel) (split_top_level (inner ("[" +:+ body +:+ "]"))))
                   (fun out => TOk (JArr out))).
    rewrite app_assoc, ends_with_app, <- app_assoc. cbn [negb]. rewrite inner_brackets, Hs.
    destruct a as [|x a]; [by subst texts|].
    rewrite (parse_items_map _ (x :: a)); [done|].
    rewrite !str_length_app in Hf. cbn [slen] in Hf.
    assert (Forall (fun y => framed (print_value y) /\ parse_value fuel (print_value y) = TOk y) (x :: a)) as HF.
    { apply Forall_forall. intros y Hy. rewrite Forall_forall in IH, Hv.
      split; [by apply framed_value, Hv|]. apply IH; [done|by apply Hv|].
      assert (slen (print_value y) <= slen body)%nat; [|lia].
      apply length_join_le. by apply list_elem_of_fmap_2. }
    clear -HF Ht. revert HF. induction Ht as [|y t ys ts Hy _ IHt]; intros HF; [constructor|].
    apply Forall_cons in HF as [Hh HF]. constructor; [by rewrite Hy|by apply IHt].
Qed.

(** ** Documents

    A document is a list of lines, each with an optional statement, any
    indentation, and an optional comment. *)

Definition bare_char (c : ascii) : bool :=
  is_ascii_alphanumeric c || bool_decide (c = "_"%char) || bool_decide (c = "-"%char).

Definition bare (k : string) : Prop := k <> "" /\ str_all bare_char k = true.

Inductive stmt :=
| KV (k : string) (v : Json)
| Table (p : list string)
| Elem (p : list string).

Definition stmt_ok (st : stmt) : Prop :=
  match st with
  | KV k v => bare k /\ plain v
  | Table p | Elem p => p <> [] /\ Forall bare p
  end.

Definition print_stmt (st : stmt) : string :=
  match st with
  | KV k v => k +:+ " = " +:+ print_value v
  | Table p => "[" +:+ join "." p +:+ "]"
  | Elem p => "[[" +:+ join "." p +:+ "]]"
  end.

Record src_line := { indent : nat; body : option stmt; gap : nat; comment : option string }.

Definition newline : string := String "010" "".

Definition print_line (l : src_line) : string :=
  spaces (indent l) +:+ (match body l with Some st => print_stmt st | None => "" end)
  +:+ spaces (gap l) +:+ (match comment l with Some c => "#" +:+ c | None => "" end).

Definition one_line (s : string) : Prop :=
  contains_char "010" s = false /\ contains_char "013" s = false.

Definition line_ok (l : src_line) : Prop :=
  (forall st, body l = Some st -> stmt_ok st) /\ (forall c, comment l = Some c -> one_line c).

Fixpoint print_doc (ls : list src_line) : string :=
  match ls with [] => "" | l :: ls' => print_line l +:+ newline +:+ print_doc ls' end.

(** What the statements mean, and on which lines they stand. *)
Fixpoint numbered (i : Z) (ls : list src_line) : list (Z * stmt) :=
  match ls with
  | [] => []
  | l :: ls' => (match body l with Some st => [(i, st)] | None => [] end) ++ numbered (i + 1) ls'
  end.

Definition exec_stmt (root : Json) (cur : list string) (i : Z) (st : stmt) : tres (Json * list string) :=
  match st with
  | KV k v => tbind (at_line i (table_at root cur (fun t => inr (set t k v)))) (fun r => TOk (r, cur))
  | Table p => tbind (at_line i (ensure_table root p)) (fun r => TOk (r, p))
  | Elem p => tbind (at_line i (push_array_table root p)) (fun r => TOk (r, p))
  end.

Fixpoint exec (root : Json) (cur : list string) (sts : list (Z * stmt)) : tres Json :=
  match sts with
  | [] => TOk root
  | (i, st) :: sts' => tbind (exec_stmt root cur i st) (fun '(root', cur') => exec root' cur' sts')
  end.

(** *** Keys *)

Lemma bare_not c k : str_all bare_char k = true -> bare_char c = false -> contains_char c k = false.
Proof. intros H Hc. by apply (str_all_not_contains bare_char). Qed.

Lemma bare_graph k : str_all bare_char k = true -> str_all is_graph k = true.
Proof. apply str_all_impl. intros c. by destruct c as [[] [] [] [] [] [] [] []]; vm_compute. Qed.

Lemma bare_framed k : bare k -> framed k.
Proof. intros [Hn Hk]. apply framed_graph; [by apply bare_graph|done]. Qed.

Lemma bare_neutral k : str_all bare_char k = true -> neutral k.
Proof.
  intros H. apply neutral_plain. revert H. apply str_all_impl.
  intros c. by destruct c as [[] [] [] [] [] [] [] []]; vm_compute.
Qed.

Lemma bare_cons k : bare k -> exists c s, k = String c s /\ bare_char c = true.
Proof.
  intros [Hn Hk]. destruct k as [|c s]; [done|]. cbn in Hk. bool_prop. eauto.
Qed.

Lemma bare_app_ne k c p t : bare k -> bare_char c = false -> starts_with (String c p) (k +:+ t) = false.
Proof.
  intros (d & s & -> & Hd)%bare_cons Hc. apply starts_with_ne. intros ->. congruence.
Qed.

Lemma bare_head_ne k c p : bare k -> bare_char c = false -> starts_with (String c p) k = false.
Proof. intros. rewrite <- (app_nil_r k). by apply bare_app_ne. Qed.

Lemma bare_unquote k : bare k -> unquote_key k = Ok k.
Proof.
  intros Hk. unfold unquote_key, enclosed, quote. rewrite !bare_head_ne by done.
  rewrite !andb_false_r. by rewrite (framed_nonempty k (bare_framed k Hk)).
Qed.

Lemma bare_path p : p <> [] -> Forall bare p -> split_key_path (join "." p) = Ok p.
Proof.
  intros Hn Hp. unfold split_key_path. rewrite net.split_join.
  - apply net.try_map_ok. apply Forall_Forall2_diag. apply (Forall_impl _ _ _ Hp).
    intros k Hk. rewrite (trim_none k) by (by apply bare_framed).
    rewrite (framed_nonempty k (bare_framed k Hk)). by apply bare_unquote.
  - done.
  - apply (Forall_impl _ _ _ Hp). intros k [_ Hk]. by apply bare_not.
Qed.

Definition path_char (c : ascii) : bool := bare_char c || bool_decide (c = "."%char).

Lemma path_chars p : Forall bare p -> str_all path_char (join "." p) = true.
Proof.
  intros H. apply net.str_all_join; [done|]. apply (Forall_impl _ _ _ H). intros k [_ Hk].
  revert Hk. apply str_all_impl. unfold path_char. by intros c ->.
Qed.

Lemma path_not c p : Forall bare p -> path_char c = false -> contains_char c (join "." p) = false.
Proof. intros H Hc. apply (str_all_not_contains path_char); [by rewrite Hc|by apply path_chars]. Qed.

Lemma path_neutral p : Forall bare p -> neutral (join "." p).
Proof.
  intros H. apply neutral_plain. eapply str_all_impl; [|by apply path_chars].
  intros c. by destruct c as [[] [] [] [] [] [] [] []]; vm_compute.
Qed.

(** *** Lines *)

Lemma neutral_spaces n : neutral (spaces n).
Proof. apply neutral_plain. induction n as [|n IH]; [done|]. cbn [str_repeat str_all]. by rewrite IH. Qed.

Lemma elem_brackets t : "[[" +:+ t +:+ "]]" = "[" +:+ ("[" +:+ t +:+ "]") +:+ "]".
Proof. cbn. do 2 f_equal. by rewrite <- app_assoc. Qed.

Lemma neutral_stmt st : stmt_ok st -> neutral (print_stmt st).
Proof.
  destruct st as [k v|p|p]; intros [H1 H2]; cbn [print_stmt].
  - apply neutral_app; [by apply bare_neutral, H1|]. apply neutral_app; [by apply neutral_plain|].
    by apply neutral_value.
  - by apply neutral_brackets, neutral_nested, path_neutral.
  - rewrite elem_brackets. by apply neutral_brackets, neutral_nested, neutral_brackets, neutral_nested, path_neutral.
Qed.

Lemma framed_stmt st : stmt_ok st -> framed (print_stmt st).
Proof.
  destruct st as [k v|p|p]; intros [H1 H2]; cbn [print_stmt].
  - apply framed_app; [by apply bare_framed|by apply framed_value].
  - apply framed_app; by apply framed_graph.
  - apply framed_app; by apply framed_graph.
Qed.

Lemma contains_flat_map c f s :
  (forall a, contains_char c (f a) = false) -> contains_char c (str_flat_map f s) = false.
Proof. intros H. induction s as [|a s IH]; cbn; [done|]. by rewrite contains_char_app, H, IH. Qed.

Lemma contains_join c sep l :
  contains_char c sep = false -> Forall (fun x => contains_char c x = false) l ->
  contains_char c (join sep l) = false.
Proof.
  intros Hs H. induction H as [|x l Hx _ IH]; [done|]. destruct l as [|y l]; [done|].
  change (join sep (x :: y :: l)) with (x +:+ sep +:+ join sep (y :: l)).
  by rewrite !contains_char_app, Hx, Hs, IH.
Qed.

Lemma value_no_break c v :
  c = "010"%char \/ c = "013"%char -> plain v -> contains_char c (print_value v) = false.
Proof.
  intros Hc. induction v as [|b|i|f|s|a IH|m IH] using Json_nested_ind; intros Hv; try done;
    cbn [print_value].
  - destruct b, Hc as [-> | ->]; done.
  - destruct (Z_lt_le_dec i 0).
    + rewrite show_dec_neg by lia. cbn [contains_char].
      rewrite (str_all_not_contains is_ascii_digit c); [by destruct Hc as [-> | ->]..|apply show_u_dec; lia].
    + rewrite show_dec_nonneg by lia.
      apply (str_all_not_contains is_ascii_digit); [by destruct Hc as [-> | ->]|apply show_u_dec; lia].
  - destruct Hv as [H1 H2]. apply (str_all_not_contains float_char); [by destruct Hc as [-> | ->]|].
    by apply float_text_chars.
  - unfold quoted. rewrite !contains_char_app, contains_flat_map; [by destruct Hc as [-> | ->]|].
    intros a. destruct Hc as [-> | ->]; by destruct a as [[] [] [] [] [] [] [] []].
  - rewrite !contains_char_app, contains_join; [by destruct Hc as [-> | ->]..|].
    apply plain_arr in Hv. apply Forall_fmap. rewrite Forall_forall in *. intros x Hx.
    apply IH; [done|by apply Hv].
Qed.

Lemma stmt_no_break c st :
  c = "010"%char \/ c = "013"%char -> stmt_ok st -> contains_char c (print_stmt st) = false.
Proof.
  intros Hc. destruct st as [k v|p|p]; intros [H1 H2]; cbn [print_stmt]; rewrite !contains_char_app.
  - rewrite value_no_break by done. rewrite bare_not; [by destruct Hc as [-> | ->]|apply H1|].
    by destruct Hc as [-> | ->].
  - rewrite path_not by (done || by destruct Hc as [-> | ->]). by destruct Hc as [-> | ->].
  - rewrite path_not by (done || by destruct Hc as [-> | ->]). by destruct Hc as [-> | ->].
Qed.

Lemma spaces_no_break c n : c <> " "%char -> contains_char c (spaces n) = false.
Proof. intros H. induction n as [|n IH]; cbn [str_repeat contains_char]; [done|]. by destruct (ascii_dec " " c). Qed.

Lemma line_no_break c l :
  c = "010"%char \/ c = "013"%char -> line_ok l -> contains_char c (print_line l) = false.
Proof.
  intros Hc [Hb Hm]. unfold print_line. rewrite !contains_char_app.
  rewrite !spaces_no_break by (by destruct Hc as [-> | ->]).
  destruct (body l) as [st|] eqn:Eb; [rewrite stmt_no_break by eauto|];
    (destruct (comment l) as [m|] eqn:Em; [|done]);
    destruct (Hm m eq_refl) as [Hn Hr]; rewrite contains_char_app;
    destruct Hc as [-> | ->]; cbn; by rewrite ?Hn, ?Hr.
Qed.

Lemma strip_cr_id s : contains_char "013" s = false -> strip_cr s = s.
Proof.
  intros H. unfold strip_cr, strip_suffix. destruct (strip_prefix _ (String.rev s)) as [r|] eqn:E; [|done].
  apply strip_prefix_Some in E. apply (f_equal String.rev) in E. rewrite rev_involutive, rev_app in E.
  rewrite E, contains_char_app in H. apply orb_false_iff in H as [_ H]. done.
Qed.

Lemma lines_doc ls : Forall line_ok ls -> lines (print_doc ls) = print_line <$> ls.
Proof.
  intros H. unfold lines. induction H as [|l ls Hl _ IH]; [done|]. cbn [print_doc fmap list_fmap].
  change (newline +:+ print_doc ls) with (String "010" (print_doc ls)).
  rewrite split_on_app by (apply line_no_break; auto).
  assert (forall x y, lines_go (x :: y) = match y with [] => if str_is_empty x then [] else [x] | _ => strip_cr x :: lines_go y end)
    as E by done.
  rewrite E, IH.
  rewrite strip_cr_id by (apply line_no_break; auto).
  destruct (split_on "010" (print_doc ls)) eqn:Es; [|done].
  destruct (print_doc ls); cbn in Es; [done|]. destruct (ascii_dec _ _); [done|]. by destruct (split_on _ _).
Qed.

(** Without its comment and the space around, a line is its statement. *)
Lemma line_text l :
  line_ok l ->
  trim (strip_comment (print_line l)) = match body l with Some st => print_stmt st | None => "" end.
Proof.
  intros [Hb Hm]. unfold strip_comment, print_line.
  assert (strip_go false false (match comment l with Some c => "#" +:+ c | None => "" end) = "") as Hc
    by (by destruct (comment l)).
  destruct (body l) as [st|].
  - assert (stmt_ok st) as Hst by eauto.
    rewrite (neutral_strip _ (neutral_spaces _)), (neutral_strip _ (neutral_stmt st Hst)).
    rewrite (neutral_strip _ (neutral_spaces _)), Hc, app_nil_r. by apply trim_framed, framed_stmt.
  - change ("" +:+ ?t) with t. rewrite !(neutral_strip _ (neutral_spaces _)), Hc, app_nil_r.
    assert (forall n m, spaces n +:+ spaces m = spaces (n + m)) as ->.
    { intros n m. induction n; cbn; congruence. }
    apply trim_spaces.
Qed.

(** *** Statements *)

Lemma bracket_stmt st : stmt_ok st -> bracket_depth (print_stmt st) = 0.
Proof.
  intros H. unfold bracket_depth. rewrite <- (app_nil_r (print_stmt st)).
  by rewrite (neutral_bracket _ (neutral_stmt st H)).
Qed.

(** Only a key with a value has an equals sign. *)
Lemma header_stmt st :
  stmt_ok st ->
  starts_with "[" (print_stmt st) && negb (contains_char "=" (print_stmt st))
  = match st with KV _ _ => false | _ => true end.
Proof.
  destruct st as [k v|p|p]; intros [H1 H2]; cbn [print_stmt].
  - by rewrite bare_app_ne.
  - rewrite !contains_char_app, path_not by done. done.
  - rewrite !contains_char_app, path_not by done. done.
Qed.

Lemma logical_doc ls : forall i,
  Forall line_ok ls ->
  logical_go i None (print_line <$> ls) = Ok (prod_map id print_stmt <$> numbered i ls).
Proof.
  induction ls as [|l ls IH]; intros i H; [done|]. apply Forall_cons in H as [Hl H].
  cbn [fmap list_fmap logical_go numbered]. rewrite (line_text l Hl).
  destruct (body l) as [st|] eqn:Eb; cbn [app]; [|by apply IH].
  assert (stmt_ok st) as Hst by (by apply (proj1 Hl)).
  rewrite (framed_nonempty _ (framed_stmt st Hst)), header_stmt, bracket_stmt by done.
  rewrite (IH (i + 1) H). by destruct st.
Qed.

Lemma starts_two c d s : c <> "["%char -> starts_with "[[" (String d (String c s)) = false.
Proof.
  intros H. unfold starts_with. cbn [strip_prefix]. destruct (ascii_dec "[" d); [|done].
  by destruct (ascii_dec "[" c); [congruence|].
Qed.

Lemma path_cons p : p <> [] -> Forall bare p -> exists c s, join "." p = String c s /\ c <> "["%char.
Proof.
  intros Hn Hp. destruct p as [|k p]; [done|]. apply Forall_cons in Hp as [Hk Hp].
  destruct (bare_cons k Hk) as (c & s & -> & Hc). exists c.
  destruct p as [|k2 p]; [exists s|exists (s +:+ "." +:+ join "." (k2 :: p))]; (split; [done|]); intros ->; done.
Qed.

Lemma read_stmt root cur i st :
  stmt_ok st -> parse_line root cur i (print_stmt st) = exec_stmt root cur i st.
Proof.
  destruct st as [k v|p|p]; intros [H1 H2]; unfold parse_line; cbn [print_stmt exec_stmt].
  - rewrite !bare_app_ne by done.
    assert (k +:+ " = " +:+ print_value v = (k +:+ " ") +:+ String "=" (" " +:+ print_value v)) as ->
      by (by rewrite <- app_assoc).
    rewrite split_once_app by (rewrite contains_char_app, bare_not; by destruct H1 || done).
    pose proof (trim_framed 0 k 1 (bare_framed k H1)) as Ek. change (trim (k +:+ " ") = k) in Ek.
    rewrite Ek, bare_unquote by done. cbn [of_result tbind]. unfold value_at.
    rewrite (trim_space _ (framed_value v H2)). rewrite parse_print_value by (done || lia). done.
  - assert (starts_with "[[" ("[" +:+ join "." p +:+ "]") = false) as ->.
    { destruct (path_cons p H1 H2) as (c & s & -> & Hc). by apply starts_two. }
    rewrite (starts_with_app "["). rewrite app_assoc, ends_with_app, <- app_assoc.
    cbn [negb]. rewrite inner_brackets, bare_path by done. done.
  - rewrite (starts_with_app "[["). rewrite app_assoc, ends_with_app, <- app_assoc. cbn [negb].
    rewrite elem_brackets, !inner_brackets, bare_path by done. done.
Qed.

Lemma parse_stmts sts : forall root cur,
  Forall (fun x => stmt_ok x.2) sts ->
  parse_lines root cur (prod_map id print_stmt <$> sts) = exec root cur sts.
Proof.
  induction sts as [|[i st] sts IH]; intros root cur H; [done|]. apply Forall_cons in H as [Hst H].
  cbn [fmap list_fmap prod_map fst snd id parse_lines exec]. cbn in Hst. rewrite read_stmt by done.
  destruct (exec_stmt root cur i st) as [[root' cur']| | |]; cbn [tbind]; [by apply IH|done..].
Qed.

Lemma numbered_ok ls : forall i, Forall line_ok ls -> Forall (fun x => stmt_ok x.2) (numbered i ls).
Proof.
  induction ls as [|l ls IH]; intros i H; [constructor|]. apply Forall_cons in H as [[Hb _] H].
  cbn [numbered]. apply Forall_app. split; [|by apply IH].
  destruct (body l); [|constructor]. repeat constructor. by apply Hb.
Qed.

(** A document with any layout and comments is read statement by statement. *)
Lemma parse_doc ls : Forall line_ok ls -> parse (print_doc ls) = exec obj [] (numbered 0 ls).
Proof.
  intros H. unfold parse, logical_lines. rewrite lines_doc, logical_doc by done. cbn [of_result tbind].
  by apply parse_stmts, numbered_ok.
Qed.

(** ** Trees of tables

    A document value is a table: plain values first, then sub-tables and
    arrays of tables, each written under its own header. *)

Definition is_section (v : Json) : bool :=
  match v with JObj _ => true | JArr (JObj _ :: _) => true | _ => false end.

Fixpoint stmts (path : list string) (v : Json) : list stmt :=
  match v with
  | JObj m =>
      (fix entries (l : list (string * Json)) : list stmt :=
        match l with
        | [] => []
        | (k, x) :: l' =>
            (if is_section x then
               match x with
               | JArr a =>
                   (fix elems (a : list Json) : list stmt :=
                     match a with
                     | [] => []
                     | y :: a' => (Elem (path ++ [k]) :: stmts (path ++ [k]) y) ++ elems a'
                     end) a
               | _ => Table (path ++ [k]) :: stmts (path ++ [k]) x
               end
             else [KV k x]) ++ entries l'
        end) m
  | _ => []
  end.

(** The same, entry by entry. *)
Definition entry_stmts (path : list string) (kx : string * Json) : list stmt :=
  let '(k, x) := kx in
  if is_section x then
    match x with
    | JArr a => a ≫= fun y => Elem (path ++ [k]) :: stmts (path ++ [k]) y
    | _ => Table (path ++ [k]) :: stmts (path ++ [k]) x
    end
  else [KV k x].

Lemma stmts_obj path m : stmts path (JObj m) = m ≫= entry_stmts path.
Proof.
  induction m as [|[k x] m IH]; [done|]. cbn [mbind list_bind]. rewrite <- IH.
  cbn [stmts]. by f_equal.
Qed.

Fixpoint plain_first (m : list (string * Json)) : Prop :=
  match m with
  | [] => True
  | (_, x) :: m' =>
      if is_section x then Forall (fun kx => is_section kx.2 = true) m' else plain_first m'
  end.

Inductive table_ok : Json -> Prop :=
| table_ok_intro m :
    NoDup m.*1 -> Forall bare m.*1 -> plain_first m -> Forall (fun kx => entry_ok kx.2) m ->
    table_ok (JObj m)
with entry_ok : Json -> Prop :=
| entry_plain x : is_section x = false -> plain x -> entry_ok x
| entry_table m : table_ok (JObj m) -> entry_ok (JObj m)
| entry_elems a : is_section (JArr a) = true -> Forall table_ok a -> entry_ok (JArr a).

(** *** Places in a document *)

(** [plug] puts a value where [path] leads. *)
Definition focus (path : list string) (plug : Json -> Json) : Prop :=
  forall m k, table_at (plug (JObj m)) path k
              = match k (JObj m) with inl e => inl e | inr n => inr (plug n) end.

Lemma focus_root : focus [] id.
Proof. intros m k. cbn. by destruct (k (JObj m)). Qed.

Lemma table_at_app p q k : forall node,
  table_at node (p ++ q) k = table_at node p (fun n => table_at n q k).
Proof.
  induction p as [|seg p IH]; intros node; [done|]. cbn [app table_at].
  destruct (get _ seg) as [[| | | | |a|m]|]; try done; [|by rewrite IH].
  destruct (last a) as [[]|]; try done. by rewrite IH.
Qed.

Lemma find_key_new k m v : k ∉ m.*1 -> find_key k (m ++ [(k, v)]) = Some v.
Proof.
  induction m as [|[k' x] m IH]; cbn; intros H; [by rewrite decide_True|].
  apply not_elem_of_cons in H as [Hk H]. rewrite decide_False by congruence. by apply IH.
Qed.

Lemma find_key_absent k m : k ∉ m.*1 -> find_key k m = None.
Proof.
  induction m as [|[k' x] m IH]; cbn; intros H; [done|].
  apply not_elem_of_cons in H as [Hk H]. rewrite decide_False by congruence. by apply IH.
Qed.

Lemma set_slot_new k m v : k ∉ m.*1 -> set_slot k v m = m ++ [(k, v)].
Proof.
  induction m as [|[k' x] m IH]; cbn; intros H; [done|].
  apply not_elem_of_cons in H as [Hk H]. rewrite decide_False by congruence. by rewrite IH.
Qed.

Lemma set_slot_last k m v w : k ∉ m.*1 -> set_slot k w (m ++ [(k, v)]) = m ++ [(k, w)].
Proof.
  induction m as [|[k' x] m IH]; cbn; intros H; [by rewrite decide_True|].
  apply not_elem_of_cons in H as [Hk H]. rewrite decide_False by congruence. by rewrite IH.
Qed.

Lemma set_default_new k m v : k ∉ m.*1 -> set_default (JObj m) k v = JObj (m ++ [(k, v)]).
Proof. intros H. unfold set_default. cbn. by rewrite find_key_absent, set_slot_new. Qed.

Lemma set_default_last k m v w :
  k ∉ m.*1 -> set_default (JObj (m ++ [(k, v)])) k w = JObj (m ++ [(k, v)]).
Proof. intros H. unfold set_default. cbn. by rewrite find_key_new. Qed.

Lemma last_snoc_of {A} (l : list A) x : last (l ++ [x]) = Some x.
Proof. by rewrite last_app. Qed.

Lemma focus_table path plug m0 key :
  focus path plug -> key ∉ m0.*1 -> focus (path ++ [key]) (fun n => plug (JObj (m0 ++ [(key, n)]))).
Proof.
  intros Hf Hk m k. rewrite table_at_app, Hf. cbn [table_at].
  rewrite set_default_last by done. cbn [get]. rewrite find_key_new by done.
  destruct (k (JObj m)); [done|]. cbn [set]. by rewrite set_slot_last.
Qed.

Lemma focus_elem path plug m0 key before :
  focus path plug -> key ∉ m0.*1 ->
  focus (path ++ [key]) (fun n => plug (JObj (m0 ++ [(key, JArr (before ++ [n]))]))).
Proof.
  intros Hf Hk m k. rewrite table_at_app, Hf. cbn [table_at].
  rewrite set_default_last by done. cbn [get]. rewrite find_key_new by done.
  rewrite last_snoc_of. destruct (k (JObj m)); [done|]. cbn [set].
  by rewrite set_slot_last, removelast_last.
Qed.

(** *** Building the tree *)

Fixpoint run (root : Json) (cur : list string) (sts : list (Z * stmt)) : tres (Json * list string) :=
  match sts with
  | [] => TOk (root, cur)
  | (i, st) :: sts' => tbind (exec_stmt root cur i st) (fun '(root', cur') => run root' cur' sts')
  end.

Lemma exec_run sts : forall root cur, exec root cur sts = tbind (run root cur sts) (fun '(r, _) => TOk r).
Proof.
  induction sts as [|[i st] sts IH]; intros root cur; [done|]. cbn [exec run].
  destruct (exec_stmt root cur i st) as [[]| | |]; cbn [tbind]; [apply IH|done..].
Qed.

Lemma run_app a b : forall root cur root' cur',
  run root cur a = TOk (root', cur') -> run root cur (a ++ b) = run root' cur' b.
Proof.
  induction a as [|[i st] a IH]; intros root cur root' cur' H; cbn [run app] in *; [by simplify_eq|].
  destruct (exec_stmt root cur i st) as [[r c]| | |]; cbn [tbind] in *; try done. by apply IH.
Qed.

(** The statements of [v] build it in an empty table. *)
Definition builds (v : Json) : Prop :=
  forall path plug sts, focus path plug -> sts.*2 = stmts path v ->
  exists cur, run (plug obj) path sts = TOk (plug v, cur).

Lemma exec_kv path plug m0 k v i :
  focus path plug -> k ∉ m0.*1 ->
  exec_stmt (plug (JObj m0)) path i (KV k v) = TOk (plug (JObj (m0 ++ [(k, v)])), path).
Proof. intros Hf Hk. cbn [exec_stmt]. rewrite Hf. cbn [set]. by rewrite set_slot_new. Qed.

Lemma exec_table path plug m0 k i cur :
  focus path plug -> k ∉ m0.*1 ->
  exec_stmt (plug (JObj m0)) cur i (Table (path ++ [k]))
  = TOk (plug (JObj (m0 ++ [(k, obj)])), path ++ [k]).
Proof.
  intros Hf Hk. cbn [exec_stmt]. unfold ensure_table. rewrite table_at_app, Hf. cbn [table_at].
  rewrite set_default_new by done. cbn [get]. rewrite find_key_new by done.
  cbn [obj set]. by rewrite set_slot_last.
Qed.

Lemma exec_elem path plug m0 k i cur root :
  focus path plug -> k ∉ m0.*1 ->
  forall before,
  root = plug (JObj (m0 ++ match before with [] => [] | _ => [(k, JArr before)] end)) ->
  exec_stmt root cur i (Elem (path ++ [k]))
  = TOk (plug (JObj (m0 ++ [(k, JArr (before ++ [obj]))])), path ++ [k]).
Proof.
  intros Hf Hk before ->. cbn [exec_stmt]. unfold push_array_table.
  rewrite last_snoc_of, removelast_last, Hf. unfold push_element. destruct before as [|b before].
  - rewrite List.app_nil_r, set_default_new by done. cbn [get]. rewrite find_key_new by done.
    cbn [set]. by rewrite set_slot_last.
  - rewrite set_default_last by done. cbn [get]. rewrite find_key_new by done.
    cbn [set]. by rewrite set_slot_last.
Qed.

(** The statements of a list split like the list. *)
Lemma snd_app_inv (sts : list (Z * stmt)) (a b : list stmt) :
  sts.*2 = a ++ b -> exists s1 s2, sts = s1 ++ s2 /\ s1.*2 = a /\ s2.*2 = b.
Proof. intros H. apply fmap_app_inv in H as (s1 & s2 & ? & ? & ?). eauto. Qed.

Lemma snd_cons_inv (sts : list (Z * stmt)) a (b : list stmt) :
  sts.*2 = a :: b -> exists i s2, sts = (i, a) :: s2 /\ s2.*2 = b.
Proof. destruct sts as [|[i x] sts]; [done|]. cbn. intros [= -> <-]. eauto. Qed.

Lemma run_elems path plug m0 k l :
  focus path plug -> k ∉ m0.*1 -> Forall builds l ->
  forall before sts cur, sts.*2 = (l ≫= fun y => Elem (path ++ [k]) :: stmts (path ++ [k]) y) ->
  (before <> [] \/ l <> []) ->
  exists cur', run (plug (JObj (m0 ++ match before with [] => [] | _ => [(k, JArr before)] end))) cur sts
               = TOk (plug (JObj (m0 ++ [(k, JArr (before ++ l))])), cur').
Proof.
  intros Hf Hk. induction 1 as [|y l Hy _ IH]; intros before sts cur Hs Hne.
  - apply fmap_nil_inv in Hs as ->. exists cur. cbn [run]. rewrite List.app_nil_r.
    destruct before; [by destruct Hne|done].
  - cbn [mbind list_bind] in Hs. apply snd_app_inv in Hs as (s1 & s2 & -> & H1 & H2).
    apply snd_cons_inv in H1 as (i & s1' & -> & H1).
    pose proof (focus_elem path plug m0 k before Hf Hk) as Hf'.
    destruct (Hy _ _ s1' Hf' H1) as [c Hc].
    destruct (IH (before ++ [y]) s2 c H2) as [c' Hc']; [left; by destruct before|].
    exists c'. rewrite (run_app _ _ _ _ (plug (JObj (m0 ++ [(k, JArr (before ++ [y]))]))) c).
    + destruct (before ++ [y]) eqn:E; [by destruct before|]. rewrite <- E, <- List.app_assoc in *. done.
    + cbn [run]. rewrite (exec_elem path plug m0 k i cur _ Hf Hk before eq_refl). done.
Qed.

Lemma run_entries path plug l :
  focus path plug ->
  Forall (fun kx => entry_ok kx.2 /\ (table_ok kx.2 -> builds kx.2) /\
    match kx.2 with JArr a => Forall (fun y => table_ok y -> builds y) a | _ => True end) l ->
  forall m0 sts cur, NoDup (m0 ++ l).*1 -> sts.*2 = l ≫= entry_stmts path ->
  (if bool_decide (cur = path) then plain_first l else Forall (fun kx => is_section kx.2 = true) l) ->
  exists cur', run (plug (JObj m0)) cur sts = TOk (plug (JObj (m0 ++ l)), cur').
Proof.
  intros Hf. induction 1 as [|[k x] l (Hx & Hb & Ha) _ IH]; intros m0 sts cur Hnd Hs Hp.
  { apply fmap_nil_inv in Hs as ->. exists cur. by rewrite List.app_nil_r. }
  cbn [mbind list_bind] in Hs. apply snd_app_inv in Hs as (s1 & s2 & -> & H1 & H2).
  assert (k ∉ m0.*1) as Hk.
  { rewrite fmap_app in Hnd. apply NoDup_app in Hnd as (_ & Hd & _). intros H. apply (Hd k H). left. }
  assert (NoDup ((m0 ++ [(k, x)]) ++ l).*1) as Hnd' by (by rewrite <- List.app_assoc).
  assert (exists cur', run (plug (JObj m0)) cur s1 = TOk (plug (JObj (m0 ++ [(k, x)])), cur') /\
    (if bool_decide (cur' = path) then plain_first l else Forall (fun kx => is_section kx.2 = true) l))
    as (c & Hc & Hp').
  { cbn in Hx, Hb, Ha, H1. destruct (is_section x) eqn:Ex.
    - assert (Forall (fun kx => is_section kx.2 = true) l) as Hl.
      { destruct (bool_decide _); cbn in Hp; [by rewrite Ex in Hp|]. by apply Forall_cons in Hp as [_ ?]. }
      assert (forall c : list string, if bool_decide (c = path) then plain_first l
        else Forall (fun kx => is_section kx.2 = true) l) as Hany.
      { intros c. destruct (decide (c = path)); [rewrite bool_decide_true by done|by rewrite bool_decide_false]. destruct l as [|[k2 y] l]; [done|]. cbn [plain_first].
        apply Forall_cons in Hl as [Hy Hl]. cbn in Hy. by rewrite Hy. }
      inversion Hx as [? Hsec _|m Ht|a _ Ht]; subst; [congruence| |].
      + apply snd_cons_inv in H1 as (i & s1' & -> & H1).
        pose proof (focus_table path plug m0 k Hf Hk) as Hf'.
        destruct (Hb Ht _ _ s1' Hf' H1) as [c Hc]. exists c. split; [|apply Hany].
        cbn [run]. rewrite (exec_table path plug m0 k i cur Hf Hk). done.
      + assert (Forall builds a) as Hba.
        { rewrite Forall_forall in *. auto. }
        destruct (run_elems path plug m0 k a Hf Hk Hba [] s1 cur H1) as [c Hc]; [right; by destruct a|].
        exists c. rewrite List.app_nil_r in Hc. split; [done|apply Hany].
    - apply snd_cons_inv in H1 as (i & s1' & -> & H1). apply fmap_nil_inv in H1 as ->.
      case_bool_decide as Ec; [|by apply Forall_cons in Hp as [? _]; cbn in *; congruence].
      subst cur. exists path. cbn in Hp. rewrite Ex in Hp. rewrite bool_decide_true by done. split; [|done].
      cbn [run]. rewrite exec_kv by done. done. }
  destruct (IH (m0 ++ [(k, x)]) s2 c Hnd' H2 Hp') as [c' Hc']. exists c'.
  rewrite (run_app _ _ _ _ _ _ Hc), Hc'. by rewrite <- List.app_assoc.
Qed.

Lemma table_builds v :
  (table_ok v -> builds v) /\ match v with JArr a => Forall (fun y => table_ok y -> builds y) a | _ => True end.
Proof.
  induction v as [| | | | |a IH|m IH] using Json_nested_ind; (split; [|try done]); try by inversion 1.
  - apply (Forall_impl _ _ _ IH). by intros y [? _].
  - inversion 1 as [? Hnd Hbare Hp He]; subst. intros path plug sts Hf Hs. rewrite stmts_obj in Hs.
    destruct (run_entries path plug m Hf) with (m0 := @nil (string * Json)) (sts := sts) (cur := path)
      as [c Hc]; try done.
    + rewrite Forall_forall in *. intros kx Hkx. split; [by apply He|]. by apply IH.
    + by rewrite bool_decide_true.
    + eauto.
Qed.

(** *** The statements of a table are well formed *)

Lemma table_stmts_ok v :
  (table_ok v -> forall path, Forall bare path -> Forall stmt_ok (stmts path v)) /\
  match v with
  | JArr a => Forall (fun y => table_ok y -> forall path, Forall bare path -> Forall stmt_ok (stmts path y)) a
  | _ => True
  end.
Proof.
  induction v as [| | | | |a IH|m IH] using Json_nested_ind; (split; [|try done]); try by inversion 1.
  { apply (Forall_impl _ _ _ IH). by intros y [? _]. }
  inversion 1 as [? _ Hbare _ He]; subst. intros path Hp. rewrite stmts_obj. apply Forall_bind.
  rewrite Forall_fmap in Hbare. rewrite Forall_forall in *. intros [k x] Hkx.
  specialize (He _ Hkx). specialize (IH _ Hkx) as [IHx IHa]. specialize (Hbare _ Hkx). cbn in *.
  assert (Forall bare (path ++ [k])) as Hp'.
  { apply Forall_app. split; [done|by apply Forall_singleton]. }
  assert (forall st, st = Table (path ++ [k]) \/ st = Elem (path ++ [k]) -> stmt_ok st) as Hh.
  { intros st [-> | ->]; (split; [by destruct path|done]). }
  destruct (is_section x) eqn:Ex.
  - inversion He as [? Hn _|m' Ht|a _ Ht]; subst; [congruence| |].
    + constructor; [by apply Hh; left|]. by apply IHx.
    + apply Forall_bind. rewrite Forall_forall in *. intros y Hy.
      apply Forall_cons; split; [by apply Hh; right|]. by apply IHa; [|apply Ht|].
  - inversion He as [? _ Hpl|m' Ht|a Hs Ht]; subst; [|done|congruence]. by apply Forall_singleton.
Qed.

(** Documents with these values are printed and read back by the JSON side. *)

Lemma json_ok_list a : Forall (fun x => json_ok x = true) a -> json_ok (JArr a) = true.
Proof. induction 1 as [|x l Hx _ IH]; [done|]. cbn in *. by rewrite Hx, IH. Qed.

Lemma plain_json_ok v : plain v -> json_ok v = true.
Proof.
  induction v as [|b|i|f|s|a IH|m IH] using Json_nested_ind; intros Hv; try done.
  - cbn. destruct Hv. by rewrite andb_true_iff, Z.leb_le, Z.ltb_lt.
  - apply Hv.
  - apply json_ok_list. apply plain_arr in Hv. rewrite Forall_forall in *. auto.
Qed.

Lemma bare_utf8 k : str_all bare_char k = true -> valid_utf8 k = true.
Proof.
  induction k as [|c k IH]; [done|]. cbn [str_all]. intros [Hc Hk]%andb_prop. cbn [valid_utf8].
  assert ((bz c <? 0x80) = true) as -> by (by destruct c as [[] [] [] [] [] [] [] []]; vm_compute in Hc |- *).
  by apply IH.
Qed.

Lemma table_json_ok v :
  (table_ok v -> json_ok v = true) /\
  match v with JArr a => Forall (fun y => table_ok y -> json_ok y = true) a | _ => True end.
Proof.
  induction v as [| | | | |a IH|m IH] using Json_nested_ind; (split; [|try done]); try by inversion 1.
  { apply (Forall_impl _ _ _ IH). by intros y [? _]. }
  inversion 1 as [? _ Hbare _ He]; subst. rewrite Forall_fmap in Hbare.
  assert (Forall (fun kx => valid_utf8 kx.1 = true /\ json_ok kx.2 = true) m) as HF.
  { rewrite Forall_forall in *. intros [k x] Hkx. specialize (He _ Hkx). specialize (IH _ Hkx) as [IHx IHa].
    cbn in *. split; [by apply bare_utf8, (Hbare _ Hkx)|].
    inversion He as [? _ Hp|m' Ht|a _ Ht]; subst; [by apply plain_json_ok|by apply IHx|].
    apply json_ok_list. rewrite Forall_forall in *. auto. }
  clear -HF. cbn. induction HF as [|[k x] l [Hk Hx] _ IHl]; cbn in *; [done|]. by rewrite Hk, Hx, IHl.
Qed.

(** No float of the tree is integral. *)
Fixpoint fractional (v : Json) : bool :=
  match v with
  | JFloat f => f64_is_finite f && negb (f64_integral f)
  | JArr a => forallb fractional a
  | JObj m => forallb (fun kv => fractional kv.2) m
  | _ => true
  end.

Lemma fractional_norm v : json_ok v = true -> fractional v = true -> norm v = v.
Proof.
  induction v as [|b|i|f|s|a IH|m IH] using Json_nested_ind; intros Hok Hv; try done; cbn in Hok, Hv |- *.
  - apply andb_prop in Hv as [H1 H2]. apply negb_true_iff in H2. by apply norm_float_same.
  - f_equal. induction IH as [|x l Hx _ IHl]; [done|]. cbn in Hok, Hv |- *.
    apply andb_prop in Hok as [? ?]. apply andb_prop in Hv as [? ?]. by rewrite Hx, IHl.
  - f_equal. induction IH as [|[k x] l Hx _ IHl]; [done|]. cbn in Hok, Hv, Hx |- *.
    apply andb_prop in Hok as [[? ?]%andb_prop ?]. apply andb_prop in Hv as [? ?]. by rewrite Hx, IHl.
Qed.


Definition sample_tree : Json :=
  JObj [("rootfs", JStr "/var/lib/a#b"); ("cpus", JFloat (SpecFloat.S754_finite false 6755399441055744 (-52)));
        ("command", JArr [JStr "sh"; JStr "-c, ]"; JArr [JInt (-3)]]);
        ("network", JObj [("nat", JBool true);
          ("publish", JArr [JObj [("host", JInt 8080)]; JObj [("host", JInt 9090)]])])].

Definition sample_lines : list src_line :=
  {| indent := 0; body := None; gap := 2; comment := Some " a comment" |} ::
  ((fun st => {| indent := 1; body := Some st; gap := 1; comment := Some "x = [" |}) <$> stmts [] sample_tree).


(** The one difference between the two formats. *)
Example integral_float_differs :
  parse "cpus = 2.0" = TOk (JObj [("cpus", JFloat (f64_of_Z 2))]) /\
  json.parse (to_string (JObj [("cpus", JFloat (f64_of_Z 2))])) = Ok (JObj [("cpus", JInt 2)]).
Proof. vm_compute. split; reflexivity. Qed.

(** ** The reader always answers *)

Lemma strip_all_length w fuel : forall s, (slen (strip_all_of fuel w s) <= slen s)%nat.
Proof.
  assert (forall s r, strip_one_of w s = Some r -> (slen r <= slen s)%nat) as H1.
  { induction w as [|p w IH]; intros s r; cbn; [done|]. destruct (strip_prefix p s) eqn:E; [|apply IH].
    intros [= <-]. apply strip_prefix_length in E. lia. }
  induction fuel as [|f IH]; intros s; cbn; [done|]. destruct (strip_one_of w s) eqn:E; [|done].
  specialize (IH s0). apply H1 in E. lia.
Qed.

Lemma trim_length s : (slen (trim s) <= slen s)%nat.
Proof.
  unfold trim, trim_end, trim_start. rewrite rev_length.
  pose proof (strip_all_length whitespace (slen s) s).
  pose proof (strip_all_length (map String.rev whitespace) (slen (strip_all_of (slen s) whitespace s))
    (String.rev (strip_all_of (slen s) whitespace s))) as H1. rewrite rev_length in H1. lia.
Qed.

Lemma split_go_length s : forall b l d cur, Forall (fun t => (slen t <= slen cur + slen s)%nat) (split_go b l d cur s).
Proof.
  assert (forall n s, (slen s <= n)%nat -> forall b l d cur,
    Forall (fun t => (slen t <= slen cur + slen s)%nat) (split_go b l d cur s)) as H; [|intros; by eapply H].
  induction n as [|n IH]; intros t Ht b l d cur.
  { destruct t; [|cbn in Ht; lia]. apply Forall_singleton. cbn. lia. }
  destruct t as [|c t]; cbn [split_go]; [apply Forall_singleton; cbn; lia|]. cbn in Ht.
  assert (forall b l d cur' u, (slen u <= n)%nat -> (slen cur' + slen u <= slen cur + slen (String c t))%nat ->
    Forall (fun x => (slen x <= slen cur + slen (String c t))%nat) (split_go b l d cur' u)) as Hn.
  { intros b' l' d' cur' u Hu Hl. eapply Forall_impl; [by apply IH|]. intros x Hx. cbn in *. lia. }
  assert (slen (cur +:+ String c "") = slen cur + 1)%nat as Hc by (by rewrite str_length_app).
  destruct (classify b l c); try (apply Hn; [lia|cbn; lia]).
  - destruct t as [|e t]; [apply Forall_singleton; cbn; lia|]. cbn in Ht. apply Hn; [lia|].
    rewrite str_length_app. cbn. lia.
  - destruct (d =? 0); [|apply Hn; [lia|cbn; lia]]. constructor; [lia|]. apply Hn; [lia|cbn; lia].
Qed.

Lemma basic_go_fuel fuel : forall out r, (slen r < fuel)%nat -> basic_go fuel out r <> TFuel.
Proof.
  induction fuel as [|f IH]; intros out r Hf; [lia|]. cbn [basic_go].
  destruct r as [|c r]; [done|]. cbn in Hf.
  destruct (ascii_dec c "034") as [_|_]; [by destruct (str_is_empty r)|].
  destruct (ascii_dec c "\") as [_|_].
  - destruct r as [|e r]; [done|]. cbn in Hf. destruct (take_bytes 4 r) as [[hex r3]|] eqn:E4.
    + apply take_bytes_length in E4.
      assert (forall o, basic_go f o r <> TFuel) by (intros; apply IH; lia).
      assert (forall o, basic_go f o r3 <> TFuel) by (intros; apply IH; lia).
      destruct e as [[] [] [] [] [] [] [] []]; try done; repeat case_match; done.
    + assert (forall o, basic_go f o r <> TFuel) by (intros; apply IH; lia).
      destruct e as [[] [] [] [] [] [] [] []]; done.
  - destruct (bz c <? 0x80); [apply IH; lia|]. destruct (is_cont c); [apply IH; lia|].
    destruct (take_bytes (seq_len c) (String c r)) as [[ch r2]|] eqn:E; [|apply IH; lia].
    apply take_bytes_length in E. pose proof (seq_len_pos c). cbn in E. apply IH. lia.
Qed.

Lemma tbind_fuel {A B} (p : tres A) (k : A -> tres B) :
  p <> TFuel -> (forall a, p = TOk a -> k a <> TFuel) -> tbind p k <> TFuel.
Proof. destruct p; cbn; auto. Qed.

Lemma parse_items_fuel value l :
  Forall (fun t => value (trim t) <> TFuel) l -> parse_items value l <> TFuel.
Proof.
  induction 1 as [|t l Ht _ IH]; cbn [parse_items]; [done|]. destruct (str_is_empty _); [done|].
  apply tbind_fuel; [done|]. intros v _. by apply tbind_fuel.
Qed.

Lemma inner_length s : (2 <= slen s)%nat -> (slen (inner s) < slen s)%nat.
Proof.
  assert (forall s, (slen (but_last s) <= slen s)%nat) as H.
  { intros t. induction t as [|c t IH]; [done|]. cbn [but_last]. destruct t; cbn in *; lia. }
  destruct s as [|c s]; cbn; [lia|]. intros _. specialize (H s). lia.
Qed.

Lemma of_result_fuel {A} (r : result A) : of_result r <> TFuel.
Proof. by destruct r. Qed.

Lemma parse_value_fuel fuel : forall s, (slen s < fuel)%nat -> parse_value fuel s <> TFuel.
Proof.
  induction fuel as [|f IH]; intros s Hf; [lia|]. cbn [parse_value].
  destruct (str_is_empty s) eqn:Es; [done|]. destruct (_ || _); [done|].
  destruct (starts_with "{" s); [done|]. destruct (starts_with quote s).
  { apply tbind_fuel; [|done]. unfold parse_basic_string. destruct s as [|c s]; [done|].
    destruct (_ || _); [done|]. apply basic_go_fuel. lia. }
  destruct (starts_with "'" s); [by destruct (_ || _)|].
  destruct (starts_with "[" s) eqn:Eb.
  { destruct (ends_with "]" s) eqn:Ee; cbn [negb]; [|done]. apply tbind_fuel; [|done].
    assert (2 <= slen s)%nat as H2.
    { apply starts_with_spec in Eb as [r ->]. destruct r; [by vm_compute in Ee|]. cbn. lia. }
    apply parse_items_fuel. pose proof (inner_length s H2).
    eapply Forall_impl; [apply split_go_length|]. intros t Ht. cbn in Ht. apply IH.
    pose proof (trim_length t). lia. }
  repeat case_bool_decide; try done. apply of_result_fuel.
Qed.

(** *** Pieces of a text have its characters *)

Section pieces.
Context (f : ascii -> bool) (Hspace : f " "%char = true).
Abbreviation allf := (str_all f).

Lemma all_suffix a b : allf (a +:+ b) = true -> allf a = true /\ allf b = true.
Proof. rewrite str_all_app. intros H%andb_prop. done. Qed.

Lemma all_trim s : allf s = true -> allf (trim s) = true.
Proof.
  assert (forall w fuel t, allf t = true -> allf (strip_all_of fuel w t) = true) as H.
  { intros w fuel. induction fuel as [|n IH]; intros t Ht; cbn; [done|].
    destruct (strip_one_of w t) as [r|] eqn:E; [|done]. apply IH. clear IH. revert E.
    induction w as [|p w IHw]; cbn; [done|]. destruct (strip_prefix p t) eqn:Ep; [|done].
    intros [= <-]. apply strip_prefix_Some in Ep as ->. by apply all_suffix in Ht as [_ ?]. }
  intros Hs. unfold trim, trim_end, trim_start. rewrite str_all_rev. apply H. rewrite str_all_rev. by apply H.
Qed.

Lemma all_strip s : forall b l, allf s = true -> allf (strip_go b l s) = true.
Proof.
  assert (forall n s, (slen s <= n)%nat -> forall b l, allf s = true -> allf (strip_go b l s) = true) as H;
    [|intros; by eapply H].
  induction n as [|n IH]; intros [|c t] Ht b l Ha; cbn in Ht; try lia; [done..|]. cbn [strip_go].
  cbn in Ha. apply andb_prop in Ha as [Hc Ha]. destruct (classify b l c); cbn [str_all]; rewrite ?Hc;
    try (apply IH; [lia|done]); [|done].
  destruct t as [|d t]; cbn; rewrite ?Hc; [done|]. cbn in Ha, Ht. apply andb_prop in Ha as [-> Ha].
  apply IH; [lia|done].
Qed.

Lemma all_split_on c s : allf s = true -> Forall (fun t => allf t = true) (split_on c s).
Proof.
  induction s as [|a s IH]; cbn; [by intros; apply Forall_singleton|]. intros [Ha Hs]%andb_prop.
  specialize (IH Hs). destruct (ascii_dec a c); [by constructor|].
  destruct (split_on c s) as [|w ws]; [apply Forall_singleton; cbn; by rewrite Ha|].
  apply Forall_cons in IH as [Hw Hws]. constructor; [cbn; by rewrite Ha|done].
Qed.

Lemma all_lines s : allf s = true -> Forall (fun t => allf t = true) (lines s).
Proof.
  intros H. unfold lines. pose proof (all_split_on "010" s H) as HF. revert HF.
  generalize (split_on "010" s). intros l. induction l as [|x l IH]; intros HF; [done|].
  apply Forall_cons in HF as [Hx HF]. cbn [lines_go].
  destruct l as [|y l]; [destruct (str_is_empty x); [done|by apply Forall_singleton]|].
  constructor; [|by apply IH]. unfold strip_cr, strip_suffix.
  destruct (strip_prefix _ (String.rev x)) as [r|] eqn:E; [|done].
  apply strip_prefix_Some in E. rewrite str_all_rev. rewrite <- str_all_rev, E in Hx.
  by apply all_suffix in Hx as [_ ?].
Qed.

Lemma all_inner s : allf s = true -> allf (inner s) = true.
Proof.
  assert (forall t, allf t = true -> allf (but_last t) = true) as H.
  { intros t. induction t as [|c t IH]; [done|]. cbn [but_last str_all]. intros [Hc Ht]%andb_prop.
    destruct t; [done|]. cbn [str_all]. rewrite Hc. by apply IH. }
  destruct s as [|c s]; [done|]. cbn. intros [_ Hs]%andb_prop. by apply H.
Qed.

Lemma all_split_go s : forall b l d cur, allf cur = true -> allf s = true ->
  Forall (fun t => allf t = true) (split_go b l d cur s).
Proof.
  assert (forall n s, (slen s <= n)%nat -> forall b l d cur, allf cur = true -> allf s = true ->
    Forall (fun t => allf t = true) (split_go b l d cur s)) as H; [|intros; by eapply H].
  induction n as [|n IH]; intros [|c t] Ht b l d cur Hcur Ha; cbn in Ht; try lia;
    [by apply Forall_singleton..|]. cbn [split_go].
  cbn in Ha. apply andb_prop in Ha as [Hc Ha].
  assert (allf (cur +:+ String c "") = true) as Hn by (rewrite str_all_app; cbn; by rewrite Hcur, Hc).
  destruct (classify b l c); try (apply IH; [lia|done..]).
  - destruct t as [|e t]; [by apply Forall_singleton|]. cbn in Ha, Ht. apply andb_prop in Ha as [He Ha].
    apply IH; [lia| |done]. rewrite str_all_app, Hn. cbn. by rewrite He.
  - destruct (d =? 0); [|apply IH; [lia|done..]]. constructor; [done|]. apply IH; [lia|done..].
Qed.

Lemma all_split_once c s a b : split_once c s = Some (a, b) -> allf s = true -> allf b = true.
Proof.
  revert a. induction s as [|x s IH]; intros a; cbn; [done|]. destruct (ascii_dec x c).
  - intros [= <- <-] [_ ?]%andb_prop. done.
  - destruct (split_once c s) as [[l r]|]; [|done]. intros [= <- <-] [_ ?]%andb_prop. by eapply IH.
Qed.

Lemma all_logical ps : forall i pending ls,
  Forall (fun t => allf t = true) ps ->
  (forall start joined, pending = Some (start, joined) -> allf joined = true) ->
  logical_go i pending ps = Ok ls -> Forall (fun nt => allf nt.2 = true) ls.
Proof.
  induction ps as [|p ps IH]; intros i pending ls Hps Hpend H.
  { cbn in H. destruct pending as [[]|]; [done|]. by simplify_eq. }
  apply Forall_cons in Hps as [Hp Hps]. cbn [logical_go] in H.
  assert (allf (trim (strip_comment p)) = true) as Htext by (by apply all_trim, all_strip).
  assert (forall start joined, allf joined = true ->
    (if 0 <? bracket_depth joined then logical_go (i + 1) (Some (start, joined)) ps
     else rest ← logical_go (i + 1) None ps; Ok ((start, joined) :: rest)) = Ok ls ->
    Forall (fun nt => allf nt.2 = true) ls) as Hval.
  { intros start joined Hj Hv. destruct (0 <? bracket_depth joined).
    - eapply IH; [done| |done]. by intros ? ? [= <- <-].
    - apply bind_ok in Hv as (rest & Hr & [= <-]). constructor; [done|]. by apply (IH (i + 1) None). }
  destruct pending as [[start joined]|].
  - destruct (str_is_empty _); [by eapply IH|]. eapply Hval; [|done].
    rewrite !str_all_app, Htext, (Hpend _ _ eq_refl). cbn. by rewrite Hspace.
  - destruct (str_is_empty _); [by apply (IH (i + 1) None)|]. destruct (_ && _).
    + apply bind_ok in H as (rest & Hr & [= <-]). constructor; [done|]. by apply (IH (i + 1) None).
    + by eapply Hval.
Qed.
End pieces.

(** *** ASCII text never makes it panic *)

Definition ascii_text (s : string) : Prop := str_all (fun c => negb (is_high c)) s = true.

Lemma cont_high c : is_cont c = true -> is_high c = true.
Proof. unfold is_cont, is_high, in_range. intros [H _]%andb_prop. done. Qed.

Lemma basic_go_ascii_safe fuel : forall out r, ascii_text r -> basic_go fuel out r <> TPanic.
Proof.
  induction fuel as [|n IH]; intros out r Hr; [done|]. cbn [basic_go].
  destruct r as [|c r]; [done|]. cbn in Hr. apply andb_prop in Hr as [Hc Hr].
  destruct (ascii_dec c "034") as [_|_]; [by destruct (str_is_empty r)|].
  destruct (ascii_dec c "\") as [_|_].
  - destruct r as [|e r]; [done|]. cbn in Hr. apply andb_prop in Hr as [He Hr].
    assert (forall o, basic_go n o r <> TPanic) by (intros; by apply IH).
    destruct (take_bytes 4 r) as [[hex r3]|] eqn:E4.
    + apply take_bytes_Some in E4 as [-> _]. apply all_suffix in Hr as [_ Hr3].
      assert (forall o, basic_go n o r3 <> TPanic) by (intros; by apply IH).
      assert (match r3 with String d _ => is_cont d | "" => false end = false) as Hd.
      { destruct r3 as [|d r3]; [done|]. cbn in Hr3. apply andb_prop in Hr3 as [Hd _].
        destruct (is_cont d) eqn:Ed; [|done]. by rewrite (cont_high d Ed) in Hd. }
      destruct e as [[] [] [] [] [] [] [] []]; try done;
        (destruct r3 as [|d r3]; [|rewrite Hd]); by destruct (parse_unsigned 32 16 hex).
    + destruct e as [[] [] [] [] [] [] [] []]; done.
  - apply negb_true_iff, Z.leb_gt in Hc. rewrite (proj2 (Z.ltb_lt _ _)) by done. by apply IH.
Qed.

Lemma tbind_panic {A B} (p : tres A) (k : A -> tres B) :
  p <> TPanic -> (forall a, p = TOk a -> k a <> TPanic) -> tbind p k <> TPanic.
Proof. destruct p; cbn; auto. Qed.

Lemma parse_value_safe fuel : forall s, ascii_text s -> parse_value fuel s <> TPanic.
Proof.
  induction fuel as [|n IH]; intros s Hs; [done|]. cbn [parse_value].
  destruct (str_is_empty s); [done|]. destruct (_ || _); [done|].
  destruct (starts_with "{" s); [done|]. destruct (starts_with quote s).
  { apply tbind_panic; [|done]. unfold parse_basic_string. destruct s as [|c s]; [done|].
    destruct (_ || _); [done|]. cbn in Hs. apply andb_prop in Hs as [_ Hs]. by apply basic_go_ascii_safe. }
  destruct (starts_with "'" s); [by destruct (_ || _)|].
  destruct (starts_with "[" s).
  { destruct (negb _); [done|]. apply tbind_panic; [|done].
    pose proof (all_split_go _ (inner s) false false 0 "" eq_refl (all_inner _ s Hs)) as HF.
    fold (split_top_level (inner s)) in HF. induction HF as [|t l Ht _ IHl]; cbn [parse_items]; [done|].
    destruct (str_is_empty _); [done|].
    apply tbind_panic; [by apply IH, all_trim|]. intros v _. by apply tbind_panic. }
  repeat case_bool_decide; try done. by destruct (parse_number s).
Qed.

Lemma value_at_fuel i s : value_at i s <> TFuel.
Proof.
  unfold value_at. pose proof (parse_value_fuel (S (slen s)) s ltac:(lia)).
  by destruct (parse_value _ _).
Qed.

Lemma value_at_safe i s : ascii_text s -> value_at i s <> TPanic.
Proof.
  intros H. unfold value_at. pose proof (parse_value_safe (S (slen s)) s H).
  by destruct (parse_value _ _).
Qed.

Lemma at_line_answers {A} i (r : string + A) : at_line i r <> TFuel /\ at_line i r <> TPanic.
Proof. by destruct r. Qed.

Lemma of_result_safe {A} (r : result A) : of_result r <> TPanic.
Proof. by destruct r. Qed.

Lemma parse_line_fuel root cur i l : parse_line root cur i l <> TFuel.
Proof.
  unfold parse_line. repeat case_match; try done;
    repeat (apply tbind_fuel;
      [first [apply of_result_fuel | apply at_line_answers | apply value_at_fuel]|intros ? _]); done.
Qed.

Lemma parse_line_safe root cur i l : ascii_text l -> parse_line root cur i l <> TPanic.
Proof.
  intros Hl. unfold parse_line. repeat case_match; try done;
    repeat (apply tbind_panic;
      [first [apply of_result_safe | apply at_line_answers | idtac]|intros ? _]); try done.
  apply value_at_safe, all_trim. by eapply all_split_once.
Qed.

Lemma parse_no_fuel (input : string) : parse input <> TFuel.
Proof.
  unfold parse. apply tbind_fuel; [apply of_result_fuel|]. intros ls _.
  generalize (@nil string). generalize obj.
  induction ls as [|[i l] ls IH]; intros root cur; [done|]. cbn [parse_lines].
  apply tbind_fuel; [apply parse_line_fuel|]. intros [] _. apply IH.
Qed.

(** The reader always answers: no input uses up its fuel, and a panic is
    possible only with characters beyond ASCII. *)
Theorem toml_parse_total (input : string) :
  parse input <> TFuel /\ (ascii_text input -> parse input <> TPanic).
Proof.
  split; [apply parse_no_fuel|]. unfold parse.
  - intros Hin. apply tbind_panic; [apply of_result_safe|]. intros ls Hls.
    assert (Forall (fun nt => ascii_text nt.2) ls) as HF.
    { unfold logical_lines in Hls. destruct (logical_go 0 None (lines input)) eqn:E; [|done].
      cbn in Hls. simplify_eq.
      apply (all_logical (fun c => negb (is_high c)) eq_refl (lines input) 0 None); [|done|exact E].
      by apply all_lines. }
    clear Hls Hin. generalize (@nil string). generalize obj.
    induction HF as [|[i l] ls Hl _ IH]; intros root cur; [done|]. cbn [parse_lines].
    apply tbind_panic; [by apply parse_line_safe|]. intros [] _. apply IH.
Qed.

Lemma toml_parse_total_witness : parse "x = [1, [2]]" <> TPanic.
Proof. apply toml_parse_total. reflexivity. Defined.

(** A [\u] escape that ends inside a character panics. *)
Example u_escape_panics : parse ("k = " +:+ quote +:+ "\u123" +:+ utf8_encode 233 +:+ quote) = TPanic.
Proof. vm_compute. reflexivity. Qed.

(** A quoted table name is cut at its dots, and the quotes stay in the keys. *)
Example quoted_header_is_split :
  parse ("[" +:+ quote +:+ "a.b" +:+ quote +:+ "]")
  = TOk (JObj [(quote +:+ "a", JObj [("b" +:+ quote, JObj [])])]).
Proof. vm_compute. reflexivity. Qed.

(** A sign is also accepted after the radix prefix. *)
Example sign_after_radix : parse "x = 0x-10" = TOk (JObj [("x", JInt (-16))]).
Proof. vm_compute. reflexivity. Qed.

(** An array over several lines with comments and blank lines, from the tests
    of the source. *)
Example multi_line_array :
  parse (join newline ["paths = ["; "  " +:+ q "/a" +:+ ",   # a comment"; ""; "  " +:+ q "/b]" +:+ ","; "]"; "after = 7"])
  = TOk (JObj [("paths", JArr [JStr "/a"; JStr "/b]"]); ("after", JInt 7)]).
Proof. vm_compute. reflexivity. Qed.

Example unterminated_array_is_an_error :
  parse (join newline ["k = ["; "  1,"]) = TErr (Parse "unterminated array starting on line 1").
Proof. vm_compute. reflexivity. Qed.
