(* ===== verification/Caps.v ===== *)
(** * [src/sys/caps.rs]: capability sets

    Names and masks are pure; [apply] is written against an interface,
    [CapKernel], with the documented behaviour of [prctl(2)] and [capset(2)]. *)
From S2P Require Import Prelude RustStr Num Error.

Module caps.

(** [CAP_TABLE]. *)
Definition CAP_TABLE : list (string * Z) :=
  [ ("CHOWN", 0); ("DAC_OVERRIDE", 1); ("DAC_READ_SEARCH", 2); ("FOWNER", 3);
    ("FSETID", 4); ("KILL", 5); ("SETGID", 6); ("SETUID", 7); ("SETPCAP", 8);
    ("LINUX_IMMUTABLE", 9); ("NET_BIND_SERVICE", 10); ("NET_BROADCAST", 11);
    ("NET_ADMIN", 12); ("NET_RAW", 13); ("IPC_LOCK", 14); ("IPC_OWNER", 15);
    ("SYS_MODULE", 16); ("SYS_RAWIO", 17); ("SYS_CHROOT", 18); ("SYS_PTRACE", 19);
    ("SYS_PACCT", 20); ("SYS_ADMIN", 21); ("SYS_BOOT", 22); ("SYS_NICE", 23);
    ("SYS_RESOURCE", 24); ("SYS_TIME", 25); ("SYS_TTY_CONFIG", 26); ("MKNOD", 27);
    ("LEASE", 28); ("AUDIT_WRITE", 29); ("AUDIT_CONTROL", 30); ("SETFCAP", 31);
    ("MAC_OVERRIDE", 32); ("MAC_ADMIN", 33); ("SYSLOG", 34); ("WAKE_ALARM", 35);
    ("BLOCK_SUSPEND", 36); ("AUDIT_READ", 37); ("PERFMON", 38); ("BPF", 39);
    ("CHECKPOINT_RESTORE", 40) ].

(** [DEFAULT_KEEP]. *)
Definition DEFAULT_KEEP : list string :=
  [ "CHOWN"; "DAC_OVERRIDE"; "FOWNER"; "FSETID"; "KILL"; "SETGID"; "SETUID"; "SETPCAP";
    "NET_BIND_SERVICE"; "SYS_CHROOT"; "MKNOD"; "AUDIT_WRITE" ].

Fixpoint find_cap (n : string) (t : list (string * Z)) : option Z :=
  match t with
  | [] => None
  | (name, v) :: t' => if decide (name = n) then Some v else find_cap n t'
  end.

(** [parse_cap]. *)
Definition parse_cap (name : string) : result Z :=
  let n := to_ascii_uppercase (trim name) in
  let n := default n (strip_prefix "CAP_" n) in
  ok_or (Config ("unknown capability " +:+ debug_str name)) (find_cap n CAP_TABLE).

Fixpoint find_bit (v : Z) (t : list (string * Z)) : option string :=
  match t with
  | [] => None
  | (name, b) :: t' => if b =? v then Some name else find_bit v t'
  end.

(** [cap_name]. *)
Definition cap_name (v : Z) : string :=
  "CAP_" +:+ default (show_dec v) (find_bit v CAP_TABLE).

(** [1u64 << v]: the shift amount of a release build is taken modulo 64. *)
Definition bit64 (v : Z) : Z := Z.shiftl 1 (v `mod` 64).
(** [!x] on [u64]. *)
Definition not64 (x : Z) : Z := Z.lxor x (Z.ones 64).

(** [for c in l { mask |= 1u64 << parse_cap(c)?; }]. *)
Fixpoint or_caps (l : list string) (mask : Z) : result Z :=
  match l with
  | [] => Ok mask
  | c :: l' => v ← parse_cap c; or_caps l' (Z.lor mask (bit64 v))
  end.

(** [for c in drop { mask &= !(1u64 << parse_cap(c)?); }]. *)
Fixpoint drop_caps (l : list string) (mask : Z) : result Z :=
  match l with
  | [] => Ok mask
  | c :: l' => v ← parse_cap c; drop_caps l' (Z.land mask (not64 (bit64 v)))
  end.

Definition or_table (mask : Z) : Z := foldl (fun m kv => Z.lor m (bit64 kv.2)) mask CAP_TABLE.

(** The loop over [add]. *)
Fixpoint add_caps (l : list string) (mask : Z) : result Z :=
  match l with
  | [] => Ok mask
  | c :: l' =>
      if eq_ignore_ascii_case c "all" then add_caps l' (or_table mask)
      else v ← parse_cap c; add_caps l' (Z.lor mask (bit64 v))
  end.

(** [resolve_keep_set]. *)
Definition resolve_keep_set (base add drop : list string) : result Z :=
  let all := existsb (fun d => eq_ignore_ascii_case d "all") drop in
  mask ← (if all then Ok 0 else m ← or_caps base 0; drop_caps drop m);
  add_caps add mask.

(** [describe_mask]. *)
Definition describe_mask (mask : Z) : list string :=
  omap (fun kv => if negb (Z.land mask (bit64 kv.2) =? 0) then Some ("CAP_" +:+ kv.1) else None)
    CAP_TABLE.

(** ** What a keep set means *)

(** The bit a list of names asks for. *)
Definition names_bit (l : list string) (b : Z) : Prop := exists c, c ∈ l /\ parse_cap c = Ok b.
Definition has_all (l : list string) : Prop := exists c, c ∈ l /\ eq_ignore_ascii_case c "all" = true.
Definition known (b : Z) : Prop := b ∈ CAP_TABLE.*2.

Lemma names_bit_nil b : ~ names_bit [] b.
Proof. by intros (c & ?%elem_of_nil & _). Qed.

Lemma names_bit_cons c l b : names_bit (c :: l) b <-> parse_cap c = Ok b \/ names_bit l b.
Proof. unfold names_bit. setoid_rewrite elem_of_cons. naive_solver. Qed.

Lemma has_all_nil : ~ has_all [].
Proof. by intros (c & ?%elem_of_nil & _). Qed.

Lemma has_all_cons c l : has_all (c :: l) <-> eq_ignore_ascii_case c "all" = true \/ has_all l.
Proof. unfold has_all. setoid_rewrite elem_of_cons. naive_solver. Qed.

Lemma lower_inv c d : lower_char c = d -> c = d \/ c = upper_char d.
Proof. intros <-. destruct c as [[] [] [] [] [] [] [] []]; vm_compute; auto. Qed.

(** [all] is no capability. *)
Lemma all_not_cap c b : eq_ignore_ascii_case c "all" = true -> parse_cap c <> Ok b.
Proof.
  unfold eq_ignore_ascii_case. intros H%bool_decide_eq_true_1.
  destruct c as [|x [|y [|z [|]]]]; try (vm_compute in H; discriminate H).
  change ("all") with (to_ascii_lowercase "all") in H at 1. cbn in H. injection H as Hx Hy Hz.
  apply lower_inv in Hx, Hy, Hz.
  destruct Hx as [-> | ->], Hy as [-> | ->], Hz as [-> | ->]; vm_compute; discriminate.
Qed.

Lemma known_range b : known b -> 0 <= b <= 40.
Proof.
  assert (Forall (fun b => 0 <= b <= 40) CAP_TABLE.*2) as H by (repeat constructor; done).
  rewrite Forall_forall in H. apply H.
Qed.

Lemma find_cap_In n t v : find_cap n t = Some v -> v ∈ t.*2.
Proof.
  induction t as [|[k w] t IH]; cbn; [done|]. case_decide.
  - intros [= ->]. constructor.
  - intros ?%IH. by constructor.
Qed.

Lemma parse_cap_known c b : parse_cap c = Ok b -> known b.
Proof.
  unfold parse_cap. destruct (find_cap _ CAP_TABLE) eqn:E; cbn; [|done].
  intros [= ->]. by eapply find_cap_In.
Qed.

Lemma bit64_testbit v b : 0 <= v < 64 -> Z.testbit (bit64 v) b = bool_decide (b = v).
Proof.
  intros Hv. unfold bit64. rewrite Z.mod_small, Z.shiftl_1_l by done.
  rewrite Z.pow2_bits_eqb by lia. apply eq_true_iff_eq. rewrite Z.eqb_eq, bool_decide_eq_true. lia.
Qed.

Lemma bit64_known v b : known v -> Z.testbit (bit64 v) b = bool_decide (b = v).
Proof. intros ?%known_range. apply bit64_testbit. lia. Qed.

Lemma or_caps_bits l m m' b :
  or_caps l m = Ok m' -> (Z.testbit m' b = true <-> Z.testbit m b = true \/ names_bit l b).
Proof.
  revert m. induction l as [|c l IH]; intros m H; cbn in H.
  - simplify_eq. pose proof (names_bit_nil b). tauto.
  - apply bind_ok in H as (v & Hv & H). rewrite (IH _ H), Z.lor_spec, orb_true_iff.
    rewrite bit64_known, bool_decide_eq_true by (by eapply parse_cap_known).
    rewrite names_bit_cons, Hv. assert (b = v <-> Ok v = Ok b) by naive_solver. tauto.
Qed.

Lemma drop_caps_bits l m m' b :
  0 <= b < 64 -> drop_caps l m = Ok m' ->
  (Z.testbit m' b = true <-> Z.testbit m b = true /\ ~ names_bit l b).
Proof.
  intros Hb. revert m. induction l as [|c l IH]; intros m H; cbn in H.
  - simplify_eq. pose proof (names_bit_nil b). tauto.
  - apply bind_ok in H as (v & Hv & H). rewrite (IH _ H), Z.land_spec, andb_true_iff.
    unfold not64. rewrite Z.lxor_spec, Z.testbit_ones by lia.
    rewrite bit64_known by (by eapply parse_cap_known).
    rewrite (proj2 (Z.leb_le 0 b)), (proj2 (Z.ltb_lt b 64)) by lia. cbn.
    rewrite xorb_true_r, negb_true_iff, bool_decide_eq_false.
    rewrite names_bit_cons, Hv. assert (b = v <-> Ok v = Ok b) by naive_solver. tauto.
Qed.

Lemma foldl_or_bits (l : list (string * Z)) m b :
  Forall (fun kv => 0 <= kv.2 < 64) l ->
  Z.testbit (foldl (fun m kv => Z.lor m (bit64 kv.2)) m l) b = true
  <-> Z.testbit m b = true \/ b ∈ l.*2.
Proof.
  intros Hl. revert m. induction Hl as [|kv l Hk Hl IH]; intros m; cbn.
  - rewrite elem_of_nil. naive_solver.
  - rewrite IH, Z.lor_spec, orb_true_iff, bit64_testbit, bool_decide_eq_true by done.
    rewrite elem_of_cons. naive_solver.
Qed.

Lemma or_table_bits m b : Z.testbit (or_table m) b = true <-> Z.testbit m b = true \/ known b.
Proof. apply foldl_or_bits. repeat constructor; done. Qed.

Lemma add_caps_bits l m m' b :
  add_caps l m = Ok m' ->
  (Z.testbit m' b = true <->
   Z.testbit m b = true \/ (has_all l /\ known b) \/ names_bit l b).
Proof.
  revert m. induction l as [|c l IH]; intros m H; cbn [add_caps] in H.
  - simplify_eq. pose proof (names_bit_nil b). pose proof has_all_nil. tauto.
  - rewrite has_all_cons, names_bit_cons. destruct (eq_ignore_ascii_case c "all") eqn:E.
    + rewrite (IH _ H), or_table_bits. pose proof (all_not_cap c b E). tauto.
    + apply bind_ok in H as (v & Hv & H). rewrite (IH _ H), Z.lor_spec, orb_true_iff.
      rewrite bit64_known, bool_decide_eq_true by (by eapply parse_cap_known).
      rewrite Hv. assert (b = v <-> Ok v = Ok b) by naive_solver.
      assert (false <> true) by done. tauto.
Qed.

Lemma existsb_all l : existsb (fun d => eq_ignore_ascii_case d "all") l = true <-> has_all l.
Proof. unfold has_all. rewrite existsb_exists. setoid_rewrite list_elem_of_In. done. Qed.

Lemma keep_set_bits (base add drop : list string) (mask : Z) :
  resolve_keep_set base add drop = Ok mask ->
  forall b, 0 <= b < 64 ->
  (Z.testbit mask b = true <->
   (~ has_all drop /\ names_bit base b /\ ~ names_bit drop b) \/
   (has_all add /\ known b) \/ names_bit add b).
Proof.
  unfold resolve_keep_set. intros (m & Hm & Ha)%bind_ok b Hb.
  rewrite (add_caps_bits _ _ _ b Ha). pose proof (existsb_all drop) as He.
  destruct (existsb _ drop).
  - injection Hm as <-. rewrite Z.testbit_0_l. assert (false <> true) by done. tauto.
  - apply bind_ok in Hm as (m0 & Hor & Hdr).
    rewrite (drop_caps_bits _ _ _ _ Hb Hdr), (or_caps_bits _ _ _ _ Hor), Z.testbit_0_l.
    assert (false <> true) by done. tauto.
Qed.

(** The keep set is exactly the base set less the dropped capabilities
    (nothing of it when [all] is dropped), plus the added ones (every known
    one when [all] is added): what is added wins over what is dropped. *)
Theorem resolve_keep_set_bits (base add drop : list string) (mask : Z) :
  resolve_keep_set base add drop = Ok mask ->
  forall b, 0 <= b < 64 ->
  (Z.testbit mask b = true <->
   (~ has_all drop /\ names_bit base b /\ ~ names_bit drop b) \/
   (has_all add /\ known b) \/ names_bit add b).
Proof.
  apply keep_set_bits.
Qed.

Lemma resolve_keep_set_bits_witness :
  resolve_keep_set DEFAULT_KEEP ["SYS_TIME"] ["ALL"] = Ok (2 ^ 25) /\
  (Z.testbit (2 ^ 25) 25 = true <->
   (~ has_all ["ALL"] /\ names_bit DEFAULT_KEEP 25 /\ ~ names_bit ["ALL"] 25) \/
   (has_all ["SYS_TIME"] /\ known 25) \/ names_bit ["SYS_TIME"] 25).
Proof.
  split; [vm_compute; reflexivity|].
  apply (resolve_keep_set_bits DEFAULT_KEEP); [vm_compute; reflexivity|lia].
Defined.

(** The bits of a list of names. *)
Definition cap_bits (l : list string) : list Z := omap (fun c => ok (parse_cap c)) l.

Lemma names_bit_bits l b : names_bit l b <-> b ∈ cap_bits l.
Proof.
  unfold names_bit, cap_bits. rewrite list_elem_of_omap.
  assert (forall c, parse_cap c = Ok b <-> ok (parse_cap c) = Some b) as H
    by (intros c; destruct (parse_cap c); naive_solver).
  by setoid_rewrite H.
Qed.

(** What a default container must not be able to do. *)
Definition dangerous : list string :=
  ["NET_ADMIN"; "NET_RAW"; "SYS_MODULE"; "SYS_RAWIO"; "SYS_PTRACE"; "SYS_ADMIN"; "SYS_BOOT";
   "SYS_TIME"; "BPF"; "DAC_READ_SEARCH"; "MAC_ADMIN"; "SYSLOG"].

Lemma dangerous_disjoint : bool_decide (Forall (fun b => 0 <= b < 64 /\ b ∉ cap_bits DEFAULT_KEEP)
  (cap_bits dangerous)) = true.
Proof. vm_compute. reflexivity. Qed.

(** With nothing added, no container can load modules, administer the
    network or the system, trace, or use raw sockets or raw I/O, whatever it
    drops. *)
Theorem default_keep_set_confined (drop : list string) (mask : Z) :
  resolve_keep_set DEFAULT_KEEP [] drop = Ok mask ->
  Forall (fun b => Z.testbit mask b = false) (cap_bits dangerous).
Proof.
  intros H. pose proof dangerous_disjoint as Hd%bool_decide_eq_true_1.
  apply (Forall_impl _ _ _ Hd). intros b [Hb Hn]. rewrite <- names_bit_bits in Hn.
  apply not_true_iff_false. rewrite (keep_set_bits _ _ _ _ H b Hb).
  pose proof has_all_nil. pose proof (names_bit_nil b). tauto.
Qed.

Lemma default_keep_set_confined_witness :
  resolve_keep_set DEFAULT_KEEP [] ["chown"] = Ok 671352314 /\
  Forall (fun b => Z.testbit 671352314 b = false) (cap_bits dangerous).
Proof.
  split; [vm_compute; reflexivity|].
  apply (default_keep_set_confined ["chown"]). vm_compute. reflexivity.
Defined.

(** ** [apply] *)

Definition EINVAL : Z := 22.

(** The five sets of the calling thread and the calls that change them.  A
    call answers [None] on success and [Some errno] on failure; the laws are
    those of [prctl(2)] and [capset(2)]. *)
Class CapKernel (K : Type) := {
  cap_last_cap : K -> option string;
  ambient : K -> Z; bounding : K -> Z;
  effective : K -> Z; permitted : K -> Z; inheritable : K -> Z;
  ambient_clear_all : K -> option Z * K;
  capbset_drop : Z -> K -> option Z * K;
  capset : Z -> Z -> Z -> K -> option Z * K;

  ambient_clear_ok k k' : ambient_clear_all k = (None, k') ->
    ambient k' = 0 /\ bounding k' = bounding k;
  ambient_clear_err k e k' : ambient_clear_all k = (Some e, k') ->
    ambient k' = ambient k /\ bounding k' = bounding k;
  capbset_drop_ok c k k' : capbset_drop c k = (None, k') ->
    ambient k' = ambient k /\
    forall b, Z.testbit (bounding k') b = Z.testbit (bounding k) b && negb (b =? c);
  capbset_drop_err c k e k' : capbset_drop c k = (Some e, k') ->
    ambient k' = ambient k /\ bounding k' = bounding k;
  (** [EINVAL]: the kernel does not know the capability. *)
  capbset_drop_unknown c k k' : capbset_drop c k = (Some EINVAL, k') ->
    Z.testbit (bounding k') c = false;
  capset_ok e p i k k' : capset e p i k = (None, k') ->
    effective k' = e /\ permitted k' = p /\ inheritable k' = i /\
    bounding k' = bounding k /\ (ambient k = 0 -> ambient k' = 0);
}.

Section Apply.
Context {K : Type} `{!CapKernel K}.

(** [last_cap]. *)
Definition last_cap (k : K) : Z :=
  default 40 (s ← cap_last_cap k; parse_u 8 (trim s)).

(** The loop of step 2, over [0..=last]. *)
Fixpoint drop_bounding (keep_mask : Z) (caps : list Z) (k : K) : result unit * K :=
  match caps with
  | [] => (Ok tt, k)
  | cap :: rest =>
      if negb (Z.land keep_mask (bit64 cap) =? 0) then drop_bounding keep_mask rest k
      else match capbset_drop cap k with
           | (None, k') => drop_bounding keep_mask rest k'
           | (Some e, k') =>
               if e =? EINVAL then drop_bounding keep_mask rest k'
               else (Err (Syscall "prctl" e ("PR_CAPBSET_DROP " +:+ cap_name cap)), k')
           end
  end.

(** [set_caps]: [data] holds the halves of each 64-bit set; the kernel joins
    them again. *)
Definition set_caps (eff perm inh : Z) (k : K) : result unit * K :=
  let join lo hi := Z.lor (Z.shiftl (as_u32 hi) 32) (as_u32 lo) in
  let halves x := join x (Z.shiftr x 32) in
  match capset (halves eff) (halves perm) (halves inh) k with
  | (None, k') => (Ok tt, k')
  | (Some e, k') => (Err (Syscall "capset" e ("keep mask 0x" +:+ show_u 16 perm)), k')
  end.

(** [apply]. *)
Definition apply (keep_mask : Z) (k : K) : result unit * K :=
  let last := last_cap k in
  let '(rc, k1) := ambient_clear_all k in
  match rc with
  | Some e =>
      if negb (e =? EINVAL) then (Err (Syscall "prctl" e "PR_CAP_AMBIENT_CLEAR_ALL"), k1)
      else match drop_bounding keep_mask (seqZ 0 (last + 1)) k1 with
           | (Ok _, k2) => set_caps keep_mask keep_mask 0 k2
           | (Err err, k2) => (Err err, k2)
           end
  | None =>
      match drop_bounding keep_mask (seqZ 0 (last + 1)) k1 with
      | (Ok _, k2) => set_caps keep_mask keep_mask 0 k2
      | (Err err, k2) => (Err err, k2)
      end
  end.

Lemma land_bit64 m c : 0 <= c < 64 -> (Z.land m (bit64 c) =? 0) = negb (Z.testbit m c).
Proof.
  intros Hc. destruct (Z.testbit m c) eqn:E; cbn.
  - apply Z.eqb_neq. intros H. apply (f_equal (fun z => Z.testbit z c)) in H.
    rewrite Z.land_spec, E, bit64_testbit, Z.testbit_0_l, bool_decide_eq_true_2 in H by done. done.
  - apply Z.eqb_eq. apply Z.bits_inj'. intros b Hb.
    rewrite Z.land_spec, bit64_testbit, Z.bits_0 by done.
    case_bool_decide; [subst; by rewrite E|by rewrite andb_false_r].
Qed.

Lemma drop_bounding_ok keep l k k' :
  Forall (fun c => 0 <= c < 64) l -> drop_bounding keep l k = (Ok tt, k') ->
  ambient k' = ambient k /\
  forall b, Z.testbit (bounding k') b = true ->
    Z.testbit (bounding k) b = true /\ (b ∈ l -> Z.testbit keep b = true).
Proof.
  intros Hl. revert k. induction Hl as [|c l Hc Hl IH]; intros k H; cbn in H.
  { simplify_eq. split; [done|]. intros b Hb. split; [done|]. by intros ?%elem_of_nil. }
  rewrite land_bit64 in H by done. destruct (Z.testbit keep c) eqn:Ek; cbn in H.
  { destruct (IH _ H) as [Ha Hb]. split; [done|]. intros b [H1 H2]%Hb. split; [done|].
    intros [->|?]%elem_of_cons; auto. }
  destruct (capbset_drop c k) as [[e|] k1] eqn:Ed.
  - destruct (e =? EINVAL) eqn:Ee; [|done]. bool_prop. subst e.
    pose proof (capbset_drop_unknown _ _ _ Ed) as Hu.
    destruct (capbset_drop_err _ _ _ _ Ed) as [E1 E2], (IH _ H) as [Ha Hb].
    split; [congruence|]. intros b [H1 H2]%Hb. split; [congruence|].
    intros [->|?]%elem_of_cons; [congruence|auto].
  - destruct (capbset_drop_ok _ _ _ Ed) as [E1 E2], (IH _ H) as [Ha Hb].
    split; [congruence|]. intros b [H1 H2]%Hb. rewrite E2 in H1. apply andb_prop in H1 as [H1 H3].
    split; [done|]. apply negb_true_iff, Z.eqb_neq in H3.
    intros [->|?]%elem_of_cons; [done|auto].
Qed.

Lemma join_halves x : in_u 64 x -> Z.lor (Z.shiftl (as_u32 (Z.shiftr x 32)) 32) (as_u32 x) = x.
Proof.
  intros Hx. unfold wrap_u. rewrite <- !Z.land_ones by lia. apply Z.bits_inj'. intros b Hb.
  rewrite Z.lor_spec, Z.shiftl_spec, !Z.land_spec, !Z.testbit_ones by lia.
  destruct (Z.ltb_spec b 32).
  - rewrite (Z.testbit_neg_r _ (b - 32)) by lia. rewrite (proj2 (Z.leb_le 0 b)) by lia.
    by rewrite andb_true_r.
  - rewrite Z.shiftr_spec by lia. replace (b - 32 + 32) with b by lia.
    rewrite !andb_false_r, orb_false_r, (proj2 (Z.leb_le 0 (b - 32))) by lia.
    destruct (Z.ltb_spec (b - 32) 32); [by rewrite andb_true_r|].
    rewrite andb_false_r. symmetry. destruct (decide (x = 0)) as [->|]; [apply Z.testbit_0_l|].
    destruct Hx. apply Z.bits_above_log2; [done|]. apply Z.log2_lt_pow2; [lia|].
    apply Z.lt_le_trans with (2 ^ 64); [done|]. apply Z.pow_le_mono_r; lia.
Qed.

Lemma set_caps_ok eff perm k k' :
  in_u 64 eff -> in_u 64 perm -> set_caps eff perm 0 k = (Ok tt, k') ->
  effective k' = eff /\ permitted k' = perm /\ inheritable k' = 0 /\
  bounding k' = bounding k /\ (ambient k = 0 -> ambient k' = 0).
Proof.
  intros He Hp. unfold set_caps. rewrite !join_halves by (done || unfold in_u; lia).
  destruct (capset _ _ _ k) as [[]] eqn:E; [done|]. intros [= <-]. by apply capset_ok.
Qed.

(** [apply_confines], for use in other proofs. *)
Lemma apply_sets (keep_mask : Z) (k k' : K) :
  in_u 64 keep_mask -> last_cap k < 64 -> apply keep_mask k = (Ok tt, k') ->
  effective k' = keep_mask /\ permitted k' = keep_mask /\ inheritable k' = 0 /\
  (forall b, 0 <= b <= last_cap k -> Z.testbit (bounding k') b = true ->
     Z.testbit keep_mask b = true) /\
  ((ambient_clear_all k).1 = None -> ambient k' = 0).
Proof.
  intros Hm Hlast. unfold apply. set (last := last_cap k) in *.
  assert (Forall (fun c => 0 <= c < 64) (seqZ 0 (last + 1))) as HF.
  { apply Forall_forall. intros c Hc%elem_of_seqZ. lia. }
  assert (forall k1, match drop_bounding keep_mask (seqZ 0 (last + 1)) k1 with
           | (Ok _, k2) => set_caps keep_mask keep_mask 0 k2
           | (Err err, k2) => (Err err, k2) end = (Ok tt, k') ->
      effective k' = keep_mask /\ permitted k' = keep_mask /\ inheritable k' = 0 /\
      (forall b, 0 <= b <= last -> Z.testbit (bounding k') b = true ->
        Z.testbit keep_mask b = true) /\ (ambient k1 = 0 -> ambient k' = 0)) as Hrest.
  { intros k1. destruct (drop_bounding _ _ k1) as [[[]|] k2] eqn:Ed; [|done].
    destruct (drop_bounding_ok _ _ _ _ HF Ed) as [Ha Hb]. intros Hs.
    destruct (set_caps_ok _ _ _ _ Hm Hm Hs) as (-> & -> & -> & Ebk & Eam).
    split_and!; [done..| |]; [|intros; apply Eam; congruence].
    intros b Hr H. rewrite Ebk in H. apply Hb in H as [_ H]. apply H. apply elem_of_seqZ. lia. }
  destruct (ambient_clear_all k) as [[e|] k1] eqn:Ea.
  - destruct (e =? EINVAL); cbn [negb]; [|done]. intros H%Hrest. naive_solver.
  - intros H%Hrest. apply ambient_clear_ok in Ea as [Ea _]. naive_solver.
Qed.

(** When [apply] succeeds the process holds exactly the keep set, nothing
    inheritable, and no capability outside the keep set is left in the
    bounding set, so no exec can regain one; the ambient set is empty unless
    the kernel does not know ambient capabilities. *)
Theorem apply_confines (keep_mask : Z) (k k' : K) :
  in_u 64 keep_mask -> last_cap k < 64 -> apply keep_mask k = (Ok tt, k') ->
  effective k' = keep_mask /\ permitted k' = keep_mask /\ inheritable k' = 0 /\
  (forall b, 0 <= b <= last_cap k -> Z.testbit (bounding k') b = true ->
     Z.testbit keep_mask b = true) /\
  ((ambient_clear_all k).1 = None -> ambient k' = 0).
Proof. apply apply_sets. Qed.

End Apply.

(** A thread whose calls all succeed, except that dropping a capability which
    is not in the bounding set answers [EINVAL]. *)
Record Thread := { t_amb : Z; t_bnd : Z; t_eff : Z; t_perm : Z; t_inh : Z }.

#[export, refine] Instance thread_kernel : CapKernel Thread := {
  cap_last_cap _ := Some ("40" +:+ String "010" "");
  ambient := t_amb; bounding := t_bnd; effective := t_eff; permitted := t_perm; inheritable := t_inh;
  ambient_clear_all t := (None, {| t_amb := 0; t_bnd := t_bnd t; t_eff := t_eff t;
                                   t_perm := t_perm t; t_inh := t_inh t |});
  capbset_drop c t :=
    if Z.testbit (t_bnd t) c
    then (None, {| t_amb := t_amb t; t_bnd := Z.clearbit (t_bnd t) c; t_eff := t_eff t;
                   t_perm := t_perm t; t_inh := t_inh t |})
    else (Some EINVAL, t);
  capset e p i t := (None, {| t_amb := t_amb t; t_bnd := t_bnd t; t_eff := e; t_perm := p; t_inh := i |})
}.
Proof.
  - by intros k k' [= <-].
  - by intros k e k' [=].
  - intros c k k' H. cbv beta in H. case_match; simplify_eq. split; [done|]. intros b. cbn.
    rewrite Z.clearbit_eqb. by rewrite Z.eqb_sym.
  - intros c k e k' H. cbv beta in H. case_match; by simplify_eq.
  - intros c k k' H. cbv beta in H. case_match; by simplify_eq.
  - by intros e p i k k' [= <-].
Defined.

Definition root_thread : Thread :=
  {| t_amb := 3; t_bnd := 2 ^ 41 - 1; t_eff := 2 ^ 41 - 1; t_perm := 2 ^ 41 - 1; t_inh := 5 |}.

Lemma apply_confines_witness :
  let k' := (apply 0x28040dfb root_thread).2 in
  effective k' = 0x28040dfb /\ permitted k' = 0x28040dfb /\ inheritable k' = 0 /\
  (forall b, 0 <= b <= last_cap root_thread -> Z.testbit (bounding k') b = true ->
     Z.testbit 0x28040dfb b = true) /\
  ((ambient_clear_all root_thread).1 = None -> ambient k' = 0).
Proof.
  apply (apply_confines 0x28040dfb root_thread);
    [split; lia | vm_compute; reflexivity | vm_compute; reflexivity].
Defined.

End caps.
