(* ===== verification/Config.v ===== *)
(** * [src/config.rs]: the container configuration

    One module per [struct] or [enum].  Paths are strings; what the file
    system answers is a parameter of [finalize_and_validate]. *)
From S2P Require Import Prelude RustStr Num Utf8 F64 Error Json Util Net Caps Seccomp.
Import json.

(** ** Reading fields *)

Definition get_str (j : Json) (k : string) : option string := v ← get j k; as_str v.
Definition get_u64 (j : Json) (k : string) : option Z := v ← get j k; as_u64 v.
Definition get_i64 (j : Json) (k : string) : option Z := v ← get j k; as_i64 v.
Definition get_f64 (j : Json) (k : string) : option f64 := v ← get j k; as_f64 v.
Definition get_bool (j : Json) (k : string) : option bool := v ← get j k; as_bool v.
Definition get_array (j : Json) (k : string) : option (list Json) := v ← get j k; as_array v.

(** [o.map(Json::Str).unwrap_or(Json::Null)] and the like. *)
Definition opt_json {A : Type} (f : A -> Json) (o : option A) : Json := default JNull (f <$> o).

(** [Option::or_else]. *)
Definition or_else {A : Type} (a b : option A) : option A :=
  match a with Some _ => a | None => b end.

(** [arr.iter().filter_map(|v| v.as_str())]. *)
Definition str_elems (a : list Json) : list string := omap as_str a.

(** [Json::Int(v as i64)] of a [u64]. *)
Definition int_of_u64 (v : Z) : Json := JInt (wrap_s 64 v).

Definition DEFAULT_BRIDGE : string := "myrun0".
Definition DEFAULT_SUBNET : string := "10.87.0.0/24".
Definition DEFAULT_MTU : Z := 1500.
Definition DEFAULT_PATH : string := "/usr/local/sbin:/usr/local/bin:/usr/sbin:/usr/bin:/sbin:/bin".

Definition DEFAULT_MASKED_PATHS : list string :=
  [ "/proc/kcore"; "/proc/keys"; "/proc/latency_stats"; "/proc/timer_list"; "/proc/timer_stats";
    "/proc/sched_debug"; "/proc/scsi"; "/sys/firmware"; "/sys/devices/virtual/powercap" ].

Definition DEFAULT_READONLY_PATHS : list string :=
  [ "/proc/bus"; "/proc/fs"; "/proc/irq"; "/proc/sys"; "/proc/sysrq-trigger" ].

(** ** [enum NetworkMode] *)
Module NetworkMode.
Inductive t := None | Bridge | Host.

#[global] Instance eq_dec : EqDecision t.
Proof. solve_decision. Defined.

Definition parse (s : string) : result t :=
  let m := to_ascii_lowercase (trim s) in
  if bool_decide (m = "none") then Ok None
  else if bool_decide (m = "bridge") then Ok Bridge
  else if bool_decide (m = "host") then Ok Host
  else Err (Config ("unknown network mode " +:+ debug_str m +:+ " (expected none|bridge|host)")).

Definition as_str (m : t) : string :=
  match m with None => "none" | Bridge => "bridge" | Host => "host" end.

Lemma mode_parse_as_str m : parse (as_str m) = Ok m.
Proof. by destruct m. Qed.
End NetworkMode.

(** ** [struct PortMapping] *)
Module PortMapping.
Record t := Mk { host_port : Z; container_port : Z; protocol : string }.

#[global] Instance eq_dec : EqDecision t.
Proof. solve_decision. Defined.

Definition parse (s : string) : result t :=
  let '(spec, protocol) :=
    match split_once "/" s with
    | Some (a, p) => (a, to_ascii_lowercase p)
    | None => (s, "tcp")
    end in
  if negb (bool_decide (protocol = "tcp")) && negb (bool_decide (protocol = "udp"))
  then Err (Config ("unsupported protocol " +:+ debug_str protocol +:+ " in port mapping "
                    +:+ debug_str s))
  else
    let '(h, c) := match split_once ":" spec with Some (a, b) => (a, b) | None => (spec, spec) end in
    host_port ← ok_or (Config ("invalid host port in " +:+ debug_str s)) (parse_u 16 (trim h));
    container_port ← ok_or (Config ("invalid container port in " +:+ debug_str s))
                       (parse_u 16 (trim c));
    if (host_port =? 0) || (container_port =? 0)
    then Err (Config "port 0 is not valid in a mapping")
    else Ok (Mk host_port container_port protocol).

Definition to_json (p : t) : Json :=
  set (set (set obj "host_port" (JInt (host_port p)))
    "container_port" (JInt (container_port p)))
    "protocol" (JStr (protocol p)).

(** What [parse] guarantees. *)
Definition valid (p : t) : Prop :=
  1 <= host_port p < 2 ^ 16 /\ 1 <= container_port p < 2 ^ 16 /\
  (protocol p = "tcp" \/ protocol p = "udp").
End PortMapping.

(** ** [struct MountSpec] *)
Module MountSpec.
Record t := Mk { source : string; destination : string; fstype : string; readonly : bool }.

Definition parse (s : string) : result t :=
  let parts := split_on ":" s in
  if (length parts <? 2)%nat || (3 <? length parts)%nat
  then Err (Config ("invalid mount " +:+ debug_str s +:+ "; expected source:destination[:ro]"))
  else
    readonly ← match parts !! 2%nat with
               | None => Ok false
               | Some "ro" => Ok true
               | Some "rw" => Ok false
               | Some other => Err (Config ("invalid mount option " +:+ debug_str other
                                            +:+ " (expected ro or rw)"))
               end;
    let src := default "" (parts !! 0%nat) in
    let dst := default "" (parts !! 1%nat) in
    let fstype := if bool_decide (src = "tmpfs") then "tmpfs" else "bind" in
    if negb (starts_with "/" dst)
    then Err (Config ("mount destination " +:+ debug_str dst +:+ " must be absolute"))
    else Ok (Mk src dst fstype readonly).

Definition to_json (m : t) : Json :=
  set (set (set (set obj "source" (JStr (source m))) "destination" (JStr (destination m)))
    "type" (JStr (fstype m))) "readonly" (JBool (readonly m)).
End MountSpec.

(** ** [struct Resources] *)
Module Resources.
Record t := Mk {
  memory : option Z; memory_swap : option Z; cpus : option f64;
  cpu_weight : option Z; pids : option Z
}.

Definition default : t := Mk None None None None None.

Definition CPU_PERIOD_US : Z := 100000.

Definition cpu_max_value (r : t) : option string :=
  (fun c =>
    let quota := f64_as_u64 (f64_round (f64_mul c (f64_of_Z CPU_PERIOD_US))) in
    show_dec (Z.max quota 1000) +:+ " " +:+ show_dec CPU_PERIOD_US) <$> cpus r.

Definition is_none {A : Type} (o : option A) : bool :=
  match o with None => true | Some _ => false end.

Definition is_empty (r : t) : bool :=
  is_none (memory r) && is_none (memory_swap r) && is_none (cpus r)
  && is_none (cpu_weight r) && is_none (pids r).

Definition to_json (r : t) : Json :=
  set (set (set (set (set obj
    "memory" (opt_json int_of_u64 (memory r)))
    "memory_swap" (opt_json int_of_u64 (memory_swap r)))
    "cpus" (opt_json JFloat (cpus r)))
    "cpu_weight" (opt_json int_of_u64 (cpu_weight r)))
    "pids" (opt_json int_of_u64 (pids r)).

(** The closure [num_or_size]. *)
Definition num_or_size (j : Json) (key : string) : result (option Z) :=
  match get j key with
  | None | Some JNull => Ok None
  | Some (JStr s) => util.parse_size s
  | Some v => Ok (as_u64 v)
  end.

Definition from_json (j : Json) : result t :=
  memory ← num_or_size j "memory";
  memory_swap ← num_or_size j "memory_swap";
  Ok (Mk memory memory_swap (get_f64 j "cpus") (get_u64 j "cpu_weight") (get_u64 j "pids")).
End Resources.

(** ** [struct NetworkConfig] *)
Module NetworkConfig.
Record t := Mk {
  mode : NetworkMode.t; bridge : string; subnet : string;
  ip : option string; gateway : option string; mtu : Z;
  publish : list PortMapping.t; nat : bool; dns : list string
}.

Definition default : t :=
  Mk NetworkMode.None DEFAULT_BRIDGE DEFAULT_SUBNET None None DEFAULT_MTU [] true
    ["1.1.1.1"; "8.8.8.8"].

(** [gateway_addr]; [base + 1] wraps as in a release build. *)
Definition gateway_addr (n : t) : result (list Z) :=
  match gateway n with
  | Some g => net.parse_ipv4 g
  | None =>
      '(a, prefix) ← net.parse_cidr (subnet n);
      let mask := net.mask_of prefix in
      let base := Z.land (net.u32_of a) mask in
      Ok (net.octets_of (wrap_u 32 (base + 1)))
  end.

Definition to_json (n : t) : Json :=
  set (set (set (set (set (set (set (set (set obj
    "mode" (JStr (NetworkMode.as_str (mode n))))
    "bridge" (JStr (bridge n)))
    "subnet" (JStr (subnet n)))
    "ip" (opt_json JStr (ip n)))
    "gateway" (opt_json JStr (gateway n)))
    "mtu" (JInt (mtu n)))
    "publish" (JArr (PortMapping.to_json <$> publish n)))
    "nat" (JBool (nat n)))
    "dns" (strings (dns n)).

(** One entry of the [publish] loop of [from_json]. *)
Definition publish_entry (p : Json) : result PortMapping.t :=
  match as_str p with
  | Some s => PortMapping.parse s
  | None =>
      host ← ok_or (Config "publish entry needs a host port")
               (v ← or_else (get p "host") (get p "host_port"); as_u64 v);
      cport ← ok_or (Config "publish entry needs a container port")
                (v ← or_else (get p "container") (get p "container_port"); as_u64 v);
      let proto := unwrap_or "tcp" (get_str p "protocol") in
      Ok (PortMapping.Mk (wrap_u 16 host) (wrap_u 16 cport) proto)
  end.

Definition from_json (j : Json) : result t :=
  let n := default in
  mode ← match get_str j "mode" with Some m => NetworkMode.parse m | None => Ok (mode n) end;
  publish ← match get_array j "publish" with
            | Some arr => try_map publish_entry arr
            | None => Ok (publish n)
            end;
  Ok (Mk mode
        (unwrap_or (bridge n) (get_str j "bridge"))
        (unwrap_or (subnet n) (get_str j "subnet"))
        (get_str j "ip")
        (get_str j "gateway")
        (unwrap_or (mtu n) (wrap_u 32 <$> get_u64 j "mtu"))
        publish
        (unwrap_or (nat n) (get_bool j "nat"))
        (unwrap_or (dns n) (str_elems <$> get_array j "dns"))).
End NetworkConfig.

(** [parse_user]. *)
Definition parse_user (s : string) : result (Z * Z) :=
  let '(u, g) := match split_once ":" s with Some (a, b) => (a, Some b) | None => (s, None) end in
  let bad := Config ("--user expects numeric uid[:gid], got " +:+ debug_str s) in
  uid ← ok_or bad (parse_u 32 (trim u));
  gid ← match g with Some g => ok_or bad (parse_u 32 (trim g)) | None => Ok uid end;
  Ok (uid, gid).

(** ** [struct SecurityConfig] *)
Module SecurityConfig.
Record t := Mk {
  no_new_privs : bool; cap_add : list string; cap_drop : list string;
  seccomp : seccomp.SeccompMode; masked_paths : list string; readonly_paths : list string;
  user : option (Z * Z); privileged : bool
}.

Definition default : t :=
  Mk true [] [] seccomp.Default DEFAULT_MASKED_PATHS DEFAULT_READONLY_PATHS None false.

Definition cap_mask (s : t) : result Z :=
  if privileged s then Ok (caps.or_table 0)
  else
    mask ← caps.resolve_keep_set caps.DEFAULT_KEEP (cap_add s) (cap_drop s);
    match user s with
    | Some _ =>
        uidbit ← caps.parse_cap "SETUID";
        gidbit ← caps.parse_cap "SETGID";
        Ok (Z.lor (Z.lor mask (caps.bit64 uidbit)) (caps.bit64 gidbit))
    | None => Ok mask
    end.

Definition user_str (u : Z * Z) : string := show_dec u.1 +:+ ":" +:+ show_dec u.2.

Definition to_json (s : t) : Json :=
  set (set (set (set (set (set (set (set obj
    "no_new_privs" (JBool (no_new_privs s)))
    "cap_add" (strings (cap_add s)))
    "cap_drop" (strings (cap_drop s)))
    "seccomp" (JStr (seccomp.as_str (seccomp s))))
    "masked_paths" (strings (masked_paths s)))
    "readonly_paths" (strings (readonly_paths s)))
    "user" (opt_json (fun u => JStr (user_str u)) (user s)))
    "privileged" (JBool (privileged s)).

Definition from_json (j : Json) : result t :=
  let s := default in
  let strs key := str_elems <$> get_array j key in
  mode ← match get_str j "seccomp" with Some v => seccomp.parse v | None => Ok (seccomp s) end;
  user ← match get_str j "user" with
         | Some v => u ← parse_user v; Ok (Some u)
         | None => Ok (user s)
         end;
  Ok (Mk (unwrap_or (no_new_privs s) (get_bool j "no_new_privs"))
        (unwrap_or (cap_add s) (strs "cap_add"))
        (unwrap_or (cap_drop s) (strs "cap_drop"))
        mode
        (unwrap_or (masked_paths s) (strs "masked_paths"))
        (unwrap_or (readonly_paths s) (strs "readonly_paths"))
        user
        (unwrap_or (privileged s) (get_bool j "privileged"))).
End SecurityConfig.

(** ** [struct Namespaces] *)
Module Namespaces.
Record t := Mk { pid : bool; mount : bool; uts : bool; ipc : bool; net : bool; cgroup : bool }.

Definition default : t := Mk true true true true true true.

Definition CLONE_NEWNS : Z := 0x00020000.
Definition CLONE_NEWCGROUP : Z := 0x02000000.
Definition CLONE_NEWUTS : Z := 0x04000000.
Definition CLONE_NEWIPC : Z := 0x08000000.
Definition CLONE_NEWPID : Z := 0x20000000.
Definition CLONE_NEWNET : Z := 0x40000000.

Definition clone_flags (n : t) : Z :=
  let add (b : bool) (flag f : Z) := if b then Z.lor f flag else f in
  add (cgroup n) CLONE_NEWCGROUP
    (add (net n) CLONE_NEWNET
      (add (ipc n) CLONE_NEWIPC
        (add (uts n) CLONE_NEWUTS
          (add (mount n) CLONE_NEWNS
            (add (pid n) CLONE_NEWPID 0))))).

Definition to_json (n : t) : Json :=
  set (set (set (set (set (set obj
    "pid" (JBool (pid n))) "mount" (JBool (mount n))) "uts" (JBool (uts n)))
    "ipc" (JBool (ipc n))) "net" (JBool (net n))) "cgroup" (JBool (cgroup n)).

Definition from_json (j : Json) : t :=
  let n := default in
  let b k cur := unwrap_or cur (get_bool j k) in
  Mk (b "pid" (pid n)) (b "mount" (mount n)) (b "uts" (uts n)) (b "ipc" (ipc n))
    (b "net" (net n)) (b "cgroup" (cgroup n)).
End Namespaces.

(** ** [struct ContainerConfig] *)
Module ContainerConfig.
Record t := Mk {
  id : string; name : option string; rootfs : string; command : list string;
  env : list string; cwd : string; hostname : string; read_only : bool;
  mounts : list MountSpec.t; resources : Resources.t; network : NetworkConfig.t;
  security : SecurityConfig.t; namespaces : Namespaces.t; detach : bool;
  auto_remove : bool; labels : list (string * string)
}.

Definition default_env : list string := ["PATH=" +:+ DEFAULT_PATH; "TERM=xterm"].

Definition default : t :=
  Mk "" None "" [] default_env "/" "" false [] Resources.default NetworkConfig.default
    SecurityConfig.default Namespaces.default false false [].

(** The key [set_env] replaces. *)
Definition env_key (kv : string) : string :=
  match split_once "=" kv with Some (k, _) => k | None => kv end.

(** [set_env], on the list of variables. *)
Definition set_env (env : list string) (kv : string) : list string :=
  let prefix := env_key kv +:+ "=" in
  filter (fun e => starts_with prefix e = false) env ++ [kv].

(** [env_value]. *)
Definition env_value (env : list string) (key : string) : option string :=
  let prefix := key +:+ "=" in
  e ← list_find (fun e => starts_with prefix e = true) env;
  strip_prefix prefix e.2.

(** One entry of the [mounts] loop of [from_json]. *)
Definition mount_entry (m : Json) : result MountSpec.t :=
  match as_str m with
  | Some s => MountSpec.parse s
  | None =>
      src ← ok_or (Config "mount entry needs a source") (get_str m "source");
      dst ← ok_or (Config "mount entry needs a destination") (get_str m "destination");
      Ok (MountSpec.Mk src dst (unwrap_or "bind" (get_str m "type"))
            (unwrap_or false (get_bool m "readonly")))
  end.

(** The pairs of an object whose values are strings. *)
Definition str_pairs (m : list (string * Json)) : list (string * string) :=
  omap (fun kv => v ← as_str kv.2; Some (kv.1, v)) m.

Definition from_json (j : Json) : result t :=
  let c := default in
  let command :=
    match get_array j "command" with
    | Some a => str_elems a
    | None => match get_str j "command" with Some s => [s] | None => command c end
    end in
  let env := match get_array j "env" with
             | Some a => foldl set_env (env c) (str_elems a)
             | None => env c
             end in
  let env := match get j "environment" with
             | Some (JObj pairs) =>
                 foldl set_env env ((fun kv => kv.1 +:+ "=" +:+ kv.2) <$> str_pairs pairs)
             | _ => env
             end in
  let cwd := match or_else (get j "cwd") (get j "workdir") with
             | Some v => unwrap_or (cwd c) (as_str v)
             | None => cwd c
             end in
  mounts ← match get_array j "mounts" with
           | Some a => try_map mount_entry a
           | None => Ok (mounts c)
           end;
  resources ← match get j "resources" with
              | Some r => Resources.from_json r
              | None => Ok (resources c)
              end;
  network ← match get j "network" with
            | Some n => NetworkConfig.from_json n
            | None => Ok (network c)
            end;
  security ← match get j "security" with
             | Some s => SecurityConfig.from_json s
             | None => Ok (security c)
             end;
  let namespaces := match get j "namespaces" with
                    | Some n => Namespaces.from_json n
                    | None => namespaces c
                    end in
  let labels := match get j "labels" with
                | Some (JObj pairs) => str_pairs pairs
                | _ => labels c
                end in
  Ok (Mk (unwrap_or (id c) (get_str j "id"))
        (get_str j "name")
        (unwrap_or (rootfs c) (get_str j "rootfs"))
        command env cwd
        (unwrap_or (hostname c) (get_str j "hostname"))
        (unwrap_or (read_only c) (get_bool j "read_only"))
        mounts resources network security namespaces
        (detach c)
        (unwrap_or (auto_remove c) (get_bool j "auto_remove"))
        labels).

Definition labels_json (l : list (string * string)) : Json :=
  foldl (fun o kv => set o kv.1 (JStr kv.2)) obj l.

Definition to_json (c : t) : Json :=
  set (set (set (set (set (set (set (set (set (set (set (set (set (set (set obj
    "id" (JStr (id c)))
    "name" (opt_json JStr (name c)))
    "rootfs" (JStr (rootfs c)))
    "command" (strings (command c)))
    "env" (strings (env c)))
    "cwd" (JStr (cwd c)))
    "hostname" (JStr (hostname c)))
    "read_only" (JBool (read_only c)))
    "auto_remove" (JBool (auto_remove c)))
    "mounts" (JArr (MountSpec.to_json <$> mounts c)))
    "resources" (Resources.to_json (resources c)))
    "network" (NetworkConfig.to_json (network c)))
    "security" (SecurityConfig.to_json (security c)))
    "namespaces" (Namespaces.to_json (namespaces c)))
    "labels" (labels_json (labels c)).

Definition host_char (c : ascii) : bool :=
  is_ascii_alphanumeric c || bool_decide (c = "-"%char) || bool_decide (c = "."%char).

(** [if bad { return Err(Error::cfg(msg)) }]. *)
Definition reject_if (bad : bool) (msg : string) : result unit :=
  if bad then Err (Config msg) else Ok tt.

Section Validate.
(** What the host answers: a fresh id, [fs::canonicalize], [Path::is_dir] and
    [Path::exists]. *)
Context (fresh_id : string) (canonicalize : string -> result string)
  (is_dir path_exists : string -> bool).

Definition validate_rootfs (require_rootfs : bool) (rootfs : string) : result string :=
  if require_rootfs then
    _ ← reject_if (str_is_empty rootfs) "no rootfs given";
    canon ← canonicalize rootfs;
    _ ← reject_if (negb (is_dir canon)) ("rootfs " +:+ canon +:+ " is not a directory");
    _ ← reject_if (bool_decide (canon = "/"))
      "refusing to use / as a container rootfs; pivot_root would detach the host";
    Ok canon
  else Ok rootfs.

Fixpoint validate_mounts (l : list MountSpec.t) : result unit :=
  match l with
  | [] => Ok tt
  | m :: l' =>
      if bool_decide (MountSpec.fstype m = "bind") && negb (path_exists (MountSpec.source m))
      then Err (Config ("bind mount source " +:+ MountSpec.source m +:+ " does not exist"))
      else validate_mounts l'
  end.

Definition validate_resources (r : Resources.t) : result unit :=
  _ ← match Resources.memory r with
      | Some mem => reject_if (mem <? 512 * 1024)
          "memory limit must be at least 512k; smaller values make the kernel OOM-kill the container immediately"
      | None => Ok tt
      end;
  _ ← match Resources.memory_swap r, Resources.memory r with
      | Some sw, Some mem => reject_if (sw <? mem)
          "memory-swap must be greater than or equal to memory"
      | _, _ => Ok tt
      end;
  _ ← match Resources.cpus r with
      | Some c =>
          _ ← reject_if (negb (f64_is_finite c && f64_ltb (f64_of_Z 0) c))
                "--cpus must be a positive number";
          reject_if (f64_ltb (f64_of_Z 1024) c) "--cpus is absurdly large (max 1024)"
      | None => Ok tt
      end;
  _ ← match Resources.cpu_weight r with
      | Some w => reject_if (negb ((1 <=? w) && (w <=? 10000)))
          "--cpu-weight must be between 1 and 10000"
      | None => Ok tt
      end;
  match Resources.pids r with
  | Some p => reject_if (p <? 1) "--pids must be at least 1"
  | None => Ok tt
  end.

(** The loop over [publish] with its [seen] vector. *)
Fixpoint validate_publish (seen : list (Z * string)) (l : list PortMapping.t) : result unit :=
  match l with
  | [] => Ok tt
  | p :: l' =>
      let key := (PortMapping.host_port p, PortMapping.protocol p) in
      if bool_decide (key ∈ seen)
      then Err (Config ("host port " +:+ show_dec (PortMapping.host_port p) +:+ "/"
                        +:+ PortMapping.protocol p +:+ " is published twice"))
      else validate_publish (seen ++ [key]) l'
  end.

(** The [Bridge] arm. *)
Definition validate_bridge (n : NetworkConfig.t) (ns : Namespaces.t) : result unit :=
  _ ← reject_if (negb (Namespaces.net ns)) "--network bridge requires a network namespace";
  '(a, prefix) ← net.parse_cidr (NetworkConfig.subnet n);
  _ ← reject_if (30 <? prefix)
        "bridge subnet must be /30 or larger to hold a gateway and a container";
  gw ← NetworkConfig.gateway_addr n;
  _ ← match NetworkConfig.ip n with
      | Some ip =>
          addr ← net.parse_ipv4 ip;
          _ ← reject_if (negb (net.in_subnet addr a prefix))
                ("--ip " +:+ net.format_ipv4 addr +:+ " is outside subnet " +:+ NetworkConfig.subnet n);
          reject_if (bool_decide (addr = gw))
            ("--ip " +:+ net.format_ipv4 addr +:+ " collides with the bridge gateway address")
      | None => Ok tt
      end;
  validate_publish [] (NetworkConfig.publish n).

Definition no_publish (n : NetworkConfig.t) (msg : string) : result unit :=
  reject_if (match NetworkConfig.publish n with [] => false | _ :: _ => true end) msg.

(** The network part: the namespaces it leaves. *)
Definition validate_network (n : NetworkConfig.t) (ns : Namespaces.t) : result Namespaces.t :=
  ns' ← match NetworkConfig.mode n with
        | NetworkMode.Host =>
            _ ← no_publish n
              "--publish is meaningless with --network host; the container already shares host ports";
            Ok (Namespaces.Mk (Namespaces.pid ns) (Namespaces.mount ns) (Namespaces.uts ns)
                  (Namespaces.ipc ns) false (Namespaces.cgroup ns))
        | NetworkMode.None => _ ← no_publish n "--publish requires --network bridge"; Ok ns
        | NetworkMode.Bridge => _ ← validate_bridge n ns; Ok ns
        end;
  _ ← reject_if ((NetworkConfig.mtu n <? 68) || (65535 <? NetworkConfig.mtu n))
        "--mtu must be between 68 and 65535";
  Ok ns'.

(** The security part: the configuration it leaves. *)
Definition validate_security (s : SecurityConfig.t) : result SecurityConfig.t :=
  _ ← SecurityConfig.cap_mask s;
  Ok (if SecurityConfig.privileged s
         && negb (bool_decide (SecurityConfig.seccomp s = seccomp.Unconfined))
      then SecurityConfig.Mk (SecurityConfig.no_new_privs s) (SecurityConfig.cap_add s)
             (SecurityConfig.cap_drop s) seccomp.Unconfined (SecurityConfig.masked_paths s)
             (SecurityConfig.readonly_paths s) (SecurityConfig.user s) (SecurityConfig.privileged s)
      else s).

(** [finalize_and_validate]: the configuration it leaves in [self]. *)
Definition finalize_and_validate (c : t) (require_rootfs : bool) : result t :=
  let id := if str_is_empty (id c) then fresh_id else id c in
  _ ← util.validate_id id;
  _ ← match name c with Some n => util.validate_id n | None => Ok tt end;
  let hostname := if str_is_empty (hostname c)
                  then unwrap_or (util.short_id id) (name c) else hostname c in
  _ ← reject_if (64 <? str_len hostname) "hostname must be at most 64 characters";
  _ ← reject_if (negb (str_all host_char hostname))
        ("hostname " +:+ debug_str hostname +:+ " contains invalid characters");
  let env := set_env (env c) ("HOSTNAME=" +:+ hostname) in
  _ ← match command c with
      | [] => Err (Config "no command given for the container")
      | arg0 :: _ => reject_if (str_is_empty arg0) "container command is empty"
      end;
  _ ← reject_if (negb (starts_with "/" (cwd c)))
        ("working directory " +:+ debug_str (cwd c) +:+ " must be absolute");
  rootfs ← validate_rootfs require_rootfs (rootfs c);
  _ ← validate_mounts (mounts c);
  _ ← validate_resources (resources c);
  namespaces ← validate_network (network c) (namespaces c);
  security ← validate_security (security c);
  Ok (Mk id (name c) rootfs (command c) env (cwd c) hostname (read_only c) (mounts c)
        (resources c) (network c) security namespaces (detach c) (auto_remove c) (labels c)).

End Validate.

End ContainerConfig.
