(* ===== verification/ConfigFacts.v ===== *)
(** * Theorems about the configuration: what validation guarantees, and that
    the configuration written to [config.json] is the one read from it *)
From S2P Require Import Prelude RustStr Num Utf8 F64 F64Facts Error Json JsonFacts Util UtilFacts Net Caps Seccomp Config.
Import json.

(** ** The environment *)

Module env.
Import ContainerConfig.

Definition overrides (kv e : string) : bool := starts_with (env_key kv +:+ "=") e.

(** No variable is overridden by a later one. *)
Fixpoint env_sep (l : list string) : bool :=
  match l with
  | [] => true
  | e :: l' => forallb (fun kv => negb (overrides kv e)) l' && env_sep l'
  end.

(** The variables of [d] that [l] leaves in place. *)
Definition kept (l d : list string) : list string :=
  filter (fun e => forallb (fun kv => negb (overrides kv e)) l = true) d.

Lemma kept_nil d : kept [] d = d.
Proof. unfold kept. induction d as [|e d IH]; [done|]. rewrite filter_cons_True by done. by rewrite IH. Qed.

Lemma set_env_kept d kv : set_env d kv = kept [kv] d ++ [kv].
Proof.
  unfold set_env, kept. f_equal. apply list_filter_iff. intros e. cbn. unfold overrides.
  rewrite andb_true_r, negb_true_iff. done.
Qed.

Lemma kept_kept l l' d : kept l (kept l' d) = kept (l' ++ l) d.
Proof.
  unfold kept. rewrite list_filter_filter. apply list_filter_iff. intros e.
  rewrite forallb_app, andb_true_iff. tauto.
Qed.

(** Setting a sequence of variables one after the other. *)
Lemma foldl_set_env l d : env_sep l = true -> foldl set_env d l = kept l d ++ l.
Proof.
  revert d. induction l as [|e l IH]; intros d H; [by rewrite kept_nil, (right_id_L [] (++))|].
  cbn [foldl env_sep] in *. apply andb_prop in H as [He Hl].
  rewrite (IH _ Hl), set_env_kept. unfold kept at 1. rewrite filter_app.
  fold (kept l (kept [e] d)). rewrite kept_kept. cbn [app].
  rewrite filter_cons_True by done. by rewrite filter_nil, <- (assoc_L (++)).
Qed.

Lemma env_sep_app l kv :
  env_sep l = true -> Forall (fun e => overrides kv e = false) l -> env_sep (l ++ [kv]) = true.
Proof.
  intros H HF. induction HF as [|e l He HF IH]; [done|]. cbn in *.
  apply andb_prop in H as [H1 H2]. by rewrite forallb_app, H1, (IH H2); cbn; rewrite He.
Qed.

Lemma forallb_filter {A : Type} (f : A -> bool) (P : A -> Prop) `{!forall x, Decision (P x)} l :
  forallb f l = true -> forallb f (filter P l) = true.
Proof.
  induction l as [|x l IH]; [done|]. cbn [forallb]. intros [H1 H2]%andb_prop.
  rewrite filter_cons. case_decide; cbn [forallb]; by rewrite ?H1, IH.
Qed.

Lemma filter_none {A : Type} (P : A -> Prop) `{!forall x, Decision (P x)} l :
  Forall (fun x => ~ P x) l -> filter P l = [].
Proof. induction 1; [done|]. by rewrite filter_cons_False. Qed.

Lemma env_sep_kept l d : env_sep d = true -> env_sep (kept l d) = true.
Proof.
  induction d as [|e d IH]; [done|]. cbn [env_sep]. intros [H1 H2]%andb_prop. unfold kept in *.
  rewrite filter_cons. case_decide; [|by apply IH]. cbn [env_sep]. rewrite (IH H2), andb_true_r.
  by apply forallb_filter.
Qed.

Lemma set_env_sep d kv : env_sep d = true -> env_sep (set_env d kv) = true.
Proof.
  intros H. rewrite set_env_kept. apply env_sep_app; [by apply env_sep_kept|].
  apply Forall_forall. intros e [He _]%list_elem_of_filter. cbn in He.
  by rewrite andb_true_r, negb_true_iff in He.
Qed.

(** Every default variable is overridden, or still there. *)
Definition covers (l d : list string) : Prop := kept l d = [].

Lemma env_key_app k v : contains_char "=" k = false -> env_key (k +:+ "=" +:+ v) = k.
Proof. intros H. unfold env_key. cbn [String.append]. by rewrite split_once_app. Qed.

(** After [set_env] the variable reads back with the new value, exactly one
    definition of it is left, and every other variable is unchanged. *)
Theorem set_env_lookup (l : list string) (k v : string) :
  contains_char "=" k = false ->
  let l' := set_env l (k +:+ "=" +:+ v) in
  env_value l' k = Some v /\
  length (filter (fun e => starts_with (k +:+ "=") e = true) l') = 1%nat /\
  filter (fun e => starts_with (k +:+ "=") e = false) l'
  = filter (fun e => starts_with (k +:+ "=") e = false) l.
Proof.
  intros Hk l'. subst l'. unfold set_env. rewrite env_key_app by done.
  set (p := k +:+ "="). set (q := filter _ l).
  assert (starts_with p (k +:+ "=" +:+ v) = true) as Hs.
  { rewrite app_assoc. apply starts_with_app. }
  assert (Forall (fun e => starts_with p e <> true) q) as Hq.
  { apply Forall_forall. intros e [He _]%list_elem_of_filter. congruence. }
  split_and!.
  - unfold env_value. fold p. rewrite list_find_app_r by (by apply list_find_None).
    cbn [list_find]. rewrite decide_True by done. change (strip_prefix p (k +:+ "=" +:+ v) = Some v).
    rewrite app_assoc. apply strip_prefix_app.
  - rewrite filter_app, filter_cons_True, filter_nil by done.
    by rewrite filter_none.
  - rewrite filter_app, filter_cons_False, filter_nil by congruence.
    rewrite (right_id_L [] (++)). subst q. rewrite list_filter_filter.
    apply list_filter_iff. tauto.
Qed.

Lemma set_env_lookup_witness :
  let l' := set_env ["FOO=1"; "FOOD=2"; "PATH=/bin"] ("FOO" +:+ "=" +:+ "9") in
  env_value l' "FOO" = Some "9" /\
  length (filter (fun e => starts_with ("FOO" +:+ "=") e = true) l') = 1%nat /\
  filter (fun e => starts_with ("FOO" +:+ "=") e = false) l'
  = filter (fun e => starts_with ("FOO" +:+ "=") e = false) ["FOO=1"; "FOOD=2"; "PATH=/bin"].
Proof. apply set_env_lookup. reflexivity. Defined.

End env.

(** ** Reading back what was written

    [typed] collects what the types of the fields guarantee (strings are UTF-8,
    integers have their width, floats are doubles) and how the environment and
    the labels were built; [stored] is what such a configuration reads back
    as.  [wf] adds the conditions under which every field survives: sizes
    below [2^63], a finite number of CPUs. *)

Definition utf8 (s : string) : Prop := valid_utf8 s = true.
Definition opt_all {A : Type} (P : A -> Prop) (o : option A) : Prop :=
  match o with Some a => P a | None => True end.
Definition size_ok (v : Z) : Prop := 0 <= v < 2 ^ 63.

(** What an unsigned number written by [as i64] reads back as. *)
Definition stored_u64 (o : option Z) : option Z :=
  v ← o; if v <? 2 ^ 63 then Some v else None.

(** What a double reads back as: nothing when it is not finite, zero without
    its sign. *)
Definition stored_f64 (o : option f64) : option f64 :=
  f ← o; if f64_is_finite f
         then Some (match f with SpecFloat.S754_zero _ => SpecFloat.S754_zero false | _ => f end) else None.

Definition double_ok (f : f64) : Prop :=
  f64_valid f = true /\ f64_is_finite f = true /\ f <> SpecFloat.S754_zero true.

Lemma stored_f64_back o : opt_all (fun f => f64_valid f = true) o ->
  (v ← Some (norm (opt_json JFloat o)); as_f64 v) = stored_f64 o.
Proof.
  destruct o as [f|]; [|done]. intros Hv. cbn [mbind option_bind stored_f64].
  change (norm (opt_json JFloat (Some f))) with (norm_float f). cbn [opt_all] in Hv.
  destruct (norm_float_reads f Hv) as [neg m e Hf|neg m e i Hf _ _ Hi|neg Hf|Hf]; cbn [as_f64].
  - by subst f.
  - rewrite Hi. by subst f.
  - by subst f.
  - by rewrite Hf.
Qed.

Lemma stored_f64_ok o : opt_all double_ok o -> stored_f64 o = o.
Proof. destruct o as [f|]; [|done]. intros (_ & Hf & Hz). cbn. rewrite Hf. by destruct f as [[]| | |]. Qed.

Lemma stored_u64_ok o : opt_all size_ok o -> stored_u64 o = o.
Proof. destruct o as [v|]; [|done]. intros [_ H]. cbn. by rewrite (proj2 (Z.ltb_lt _ _) H). Qed.

Lemma str_elems_strings l : str_elems (JStr <$> l) = l.
Proof. unfold str_elems. induction l as [|s l IH]; [done|]. cbn. by rewrite IH. Qed.

Lemma opt_str_back o : (v ← Some (opt_json JStr o); as_str v) = o.
Proof. by destruct o. Qed.

Lemma json_ok_opt_str o : opt_all utf8 o -> json_ok (opt_json JStr o) = true.
Proof. by destruct o. Qed.

Lemma norm_opt_str o : norm (opt_json JStr o) = opt_json JStr o.
Proof. by destruct o. Qed.

Lemma norm_opt_u64 o : norm (opt_json int_of_u64 o) = opt_json int_of_u64 o.
Proof. by destruct o. Qed.

Lemma wrap_size v : size_ok v -> wrap_s 64 v = v.
Proof. intros H. apply wrap_s_id; [lia|]. unfold in_s. unfold size_ok in H. lia. Qed.

Lemma wrap_huge v : in_u 64 v -> 2 ^ 63 <= v -> wrap_s 64 v < 0.
Proof.
  intros H H'. unfold in_u in H. unfold wrap_s. rewrite Z.mod_small by done.
  change (2 ^ (64 - 1)) with (2 ^ 63). rewrite (proj2 (Z.ltb_ge _ _) H'). lia.
Qed.

Lemma typed_u64_back o : opt_all (in_u 64) o -> (v ← Some (opt_json int_of_u64 o); as_u64 v) = stored_u64 o.
Proof.
  destruct o as [v|]; [|done]. cbn. intros H. destruct (v <? 2 ^ 63) eqn:E; bool_prop.
  - destruct H. rewrite wrap_size by done. by rewrite (proj2 (Z.leb_le 0 v)).
  - by rewrite (proj2 (Z.leb_gt _ _) (wrap_huge v H E)).
Qed.

Lemma json_ok_u64 o : json_ok (opt_json int_of_u64 o) = true.
Proof.
  destruct o as [v|]; [|done]. cbn. pose proof (wrap_s_range 64 v ltac:(lia)) as [H1 H2].
  change (64 - 1) with 63 in *. apply andb_true_intro. rewrite Z.leb_le, Z.ltb_lt. done.
Qed.

Lemma json_ok_int i : in_s 64 i -> json_ok (JInt i) = true.
Proof. intros [H1 H2]. cbn. apply andb_true_intro. by rewrite Z.leb_le, Z.ltb_lt. Qed.

Module port_mapping.
Import PortMapping.
Definition wf (p : t) : Prop :=
  in_u 16 (host_port p) /\ in_u 16 (container_port p) /\ utf8 (protocol p).

Lemma port_norm_json p : norm (to_json p) = to_json p.
Proof. unfold to_json. by rewrite !norm_set. Qed.

Lemma port_to_json_ok p : wf p -> json_ok (to_json p) = true.
Proof.
  intros (H1 & H2 & H3). unfold to_json. json_ok_fields; [apply json_ok_int..|done];
    unfold in_u, in_s in *; lia.
Qed.

Lemma port_entry_back p : wf p -> NetworkConfig.publish_entry (to_json p) = Ok p.
Proof.
  intros (H1 & H2 & H3). unfold NetworkConfig.publish_entry, get_str, to_json.
  change (as_str (set ?o ?k ?v)) with (@None string). cbv iota. json_get.
  change (get obj ?k) with (@None Json). cbn [or_else mbind option_bind as_u64 as_str].
  destruct H1, H2. rewrite !(proj2 (Z.leb_le 0 _)) by done. cbn. rewrite !wrap_u_id by done.
  by destruct p.
Qed.

Lemma parse_ok_valid s p : parse s = Ok p -> valid p.
Proof.
  unfold parse, valid. destruct (match split_once "/" s with Some _ => _ | None => _ end) as [spec proto].
  destruct (negb _ && negb _) eqn:Ep; [done|].
  destruct (match split_once ":" spec with Some _ => _ | None => _ end) as [h c].
  intros (hp & Hh & (cp & Hc & H)%bind_ok)%bind_ok.
  destruct ((hp =? 0) || (cp =? 0)) eqn:Ez; [done|]. injection H as <-. cbn.
  destruct (parse_u 16 (trim h)) eqn:E1; cbn in Hh; [|done].
  destruct (parse_u 16 (trim c)) eqn:E2; cbn in Hc; [|done]. simplify_eq.
  apply parse_u_range in E1, E2; [|done..]. unfold in_u in *. bool_prop.
  split_and!; try lia. apply andb_false_iff in Ep. rewrite !negb_false_iff, !bool_decide_eq_true in Ep.
  done.
Qed.

(** The text of a mapping, as on the command line. *)
Definition port_text (p : t) : string :=
  show_dec (host_port p) +:+ ":" +:+ show_dec (container_port p) +:+ "/" +:+ protocol p.

Lemma parse_port_text p : valid p -> parse (port_text p) = Ok p.
Proof.
  destruct p as [h c pr]. unfold valid, port_text, parse. cbn [host_port container_port protocol].
  intros (Hh & Hc & Hpr). rewrite !show_dec_nonneg by lia.
  assert (forall n x, 0 <= n -> is_ascii_digit x = false -> contains_char x (show_u 10 n) = false) as Hno
    by (intros n x Hn Hx; by apply (str_all_not_contains is_ascii_digit); [|apply show_u_dec]).
  assert (forall n, 0 <= n -> trim (show_u 10 n) = show_u 10 n) as Htrim
    by (intros n Hn; by apply trim_graph, net.show_u_graph).
  change (show_u 10 h +:+ ":" +:+ show_u 10 c +:+ "/" +:+ pr)
    with (show_u 10 h +:+ ":" +:+ show_u 10 c +:+ String "/" pr).
  rewrite !app_assoc, split_once_app.
  2: { rewrite <- app_assoc, !contains_char_app. rewrite !Hno by (done || lia). done. }
  assert (to_ascii_lowercase pr = pr) as -> by (by destruct Hpr as [->| ->]).
  assert (negb (bool_decide (pr = "tcp")) && negb (bool_decide (pr = "udp")) = false) as ->
    by (by destruct Hpr as [->| ->]).
  rewrite <- app_assoc. change (":" +:+ show_u 10 c) with (String ":" (show_u 10 c)).
  rewrite split_once_app by (apply Hno; [lia|done]).
  rewrite !Htrim, !parse_u_show by (unfold in_u; lia). cbn [ok_or mbind result_bind].
  rewrite !(proj2 (Z.eqb_neq _ _)) by lia. done.
Qed.

(** An accepted port mapping has two non-zero 16-bit ports and a known
    protocol, and the text of every such mapping is accepted as that mapping. *)
Theorem parse_valid :
  (forall s p, parse s = Ok p -> valid p) /\ (forall p, valid p -> parse (port_text p) = Ok p).
Proof. split; [exact parse_ok_valid|exact parse_port_text]. Qed.

End port_mapping.

Module mount_spec.
Import MountSpec.
Definition wf (m : t) : Prop := utf8 (source m) /\ utf8 (destination m) /\ utf8 (fstype m).

Lemma mount_norm_json m : norm (to_json m) = to_json m.
Proof. unfold to_json. by rewrite !norm_set. Qed.

Lemma mount_to_json_ok m : wf m -> json_ok (to_json m) = true.
Proof. intros (H1 & H2 & H3). unfold to_json. by json_ok_fields. Qed.

Lemma mount_entry_back m : ContainerConfig.mount_entry (to_json m) = Ok m.
Proof.
  unfold ContainerConfig.mount_entry, get_str, get_bool, to_json.
  change (as_str (set ?o ?k ?v)) with (@None string). cbv iota. json_get. by destruct m.
Qed.
End mount_spec.

Lemma try_map_back {A : Type} (f : A -> Json) (g : Json -> result A) l :
  Forall (fun x => g (f x) = Ok x) l -> try_map g (f <$> l) = Ok l.
Proof. induction 1 as [|x l Hx Hl IH]; [done|]. cbn. rewrite Hx. cbn. by rewrite IH. Qed.

Module resources.
Import Resources.
Definition typed (r : t) : Prop :=
  opt_all (in_u 64) (memory r) /\ opt_all (in_u 64) (memory_swap r) /\
  opt_all (fun f => f64_valid f = true) (cpus r) /\
  opt_all (in_u 64) (cpu_weight r) /\ opt_all (in_u 64) (pids r).

Definition stored (r : t) : t :=
  Mk (stored_u64 (memory r)) (stored_u64 (memory_swap r)) (stored_f64 (cpus r))
    (stored_u64 (cpu_weight r)) (stored_u64 (pids r)).

Definition wf (r : t) : Prop :=
  opt_all size_ok (memory r) /\ opt_all size_ok (memory_swap r) /\
  opt_all double_ok (cpus r) /\ opt_all size_ok (cpu_weight r) /\ opt_all size_ok (pids r).

Lemma resources_typed r : wf r -> typed r.
Proof.
  assert (forall o, opt_all size_ok o -> opt_all (in_u 64) o) as Hs
    by (intros [v|]; [|done]; cbn; unfold size_ok, in_u; lia).
  intros (H1 & H2 & H3 & H4 & H5). split_and!; auto. destruct (cpus r); [apply H3|done].
Qed.

Lemma resources_stored r : wf r -> stored r = r.
Proof.
  intros (H1 & H2 & H3 & H4 & H5). unfold stored.
  rewrite !stored_u64_ok, stored_f64_ok by done. by destruct r.
Qed.

Lemma resources_to_json_ok r : typed r -> json_ok (to_json r) = true.
Proof.
  intros (_ & _ & H & _). unfold to_json. json_ok_fields; try apply json_ok_u64.
  destruct (cpus r) as [f|]; [apply H|done].
Qed.

Lemma num_or_size_back j k o :
  get j k = Some (opt_json int_of_u64 o) -> opt_all (in_u 64) o -> num_or_size j k = Ok (stored_u64 o).
Proof.
  intros Hg Ho. unfold num_or_size. rewrite Hg. pose proof (typed_u64_back o Ho) as H.
  destruct o; [|done]. cbn in *. by rewrite H.
Qed.

Lemma resources_json_back r : typed r -> from_json (norm (to_json r)) = Ok (stored r).
Proof.
  intros (H1 & H2 & H3 & H4 & H5). unfold from_json, to_json, get_f64, get_u64.
  rewrite !norm_set by done. rewrite !norm_opt_u64.
  rewrite (num_or_size_back _ "memory" (memory r)) by (done || by json_get).
  cbn [mbind result_bind].
  rewrite (num_or_size_back _ "memory_swap" (memory_swap r)) by (done || by json_get).
  cbn [mbind result_bind]. json_get. rewrite !typed_u64_back by done. by rewrite stored_f64_back.
Qed.
End resources.

Module network_config.
Import NetworkConfig.
Definition wf (n : t) : Prop :=
  utf8 (bridge n) /\ utf8 (subnet n) /\ opt_all utf8 (ip n) /\ opt_all utf8 (gateway n) /\
  in_u 32 (mtu n) /\ Forall port_mapping.wf (publish n) /\ Forall utf8 (dns n).

Lemma mode_utf8 m : valid_utf8 (NetworkMode.as_str m) = true.
Proof. by destruct m. Qed.

Lemma netcfg_norm_json n : norm (to_json n) = to_json n.
Proof.
  unfold to_json. rewrite !norm_set by done.
  by rewrite !norm_opt_str, norm_strings, norm_arr by apply port_mapping.port_norm_json.
Qed.

Lemma netcfg_to_json_ok n : wf n -> json_ok (to_json n) = true.
Proof.
  intros (H1 & H2 & H3 & H4 & H5 & H6 & H7). unfold to_json.
  json_ok_fields; try done; [apply mode_utf8|by apply json_ok_opt_str..| | |by apply json_ok_strings].
  - apply json_ok_int. unfold in_u, in_s in *. lia.
  - apply json_ok_arr. apply (Forall_impl _ _ _ H6). apply port_mapping.port_to_json_ok.
Qed.

Lemma netcfg_json_back n : wf n -> from_json (to_json n) = Ok n.
Proof.
  intros (H1 & H2 & H3 & H4 & H5 & H6 & H7).
  unfold from_json, to_json, get_str, get_u64, get_bool, get_array. json_get.
  rewrite !opt_str_back. cbn [mbind option_bind as_str as_array as_bool as_u64 strings].
  rewrite NetworkMode.mode_parse_as_str. cbn [mbind result_bind].
  rewrite try_map_back by (apply (Forall_impl _ _ _ H6), port_mapping.port_entry_back).
  cbn [mbind result_bind fmap option_fmap option_map unwrap_or]. rewrite str_elems_strings.
  pose proof H5 as [H0 _]. rewrite (proj2 (Z.leb_le 0 _)) by done. cbn. rewrite wrap_u_id by done.
  by destruct n.
Qed.
End network_config.

Module security_config.
Import SecurityConfig.
Definition wf (s : t) : Prop :=
  Forall utf8 (cap_add s) /\ Forall utf8 (cap_drop s) /\ Forall utf8 (masked_paths s) /\
  Forall utf8 (readonly_paths s) /\
  opt_all (fun u => in_u 32 u.1 /\ in_u 32 u.2) (user s).

Lemma dec_ascii s : str_all is_ascii_digit s = true -> valid_utf8 s = true.
Proof.
  induction s as [|c s IH]; [done|]. cbn [str_all valid_utf8]. intros [Hc Hs]%andb_prop.
  unfold is_ascii_digit, in_range in Hc. bool_prop.
  rewrite (proj2 (Z.ltb_lt (bz c) 0x80)) by lia. by apply IH.
Qed.

Lemma valid_utf8_ascii_app s t :
  str_all is_ascii_digit s = true -> valid_utf8 t = true -> valid_utf8 (s +:+ t) = true.
Proof.
  induction s as [|c s IH]; [done|]. cbn [str_all String.append valid_utf8]. intros [Hc Hs]%andb_prop Ht.
  unfold is_ascii_digit, in_range in Hc. bool_prop.
  rewrite (proj2 (Z.ltb_lt (bz c) 0x80)) by lia. by apply IH.
Qed.

Lemma user_utf8 u : in_u 32 u.1 -> in_u 32 u.2 -> valid_utf8 (user_str u) = true.
Proof.
  intros [H1 _] [H2 _]. unfold user_str. rewrite !show_dec_nonneg by done.
  apply valid_utf8_ascii_app; [by apply show_u_dec|].
  change (valid_utf8 (":" +:+ show_u 10 u.2)) with (valid_utf8 (show_u 10 u.2)).
  by apply dec_ascii, show_u_dec.
Qed.

Lemma parse_user_back u : in_u 32 u.1 -> in_u 32 u.2 -> parse_user (user_str u) = Ok u.
Proof.
  intros H1 H2. unfold parse_user, user_str.
  rewrite !show_dec_nonneg by (apply H1 || apply H2). cbn [String.append].
  rewrite split_once_app.
  2: { apply (str_all_not_contains is_ascii_digit); [done|]. apply show_u_dec, H1. }
  rewrite !trim_graph by (apply net.show_u_graph; apply H1 || apply H2).
  rewrite !parse_u_show by done. by destruct u.
Qed.

Lemma norm_user o : norm (opt_json (fun u => JStr (user_str u)) o)
  = opt_json (fun u => JStr (user_str u)) o.
Proof. by destruct o. Qed.

Lemma security_norm_json s : norm (to_json s) = to_json s.
Proof. unfold to_json. rewrite !norm_set by done. by rewrite !norm_strings, norm_user. Qed.

Lemma security_to_json_ok s : wf s -> json_ok (to_json s) = true.
Proof.
  intros (H1 & H2 & H3 & H4 & H5). unfold to_json.
  json_ok_fields; try done; try (by apply json_ok_strings).
  - by destruct (seccomp s).
  - destruct (user s) as [u|]; [|done]. by apply user_utf8; apply H5.
Qed.

Lemma security_json_back s : wf s -> from_json (to_json s) = Ok s.
Proof.
  intros (H1 & H2 & H3 & H4 & H5).
  unfold from_json, to_json, get_str, get_bool, get_array. json_get.
  cbn [mbind option_bind as_str as_array as_bool strings fmap option_fmap option_map unwrap_or].
  rewrite seccomp.seccomp_parse_as_str. cbn [mbind result_bind].
  rewrite !str_elems_strings.
  assert (match (v ← Some (opt_json (fun u => JStr (user_str u)) (user s)); as_str v) with
     | Some v => u ← parse_user v; Ok (Some u) | None => Ok (user default) end = Ok (user s)) as E.
  { destruct (user s) as [u|]; [|done]. cbn. by rewrite parse_user_back by apply H5. }
  cbn [mbind option_bind] in E. rewrite E. by destruct s.
Qed.
End security_config.

Module namespaces.
Import Namespaces.
Lemma namespaces_norm_json n : norm (to_json n) = to_json n.
Proof. unfold to_json. by rewrite !norm_set. Qed.

Lemma namespaces_to_json_ok n : json_ok (to_json n) = true.
Proof. unfold to_json. by json_ok_fields. Qed.

Lemma namespaces_json_back n : from_json (to_json n) = n.
Proof. unfold from_json, to_json, get_bool. json_get. by destruct n. Qed.
End namespaces.

Module container_config.
Import ContainerConfig.

Definition fields_ok (limits : Resources.t -> Prop) (c : t) : Prop :=
  utf8 (id c) /\ opt_all utf8 (name c) /\ utf8 (rootfs c) /\ Forall utf8 (command c) /\
  Forall utf8 (env c) /\ utf8 (cwd c) /\ utf8 (hostname c) /\
  Forall mount_spec.wf (mounts c) /\ limits (resources c) /\
  network_config.wf (network c) /\ security_config.wf (security c) /\
  Forall (fun kv => utf8 kv.1 /\ utf8 kv.2) (labels c) /\
  (** the environment was built by [set_env] from the default one *)
  env.env_sep (env c) = true /\ env.covers (env c) default_env /\
  NoDup (labels c).*1.

Definition typed : t -> Prop := fields_ok resources.typed.
Definition wf : t -> Prop := fields_ok resources.wf.

(** [detach] is not written; it reads back as [false]. *)
Definition without_detach (c : t) : t :=
  Mk (id c) (name c) (rootfs c) (command c) (env c) (cwd c) (hostname c) (read_only c)
    (mounts c) (resources c) (network c) (security c) (namespaces c) false
    (auto_remove c) (labels c).

(** What a configuration reads back as: without [detach], with limits from
    [2^63] on turned into no limit. *)
Definition stored (c : t) : t :=
  Mk (id c) (name c) (rootfs c) (command c) (env c) (cwd c) (hostname c) (read_only c)
    (mounts c) (resources.stored (resources c)) (network c) (security c) (namespaces c) false
    (auto_remove c) (labels c).

Lemma config_typed c : wf c -> typed c.
Proof.
  intros (H1 & H2 & H3 & H4 & H5 & H6 & H7 & H8 & H9 & H).
  unfold typed, fields_ok. pose proof (resources.resources_typed _ H9). tauto.
Qed.

Lemma config_stored c : wf c -> stored c = without_detach c.
Proof.
  intros (H1 & H2 & H3 & H4 & H5 & H6 & H7 & H8 & H9 & H). unfold stored. by rewrite resources.resources_stored.
Qed.

Lemma labels_json_go l m :
  NoDup (m.*1 ++ l.*1) ->
  foldl (fun o kv => set o kv.1 (JStr kv.2)) (JObj m) l
  = JObj (m ++ ((fun kv => (kv.1, JStr kv.2)) <$> l)).
Proof.
  revert m. induction l as [|[k v] l IH]; intros m Hn; [cbn; by rewrite (right_id_L [] (++))|].
  cbn [foldl set fst snd].
  assert (set_slot k (JStr v) m = m ++ [(k, JStr v)]) as ->.
  { assert (k ∉ m.*1) as Hk by (apply NoDup_app in Hn as (_ & Hd & _); intros ?%Hd; set_solver).
    clear -Hk. induction m as [|[ek ev] m IH]; [done|]. cbn in *.
    apply not_elem_of_cons in Hk as [H1 H2]. rewrite decide_False by congruence. by rewrite IH. }
  rewrite IH; [by rewrite <- (assoc_L (++))|].
  rewrite fmap_app, <- (assoc_L (++)). done.
Qed.

Lemma labels_json_spec l :
  NoDup l.*1 -> labels_json l = JObj ((fun kv => (kv.1, JStr kv.2)) <$> l).
Proof. intros. by apply (labels_json_go l []). Qed.

Lemma str_pairs_back l : str_pairs ((fun kv => (kv.1, JStr kv.2)) <$> l) = l.
Proof. unfold str_pairs. induction l as [|[k v] l IH]; [done|]. cbn. by rewrite IH. Qed.

Lemma norm_labels l : norm (JObj ((fun kv => (kv.1, JStr kv.2)) <$> l))
  = JObj ((fun kv : string * string => (kv.1, JStr kv.2)) <$> l).
Proof. cbn. f_equal. by rewrite <- list_fmap_compose. Qed.

Lemma json_ok_labels l : Forall (fun kv => utf8 kv.1 /\ utf8 kv.2) l ->
  json_ok (JObj ((fun kv => (kv.1, JStr kv.2)) <$> l)) = true.
Proof. induction 1 as [|kv l [H1 H2] Hl IH]; cbn in *; [done|]. by rewrite H1, H2. Qed.

Lemma config_to_json_ok c : typed c -> json_ok (to_json c) = true.
Proof.
  intros (H1 & H2 & H3 & H4 & H5 & H6 & H7 & H8 & H9 & H10 & H11 & H12 & H13 & H14 & H15).
  unfold to_json. rewrite labels_json_spec by done. json_ok_fields; try done;
    auto using json_ok_opt_str, json_ok_strings, resources.resources_to_json_ok, network_config.netcfg_to_json_ok,
      security_config.security_to_json_ok, namespaces.namespaces_to_json_ok, json_ok_labels.
  apply json_ok_arr. apply (Forall_impl _ _ _ H8). apply mount_spec.mount_to_json_ok.
Qed.

Lemma config_json_back c : typed c -> from_json (norm (to_json c)) = Ok (stored c).
Proof.
  intros (H1 & H2 & H3 & H4 & H5 & H6 & H7 & H8 & H9 & H10 & H11 & H12 & H13 & H14 & H15).
  unfold to_json. rewrite labels_json_spec by done. rewrite !norm_set by done.
  rewrite norm_labels, norm_opt_str, !norm_strings, norm_arr by apply mount_spec.mount_norm_json.
  rewrite network_config.netcfg_norm_json, security_config.security_norm_json, namespaces.namespaces_norm_json.
  unfold from_json, get_str, get_bool, get_array. json_get. rewrite opt_str_back.
  change (get (norm obj) ?k) with (@None Json).
  cbn [mbind option_bind as_str as_array as_bool strings norm or_else unwrap_or].
  rewrite !str_elems_strings, str_pairs_back.
  rewrite try_map_back by (apply Forall_true; apply mount_spec.mount_entry_back).
  cbn [mbind result_bind]. rewrite resources.resources_json_back by done.
  cbn [mbind result_bind]. rewrite network_config.netcfg_json_back by done.
  cbn [mbind result_bind]. rewrite security_config.security_json_back by done.
  cbn [mbind result_bind]. rewrite namespaces.namespaces_json_back.
  rewrite env.foldl_set_env by done. change (ContainerConfig.env default) with default_env.
  rewrite H14. by destruct c.
Qed.


Definition sample : t :=
  Mk "web-1" (Some "web") "/srv/rootfs" ["/bin/sh"; "-c"; "true"]
    (default_env ++ ["HOSTNAME=web"]) "/" "web" true
    [MountSpec.Mk "/tmp" "/host-tmp" "bind" true]
    (Resources.Mk (Some 268435456) None (Some (SpecFloat.S754_finite false 6755399441055744 (-52)))
       (Some 100) (Some 64))
    (NetworkConfig.Mk NetworkMode.Bridge "myrun0" "10.87.0.0/24" None None 1500
       [PortMapping.Mk 8080 80 "tcp"] true ["1.1.1.1"])
    (SecurityConfig.Mk true ["NET_ADMIN"] [] seccomp.Strict DEFAULT_MASKED_PATHS
       DEFAULT_READONLY_PATHS (Some (1000, 1000)) false)
    Namespaces.default true false [("app", "web")].

Lemma config_sample_wf : wf sample.
Proof.
  unfold wf, fields_ok, mount_spec.wf, resources.wf, network_config.wf, security_config.wf, port_mapping.wf,
    size_ok, double_ok, utf8, env.covers, in_u.
  split_and!; cbn; try done; apply (bool_decide_unpack _); vm_compute; exact I.
Qed.


(** A size from [2^63] on is written as a negative number, which reads back as
    no limit at all. *)
Example huge_limit_is_lost :
  let c := Mk "a" None "/r" ["/bin/sh"] default_env "/" "a" false []
             (Resources.Mk (Some (2 ^ 63)) None None None None) NetworkConfig.default
             SecurityConfig.default Namespaces.default false false [] in
  (c' ← (j ← parse (to_string_pretty (to_json c)); from_json j);
   Ok (Resources.memory (resources c'))) = Ok None.
Proof. vm_compute. reflexivity. Qed.


(** ** What validation guarantees *)

Lemma reject_if_ok b msg : reject_if b msg = Ok tt <-> b = false.
Proof. by destruct b. Qed.

(** The limits that reach the cgroup files. *)
Definition resources_valid (r : Resources.t) : Prop :=
  opt_all (fun m => 512 * 1024 <= m) (Resources.memory r) /\
  (forall sw m, Resources.memory_swap r = Some sw -> Resources.memory r = Some m -> m <= sw) /\
  opt_all (fun c => f64_is_finite c = true /\ f64_ltb (f64_of_Z 0) c = true /\
                    f64_ltb (f64_of_Z 1024) c = false) (Resources.cpus r) /\
  opt_all (fun w => 1 <= w <= 10000) (Resources.cpu_weight r) /\
  opt_all (fun p => 1 <= p) (Resources.pids r).

Lemma validate_resources_ok r u : validate_resources r = Ok u -> resources_valid r.
Proof.
  unfold validate_resources, resources_valid.
  intros ([] & Hm & ([] & Hs & ([] & Hc & ([] & Hw & Hp)%bind_ok)%bind_ok)%bind_ok)%bind_ok.
  destruct u. split_and!.
  - destruct (Resources.memory r); [|done]. apply reject_if_ok in Hm. cbn. by bool_prop.
  - intros sw m E1 E2. rewrite E1, E2 in Hs. apply reject_if_ok in Hs. by bool_prop.
  - destruct (Resources.cpus r); [|done]. apply bind_ok in Hc as ([] & H1 & H2).
    apply reject_if_ok in H1, H2. cbn. by bool_prop.
  - destruct (Resources.cpu_weight r); [|done]. apply reject_if_ok in Hw. cbn. by bool_prop.
  - destruct (Resources.pids r); [|done]. apply reject_if_ok in Hp. cbn. by bool_prop.
Qed.

Definition port_key (p : PortMapping.t) : Z * string :=
  (PortMapping.host_port p, PortMapping.protocol p).

Lemma validate_publish_ok seen l u :
  NoDup seen -> validate_publish seen l = Ok u -> NoDup (seen ++ (port_key <$> l)).
Proof.
  revert seen. induction l as [|p l IH]; intros seen Hn H; cbn in *; [by rewrite (right_id_L [] (++))|].
  case_bool_decide as Hk; [done|]. apply IH in H; [by rewrite <- (assoc_L (++)) in H|].
  apply NoDup_app. split_and!; [done| |apply NoDup_singleton].
  intros x Hx ->%list_elem_of_singleton. done.
Qed.

(** A bridge network that can be set up. *)
Definition bridge_valid (n : NetworkConfig.t) : Prop :=
  exists a prefix gw, net.parse_cidr (NetworkConfig.subnet n) = Ok (a, prefix) /\ prefix <= 30 /\
    NetworkConfig.gateway_addr n = Ok gw /\
    opt_all (fun ip => exists addr, net.parse_ipv4 ip = Ok addr /\
      net.in_subnet addr a prefix = true /\ addr <> gw) (NetworkConfig.ip n) /\
    NoDup (port_key <$> NetworkConfig.publish n).

Lemma validate_bridge_ok n ns u :
  validate_bridge n ns = Ok u -> bridge_valid n /\ Namespaces.net ns = true.
Proof.
  unfold validate_bridge.
  intros ([] & Hns%reject_if_ok & ([a prefix] & Hc & H)%bind_ok)%bind_ok.
  apply bind_ok in H as ([] & Hp%reject_if_ok & (gw & Hg & ([] & Hip & Hpub)%bind_ok)%bind_ok).
  bool_prop. split; [|done]. exists a, prefix, gw. split_and!; [done..| |].
  - destruct (NetworkConfig.ip n) as [ip|]; [|done]. cbn.
    apply bind_ok in Hip as (addr & Ha & ([] & H1%reject_if_ok & H2%reject_if_ok)%bind_ok).
    bool_prop. eauto.
  - apply validate_publish_ok in Hpub; [done|constructor].
Qed.

(** The network part of a validated configuration. *)
Definition network_valid (n : NetworkConfig.t) (ns : Namespaces.t) : Prop :=
  68 <= NetworkConfig.mtu n <= 65535 /\
  match NetworkConfig.mode n with
  | NetworkMode.Host => Namespaces.net ns = false /\ NetworkConfig.publish n = []
  | NetworkMode.None => NetworkConfig.publish n = []
  | NetworkMode.Bridge => Namespaces.net ns = true /\ bridge_valid n
  end.

Lemma no_publish_ok n msg u : no_publish n msg = Ok u -> NetworkConfig.publish n = [].
Proof. unfold no_publish. by destruct (NetworkConfig.publish n). Qed.

Lemma validate_network_ok n ns ns' : validate_network n ns = Ok ns' -> network_valid n ns'.
Proof.
  unfold validate_network, network_valid.
  intros (ns1 & H & ([] & Hm%reject_if_ok & [= ->])%bind_ok)%bind_ok.
  bool_prop. split; [lia|]. destruct (NetworkConfig.mode n).
  - apply bind_ok in H as ([] & Hn%no_publish_ok & _). done.
  - apply bind_ok in H as ([] & [Hb1 Hb2]%validate_bridge_ok & [= ->]). done.
  - apply bind_ok in H as ([] & Hn%no_publish_ok & [= <-]). done.
Qed.

Section Validated.
Context (fresh_id : string) (canonicalize : string -> result string)
  (is_dir path_exists : string -> bool).

Definition rootfs_valid (r : string) : Prop := is_dir r = true /\ r <> "/".

Lemma validate_rootfs_ok r r' :
  validate_rootfs canonicalize is_dir true r = Ok r' -> rootfs_valid r' /\ canonicalize r = Ok r'.
Proof.
  unfold validate_rootfs, rootfs_valid.
  intros ([] & _ & (canon & Hc & ([] & H1%reject_if_ok & ([] & H2%reject_if_ok & [= ->])%bind_ok)
    %bind_ok)%bind_ok)%bind_ok. bool_prop. done.
Qed.

Lemma validate_mounts_ok l u :
  validate_mounts path_exists l = Ok u ->
  Forall (fun m => MountSpec.fstype m = "bind" -> path_exists (MountSpec.source m) = true) l.
Proof.
  induction l as [|m l IH]; intros H; cbn in H; constructor.
  - intros E. rewrite bool_decide_eq_true_2 in H by done. by destruct (path_exists _).
  - apply IH. by destruct (_ && _).
Qed.

(** Everything the components rely on. *)
Record validated (c : t) : Prop := {
  v_id : util.validate_id (id c) = Ok tt;
  v_hostname : str_len (hostname c) <= 64 /\ str_all host_char (hostname c) = true;
  v_hostname_env : env_value (env c) "HOSTNAME" = Some (hostname c);
  v_command : exists arg0 args, command c = arg0 :: args /\ arg0 <> "";
  v_cwd : starts_with "/" (cwd c) = true;
  v_rootfs : rootfs_valid (rootfs c);
  v_mounts : Forall (fun m => MountSpec.fstype m = "bind" ->
               path_exists (MountSpec.source m) = true) (mounts c);
  v_resources : resources_valid (resources c);
  v_network : network_valid (network c) (namespaces c);
  v_caps : is_ok (SecurityConfig.cap_mask (security c)) = true;
  v_privileged : SecurityConfig.privileged (security c) = true ->
               SecurityConfig.seccomp (security c) = seccomp.Unconfined
}.

Lemma hostname_env l h : env_value (set_env l ("HOSTNAME=" +:+ h)) "HOSTNAME" = Some h.
Proof.
  unfold env_value, set_env.
  change (env_key ("HOSTNAME=" +:+ h)) with "HOSTNAME".
  set (p := "HOSTNAME" +:+ "="). rewrite list_find_app_r.
  - cbn [list_find]. rewrite decide_True by done. done.
  - apply list_find_None, Forall_forall. intros e [He _]%list_elem_of_filter. congruence.
Qed.

Lemma validate_security_ok s s' :
  validate_security s = Ok s' ->
  is_ok (SecurityConfig.cap_mask s') = true /\
  (SecurityConfig.privileged s' = true -> SecurityConfig.seccomp s' = seccomp.Unconfined).
Proof.
  unfold validate_security. intros (m & Hm & [= <-])%bind_ok.
  destruct (SecurityConfig.privileged s) eqn:Ep; cbn [andb].
  - case_bool_decide; cbn [negb]; (split; [|done]).
    + by rewrite Hm.
    + done.
  - split; [by rewrite Hm|congruence].
Qed.

(** C37: a configuration accepted by the command line has a safe id, a command,
    an absolute working directory, a root that is a directory and not the
    host's, limits the kernel accepts, a consistent network (no port published
    twice, the address inside the subnet and not the gateway's), known
    capabilities, and no half-confined privileged mode. *)
Theorem finalize_and_validate_ok (c c' : t) :
  finalize_and_validate fresh_id canonicalize is_dir path_exists c true = Ok c' -> validated c'.
Proof.
  unfold finalize_and_validate.
  intros ([] & Hid & ([] & _ & ([] & Hl%reject_if_ok & ([] & Hh%reject_if_ok & H)%bind_ok)%bind_ok)
    %bind_ok)%bind_ok.
  apply bind_ok in H as ([] & Hcmd & ([] & Hcwd%reject_if_ok & (r & [Hr _]%validate_rootfs_ok & H)
    %bind_ok)%bind_ok).
  apply bind_ok in H as ([] & Hmt%validate_mounts_ok & ([] & Hres%validate_resources_ok & H)%bind_ok).
  apply bind_ok in H as (ns & Hns%validate_network_ok & (sec & [Hs1 Hs2]%validate_security_ok & [= <-])
    %bind_ok).
  split; cbn; try done.
  - by bool_prop.
  - apply hostname_env.
  - destruct (command c) as [|arg0 args]; [done|]. exists arg0, args. split; [done|].
    apply reject_if_ok in Hcmd. by intros ->.
  - by apply negb_false_iff in Hcwd.
Qed.

End Validated.

(** The host of the witness: [/srv] is a directory, everything exists. *)
Lemma finalize_and_validate_ok_witness :
  let c := Mk "" (Some "web") "/srv" ["/bin/sh"] default_env "/" "" false
             [MountSpec.Mk "/tmp" "/host-tmp" "bind" true] Resources.default
             (NetworkConfig.Mk NetworkMode.Bridge "myrun0" "10.87.0.0/24" (Some "10.87.0.7") None
                1500 [PortMapping.Mk 8080 80 "tcp"; PortMapping.Mk 8080 80 "udp"] true [])
             SecurityConfig.default Namespaces.default false false [] in
  match finalize_and_validate "abc" Ok (fun p => bool_decide (p = "/srv")) (fun _ => true) c true with
  | Ok c' => validated (fun p => bool_decide (p = "/srv")) (fun _ => true) c'
  | Err _ => False
  end.
Proof.
  cbv zeta.
  match goal with |- match ?r with Ok _ => _ | Err _ => _ end =>
    destruct r as [c'|e] eqn:E end.
  - eapply finalize_and_validate_ok. exact E.
  - vm_compute in E. discriminate E.
Defined.

(** A name may contain an underscore, a host name may not: a container whose
    name has one and that sets no host name is refused. *)
Example underscore_name_refused :
  let c := Mk "" (Some "my_app") "/srv" ["/bin/sh"] default_env "/" "" false [] Resources.default
             NetworkConfig.default SecurityConfig.default Namespaces.default false false [] in
  (util.validate_id "my_app",
   finalize_and_validate "abc" Ok (fun _ => true) (fun _ => true) c true)
  = (Ok tt, Err (Config ("hostname " +:+ debug_str "my_app" +:+ " contains invalid characters"))).
Proof. vm_compute. reflexivity. Qed.

End container_config.
