(* ===== verification/Process.v ===== *)
(** * [src/sys/process.rs]: exit statuses, signals, waiting, [/proc/<pid>/stat];
    the wait-status macros of [src/sys/ffi.rs] *)
From S2P Require Import Prelude RustStr Num Utf8 Error.

Module process.

(** ** [bits/waitstatus.h] as [ffi.rs] has it; a status is a 32-bit [c_int] *)

Definition wifexited (status : Z) : bool := Z.land status 0x7f =? 0.
Definition wexitstatus (status : Z) : Z := Z.land (Z.shiftr status 8) 0xff.
Definition wifsignaled (status : Z) : bool := 0 <? Z.shiftr (Z.land status 0x7f + 1) 1.
Definition wtermsig (status : Z) : Z := Z.land status 0x7f.
Definition wcoredump (status : Z) : bool := negb (Z.land status 0x80 =? 0).
Definition wifstopped (status : Z) : bool := Z.land status 0xff =? 0x7f.

(** ** [struct ExitStatus] *)

Record ExitStatus := MkExit { code : option Z; signal : option Z }.

#[global] Instance ExitStatus_eq_dec : EqDecision ExitStatus.
Proof. solve_decision. Defined.

Definition from_raw (status : Z) : ExitStatus :=
  if wifexited status then MkExit (Some (wexitstatus status)) None
  else if wifsignaled status then MkExit None (Some (wtermsig status))
  else MkExit None None.

(** [ExitStatus::exit_code]. *)
Definition exit_code (e : ExitStatus) : Z :=
  match code e, signal e with
  | Some c, _ => c
  | None, Some s => 128 + s
  | None, None => 255
  end.

Definition signal_name (sig : Z) : string :=
  match sig with
  | 1 => "SIGHUP" | 2 => "SIGINT" | 3 => "SIGQUIT" | 4 => "SIGILL" | 6 => "SIGABRT"
  | 8 => "SIGFPE" | 9 => "SIGKILL" | 10 => "SIGUSR1" | 11 => "SIGSEGV" | 12 => "SIGUSR2"
  | 13 => "SIGPIPE" | 14 => "SIGALRM" | 15 => "SIGTERM" | 17 => "SIGCHLD"
  | 18 => "SIGCONT" | 19 => "SIGSTOP"
  | _ => "SIG?"
  end.

Definition describe (e : ExitStatus) : string :=
  match code e, signal e with
  | Some c, _ => "exited with code " +:+ show_dec c
  | None, Some s => "killed by signal " +:+ show_dec s +:+ " (" +:+ signal_name s +:+ ")"
  | None, None => "terminated for an unknown reason"
  end.

(** ** Signals *)

Definition signal_table : list (string * Z) :=
  [ ("HUP", 1); ("INT", 2); ("QUIT", 3); ("ILL", 4); ("ABRT", 6); ("FPE", 8); ("KILL", 9);
    ("USR1", 10); ("SEGV", 11); ("USR2", 12); ("PIPE", 13); ("ALRM", 14); ("TERM", 15);
    ("CHLD", 17); ("CONT", 18); ("STOP", 19); ("WINCH", 28) ].

Fixpoint find_signal (t : string) (l : list (string * Z)) : option Z :=
  match l with
  | [] => None
  | (k, n) :: l' => if decide (k = t) then Some n else find_signal t l'
  end.

(** [parse_signal]. *)
Definition parse_signal (s : string) : result Z :=
  let t := to_ascii_uppercase (trim s) in
  match parse_i 32 t with
  | Some n =>
      if (1 <=? n) && (n <=? 64) then Ok n
      else Err (Config ("signal " +:+ show_dec n +:+ " out of range"))
  | None =>
      let t := default t (strip_prefix "SIG" t) in
      ok_or (Config ("unknown signal " +:+ debug_str s)) (find_signal t signal_table)
  end.

(** ** Waiting *)

Definition EINTR : Z := 4.
Definition ECHILD : Z := 10.

(** One answer of [waitpid(2)]: failed with an [errno], or a pid (0 when
    nothing is to be reaped) and a status. *)
Inductive wait_answer :=
| WFailed (errno : Z)
| WPid (pid status : Z).

(** [wait_pid]: the loop consumes the kernel's answers; [None] means that it
    is still waiting when they end. *)
Fixpoint wait_pid (pid : Z) (answers : list wait_answer)
    : option (result (option (Z * ExitStatus)) * list wait_answer) :=
  match answers with
  | [] => None
  | WFailed e :: rest =>
      if e =? EINTR then wait_pid pid rest
      else if e =? ECHILD then Some (Ok None, rest)
      else Some (Err (Syscall "waitpid" e ("pid " +:+ show_dec pid)), rest)
  | WPid rc status :: rest =>
      if rc =? 0 then Some (Ok None, rest)
      else if wifstopped status then wait_pid pid rest
      else Some (Ok (Some (rc, from_raw status)), rest)
  end.

(** [reap_all], with fuel for the answers there are. *)
Fixpoint reap_go (fuel : nat) (answers : list wait_answer) (out : list (Z * ExitStatus))
    : option (list (Z * ExitStatus)) :=
  match fuel with
  | O => None
  | S f =>
      match wait_pid (-1) answers with
      | None => None
      | Some (Ok (Some x), rest) => reap_go f rest (out ++ [x])
      | Some (_, _) => Some out
      end
  end.

Definition reap_all (answers : list wait_answer) : option (list (Z * ExitStatus)) :=
  reap_go (S (length answers)) answers [].

(** ** [/proc/<pid>/stat] *)

Record ProcStat := MkStat {
  st_pid : Z; comm : string; state : string; ppid : Z; start_time : Z;
  utime : Z; stime : Z; num_threads : Z
}.

(** [str::find] and [str::rfind] of an ASCII character. *)
Fixpoint find_char (c : ascii) (s : string) : option nat :=
  match s with
  | EmptyString => None
  | String a s' => if ascii_dec a c then Some 0%nat else S <$> find_char c s'
  end.

Fixpoint rfind_char (c : ascii) (s : string) : option nat :=
  match s with
  | EmptyString => None
  | String a s' =>
      match rfind_char c s' with
      | Some n => Some (S n)
      | None => if ascii_dec a c then Some 0%nat else None
      end
  end.

(** [parse_proc_stat]; [None] is the panic of slicing [open + 1..close] when
    the parentheses are the wrong way round. *)
Definition parse_proc_stat (text : string) : option (result ProcStat) :=
  match find_char "(" text, rfind_char ")" text with
  | Some open, Some close =>
      if (close <? S open)%nat then None
      else
        let pid := unwrap_or (-1) (parse_i 32 (trim (String.substring 0 open text))) in
        let comm := String.substring (S open) (close - S open) text in
        let rest := split_whitespace
                      (String.substring (S close) (String.length text - S close) text) in
        let field n := unwrap_or 0 (s ← rest !! (n - 3)%nat; parse_u 64 s) in
        Some (Ok (MkStat pid comm
          (unwrap_or "?" (s ← head rest; head (chars s)))
          (wrap_s 32 (field 4%nat)) (field 22%nat) (field 14%nat) (field 15%nat)
          (wrap_s 64 (field 20%nat))))
  | _, _ => Some (Err (Parse "malformed /proc/<pid>/stat"))
  end.

(** [process_alive], given what reading [/proc/<pid>/stat] gives. *)
Definition process_alive (stat : option string) (start : option Z) : bool :=
  match stat with
  | None => false
  | Some text =>
      match parse_proc_stat text with
      | Some (Ok st) =>
          if decide (state st = "Z") then false
          else match start with
               | Some t => start_time st =? t
               | None => true
               end
      | _ => false
      end
  end.

(** ** Exit statuses *)

Lemma land_7f n : Z.land n 0x7f = n `mod` 128.
Proof. change 0x7f with (Z.ones 7). by rewrite Z.land_ones. Qed.

Lemma land_ff n : Z.land n 0xff = n `mod` 256.
Proof. change 0xff with (Z.ones 8). by rewrite Z.land_ones. Qed.

Lemma from_raw_exited n : 0 <= n < 256 -> from_raw (n * 256) = MkExit (Some n) None.
Proof.
  intros Hn. unfold from_raw, wifexited, wexitstatus. rewrite land_7f, land_ff.
  replace (n * 256) with (n * 2 * 128) at 1 by lia. rewrite Z.mod_mul by lia. cbn.
  rewrite Z.shiftr_div_pow2 by lia. change (2 ^ 8) with 256. rewrite Z.div_mul by lia.
  by rewrite Z.mod_small.
Qed.

Lemma from_raw_signaled s core :
  1 <= s <= 126 -> core = 0 \/ core = 128 -> from_raw (s + core) = MkExit None (Some s).
Proof.
  intros Hs Hc. unfold from_raw, wifexited, wifsignaled, wtermsig. rewrite !land_7f.
  assert ((s + core) `mod` 128 = s) as -> by (destruct Hc as [-> | ->]; Z.to_euclidean_division_equations; lia).
  rewrite (proj2 (Z.eqb_neq s 0)) by lia. rewrite Z.shiftr_div_pow2 by lia.
  rewrite (proj2 (Z.ltb_lt _ _)); [done|]. apply Z.div_str_pos. lia.
Qed.

Lemma from_raw_range status : 0 <= exit_code (from_raw status) <= 255.
Proof.
  unfold from_raw, wexitstatus, wtermsig. rewrite land_7f, land_ff.
  pose proof (Z.mod_pos_bound (Z.shiftr status 8) 256). pose proof (Z.mod_pos_bound status 128).
  destruct (wifexited status); [|destruct (wifsignaled status)]; cbn; lia.
Qed.

(** What the kernel reports for a child. *)
Inductive ending := Exited (n : Z) | Killed (s : Z) (core : bool).

Definition ending_ok (e : ending) : Prop :=
  match e with Exited n => 0 <= n < 256 | Killed s _ => 1 <= s <= 126 end.

(** The status word of [wait(2)]. *)
Definition encode (e : ending) : Z :=
  match e with
  | Exited n => n * 256
  | Killed s core => s + (if core then 128 else 0)
  end.

(** What a shell reports. *)
Definition shell_code (e : ending) : Z :=
  match e with Exited n => n | Killed s _ => 128 + s end.

(** Answers the loop of [wait_pid] passes over. *)
Definition retried (w : wait_answer) : Prop :=
  match w with
  | WFailed e => e = EINTR
  | WPid pid status => pid <> 0 /\ wifstopped status = true
  end.

Lemma wait_pid_retries pid pre rest :
  Forall retried pre -> wait_pid pid (pre ++ rest) = wait_pid pid rest.
Proof.
  induction 1 as [|[e|p st] l Hw Hl IH]; [done|..]; cbn in *.
  - subst. exact IH.
  - destruct Hw as [H1 H2]. rewrite (proj2 (Z.eqb_neq p 0)) by done. by rewrite H2.
Qed.

Lemma encode_not_stopped e : ending_ok e -> wifstopped (encode e) = false.
Proof.
  unfold wifstopped. rewrite land_ff. intros H. apply Z.eqb_neq.
  destruct e as [n|s []]; cbn in *; Z.to_euclidean_division_equations; lia.
Qed.

Lemma from_raw_encode e : ending_ok e -> exit_code (from_raw (encode e)) = shell_code e.
Proof.
  destruct e as [n|s core]; cbn; intros H.
  - by rewrite from_raw_exited.
  - rewrite from_raw_signaled; [done|done|]. destruct core; auto.
Qed.

(** [wait_pid] reports the death of the child whatever interruptions and
    stops precede it, with the exit code of the shell's convention. *)
Theorem wait_pid_reports (pid child : Z) (pre rest : list wait_answer) (e : ending) :
  Forall retried pre -> child <> 0 -> ending_ok e ->
  exists st, wait_pid pid (pre ++ WPid child (encode e) :: rest) = Some (Ok (Some (child, st)), rest)
    /\ exit_code st = shell_code e /\ 0 <= exit_code st <= 255.
Proof.
  intros Hpre Hc He. exists (from_raw (encode e)). split_and!.
  - rewrite wait_pid_retries by done. cbn. rewrite (proj2 (Z.eqb_neq child 0)) by done.
    by rewrite encode_not_stopped.
  - by apply from_raw_encode.
  - apply from_raw_range.
  - apply from_raw_range.
Qed.

Lemma wait_pid_reports_witness :
  exists st, wait_pid 42 ([WFailed EINTR; WPid 42 0x137f] ++ WPid 42 (encode (Killed 9 true)) :: [])
      = Some (Ok (Some (42, st)), [])
    /\ exit_code st = 137 /\ 0 <= exit_code st <= 255.
Proof.
  apply (wait_pid_reports 42 42 [WFailed EINTR; WPid 42 0x137f] [] (Killed 9 true));
    [repeat constructor; done | lia | cbn; lia].
Defined.

Lemma reap_go_spec fuel l rest out :
  (length l < fuel)%nat -> Forall (fun ce => ce.1 <> 0 /\ ending_ok ce.2) l ->
  reap_go fuel (((fun ce => WPid ce.1 (encode ce.2)) <$> l) ++ WPid 0 0 :: rest) out
  = Some (out ++ ((fun ce => (ce.1, from_raw (encode ce.2))) <$> l)).
Proof.
  intros Hf HF. revert fuel out Hf. induction HF as [|[c e] l [Hc He] HF IH]; intros fuel out Hf;
    (destruct fuel as [|f]; [cbn in Hf; lia|]).
  - cbn. by rewrite (right_id_L [] (++)).
  - cbn in *. rewrite (proj2 (Z.eqb_neq c 0)) by done. rewrite encode_not_stopped by done.
    rewrite IH by lia. by rewrite <- (assoc_L (++)).
Qed.

(** [reap_all] ends and collects every finished child, in order. *)
Theorem reap_all_complete (l : list (Z * ending)) (rest : list wait_answer) :
  Forall (fun ce => ce.1 <> 0 /\ ending_ok ce.2) l ->
  reap_all (((fun ce => WPid ce.1 (encode ce.2)) <$> l) ++ WPid 0 0 :: rest)
  = Some ((fun ce => (ce.1, from_raw (encode ce.2))) <$> l).
Proof.
  intros H. unfold reap_all. rewrite reap_go_spec; [done| |done].
  rewrite length_app, length_fmap. cbn. lia.
Qed.

Lemma reap_all_complete_witness :
  reap_all (((fun ce => WPid ce.1 (encode ce.2)) <$> [(7, Exited 3); (8, Killed 15 false)])
            ++ WPid 0 0 :: [])
  = Some ((fun ce => (ce.1, from_raw (encode ce.2))) <$> [(7, Exited 3); (8, Killed 15 false)]).
Proof. apply reap_all_complete. repeat constructor; cbn; lia. Defined.

(** [wifsignaled] misses the sign of the macro it is named after: a stopped
    child decodes as killed by signal 127; [wait_pid] never decodes one. *)
Example stopped_decodes_as_signal : from_raw 0x137f = MkExit None (Some 127).
Proof. reflexivity. Qed.

(** ** Signals *)

Lemma find_signal_In t l n : find_signal t l = Some n -> n ∈ l.*2.
Proof.
  induction l as [|[k m] l IH]; cbn; [done|]. case_decide.
  - intros [= ->]. constructor.
  - intros ?%IH. by constructor.
Qed.

(** A signal given by number or by name is a number [kill(2)] accepts, and
    the printed name of a signal parses back to it. *)
Theorem parse_signal_range :
  (forall s n, parse_signal s = Ok n -> 1 <= n <= 64) /\
  (forall n, signal_name n <> "SIG?" -> parse_signal (signal_name n) = Ok n).
Proof.
  split.
  - intros s n. unfold parse_signal. destruct (parse_i 32 _) as [m|].
    + destruct ((1 <=? m) && (m <=? 64)) eqn:E; [|done]. intros [= <-]. bool_prop. lia.
    + destruct (find_signal _ signal_table) as [m|] eqn:E; cbn; [|done]. intros [= <-].
      apply find_signal_In in E.
      assert (Forall (fun n => 1 <= n <= 64) signal_table.*2) as H by (repeat constructor; done).
      rewrite Forall_forall in H. by apply H.
  - intros n. unfold signal_name. repeat case_match; try done.
Qed.

(** ** [/proc/<pid>/stat] *)

Lemma find_char_app c l r :
  contains_char c l = false -> find_char c (l +:+ String c r) = Some (String.length l).
Proof.
  induction l as [|a l IH]; cbn; [by destruct (ascii_dec c c)|].
  destruct (ascii_dec a c); [done|]. intros H. by rewrite IH.
Qed.

Lemma rfind_char_none c s : contains_char c s = false -> rfind_char c s = None.
Proof.
  induction s as [|a s IH]; cbn; [done|]. destruct (ascii_dec a c); [done|].
  intros H. by rewrite IH.
Qed.

Lemma rfind_char_app c l r :
  contains_char c r = false -> rfind_char c (l +:+ String c r) = Some (String.length l).
Proof.
  intros Hr. induction l as [|a l IH]; cbn.
  - rewrite rfind_char_none by done. by destruct (ascii_dec c c).
  - by rewrite IH.
Qed.

Lemma substring_prefix l r : String.substring 0 (String.length l) (l +:+ r) = l.
Proof. induction l as [|a l IH]; cbn; [by destruct r|]. by rewrite IH. Qed.

Lemma substring_skip l n m r :
  String.substring (String.length l + n) m (l +:+ r) = String.substring n m r.
Proof. induction l as [|a l IH]; cbn; [done|]. apply IH. Qed.

Lemma substring_all s : String.substring 0 (String.length s) s = s.
Proof. rewrite <- (app_nil_r s) at 2. apply substring_prefix. Qed.

(** The name of a process never confuses the parser: whatever spaces and
    parentheses it has, the name is recovered exactly and the fields after it
    (state, parent, start time) are those of the line's tail. *)
Theorem parse_proc_stat_comm (pid name tail : string) :
  contains_char "(" pid = false -> contains_char ")" tail = false ->
  exists st, parse_proc_stat (pid +:+ "(" +:+ name +:+ ")" +:+ tail) = Some (Ok st) /\
    comm st = name /\
    st_pid st = unwrap_or (-1) (parse_i 32 (trim pid)) /\
    start_time st = unwrap_or 0 (s ← split_whitespace tail !! 19%nat; parse_u 64 s).
Proof.
  intros Hp Ht. unfold parse_proc_stat.
  change (pid +:+ "(" +:+ name +:+ ")" +:+ tail) with (pid +:+ String "(" (name +:+ String ")" tail)).
  rewrite find_char_app by done.
  assert (rfind_char ")" (pid +:+ String "(" (name +:+ String ")" tail))
    = Some (String.length pid + S (String.length name))%nat) as ->.
  { change (String "(" (name +:+ String ")" tail)) with (String "(" name +:+ String ")" tail).
    rewrite app_assoc, rfind_char_app by done. by rewrite str_length_app. }
  rewrite (proj2 (Nat.ltb_ge _ _)) by lia. eexists. split; [reflexivity|]. cbn [comm st_pid start_time].
  rewrite substring_prefix. split_and!; [|done|].
  - replace (S (String.length pid)) with (String.length pid + 1)%nat by lia.
    rewrite substring_skip.
    replace (_ - _)%nat with (String.length name) by lia. cbn. apply substring_prefix.
  - replace (S (String.length pid + S (String.length name))) with
      (String.length pid + (S (String.length name + 1)))%nat by lia.
    rewrite substring_skip. cbn [String.substring]. rewrite substring_skip. cbn [String.substring].
    rewrite str_length_app. cbn [String.length]. rewrite str_length_app. cbn [String.length].
    match goal with |- context [String.substring 0 ?n tail] =>
      replace n with (String.length tail) by lia end.
    by rewrite substring_all.
Qed.

Lemma parse_proc_stat_comm_witness :
  exists st, parse_proc_stat ("1234 " +:+ "(" +:+ "a) (b" +:+ ")"
      +:+ " S 1 1234 1234 0 -1 4194304 100 0 0 0 11 22 0 0 20 0 3 0 987654 0 0") = Some (Ok st) /\
    comm st = "a) (b" /\ st_pid st = 1234 /\ start_time st = 987654.
Proof.
  exact (parse_proc_stat_comm "1234 " "a) (b"
    " S 1 1234 1234 0 -1 4194304 100 0 0 0 11 22 0 0 20 0 3 0 987654 0 0" eq_refl eq_refl).
Defined.

End process.
