(* ===== verification/State.v ===== *)
(** * [src/runtime/state.rs]: the container state machine

    [now_ms()] is an argument of the operations that stamp a time, and what
    [/proc] says about the init process one of those that look at it. *)
From S2P Require Import Prelude RustStr Num Utf8 F64 Error Json Util Process Net Caps Seccomp Config.
Import json.

(** ** [enum Status] *)
Module Status.
Inductive t := Creating | Created | Running | Paused | Stopping | Stopped.

#[global] Instance eq_dec : EqDecision t.
Proof. solve_decision. Defined.

Definition as_str (s : t) : string :=
  match s with
  | Creating => "creating" | Created => "created" | Running => "running"
  | Paused => "paused" | Stopping => "stopping" | Stopped => "stopped"
  end.

Definition parse (s : string) : result t :=
  match s with
  | "creating" => Ok Creating
  | "created" => Ok Created
  | "running" => Ok Running
  | "paused" => Ok Paused
  | "stopping" => Ok Stopping
  | "stopped" => Ok Stopped
  | other => Err (Parse ("unknown container status " +:+ debug_str other))
  end.

Definition is_live (s : t) : bool :=
  match s with Running | Paused | Stopping => true | _ => false end.

Definition can_transition_to (s next : t) : bool :=
  match s, next with
  | Creating, Created | Creating, Stopped
  | Created, Running | Created, Stopped
  | Running, Paused | Running, Stopping | Running, Stopped
  | Paused, Running | Paused, Stopping | Paused, Stopped
  | Stopping, Stopped => true
  | _, _ => false
  end.

Lemma status_parse_as_str s : parse (as_str s) = Ok s.
Proof. by destruct s. Qed.
End Status.

(** ** [struct NetworkState] *)
Module NetworkState.
Record t := Mk {
  mode : string; bridge : option string; host_veth : option string;
  container_veth : option string; ip : option string; prefix : Z;
  gateway : option string; published : list PortMapping.t
}.

Definition default : t := Mk "none" None None None None 24 None [].

Definition to_json (n : t) : Json :=
  set (set (set (set (set (set (set (set obj
    "mode" (JStr (mode n)))
    "bridge" (opt_json JStr (bridge n)))
    "host_veth" (opt_json JStr (host_veth n)))
    "container_veth" (opt_json JStr (container_veth n)))
    "ip" (opt_json JStr (ip n)))
    "prefix" (JInt (prefix n)))
    "gateway" (opt_json JStr (gateway n)))
    "published" (JArr (PortMapping.to_json <$> published n)).

(** One turn of the loop over [published]. *)
Definition published_entry (p : Json) : PortMapping.t :=
  PortMapping.Mk
    (wrap_u 16 (unwrap_or 0 (get_u64 p "host_port")))
    (wrap_u 16 (unwrap_or 0 (get_u64 p "container_port")))
    (unwrap_or "tcp" (get_str p "protocol")).

Definition from_json (j : Json) : t :=
  let s k := get_str j k in
  Mk (unwrap_or "none" (s "mode")) (s "bridge") (s "host_veth") (s "container_veth") (s "ip")
    (wrap_u 8 (unwrap_or 24 (get_u64 j "prefix"))) (s "gateway")
    (match get_array j "published" with Some a => published_entry <$> a | None => [] end).
End NetworkState.

(** ** [struct ContainerState] *)
Module ContainerState.
Record t := Mk {
  id : string; name : option string; status : Status.t;
  init_pid : Z; init_start_time : Z; shim_pid : Z;
  created_at : Z; started_at : Z; finished_at : Z;
  exit_code : option Z; exit_signal : option Z; oom_killed : bool;
  error : option string; cgroup_path : option string;
  network : NetworkState.t; config : ContainerConfig.t
}.

(** [ContainerState::new]. *)
Definition new (now : Z) (config : ContainerConfig.t) : t :=
  Mk (ContainerConfig.id config) (ContainerConfig.name config) Status.Creating 0 0 0
    now 0 0 None None false None None
    (NetworkState.Mk (NetworkMode.as_str (NetworkConfig.mode (ContainerConfig.network config)))
       None None None None 24 None [])
    config.

(** Assignments to fields. *)
Definition set_status (st : t) (s : Status.t) : t :=
  Mk (id st) (name st) s (init_pid st) (init_start_time st) (shim_pid st) (created_at st)
    (started_at st) (finished_at st) (exit_code st) (exit_signal st) (oom_killed st) (error st)
    (cgroup_path st) (network st) (config st).
Definition set_started (st : t) (v : Z) : t :=
  Mk (id st) (name st) (status st) (init_pid st) (init_start_time st) (shim_pid st) (created_at st)
    v (finished_at st) (exit_code st) (exit_signal st) (oom_killed st) (error st)
    (cgroup_path st) (network st) (config st).
Definition set_finished (st : t) (v : Z) : t :=
  Mk (id st) (name st) (status st) (init_pid st) (init_start_time st) (shim_pid st) (created_at st)
    (started_at st) v (exit_code st) (exit_signal st) (oom_killed st) (error st)
    (cgroup_path st) (network st) (config st).
Definition set_exit (st : t) (c s : option Z) : t :=
  Mk (id st) (name st) (status st) (init_pid st) (init_start_time st) (shim_pid st) (created_at st)
    (started_at st) (finished_at st) c s (oom_killed st) (error st)
    (cgroup_path st) (network st) (config st).
Definition set_oom (st : t) (b : bool) : t :=
  Mk (id st) (name st) (status st) (init_pid st) (init_start_time st) (shim_pid st) (created_at st)
    (started_at st) (finished_at st) (exit_code st) (exit_signal st) b (error st)
    (cgroup_path st) (network st) (config st).
Definition set_error (st : t) (e : option string) : t :=
  Mk (id st) (name st) (status st) (init_pid st) (init_start_time st) (shim_pid st) (created_at st)
    (started_at st) (finished_at st) (exit_code st) (exit_signal st) (oom_killed st) e
    (cgroup_path st) (network st) (config st).
Definition set_init (st : t) (pid start : Z) : t :=
  Mk (id st) (name st) (status st) pid start (shim_pid st) (created_at st)
    (started_at st) (finished_at st) (exit_code st) (exit_signal st) (oom_killed st) (error st)
    (cgroup_path st) (network st) (config st).
Definition set_shim (st : t) (pid : Z) : t :=
  Mk (id st) (name st) (status st) (init_pid st) (init_start_time st) pid (created_at st)
    (started_at st) (finished_at st) (exit_code st) (exit_signal st) (oom_killed st) (error st)
    (cgroup_path st) (network st) (config st).
Definition set_cgroup (st : t) (p : option string) : t :=
  Mk (id st) (name st) (status st) (init_pid st) (init_start_time st) (shim_pid st) (created_at st)
    (started_at st) (finished_at st) (exit_code st) (exit_signal st) (oom_killed st) (error st)
    p (network st) (config st).
Definition set_network (st : t) (n : NetworkState.t) : t :=
  Mk (id st) (name st) (status st) (init_pid st) (init_start_time st) (shim_pid st) (created_at st)
    (started_at st) (finished_at st) (exit_code st) (exit_signal st) (oom_killed st) (error st)
    (cgroup_path st) n (config st).

(** [transition]: the state it leaves; on an error the state is unchanged. *)
Definition transition (now : Z) (st : t) (next : Status.t) : result t :=
  if decide (status st = next) then Ok st
  else if negb (Status.can_transition_to (status st) next)
  then Err (InvalidState ("container " +:+ util.short_id (id st) +:+ " cannot go from "
              +:+ Status.as_str (status st) +:+ " to " +:+ Status.as_str next))
  else
    let st := set_status st next in
    Ok match next with
       | Status.Running => if started_at st =? 0 then set_started st now else st
       | Status.Stopped => if finished_at st =? 0 then set_finished st now else st
       | _ => st
       end.

(** [record_exit]. *)
Definition record_exit (now : Z) (st : t) (e : process.ExitStatus) : t :=
  let st := set_exit st (process.code e) (process.signal e) in
  if finished_at st =? 0 then set_finished st now else st.

(** [effective_exit_code]. *)
Definition effective_exit_code (st : t) : Z :=
  process.exit_code (process.MkExit (exit_code st) (exit_signal st)).

(** [init_is_alive]; [stat pid] is what [/proc/<pid>/stat] reads as. *)
Definition init_is_alive (stat : Z -> option string) (st : t) : bool :=
  if init_pid st <=? 0 then false
  else
    let start := if init_start_time st =? 0 then None else Some (init_start_time st) in
    process.process_alive (stat (init_pid st)) start.

(** [uptime_ms]. *)
Definition uptime_ms (now : Z) (st : t) : Z :=
  if started_at st =? 0 then 0
  else
    let e := if 0 <? finished_at st then finished_at st else now in
    saturating_sub e (started_at st).

Definition to_json (st : t) : Json :=
  set (set (set (set (set (set (set (set (set (set (set (set (set (set (set (set obj
    "id" (JStr (id st)))
    "name" (opt_json JStr (name st)))
    "status" (JStr (Status.as_str (status st))))
    "init_pid" (JInt (init_pid st)))
    "init_start_time" (int_of_u64 (init_start_time st)))
    "shim_pid" (JInt (shim_pid st)))
    "created_at" (int_of_u64 (created_at st)))
    "started_at" (int_of_u64 (started_at st)))
    "finished_at" (int_of_u64 (finished_at st)))
    "exit_code" (opt_json JInt (exit_code st)))
    "exit_signal" (opt_json JInt (exit_signal st)))
    "oom_killed" (JBool (oom_killed st)))
    "error" (opt_json JStr (error st)))
    "cgroup_path" (opt_json JStr (cgroup_path st)))
    "network" (NetworkState.to_json (network st)))
    "config" (ContainerConfig.to_json (config st)).

Definition from_json (j : Json) : result t :=
  cfg_json ← ok_or (Parse "state file has no config section") (get j "config");
  config ← ContainerConfig.from_json cfg_json;
  let i k := unwrap_or 0 (get_i64 j k) in
  let u k := unwrap_or 0 (get_u64 j k) in
  id ← ok_or (Parse "state file has no id") (get_str j "id");
  status ← Status.parse (unwrap_or "stopped" (get_str j "status"));
  Ok (Mk id (get_str j "name") status
        (wrap_s 32 (i "init_pid")) (u "init_start_time") (wrap_s 32 (i "shim_pid"))
        (u "created_at") (u "started_at") (u "finished_at")
        (wrap_s 32 <$> get_i64 j "exit_code") (wrap_s 32 <$> get_i64 j "exit_signal")
        (unwrap_or false (get_bool j "oom_killed"))
        (get_str j "error") (get_str j "cgroup_path")
        (match get j "network" with
         | Some n => NetworkState.from_json n
         | None => NetworkState.default
         end)
        config).

(** [network_mode]. *)
Definition network_mode (st : t) : NetworkMode.t :=
  unwrap_or NetworkMode.None (ok (NetworkMode.parse (NetworkState.mode (network st)))).
End ContainerState.
