(* ===== verification/StateFacts.v ===== *)
(** * Theorems about the container state machine and its file format *)
From S2P Require Import Prelude RustStr Num Utf8 F64 Error Json JsonFacts Util Process Net Caps Seccomp Config ConfigFacts State.
Import json.

Module machine.
Import ContainerState.

(** ** The machine *)

(** One successful [transition] to another status, at time [now]. *)
Inductive step : t -> t -> Prop :=
| step_transition now st next st' :
    0 < now -> status st <> next -> transition now st next = Ok st' -> step st st'.

(** What the time stamps say about the status. *)
Definition stamps_ok (st : t) : Prop :=
  match status st with
  | Status.Creating | Status.Created => started_at st = 0 /\ finished_at st = 0
  | Status.Running | Status.Paused | Status.Stopping => 0 < started_at st
  | Status.Stopped => 0 < finished_at st
  end /\ 0 <= started_at st /\ 0 <= finished_at st.

Lemma transition_cases now st next :
  transition now st next = Ok st /\ status st = next \/
  (exists msg, transition now st next = Err (InvalidState msg)) /\
    Status.can_transition_to (status st) next = false \/
  Status.can_transition_to (status st) next = true /\ status st <> next /\
    exists st', transition now st next = Ok st' /\ status st' = next.
Proof.
  unfold transition. destruct (decide (status st = next)); [auto|right].
  destruct (Status.can_transition_to (status st) next) eqn:E; cbn [negb]; [right|left; eauto].
  split_and!; [done..|]. eexists. split; [reflexivity|]. destruct next; cbn; repeat case_match; done.
Qed.

Lemma transition_stamps now st next st' :
  0 < now -> stamps_ok st -> transition now st next = Ok st' -> stamps_ok st'.
Proof.
  intros Hnow (Hs & H1 & H2). unfold transition, stamps_ok.
  destruct (decide (status st = next)) as [<-|]; [by intros [= <-]|].
  destruct (Status.can_transition_to (status st) next) eqn:E; cbn [negb]; [|done]. intros [= <-].
  destruct (status st), next; try discriminate E; cbn in *;
    destruct (started_at st =? 0) eqn:E1, (finished_at st =? 0) eqn:E2; bool_prop; cbn in *; lia.
Qed.

Lemma new_stamps now cfg : 0 < now -> stamps_ok (new now cfg).
Proof. intros. unfold stamps_ok. cbn. lia. Qed.

(** From its creation on, every state a container reaches by transitions
    has consistent time stamps (never running without a start time, never
    stopped without an end time), keeps its identity, configuration and
    creation time, and once stopped stays so. *)
Theorem reachable_invariant (now : Z) (cfg : ContainerConfig.t) (st : t) :
  0 < now -> rtc step (new now cfg) st ->
  stamps_ok st /\ id st = ContainerConfig.id cfg /\ config st = cfg /\ created_at st = now /\
  forall st', status st = Status.Stopped -> ~ step st st'.
Proof.
  intros Hnow Hr.
  assert (stamps_ok st /\ id st = ContainerConfig.id cfg /\ config st = cfg /\ created_at st = now)
    as (H1 & H2 & H3 & H4).
  { remember (new now cfg) as s0 eqn:E0.
    assert (stamps_ok s0 /\ id s0 = ContainerConfig.id cfg /\ config s0 = cfg /\ created_at s0 = now)
      as Hinit by (subst; split; [by apply new_stamps|done]).
    clear E0. induction Hr as [|s1 s2 s3 Hstep Hr IH]; [done|]. apply IH. clear IH Hr.
    destruct Hstep as [n s next s' Hn Hne Ht], Hinit as (I1 & I2 & I3 & I4).
    split; [by eapply transition_stamps|].
    unfold transition in Ht. rewrite decide_False in Ht by done.
    destruct (negb _); [done|]. injection Ht as <-. destruct next; cbn; repeat case_match; done. }
  split_and!; [done..|]. intros st' Hs Hstep. destruct Hstep as [n s next s' Hn Hne Ht].
  unfold transition in Ht. rewrite decide_False, Hs in Ht by done. by destruct next.
Qed.

Lemma reachable_invariant_witness :
  let st := set_finished (set_status (set_started (set_status (set_status
     (new 5 ContainerConfig.default) Status.Created) Status.Running) 7) Status.Stopped) 9 in
  stamps_ok st /\ id st = "" /\ config st = ContainerConfig.default /\ created_at st = 5 /\
  forall st', status st = Status.Stopped -> ~ step st st'.
Proof.
  apply (reachable_invariant 5 ContainerConfig.default); [lia|].
  eapply rtc_l; [apply (step_transition 6 _ Status.Created); [lia|discriminate|reflexivity]|].
  eapply rtc_l; [apply (step_transition 7 _ Status.Running); [lia|discriminate|reflexivity]|].
  eapply rtc_l; [apply (step_transition 9 _ Status.Stopped); [lia|discriminate|reflexivity]|].
  apply rtc_refl.
Defined.

(** [transition] does exactly what the table allows: staying is a no-op,
    a legal move sets the status, an illegal one is an [InvalidState] error;
    from every status a container can still be stopped. *)
Theorem transition_spec (now : Z) (st : t) (next : Status.t) :
  (transition now st next = Ok st /\ status st = next \/
   (exists msg, transition now st next = Err (InvalidState msg)) /\
     Status.can_transition_to (status st) next = false \/
   Status.can_transition_to (status st) next = true /\ status st <> next /\
     exists st', transition now st next = Ok st' /\ status st' = next) /\
  (exists st', transition now st Status.Stopped = Ok st' /\ status st' = Status.Stopped).
Proof.
  split; [apply transition_cases|].
  destruct (transition_cases now st Status.Stopped) as [[-> <-]|[[[msg H] E]|(_ & _ & H)]].
  - eauto.
  - unfold transition in H. destruct (decide (status st = Status.Stopped)); [done|].
    by destruct (status st).
  - done.
Qed.

(** The process a state file names is taken for alive only if it still is
    that process: a zombie, a missing process and a process that reuses the
    pid with another start time are all reported dead. *)
Theorem init_alive_same_process (stat : Z -> option string) (st : t) :
  init_is_alive stat st = true ->
  0 < init_pid st /\
  exists text ps, stat (init_pid st) = Some text /\
    process.parse_proc_stat text = Some (Ok ps) /\ process.state ps <> "Z" /\
    (init_start_time st <> 0 -> process.start_time ps = init_start_time st).
Proof.
  unfold init_is_alive, process.process_alive. destruct (init_pid st <=? 0) eqn:Ep; [done|].
  bool_prop. destruct (stat (init_pid st)) as [text|]; [|done].
  destruct (process.parse_proc_stat text) as [[ps|]|] eqn:Eps; [|done..].
  case_decide as Hz; [done|]. intros Ha. split; [done|]. exists text, ps. split_and!; try done.
  intros Hne. rewrite (proj2 (Z.eqb_neq _ _)) in Ha by done. by bool_prop.
Qed.

Definition sample_stat : string :=
  "77 (sh) S 1 77 77 0 -1 4194304 100 0 0 0 11 22 0 0 20 0 3 0 987654 0 0".

Lemma init_alive_same_process_witness :
  let st := set_init (new 5 ContainerConfig.default) 77 987654 in
  0 < init_pid st /\
  exists text ps, (fun _ : Z => Some sample_stat) (init_pid st) = Some text /\
    process.parse_proc_stat text = Some (Ok ps) /\ process.state ps <> "Z" /\
    (init_start_time st <> 0 -> process.start_time ps = init_start_time st).
Proof. apply (init_alive_same_process (fun _ => Some sample_stat)). vm_compute. reflexivity. Defined.

End machine.

(** ** The state file *)

Module network_state.
Import NetworkState.
Definition wf (n : t) : Prop :=
  utf8 (mode n) /\ opt_all utf8 (bridge n) /\ opt_all utf8 (host_veth n) /\
  opt_all utf8 (container_veth n) /\ opt_all utf8 (ip n) /\ in_u 8 (prefix n) /\
  opt_all utf8 (gateway n) /\ Forall port_mapping.wf (published n).

Lemma netstate_norm_json n : norm (to_json n) = to_json n.
Proof.
  unfold to_json. rewrite !norm_set by done.
  by rewrite !norm_opt_str, norm_arr by apply port_mapping.port_norm_json.
Qed.

Lemma netstate_to_json_ok n : wf n -> json_ok (to_json n) = true.
Proof.
  intros (H1 & H2 & H3 & H4 & H5 & H6 & H7 & H8). unfold to_json.
  json_ok_fields; try done; auto using json_ok_opt_str.
  - apply json_ok_int. unfold in_u, in_s in *. lia.
  - apply json_ok_arr. apply (Forall_impl _ _ _ H8). apply port_mapping.port_to_json_ok.
Qed.

Lemma published_back p : port_mapping.wf p -> published_entry (PortMapping.to_json p) = p.
Proof.
  intros (H1 & H2 & H3). unfold published_entry, get_u64, get_str, PortMapping.to_json. json_get.
  cbn [mbind option_bind as_u64 as_str unwrap_or]. pose proof H1 as [? _]. pose proof H2 as [? _].
  rewrite !(proj2 (Z.leb_le 0 _)) by done. cbn. rewrite !wrap_u_id by done. by destruct p.
Qed.

Lemma netstate_json_back n : wf n -> from_json (to_json n) = n.
Proof.
  intros (H1 & H2 & H3 & H4 & H5 & H6 & H7 & H8).
  unfold from_json, to_json, get_str, get_u64, get_array. json_get. rewrite !opt_str_back.
  cbn [mbind option_bind as_str as_array as_u64 unwrap_or].
  pose proof H6 as [? _]. rewrite (proj2 (Z.leb_le 0 _)) by done. cbn. rewrite wrap_u_id by done.
  rewrite <- list_fmap_compose. rewrite (list_fmap_ext _ id).
  - rewrite list_fmap_id. by destruct n.
  - intros i p Hp. apply published_back. by eapply Forall_lookup_1 in H8.
Qed.
End network_state.

Module container_state.
Import ContainerState.

(** What the types of the fields guarantee. *)
Definition typed (st : t) : Prop :=
  utf8 (id st) /\ opt_all utf8 (name st) /\ in_s 32 (init_pid st) /\ in_s 32 (shim_pid st) /\
  in_u 64 (init_start_time st) /\ in_u 64 (created_at st) /\ in_u 64 (started_at st) /\
  in_u 64 (finished_at st) /\ opt_all (in_s 32) (exit_code st) /\ opt_all (in_s 32) (exit_signal st) /\
  opt_all utf8 (error st) /\ opt_all utf8 (cgroup_path st) /\
  network_state.wf (network st) /\ container_config.typed (config st).

(** Every field survives: times, in milliseconds or clock ticks, are below
    [2^63], and so are the limits of the configuration. *)
Definition wf (st : t) : Prop :=
  utf8 (id st) /\ opt_all utf8 (name st) /\ in_s 32 (init_pid st) /\ in_s 32 (shim_pid st) /\
  size_ok (init_start_time st) /\ size_ok (created_at st) /\ size_ok (started_at st) /\
  size_ok (finished_at st) /\ opt_all (in_s 32) (exit_code st) /\ opt_all (in_s 32) (exit_signal st) /\
  opt_all utf8 (error st) /\ opt_all utf8 (cgroup_path st) /\
  network_state.wf (network st) /\ container_config.wf (config st).

(** The state as it reads back: the configuration loses [detach]. *)
Definition without_detach (st : t) : t :=
  Mk (id st) (name st) (status st) (init_pid st) (init_start_time st) (shim_pid st)
    (created_at st) (started_at st) (finished_at st) (exit_code st) (exit_signal st)
    (oom_killed st) (error st) (cgroup_path st) (network st)
    (container_config.without_detach (config st)).

(** A time that is written as a negative number reads back as 0. *)
Definition stored_time (v : Z) : Z := unwrap_or 0 (stored_u64 (Some v)).

Definition stored (st : t) : t :=
  Mk (id st) (name st) (status st) (init_pid st) (stored_time (init_start_time st)) (shim_pid st)
    (stored_time (created_at st)) (stored_time (started_at st)) (stored_time (finished_at st))
    (exit_code st) (exit_signal st) (oom_killed st) (error st) (cgroup_path st) (network st)
    (container_config.stored (config st)).

Lemma state_typed st : wf st -> typed st.
Proof.
  assert (forall v, size_ok v -> in_u 64 v) as Hs by (unfold size_ok, in_u; lia).
  intros (H1 & H2 & H3 & H4 & H5 & H6 & H7 & H8 & H9 & H10 & H11 & H12 & H13 & H14).
  split_and!; auto. by apply container_config.config_typed.
Qed.

Lemma stored_time_ok v : size_ok v -> stored_time v = v.
Proof. intros H. unfold stored_time. by rewrite stored_u64_ok. Qed.

Lemma state_stored st : wf st -> stored st = without_detach st.
Proof.
  intros (H1 & H2 & H3 & H4 & H5 & H6 & H7 & H8 & H9 & H10 & H11 & H12 & H13 & H14).
  unfold stored. by rewrite !stored_time_ok, container_config.config_stored.
Qed.

Lemma norm_opt_int o : norm (opt_json JInt o) = opt_json JInt o.
Proof. by destruct o. Qed.

Lemma in_s_32_64 i : in_s 32 i -> in_s 64 i.
Proof. unfold in_s. lia. Qed.

Lemma json_ok_opt_int o : opt_all (in_s 32) o -> json_ok (opt_json JInt o) = true.
Proof. destruct o; [|done]. intros H%in_s_32_64. by apply json_ok_int. Qed.

Lemma opt_int_back o : opt_all (in_s 32) o ->
  wrap_s 32 <$> (v ← Some (opt_json JInt o); as_i64 v) = o.
Proof. destruct o; [|done]. cbn. intros H. by rewrite wrap_s_id. Qed.

Lemma u64_back v : in_u 64 v -> as_u64 (int_of_u64 v) = stored_u64 (Some v).
Proof. intros H. by apply (typed_u64_back (Some v)). Qed.

Lemma json_ok_size v : json_ok (int_of_u64 v) = true.
Proof. apply (json_ok_u64 (Some v)). Qed.

Lemma state_to_json_ok st : typed st -> json_ok (to_json st) = true.
Proof.
  intros (H1 & H2 & H3 & H4 & H5 & H6 & H7 & H8 & H9 & H10 & H11 & H12 & H13 & H14). unfold to_json.
  json_ok_fields; try done; auto using json_ok_opt_str, json_ok_int, in_s_32_64, json_ok_size,
    json_ok_opt_int, network_state.netstate_to_json_ok, container_config.config_to_json_ok.
  by destruct (status st).
Qed.

Lemma state_json_back st : typed st -> from_json (norm (to_json st)) = Ok (stored st).
Proof.
  intros (H1 & H2 & H3 & H4 & H5 & H6 & H7 & H8 & H9 & H10 & H11 & H12 & H13 & H14).
  unfold to_json. rewrite !norm_set by done. rewrite !norm_opt_str, !norm_opt_int, network_state.netstate_norm_json.
  unfold from_json, get_str, get_u64, get_i64, get_bool. json_get.
  cbn [ok_or mbind result_bind]. rewrite container_config.config_json_back by done.
  cbn [ok_or mbind result_bind option_bind as_str norm].
  change (unwrap_or ?d (Some ?x)) with x.
  rewrite Status.status_parse_as_str. cbn [mbind result_bind].
  change (norm (int_of_u64 ?v)) with (int_of_u64 v). rewrite !u64_back by done.
  pose proof (opt_int_back _ H9) as E9. pose proof (opt_int_back _ H10) as E10.
  pose proof (opt_str_back (name st)) as En. pose proof (opt_str_back (error st)) as Ee.
  pose proof (opt_str_back (cgroup_path st)) as Ec.
  cbn [mbind option_bind] in E9, E10, En, Ee, Ec. rewrite E9, E10, En, Ee, Ec.
  cbn [mbind option_bind as_i64 as_bool]. change (unwrap_or ?d (Some ?x)) with x.
  rewrite network_state.netstate_json_back by done.
  rewrite !wrap_s_id by (done || lia). done.
Qed.


Definition sample : t :=
  Mk "web-1" (Some "web") Status.Running 4242 987654 4241 1700000000000 1700000000100 0
    None None false None (Some "/sys/fs/cgroup/myrun/web-1")
    (NetworkState.Mk "bridge" (Some "myrun0") (Some "mrv01234567") (Some "mrp01234567")
       (Some "10.87.0.2") 24 (Some "10.87.0.1") [PortMapping.Mk 8080 80 "tcp"])
    container_config.sample.

Lemma state_sample_wf : wf sample.
Proof.
  unfold wf, network_state.wf, port_mapping.wf, size_ok, utf8, in_u, in_s.
  repeat match goal with |- _ /\ _ => split end;
    lazymatch goal with
    | |- container_config.wf _ =>
        change (config sample) with container_config.sample; exact container_config.config_sample_wf
    | |- opt_all _ _ => vm_compute; first [exact I | reflexivity]
    | |- Forall _ _ => apply (bool_decide_unpack _); vm_compute; exact I
    | |- _ = _ => reflexivity
    | _ => vm_compute; first [reflexivity | discriminate]
    end.
Qed.

End container_state.
