(* ===== verification/Fs.v ===== *)
(** * The file system as the program uses it

    [std::path] and [std::fs] on a tree of directories and regular files, and
    the file helpers of [src/util/mod.rs] on top of them.

    Every call that can fail consumes the next element of a plan of faults, so
    a theorem about all worlds covers every combination of I/O errors, partial
    writes included; every change is appended to a history, whose members are
    the states another process can observe. *)
From S2P Require Import Prelude RustStr Num Utf8 Error.

(** ** Paths *)

Module path.

(** The parts before and after the last separator. *)
Fixpoint rsplit (s : string) : option (string * string) :=
  match s with
  | EmptyString => None
  | String a s' =>
      match rsplit s' with
      | Some (l, r) => Some (String a l, r)
      | None => if ascii_dec a "/" then Some ("", s') else None
      end
  end.

(** [Path::join]: an absolute right-hand side replaces the left one. *)
Definition join (a b : string) : string :=
  if starts_with "/" b then b
  else if str_is_empty a then b
  else if ends_with "/" a then a +:+ b
  else a +:+ "/" +:+ b.

#[global] Arguments join _ _ : simpl never.

(** [Path::parent], of a path without a trailing separator. *)
Definition parent (p : string) : option string :=
  match rsplit p with
  | Some ("", "") => None
  | Some ("", _) => Some "/"
  | Some (l, _) => Some l
  | None => if str_is_empty p then None else Some ""
  end.

(** [Path::file_name], of a path without a trailing separator. *)
Definition file_name (p : string) : option string :=
  let n := match rsplit p with Some (_, r) => r | None => p end in
  if str_is_empty n || bool_decide (n = "..") || bool_decide (n = ".") then None else Some n.

(** The directories above a path, innermost first. *)
Fixpoint ancestors (fuel : nat) (p : string) : list string :=
  match fuel with
  | O => []
  | S f => match parent p with Some d => d :: ancestors f d | None => [] end
  end.

Lemma rsplit_none n : contains_char "/" n = false -> rsplit n = None.
Proof.
  induction n as [|a n IH]; cbn; [done|]. destruct (ascii_dec a "/"); [done|].
  intros H. by rewrite IH.
Qed.

Lemma rsplit_app d n : contains_char "/" n = false -> rsplit (d +:+ "/" +:+ n) = Some (d, n).
Proof.
  intros Hn. induction d as [|a d IH]; cbn.
  - by rewrite rsplit_none.
  - cbn in IH. by rewrite IH.
Qed.

(** A directory one can join a name to, and a plain name. *)
Definition dir_ok (d : string) : Prop := d <> "" /\ ends_with "/" d = false.
Definition name_ok (n : string) : Prop :=
  n <> "" /\ n <> "." /\ n <> ".." /\ contains_char "/" n = false.

Lemma starts_slash n : contains_char "/" n = false -> starts_with "/" n = false.
Proof.
  destruct n as [|a n]; [done|]. unfold starts_with. cbn [contains_char strip_prefix].
  destruct (ascii_dec a "/"); [done|]. by destruct (ascii_dec "/" a).
Qed.

Lemma join_eq d n : dir_ok d -> name_ok n -> join d n = d +:+ "/" +:+ n.
Proof.
  intros [Hd He] (H1 & H2 & H3 & H4). unfold join. rewrite starts_slash by done.
  destruct d; [done|]. by rewrite He.
Qed.

Lemma parent_join d n : dir_ok d -> name_ok n -> parent (join d n) = Some d.
Proof.
  intros Hd Hn. rewrite join_eq by done. unfold parent. rewrite rsplit_app by apply Hn.
  destruct Hd as [Hd _]. by destruct d.
Qed.

Lemma file_name_join d n : dir_ok d -> name_ok n -> file_name (join d n) = Some n.
Proof.
  intros Hd Hn. rewrite join_eq by done. unfold file_name. rewrite rsplit_app by apply Hn.
  destruct Hn as (H1 & H2 & H3 & H4). rewrite !bool_decide_eq_false_2 by done. by destruct n.
Qed.

Lemma app_inv_l (a b c : string) : a +:+ b = a +:+ c -> b = c.
Proof. induction a as [|x a IH]; cbn; [done|]. intros [=]. auto. Qed.

Lemma join_inj d n n' : dir_ok d -> name_ok n -> name_ok n' -> join d n = join d n' -> n = n'.
Proof.
  intros Hd Hn Hn'. rewrite !join_eq by done. intros H%app_inv_l. by injection H.
Qed.

End path.

(** ** The world *)

(** A tree: the contents of the regular files and the directories. *)
Record Fs := MkFs { files : gmap string string; dirs : gset string }.

(** The next call succeeds, or fails with an [errno] after [part] bytes (of a
    write) or entries (of a removal). *)
Inductive fault := FNone | FErr (errno : Z) (part : nat).

Record World := MkWorld {
  fs : Fs;
  plan : list fault;          (** what the coming calls do; success once it is empty *)
  hist : list Fs;             (** the states seen so far, oldest first *)
  strerror : Z -> string      (** the C library's messages *)
}.

(** [std::io::Error]: with or without an [errno]. *)
Inductive io_error := Os (errno : Z) | Other (msg : string).

(** A computation that changes the world, and either gives a value or fails. *)
Definition IO (A : Type) : Type := World -> (io_error + A) * World.
(** The same with the program's own error type. *)
Definition M (A : Type) : Type := World -> result A * World.

#[global] Instance M_ret : MRet M := fun A a w => (Ok a, w).
#[global] Instance M_bind : MBind M := fun A B f m w =>
  match m w with (Ok a, w') => f a w' | (Err e, w') => (Err e, w') end.

Definition fail {A : Type} (e : Error) : M A := fun w => (Err e, w).
Definition lift {A : Type} (r : result A) : M A := fun w => (r, w).
(** [let _ = m]. *)
Definition ignore {A : Type} (m : M A) : M unit := fun w => let '(_, w') := m w in (Ok tt, w').
(** [match m { Ok a => .., Err e => .. }]. *)
Definition try {A : Type} (m : M A) : M (result A) := fun w => let '(r, w') := m w in (Ok r, w').

Definition ENOENT : Z := 2.
Definition EEXIST : Z := 17.
Definition ENOTDIR : Z := 20.
Definition EISDIR : Z := 21.

Definition next_fault (w : World) : fault * World :=
  match plan w with
  | [] => (FNone, w)
  | f :: rest => (f, MkWorld (fs w) rest (hist w) (strerror w))
  end.

Definition set_fs (f : Fs) (w : World) : World :=
  MkWorld f (plan w) (hist w ++ [f]) (strerror w).

(** Text of an [io::Error]. *)
Definition io_str (w : World) (e : io_error) : string :=
  match e with
  | Os n => strerror w n +:+ " (os error " +:+ show_dec n +:+ ")"
  | Other m => m
  end.

(** ** [std::fs] *)

Definition in_dir (f : Fs) (p : string) : bool :=
  match path.parent p with
  | Some d => bool_decide (d = "") || bool_decide (d ∈ dirs f)
  | None => true
  end.

Definition path_exists (f : Fs) (p : string) : bool :=
  bool_decide (p ∈ dirs f) || match files f !! p with Some _ => true | None => false end.

Definition fs_read_to_string (p : string) : IO string := fun w =>
  match next_fault w with
  | (FErr e _, w') => (inl (Os e), w')
  | (FNone, w') =>
      match files (fs w') !! p with
      | Some c => if valid_utf8 c then (inr c, w')
                  else (inl (Other "stream did not contain valid UTF-8"), w')
      | None => (inl (Os (if bool_decide (p ∈ dirs (fs w')) then EISDIR else ENOENT)), w')
      end
  end.

(** [File::create]: creates or truncates. *)
Definition fs_create (p : string) : IO unit := fun w =>
  match next_fault w with
  | (FErr e _, w') => (inl (Os e), w')
  | (FNone, w') =>
      let f := fs w' in
      if bool_decide (p ∈ dirs f) then (inl (Os EISDIR), w')
      else if negb (in_dir f p) then (inl (Os ENOENT), w')
      else (inr tt, set_fs (MkFs (<[p := ""]> (files f)) (dirs f)) w')
  end.

(** [write_all] on the file created last at [p]. *)
Definition fs_write_all (p data : string) : IO unit := fun w =>
  let put d w' := let f := fs w' in
    set_fs (MkFs (<[p := default "" (files f !! p) +:+ d]> (files f)) (dirs f)) w' in
  match next_fault w with
  | (FErr e n, w') => (inl (Os e), put (String.substring 0 n data) w')
  | (FNone, w') => (inr tt, put data w')
  end.

Definition fs_sync_all : IO unit := fun w =>
  match next_fault w with (FErr e _, w') => (inl (Os e), w') | (FNone, w') => (inr tt, w') end.

Definition fs_rename (a b : string) : IO unit := fun w =>
  match next_fault w with
  | (FErr e _, w') => (inl (Os e), w')
  | (FNone, w') =>
      let f := fs w' in
      match files f !! a with
      | None => (inl (Os ENOENT), w')
      | Some c =>
          if bool_decide (b ∈ dirs f) then (inl (Os EISDIR), w')
          else if negb (in_dir f b) then (inl (Os ENOENT), w')
          else (inr tt, set_fs (MkFs (<[b := c]> (delete a (files f))) (dirs f)) w')
      end
  end.

Definition fs_remove_file (p : string) : IO unit := fun w =>
  match next_fault w with
  | (FErr e _, w') => (inl (Os e), w')
  | (FNone, w') =>
      let f := fs w' in
      match files f !! p with
      | None => (inl (Os ENOENT), w')
      | Some _ => (inr tt, set_fs (MkFs (delete p (files f)) (dirs f)) w')
      end
  end.

Definition fs_create_dir_all (p : string) : IO unit := fun w =>
  match next_fault w with
  | (FErr e _, w') => (inl (Os e), w')
  | (FNone, w') =>
      let f := fs w' in
      let above := path.ancestors (String.length p) p in
      if bool_decide (p ∈ dirs f) then (inr tt, w')
      else match files f !! p with
           | Some _ => (inl (Os EEXIST), w')
           | None =>
               if existsb (fun d => match files f !! d with Some _ => true | None => false end) above
               then (inl (Os ENOTDIR), w')
               else (inr tt, set_fs (MkFs (files f) ({[p]} ∪ list_to_set above ∪ dirs f)) w')
           end
  end.

(** Is [p] the directory [d] or below it? *)
Definition below (d p : string) : bool := bool_decide (p = d) || starts_with (d +:+ "/") p.

(** [remove_dir_all]; a failing one may have removed some files. *)
Definition fs_remove_dir_all (d : string) : IO unit := fun w =>
  match next_fault w with
  | (FErr e n, w') =>
      let f := fs w' in
      let victims := take n (filter (fun p => below d p = true) (map_to_list (files f)).*1) in
      (inl (Os e), set_fs (MkFs (foldr delete (files f) victims) (dirs f)) w')
  | (FNone, w') =>
      let f := fs w' in
      if bool_decide (d ∈ dirs f) then
        (inr tt, set_fs (MkFs (filter (fun kv => below d kv.1 = false) (files f))
                           (filter (fun p => below d p = false) (dirs f))) w')
      else (inl (Os (match files f !! d with Some _ => ENOTDIR | None => ENOENT end)), w')
  end.

(** [read_dir]: the names of the entries, in no particular order. *)
Definition entries (f : Fs) (d : string) : list string :=
  omap (fun p => match path.parent p with
                 | Some d' => if bool_decide (d' = d) then path.file_name p else None
                 | None => None
                 end)
    ((map_to_list (files f)).*1 ++ elements (dirs f)).

Definition fs_read_dir (d : string) : IO (list string) := fun w =>
  match next_fault w with
  | (FErr e _, w') => (inl (Os e), w')
  | (FNone, w') =>
      if bool_decide (d ∈ dirs (fs w')) then (inr (entries (fs w') d), w')
      else (inl (Os (match files (fs w') !! d with Some _ => ENOTDIR | None => ENOENT end)), w')
  end.

(** [m.map_err(f)]: the closure sees the world for the message's text. *)
Definition io_err {A : Type} (f : World -> io_error -> Error) (m : IO A) : M A := fun w =>
  match m w with (inr a, w') => (Ok a, w') | (inl e, w') => (Err (f w' e), w') end.

(** [impl From<std::io::Error> for Error], which [?] applies. *)
Definition from_io (w : World) (e : io_error) : Error :=
  match e with Os n => Syscall "io" n (io_str w e) | Other m => Io m end.

(** The closures of [read_to_string], [write_file] and [mkdir_p]. *)
Definition syscall_or_io (call p : string) (w : World) (e : io_error) : Error :=
  match e with Os n => Syscall call n p | Other m => Io (p +:+ ": " +:+ m) end.

(** ** The helpers of [src/util/mod.rs] *)

Module ufs.

Definition read_to_string (p : string) : M string :=
  io_err (syscall_or_io "read" p) (fs_read_to_string p).

Definition read_trimmed (p : string) : M string := s ← read_to_string p; mret (trim s).

(** [fs::write] is [File::create] and [write_all]. *)
Definition write_file (p data : string) : M unit :=
  _ ← io_err (syscall_or_io "write" p) (fs_create p);
  io_err (syscall_or_io "write" p) (fs_write_all p data).

Definition tmp_path (pid : Z) (p : string) : string :=
  let dir := default "." (path.parent p) in
  path.join dir ("." +:+ default "f" (path.file_name p) +:+ ".tmp." +:+ show_dec pid).

(** The [rename] of [write_atomic] and what its [map_err] does. *)
Definition rename_or_clean (tmp p : string) : M unit := fun w =>
  match fs_rename tmp p w with
  | (inr _, w') => (Ok tt, w')
  | (inl e, w') =>
      let '(_, w'') := fs_remove_file tmp w' in
      (Err (Io ("rename " +:+ tmp +:+ " -> " +:+ p +:+ ": " +:+ io_str w' e)), w'')
  end.

Definition write_atomic (pid : Z) (p data : string) : M unit :=
  let tmp := tmp_path pid p in
  _ ← io_err from_io (fs_create tmp);
  _ ← io_err from_io (fs_write_all tmp data);
  _ ← io_err from_io fs_sync_all;
  rename_or_clean tmp p.

Definition mkdir_p (p : string) : M unit :=
  io_err (syscall_or_io "mkdir" p) (fs_create_dir_all p).

Definition exists_ (p : string) : M bool := fun w => (Ok (path_exists (fs w) p), w).

End ufs.

(** ** [FileLock] of [src/sys/mod.rs] *)

Definition sys_flock : IO unit := fun w =>
  match next_fault w with (FErr e _, w') => (inl (Os e), w') | (FNone, w') => (inr tt, w') end.

(** [FileLock::acquire]: [open(2)] with [O_CREAT], then
    [flock(2)]; what the caller does afterwards runs with the lock held.  The
    real [flock(2)] with [LOCK_EX] blocks until another holder lets go; here
    the call stands for the moment it returns, granted or with an error, and
    the time before that is no part of the model. *)
Definition flock_acquire (p : string) : M unit :=
  _ ← io_err (fun _ e => match e with Os n => Syscall "open" n p | Other m => Io m end)
        (fun w => match next_fault w with
                  | (FErr e _, w') => (inl (Os e), w')
                  | (FNone, w') =>
                      let f := fs w' in
                      match files f !! p with
                      | Some _ => (inr tt, w')
                      | None =>
                          if bool_decide (p ∈ dirs f) then (inl (Os EISDIR), w')
                          else if negb (in_dir f p) then (inl (Os ENOENT), w')
                          else (inr tt, set_fs (MkFs (<[p := ""]> (files f)) (dirs f)) w')
                      end
                  end);
  io_err (fun _ e => match e with Os n => Syscall "flock" n p | Other m => Io m end) sys_flock.
