(* ===== verification/FsFacts.v ===== *)
(** * Theorems about the file helpers: an atomic write is all or nothing for
    every observer, whatever call fails *)
From S2P Require Import Prelude RustStr Num Utf8 Error Fs.

(** The world after a call that changed nothing but the plan. *)
Definition same_fs (w w' : World) : Prop :=
  fs w' = fs w /\ hist w' = hist w /\ strerror w' = strerror w.

(** The world after a call whose only change is the new tree [f]. *)
Definition one_step (f : Fs) (w w' : World) : Prop :=
  fs w' = f /\ hist w' = hist w ++ [f] /\ strerror w' = strerror w.

Lemma next_fault_same w x w' : next_fault w = (x, w') -> same_fs w w'.
Proof. unfold next_fault. destruct (plan w); intros [= <- <-]; done. Qed.

Lemma same_fs_trans w1 w2 w3 : same_fs w1 w2 -> same_fs w2 w3 -> same_fs w1 w3.
Proof. intros (E1 & E2 & E3) (E4 & E5 & E6). split_and!; congruence. Qed.

Lemma set_fs_step f w : one_step f w (set_fs f w).
Proof. done. Qed.

Lemma same_one f w w1 w2 : same_fs w w1 -> one_step f w1 w2 -> one_step f w w2.
Proof. intros (H1 & H2 & H3) (E1 & E2 & E3). unfold one_step. by rewrite E1, E2, E3, H2, H3. Qed.

(** What each call does. *)
Lemma fs_create_spec p w :
  match fs_create p w with
  | (inl _, w') => same_fs w w'
  | (inr _, w') => one_step (MkFs (<[p := ""]> (files (fs w))) (dirs (fs w))) w w'
  end.
Proof.
  unfold fs_create. destruct (next_fault w) as [[|e n] w1] eqn:E; apply next_fault_same in E; [|done].
  pose proof E as (E1 & _). rewrite <- E1. repeat case_match; simplify_eq; try done.
  eapply same_one; [done|apply set_fs_step].
Qed.

Lemma fs_write_all_spec p d w :
  match fs_write_all p d w with
  | (inl _, w') => exists d', one_step (MkFs (<[p := d']> (files (fs w))) (dirs (fs w))) w w'
  | (inr _, w') => one_step (MkFs (<[p := default "" (files (fs w) !! p) +:+ d]> (files (fs w)))
                               (dirs (fs w))) w w'
  end.
Proof.
  unfold fs_write_all. destruct (next_fault w) as [[|e n] w1] eqn:E; apply next_fault_same in E;
    pose proof E as (E1 & _); rewrite <- E1; [|eexists]; (eapply same_one; [done|apply set_fs_step]).
Qed.

Lemma fs_sync_all_spec w : same_fs w (fs_sync_all w).2.
Proof.
  unfold fs_sync_all. destruct (next_fault w) as [[|e n] w1] eqn:E; by apply next_fault_same in E.
Qed.

Lemma fs_rename_spec a b w :
  match fs_rename a b w with
  | (inl _, w') => same_fs w w'
  | (inr _, w') => exists c, files (fs w) !! a = Some c /\
      one_step (MkFs (<[b := c]> (delete a (files (fs w)))) (dirs (fs w))) w w'
  end.
Proof.
  unfold fs_rename. destruct (next_fault w) as [[|e n] w1] eqn:E; apply next_fault_same in E; [|done].
  pose proof E as (E1 & _). rewrite <- E1. repeat case_match; simplify_eq; try done.
  eexists. split; [done|]. eapply same_one; [done|apply set_fs_step].
Qed.

Lemma fs_remove_file_spec p w :
  same_fs w (fs_remove_file p w).2 \/
  one_step (MkFs (delete p (files (fs w))) (dirs (fs w))) w (fs_remove_file p w).2.
Proof.
  unfold fs_remove_file. destruct (next_fault w) as [[|e n] w1] eqn:E; apply next_fault_same in E;
    [|by left]. pose proof E as (E1 & _). rewrite <- E1. case_match; [|by left].
  right. eapply same_one; [done|apply set_fs_step].
Qed.

(** [reaches P w w']: every tree seen between [w] and [w'] satisfies [P], the
    last one included. *)
Definition reaches (P : Fs -> Prop) (w w' : World) : Prop :=
  (exists new, hist w' = hist w ++ new /\ Forall P new) /\ P (fs w') /\ strerror w' = strerror w.

Lemma reaches_refl (P : Fs -> Prop) w : P (fs w) -> reaches P w w.
Proof. intros H. split; [exists []; by rewrite (right_id_L [] (++))|done]. Qed.

Lemma reaches_same P w w1 w2 : reaches P w w1 -> same_fs w1 w2 -> reaches P w w2.
Proof.
  intros ((new & H1 & H2) & H3 & H4) (E1 & E2 & E3). split; [|by rewrite E1, E3].
  exists new. by rewrite E2.
Qed.

Lemma reaches_step (P : Fs -> Prop) f w w1 w2 :
  reaches P w w1 -> P f -> one_step f w1 w2 -> reaches P w w2.
Proof.
  intros ((new & H1 & H2) & H3 & H4) Hf (E1 & E2 & E3). split; [|by rewrite E1, E3].
  exists (new ++ [f]). rewrite E2, H1, (assoc_L (++)). split; [done|].
  apply Forall_app. split; [done|]. by constructor.
Qed.

Lemma reaches_impl (P Q : Fs -> Prop) w w' :
  (forall f, P f -> Q f) -> reaches P w w' -> reaches Q w w'.
Proof.
  intros HPQ ((new & H1 & H2) & H3 & H4). split; [|auto]. exists new. split; [done|].
  by apply (Forall_impl P).
Qed.

Lemma reaches_trans (P : Fs -> Prop) w w1 w2 :
  reaches P w w1 -> reaches P w1 w2 -> reaches P w w2.
Proof.
  intros ((n1 & H1 & F1) & _ & S1) ((n2 & H2 & F2) & HP & S2). split; [|split; congruence].
  exists (n1 ++ n2). rewrite H2, H1, (assoc_L (++)). split; [done|]. by apply Forall_app.
Qed.

Module write_atomic.
Import ufs.

(** What an observer may see while [data] is written to [p] through [tmp]. *)
Definition visible (f0 : Fs) (p tmp data : string) (f : Fs) : Prop :=
  (files f !! p = files f0 !! p \/ files f !! p = Some data) /\
  (forall q, q <> p -> q <> tmp -> files f !! q = files f0 !! q) /\ dirs f = dirs f0.

Section Spec.
Context (pid : Z) (p data tmp : string) (Etmp : tmp_path pid p = tmp) (Htmp : tmp <> p).

Lemma visible_tmp f0 f c :
  visible f0 p tmp data f -> visible f0 p tmp data (MkFs (<[tmp := c]> (files f)) (dirs f)).
Proof.
  intros (H1 & H2 & H3). split_and!; cbn; [|intros q Hq Hq'|done];
    rewrite lookup_insert_ne by congruence; auto.
Qed.

Lemma visible_clean f0 f :
  visible f0 p tmp data f -> visible f0 p tmp data (MkFs (delete tmp (files f)) (dirs f)).
Proof.
  intros (H1 & H2 & H3). split_and!; cbn; [|intros q Hq Hq'|done];
    rewrite lookup_delete_ne by congruence; auto.
Qed.

Lemma visible_done f0 f :
  visible f0 p tmp data f ->
  visible f0 p tmp data (MkFs (<[p := data]> (delete tmp (files f))) (dirs f)).
Proof.
  intros (H1 & H2 & H3). split_and!; cbn; [right; by rewrite lookup_insert_eq|intros q Hq Hq'|done].
  rewrite lookup_insert_ne, lookup_delete_ne by congruence. auto.
Qed.

Lemma write_tmp_spec w r w' :
  (_ ← io_err from_io (fs_create tmp); io_err from_io (fs_write_all tmp data)) w = (r, w') ->
  reaches (visible (fs w) p tmp data) w w' /\ files (fs w') !! p = files (fs w) !! p /\
  (r = Ok tt -> files (fs w') !! tmp = Some data).
Proof.
  cbn. unfold mbind, M_bind, io_err.
  assert (visible (fs w) p tmp data (fs w)) as V0 by (split_and!; auto).
  pose proof (fs_create_spec tmp w) as Hc. destruct (fs_create tmp w) as [[e|[]] w1].
  { intros [= <- <-]. pose proof Hc as (E & _). split_and!; [|by rewrite E|done].
    eapply reaches_same; [by apply reaches_refl|done]. }
  pose proof Hc as (E1 & _ & _).
  assert (reaches (visible (fs w) p tmp data) w w1) as R1.
  { eapply reaches_step; [by apply reaches_refl| |exact Hc]. by apply visible_tmp. }
  assert (files (fs w1) !! p = files (fs w) !! p) as P1
    by (rewrite E1; cbn; by rewrite lookup_insert_ne by congruence).
  pose proof (fs_write_all_spec tmp data w1) as Hw.
  destruct (fs_write_all tmp data w1) as [[e|[]] w2]; intros [= <- <-].
  - destruct Hw as [d' Hw]. pose proof Hw as (E2 & _). split_and!; [| |done].
    + eapply reaches_step; [exact R1| |exact Hw]. apply visible_tmp. apply R1.
    + rewrite E2. cbn. by rewrite lookup_insert_ne by congruence.
  - pose proof Hw as (E2 & _). split_and!.
    + eapply reaches_step; [exact R1| |exact Hw]. apply visible_tmp. apply R1.
    + rewrite E2. cbn. by rewrite lookup_insert_ne by congruence.
    + intros _. rewrite E2. cbn. rewrite lookup_insert_eq. by rewrite E1; cbn; rewrite lookup_insert_eq.
Qed.

Lemma write_atomic_spec w r w' :
  write_atomic pid p data w = (r, w') ->
  reaches (visible (fs w) p tmp data) w w' /\
  match r with
  | Ok _ => files (fs w') !! p = Some data /\ files (fs w') !! tmp = None
  | Err _ => files (fs w') !! p = files (fs w) !! p
  end.
Proof.
  unfold write_atomic. rewrite Etmp. clear Etmp. intros H.
  assert (exists r1 w1, (_ ← io_err from_io (fs_create tmp); io_err from_io (fs_write_all tmp data)) w
    = (r1, w1) /\ match r1 with
      | Ok _ => (_ ← io_err from_io fs_sync_all; rename_or_clean tmp p) w1 = (r, w')
      | Err e => r = Err e /\ w' = w1 end) as (r1 & w1 & Hw & Hrest).
  { cbn in *. unfold mbind, M_bind in *. destruct (io_err from_io (fs_create tmp) w) as [[u|e] w1].
    - destruct (io_err from_io (fs_write_all tmp data) w1) as [[u2|e] w2] eqn:E2; eexists _, _;
        (split; [reflexivity|]); [done|]. by simplify_eq.
    - eexists _, _. split; [reflexivity|]. by simplify_eq. }
  destruct (write_tmp_spec _ _ _ Hw) as (R1 & P1 & T1).
  destruct r1 as [[]|e]; [|by destruct Hrest as [-> ->]].
  cbn in Hrest. unfold mbind, M_bind, io_err in Hrest.
  pose proof (fs_sync_all_spec w1) as Hs. destruct (fs_sync_all w1) as [[e|[]] w2]; cbn in Hs.
  { simplify_eq. split; [by eapply reaches_same|]. destruct Hs as (-> & _). done. }
  pose proof (reaches_same _ _ _ _ R1 Hs) as R2. pose proof Hs as (E2 & _ & _).
  unfold rename_or_clean in Hrest. pose proof (fs_rename_spec tmp p w2) as Hr.
  destruct (fs_rename tmp p w2) as [[e|[]] w3].
  - destruct (fs_remove_file tmp w3) as [x w4] eqn:Erm. simplify_eq.
    pose proof (reaches_same _ _ _ _ R2 Hr) as R3. pose proof Hr as (E3 & _ & _).
    pose proof (fs_remove_file_spec tmp w3) as Hd. rewrite Erm in Hd. cbn in Hd.
    destruct Hd as [Hd|Hd]; pose proof Hd as (E4 & _ & _).
    + split; [by eapply reaches_same|]. by rewrite E4, E3, E2.
    + split; [eapply reaches_step; [exact R3| |exact Hd]; apply visible_clean, R3|].
      rewrite E4. cbn. rewrite lookup_delete_ne by congruence. by rewrite E3, E2.
  - simplify_eq. destruct Hr as (c & Hc & Hr). pose proof Hr as (E3 & _ & _).
    rewrite E2, (T1 eq_refl) in Hc. injection Hc as <-. split.
    + eapply reaches_step; [exact R2| |exact Hr]. apply visible_done, R2.
    + rewrite E3. cbn. rewrite lookup_insert_eq, lookup_insert_ne by congruence.
      by rewrite lookup_delete_eq.
Qed.

End Spec.

(** ** For a plain name in a directory *)

Lemma show_dec_no_slash n : contains_char "/" (show_dec n) = false.
Proof.
  unfold show_dec. destruct (n <? 0) eqn:E; bool_prop; cbn.
  - apply (str_all_not_contains is_ascii_digit); [done|]. apply show_u_dec. lia.
  - apply (str_all_not_contains is_ascii_digit); [done|]. apply show_u_dec. lia.
Qed.

Definition tmp_name (pid : Z) (n : string) : string := "." +:+ n +:+ ".tmp." +:+ show_dec pid.

Lemma tmp_name_ok pid n : path.name_ok n -> path.name_ok (tmp_name pid n).
Proof.
  intros (H1 & H2 & H3 & H4). unfold tmp_name.
  assert (3 < String.length ("." +:+ n +:+ ".tmp." +:+ show_dec pid))%nat as Hl
    by (cbn; rewrite !str_length_app; cbn; lia).
  split_and!; try (intros E; rewrite E in Hl; cbn in Hl; lia).
  cbn. rewrite !contains_char_app, H4. cbn. apply show_dec_no_slash.
Qed.

Lemma tmp_path_join pid d n : path.dir_ok d -> path.name_ok n ->
  tmp_path pid (path.join d n) = path.join d (tmp_name pid n).
Proof.
  intros Hd Hn. unfold tmp_path. by rewrite path.parent_join, path.file_name_join.
Qed.

Lemma tmp_path_ne pid d n : path.dir_ok d -> path.name_ok n ->
  tmp_path pid (path.join d n) <> path.join d n.
Proof.
  intros Hd Hn. rewrite tmp_path_join by done. intros E.
  apply path.join_inj in E; [|done|by apply tmp_name_ok|done].
  apply (f_equal String.length) in E. unfold tmp_name in E. cbn in E.
  rewrite !str_length_app in E. cbn in E. lia.
Qed.

Lemma no_fault w : plan w = [] -> next_fault w = (FNone, w).
Proof. intros H. unfold next_fault. by rewrite H. Qed.

Lemma write_atomic_succeeds pid d n data w :
  path.dir_ok d -> path.name_ok n -> plan w = [] -> d ∈ dirs (fs w) ->
  path.join d n ∉ dirs (fs w) -> tmp_path pid (path.join d n) ∉ dirs (fs w) ->
  (write_atomic pid (path.join d n) data w).1 = Ok tt.
Proof.
  intros Hd Hn Hp Hin Hf Ht.
  assert (forall m, path.name_ok m -> forall f, dirs f = dirs (fs w) -> in_dir f (path.join d m) = true)
    as Hin'.
  { intros m Hm f Ef. unfold in_dir. rewrite path.parent_join by done.
    rewrite Ef, (bool_decide_eq_true_2 (d ∈ _)) by done. by rewrite orb_true_r. }
  unfold write_atomic. set (tmp := tmp_path pid (path.join d n)) in *.
  assert (tmp = path.join d (tmp_name pid n)) as Et by (by apply tmp_path_join).
  clearbody tmp. cbn. unfold mbind, M_bind, io_err, fs_create. rewrite no_fault by done.
  rewrite bool_decide_eq_false_2 by done.
  assert (in_dir (fs w) tmp = true) as -> by (rewrite Et; apply Hin'; [by apply tmp_name_ok|done]).
  cbn [negb]. unfold fs_write_all. rewrite no_fault by done. unfold fs_sync_all. rewrite no_fault by done.
  unfold rename_or_clean, fs_rename. rewrite no_fault by done. cbn. rewrite lookup_insert_eq.
  rewrite bool_decide_eq_false_2 by done. by rewrite Hin'.
Qed.

(** C6: whatever calls fail, and however much of the data they wrote, every
    tree another process can observe during [write_atomic] has either the old
    contents of the file or the complete new ones, and no other file but the
    temporary one changes; on success the new contents are there and the
    temporary file is gone, on an error the old contents are; with a sound
    directory and no failing call it succeeds. *)
Theorem write_atomic_all_or_nothing (pid : Z) (d n data : string) (w w' : World) (r : result unit) :
  path.dir_ok d -> path.name_ok n -> write_atomic pid (path.join d n) data w = (r, w') ->
  let p := path.join d n in
  let tmp := tmp_path pid p in
  (exists new, hist w' = hist w ++ new /\ Forall (visible (fs w) p tmp data) new) /\
  visible (fs w) p tmp data (fs w') /\
  match r with
  | Ok _ => files (fs w') !! p = Some data /\ files (fs w') !! tmp = None
  | Err _ => files (fs w') !! p = files (fs w) !! p
  end /\
  (plan w = [] -> d ∈ dirs (fs w) -> p ∉ dirs (fs w) -> tmp ∉ dirs (fs w) -> r = Ok tt).
Proof.
  intros Hd Hn H p tmp.
  destruct (write_atomic_spec pid p data tmp eq_refl (tmp_path_ne pid d n Hd Hn) _ _ _ H)
    as ((Hh & Hv & _) & Hr).
  split_and!; [done..|]. intros H1 H2 H3 H4.
  pose proof (write_atomic_succeeds pid d n data w Hd Hn H1 H2 H3 H4) as Hs. by rewrite H in Hs.
Qed.

(** A world in which the second write of the temporary file is cut short. *)
Definition sample_world (pl : list fault) : World :=
  MkWorld (MkFs {["/run/state.json" := "old"]} {["/"; "/run"]}) pl [] (fun _ => "No space left on device").

Lemma write_atomic_all_or_nothing_witness :
  let w := sample_world [FNone; FErr 28 2] in
  let p := path.join "/run" "state.json" in
  let tmp := tmp_path 7 p in
  let '(r, w') := write_atomic 7 p "new!" w in
  r = Err (Syscall "io" 28 "No space left on device (os error 28)") /\
  (exists new, hist w' = hist w ++ new /\ Forall (visible (fs w) p tmp "new!") new) /\
  visible (fs w) p tmp "new!" (fs w') /\
  match r with
  | Ok _ => files (fs w') !! p = Some "new!" /\ files (fs w') !! tmp = None
  | Err _ => files (fs w') !! p = files (fs w) !! p
  end /\
  (plan w = [] -> "/run" ∈ dirs (fs w) -> p ∉ dirs (fs w) -> tmp ∉ dirs (fs w) -> r = Ok tt).
Proof.
  cbv zeta. destruct (write_atomic 7 _ "new!" _) as [r w'] eqn:E.
  split; [vm_compute in E; by injection E as <- _|].
  apply (write_atomic_all_or_nothing 7 "/run" "state.json");
    [split; [discriminate|vm_compute; reflexivity]
    | repeat split; try discriminate; vm_compute; reflexivity | exact E].
Defined.

End write_atomic.

(** ** What the other helpers leave alone *)

(** The contents of [p] are the same in both worlds. *)
Definition keeps (p : string) (w w' : World) : Prop :=
  files (fs w') !! p = files (fs w) !! p.

Lemma keeps_refl p w : keeps p w w.
Proof. done. Qed.

Lemma keeps_trans p w1 w2 w3 : keeps p w1 w2 -> keeps p w2 w3 -> keeps p w1 w3.
Proof. unfold keeps. congruence. Qed.

Lemma mkdir_p_keeps p d w : keeps p w (ufs.mkdir_p d w).2.
Proof.
  unfold ufs.mkdir_p, io_err, fs_create_dir_all, keeps.
  destruct (next_fault w) as [[|e n] w1] eqn:E; apply next_fault_same in E as (E & _); cbn;
    [|by rewrite E].
  repeat case_match; simplify_eq; cbn; by rewrite E.
Qed.

Lemma read_to_string_spec p w :
  let '(r, w') := ufs.read_to_string p w in
  same_fs w w' /\ (forall s, r = Ok s -> files (fs w) !! p = Some s /\ valid_utf8 s = true).
Proof.
  unfold ufs.read_to_string, io_err, fs_read_to_string.
  destruct (next_fault w) as [[|e n] w1] eqn:E; apply next_fault_same in E; cbn; [|by split].
  destruct E as (E1 & E2 & E3). rewrite <- E1.
  destruct (files (fs w1) !! p) as [c|]; cbn; [|by split].
  destruct (valid_utf8 c) eqn:Ev; cbn; (split; [done|]); [intros s [= <-]; done|done].
Qed.

(** A bind in [M], taken apart. *)
Lemma M_bind_inv {A B : Type} (m : M A) (k : A -> M B) w r w' :
  (m ≫= k) w = (r, w') ->
  (exists a w1, m w = (Ok a, w1) /\ k a w1 = (r, w')) \/
  (exists e, m w = (Err e, w') /\ r = Err e).
Proof.
  unfold mbind, M_bind. destruct (m w) as [[a|e] w1]; intros H; [left|right]; [eauto|].
  simplify_eq. eauto.
Qed.

Lemma sys_flock_spec w : same_fs w (sys_flock w).2.
Proof.
  unfold sys_flock. destruct (next_fault w) as [[|e n] w'] eqn:E; by apply next_fault_same in E.
Qed.

Lemma flock_keeps p q w : q <> p -> keeps p w (flock_acquire q w).2.
Proof.
  intros Hne. unfold flock_acquire, mbind, M_bind, io_err, keeps.
  destruct (next_fault w) as [[|e n] w1] eqn:E; apply next_fault_same in E as (E & _); cbn; [|by rewrite E].
  repeat case_match; simplify_eq; cbn;
    try match goal with H : sys_flock ?x = _ |- _ =>
      pose proof (sys_flock_spec x) as (Es & _); rewrite H in Es; cbn in Es; rewrite Es; cbn end;
    rewrite ?lookup_insert_ne by done; by rewrite E.
Qed.
