(* ===== verification/FsTree.v ===== *)
(** * Trees: the parent of every file and directory is a directory, and the
    operations of the program keep it so *)
From S2P Require Import Prelude RustStr Num Utf8 Error Fs FsFacts.

(** The tests and the temporary names of the model rely on nothing else. *)
Definition tree_ok (f : Fs) : Prop :=
  forall p, is_Some (files f !! p) \/ p ∈ dirs f -> in_dir f p = true.

Lemma in_dir_mono f g p : dirs f ⊆ dirs g -> in_dir f p = true -> in_dir g p = true.
Proof.
  intros Hs. unfold in_dir. destruct (path.parent p) as [d|]; [|done].
  rewrite !orb_true_iff, !bool_decide_eq_true. set_solver.
Qed.

Lemma in_dir_join f d n : path.dir_ok d -> path.name_ok n -> d ∈ dirs f -> in_dir f (path.join d n) = true.
Proof.
  intros Hd Hn Hin. unfold in_dir. rewrite path.parent_join by done.
  apply orb_true_iff. right. by apply bool_decide_eq_true.
Qed.

(** ** Parents *)

Lemma rsplit_some s l r : path.rsplit s = Some (l, r) -> s = l +:+ "/" +:+ r.
Proof.
  revert l r. induction s as [|a s IH]; intros l r; cbn; [done|].
  destruct (path.rsplit s) as [[l' r']|].
  - intros [= <- <-]. cbn. f_equal. by apply IH.
  - destruct (ascii_dec a "/") as [->|]; [|done]. by intros [= <- <-].
Qed.

Lemma parent_cases p d :
  path.parent p = Some d ->
  (exists r, p = d +:+ "/" +:+ r) \/ (d = "/" /\ exists r, p = "/" +:+ r /\ r <> "") \/ (d = "" /\ p <> "").
Proof.
  unfold path.parent. destruct (path.rsplit p) as [[l r]|] eqn:E.
  - apply rsplit_some in E. destruct l as [|a l].
    + destruct r as [|b r]; [done|]. intros [= <-]. right. left. split; [done|]. by eexists.
    + intros [= <-]. left. by exists r.
  - destruct p as [|a p]; cbn; [done|]. intros [= <-]. by right; right.
Qed.

Lemma parent_shorter p d : path.parent p = Some d -> (String.length d < String.length p)%nat.
Proof.
  intros [(r & ->)|[(-> & r & -> & Hr)|(-> & Hp)]]%parent_cases.
  - rewrite !str_length_app. cbn. lia.
  - destruct r; [done|]. cbn. lia.
  - destruct p; [done|]. cbn. lia.
Qed.

Lemma ancestors_closed n p :
  (String.length p <= n)%nat ->
  forall x d, x = p \/ x ∈ path.ancestors n p -> path.parent x = Some d -> d ∈ path.ancestors n p.
Proof.
  revert p. induction n as [|n IH]; intros p Hl x d Hx Hd.
  - destruct Hx as [->|Hx]; [|by apply elem_of_nil in Hx]. apply parent_shorter in Hd. lia.
  - cbn in *. destruct (path.parent p) as [e|] eqn:Ep.
    + pose proof (parent_shorter _ _ Ep). apply elem_of_cons.
      destruct Hx as [->|[->|Hx]%elem_of_cons].
      * left. congruence.
      * right. apply (IH e ltac:(lia) e); [by left|done].
      * right. apply (IH e ltac:(lia) x); [by right|done].
    + destruct Hx as [->|Hx]; [congruence|]. by apply elem_of_nil in Hx.
Qed.

(** ** The operations *)

Lemma mkdir_p_tree p w r w' :
  ufs.mkdir_p p w = (r, w') -> tree_ok (fs w) ->
  tree_ok (fs w') /\ files (fs w') = files (fs w) /\ dirs (fs w) ⊆ dirs (fs w') /\
  (r = Ok tt -> p ∈ dirs (fs w')).
Proof.
  intros H Ht. unfold ufs.mkdir_p, io_err, fs_create_dir_all in H.
  destruct (next_fault w) as [[|e n] w1] eqn:E; apply next_fault_same in E as (E & _);
    [|by simplify_eq; rewrite E].
  rewrite E in H. case_bool_decide as Hp; [by simplify_eq; rewrite E|].
  destruct (files (fs w) !! p); [by simplify_eq; rewrite E|].
  destruct (existsb _ _); [by simplify_eq; rewrite E|].
  simplify_eq. cbn [fs set_fs files dirs]. split_and!; [|done|set_solver|set_solver].
  intros q Hq. cbn [files dirs] in Hq.
  assert (q = p \/ q ∈ path.ancestors (String.length p) p \/ is_Some (files (fs w) !! q) \/ q ∈ dirs (fs w))
    as [Hn|[Hn|Ho]] by set_solver.
  3: eapply in_dir_mono; [|by apply Ht]; cbn; set_solver.
  all: unfold in_dir; destruct (path.parent q) as [d|] eqn:Ed; [|done]; apply orb_true_iff; right;
    apply bool_decide_eq_true; cbn [dirs];
    pose proof (ancestors_closed _ p (Nat.le_refl _) q d ltac:(auto) Ed); set_solver.
Qed.

Lemma write_atomic_tree pid d n data w r w' :
  path.dir_ok d -> path.name_ok n -> d ∈ dirs (fs w) ->
  ufs.write_atomic pid (path.join d n) data w = (r, w') -> tree_ok (fs w) -> tree_ok (fs w').
Proof.
  intros Hd Hn Hin H Ht.
  destruct (write_atomic.write_atomic_spec pid _ data _ eq_refl (write_atomic.tmp_path_ne pid d n Hd Hn) _ _ _ H)
    as ((_ & (_ & Hf & Hdirs) & _) & _).
  intros q Hq. apply (in_dir_mono (fs w)); [by rewrite Hdirs|].
  destruct (decide (q = path.join d n)) as [->|Hne]; [by apply in_dir_join|].
  destruct (decide (q = ufs.tmp_path pid (path.join d n))) as [->|Hne'].
  - rewrite write_atomic.tmp_path_join by done. apply in_dir_join; [done|by apply write_atomic.tmp_name_ok|done].
  - apply Ht. rewrite Hdirs, Hf in Hq by done. done.
Qed.

Lemma str_app_assoc (a b c : string) : (a +:+ b) +:+ c = a +:+ b +:+ c.
Proof. symmetry. apply app_assoc. Qed.

(** What is below a directory has its children there too. *)
Lemma below_parent d p q :
  path.dir_ok d -> path.parent p = Some q -> below d q = true -> below d p = true.
Proof.
  intros [Hd He] Hp. unfold below. rewrite !orb_true_iff, !bool_decide_eq_true.
  intros [->|Hs].
  - right. apply parent_cases in Hp as [(r & ->)|[(-> & _)|(-> & _)]]; [|done..].
    rewrite <- str_app_assoc. apply starts_with_app.
  - right. apply starts_with_spec in Hs as (b & ->).
    apply parent_cases in Hp as [(r & ->)|[(E & _)|(E & _)]].
    + rewrite !str_app_assoc, <- (str_app_assoc d). apply starts_with_app.
    + exfalso. destruct d as [|x d]; [done|]. cbn in E. injection E as -> E. by destruct d.
    + exfalso. by destruct d.
Qed.

Lemma foldr_delete {A : Type} (m : gmap string A) v p :
  foldr delete m v !! p = if decide (p ∈ v) then None else m !! p.
Proof.
  induction v as [|x v IH]; [done|]. cbn [foldr]. destruct (decide (x = p)) as [->|Hne].
  - rewrite lookup_delete_eq, decide_True; [done|constructor].
  - rewrite lookup_delete_ne, IH by done. by repeat case_decide; set_solver.
Qed.

Lemma remove_dir_all_tree d w r w' :
  path.dir_ok d -> fs_remove_dir_all d w = (r, w') -> tree_ok (fs w) ->
  tree_ok (fs w') /\
  (forall p, below d p = false -> files (fs w') !! p = files (fs w) !! p) /\
  (forall p, files (fs w') !! p = files (fs w) !! p \/ files (fs w') !! p = None) /\
  (forall u, r = inr u -> forall p, below d p = true -> files (fs w') !! p = None /\ p ∉ dirs (fs w')).
Proof.
  intros Hd H Ht. unfold fs_remove_dir_all in H.
  destruct (next_fault w) as [[|e n] w1] eqn:E; apply next_fault_same in E as (E & _); rewrite E in H.
  - case_bool_decide; [|simplify_eq; rewrite E; split_and!; auto; done]. simplify_eq. cbn [fs set_fs].
    split_and!; cbn [files dirs].
    + intros p Hp. cbn [files dirs] in Hp.
      assert (below d p = false /\ in_dir (fs w) p = true) as [Hb Hi].
      { destruct Hp as [[c Hc]|Hp].
        - apply map_lookup_filter_Some in Hc as [Hc Hb]. split; [done|]. apply Ht. left. by eexists.
        - apply elem_of_filter in Hp as [Hb Hp]. split; [done|]. apply Ht. by right. }
      unfold in_dir in *. destruct (path.parent p) as [q|] eqn:Eq; [|done].
      rewrite orb_true_iff, !bool_decide_eq_true in *. destruct Hi as [->|Hi]; [by left|]. right.
      cbn [dirs]. apply elem_of_filter. split; [|done].
      destruct (below d q) eqn:Ebq; [|done]. by rewrite (below_parent d p q) in Hb.
    + intros p Hp. destruct (files (fs w) !! p) as [c|] eqn:Ec.
      * by apply map_lookup_filter_Some.
      * apply map_lookup_filter_None. by left.
    + intros p. destruct (files (fs w) !! p) as [c|] eqn:Ec.
      * destruct (below d p) eqn:Eb.
        -- right. apply map_lookup_filter_None. right. intros x Hx. cbn. congruence.
        -- left. by apply map_lookup_filter_Some.
      * right. apply map_lookup_filter_None. by left.
    + intros u _ p Hp. split; [|rewrite elem_of_filter; intros [? _]; congruence].
      apply map_lookup_filter_None. right. intros x Hx. cbn. congruence.
  - simplify_eq. cbn [fs set_fs]. set (v := take n _).
    assert (forall p, below d p = false -> p ∉ v) as Hv.
    { intros p Hp Hin. apply (subseteq_take n) in Hin. apply list_elem_of_filter in Hin as [? _]. congruence. }
    split_and!; cbn [files dirs]; [| | |done].
    + intros p Hp. apply Ht. cbn [files dirs] in Hp. rewrite foldr_delete in Hp.
      case_decide; [|done]. destruct Hp as [[? ?]|?]; [done|auto].
    + intros p Hp%Hv. rewrite foldr_delete. by case_decide.
    + intros p. rewrite foldr_delete. case_decide; auto.
Qed.
