(* ===== verification/Host.v ===== *)
(** * The host as several components share it

    The parts of the runtime that touch more than files work on some type [H]
    of host states.  What each of them needs of it is an interface: the file
    system is the class [HasWorld], the packet filter, the control groups and
    the processes have classes of their own in the files that use them. *)
From S2P Require Import Prelude RustStr Error Fs.

(** A computation on the host that gives a value or fails. *)
Definition HM (H A : Type) : Type := H -> result A * H.

#[export] Instance HM_ret {H} : MRet (HM H) := fun A a h => (Ok a, h).
#[export] Instance HM_bind {H} : MBind (HM H) := fun A B f m h =>
  match m h with (Ok a, h') => f a h' | (Err e, h') => (Err e, h') end.

Module host.
Section ops.
Context {H : Type}.

Definition fail {A} (e : Error) : HM H A := fun h => (Err e, h).
Definition lift {A} (r : result A) : HM H A := fun h => (r, h).
(** [let _ = m]. *)
Definition ignore {A} (m : HM H A) : HM H unit := fun h => let '(_, h') := m h in (Ok tt, h').
(** [match m { Ok(a) => .., Err(e) => .. }]. *)
Definition try {A} (m : HM H A) : HM H (result A) := fun h => let '(r, h') := m h in (Ok r, h').
(** [m.map_err(f)]. *)
Definition map_err {A} (f : Error -> Error) (m : HM H A) : HM H A := fun h =>
  let '(r, h') := m h in (Error.map_err f r, h').

(** [for x in l { f(x)?; }]. *)
Fixpoint for_each {A} (f : A -> HM H unit) (l : list A) : HM H unit :=
  match l with
  | [] => mret tt
  | x :: l' => _ ← f x; for_each f l'
  end.
End ops.
End host.

(** The file system inside the host. *)
Class HasWorld (H : Type) := {
  world : H -> World;
  set_world : World -> H -> H
}.

Class HasWorldLaws (H : Type) `{HasWorld H} := {
  world_set : forall w h, world (set_world w h) = w;
  set_world_self : forall h, set_world (world h) h = h;
  set_set_world : forall w w' h, set_world w (set_world w' h) = set_world w h
}.

(** A file operation on the host. *)
Definition on_files {H} `{HasWorld H} {A} (m : M A) : HM H A := fun h =>
  let '(r, w) := m (world h) in (r, set_world w h).

Section facts.
Context {H : Type}.

Lemma hm_bind_eq {A B} (m : HM H A) (f : A -> HM H B) h :
  (m ≫= f) h = match m h with (Ok a, h') => f a h' | (Err e, h') => (Err e, h') end.
Proof. done. Qed.

Lemma hm_bind_inv {A B} (m : HM H A) (f : A -> HM H B) h b h' :
  (m ≫= f) h = (Ok b, h') -> exists a h1, m h = (Ok a, h1) /\ f a h1 = (Ok b, h').
Proof. rewrite hm_bind_eq. destruct (m h) as [[a|e] h1]; [eauto|done]. Qed.
End facts.

(** ** Computations that keep something

    [pres R m]: whatever [m] answers, the host after it is related to the host
    before it.  The lemmas follow the shape of the program. *)
Definition pres {H A : Type} (R : H -> H -> Prop) (m : HM H A) : Prop := forall h, R h (snd (m h)).

Section pres.
Context {H : Type} (R : H -> H -> Prop) `{!PreOrder R}.

Lemma pres_ret {A} (a : A) : pres R (mret a).
Proof. intros h. cbn. reflexivity. Qed.

Lemma pres_fail {A} e : pres R (host.fail (A := A) e).
Proof. intros h. cbn. reflexivity. Qed.

Lemma pres_lift {A} (r : result A) : pres R (host.lift r).
Proof. intros h. cbn. reflexivity. Qed.

Lemma pres_bind {A B} (m : HM H A) (f : A -> HM H B) :
  pres R m -> (forall a, pres R (f a)) -> pres R (m ≫= f).
Proof.
  intros Hm Hf h. rewrite hm_bind_eq. specialize (Hm h). destruct (m h) as [[a|e] h1]; [|done].
  cbn [snd] in *. etrans; [exact Hm|apply Hf].
Qed.

Lemma pres_ignore {A} (m : HM H A) : pres R m -> pres R (host.ignore m).
Proof. intros Hm h. specialize (Hm h). unfold host.ignore. by destruct (m h). Qed.

Lemma pres_try {A} (m : HM H A) : pres R m -> pres R (host.try m).
Proof. intros Hm h. specialize (Hm h). unfold host.try. by destruct (m h). Qed.

Lemma pres_map_err {A} f (m : HM H A) : pres R m -> pres R (host.map_err f m).
Proof. intros Hm h. specialize (Hm h). unfold host.map_err. by destruct (m h). Qed.

Lemma pres_for_each {A} (f : A -> HM H unit) l : (forall x, pres R (f x)) -> pres R (host.for_each f l).
Proof.
  intros Hf. induction l as [|x l IH]; cbn [host.for_each]; [apply pres_ret|]. by apply pres_bind; [apply Hf|].
Qed.

Lemma pres_eq {A} (m : HM H A) h r h' : pres R m -> m h = (r, h') -> R h h'.
Proof. intros Hm E. specialize (Hm h). by rewrite E in Hm. Qed.
End pres.

(** Goes through a program and leaves its basic steps. *)
Ltac pres_step :=
  match goal with
  | |- pres _ (@mret _ _ _ _) => apply pres_ret; exact _
  | |- pres _ (host.fail _) => apply pres_fail; exact _
  | |- pres _ (host.lift _) => apply pres_lift; exact _
  | |- pres _ (@mbind _ _ _ _ _ _) => apply pres_bind; [exact _| |intros ?]
  | |- pres _ (host.ignore _) => apply pres_ignore
  | |- pres _ (host.try _) => apply pres_try
  | |- pres _ (host.map_err _ _) => apply pres_map_err
  | |- pres _ (host.for_each _ _) => apply pres_for_each; [exact _|intros ?]
  | |- pres _ (match ?x with _ => _ end) => destruct x
  | |- pres _ (if ?b then _ else _) => destruct b
  end.
Ltac pres_tac := repeat pres_step; try done; auto.
