(* ===== verification/KernFs.v ===== *)
(** * The kernel's own files

    Control groups, [/proc] and [/sys] are reached through [std::fs] like any
    file, but a read gives what the kernel computes and a write is a command.
    They are not the tree of [Fs.v]: the class [KernFs] has the calls the
    runtime makes on them.  The file helpers of [src/util/mod.rs] on such a
    file are here too. *)
From S2P Require Import Prelude RustStr Num Error Fs Host.

Class KernFs (H : Type) := {
  kf_read : string -> H -> (io_error + string) * H;
  kf_write : string -> string -> H -> (io_error + unit) * H;
  kf_mkdir : string -> H -> (io_error + unit) * H;
  kf_rmdir : string -> H -> (io_error + unit) * H;
  kf_read_dir : string -> H -> (io_error + list string) * H;
  kf_exists : string -> H -> bool;
  kf_is_dir : string -> H -> bool;
  (** [Display] of an [io::Error]. *)
  kf_message : H -> io_error -> string
}.

Module kfs.
Section ops.
Context {H : Type} `{KernFs H}.

(** The closures of [util::read_to_string] and [util::write_file]. *)
Definition os_or_io (call p : string) (e : io_error) : Error :=
  match e with Os n => Syscall call n p | Other m => Io (p +:+ ": " +:+ m) end.

Definition read_trimmed (p : string) : HM H string := fun h =>
  match kf_read p h with
  | (inr s, h') => (Ok (trim s), h')
  | (inl e, h') => (Err (os_or_io "read" p e), h')
  end.

Definition write_file (p data : string) : HM H unit := fun h =>
  match kf_write p data h with
  | (inr _, h') => (Ok tt, h')
  | (inl e, h') => (Err (os_or_io "write" p e), h')
  end.

(** [fs::create_dir(p).map_err(|e| Error::io(format!(".. {}: {}", p, e)))]. *)
Definition create_dir (what p : string) : HM H unit := fun h =>
  match kf_mkdir p h with
  | (inr _, h') => (Ok tt, h')
  | (inl e, h') => (Err (Io (what +:+ p +:+ ": " +:+ kf_message h' e)), h')
  end.

Definition exists_ (p : string) : HM H bool := fun h => (Ok (kf_exists p h), h).
Definition is_dir (p : string) : HM H bool := fun h => (Ok (kf_is_dir p h), h).

End ops.
End kfs.

(** ** Processes *)

Class Processes (H : Type) := {
  (** [kill(2)]: nothing or an [errno]. *)
  sys_kill : Z -> Z -> H -> option Z * H;
  (** [thread::sleep], in milliseconds: the world goes on meanwhile. *)
  sleep_ms : Z -> H -> H
}.

Definition SIGKILL : Z := 9.
Definition SIGTERM : Z := 15.
Definition EBUSY : Z := 16.

Definition kill_pid {H : Type} `{Processes H} (pid sig : Z) : HM H unit := fun h =>
  match sys_kill pid sig h with
  | (None, h') => (Ok tt, h')
  | (Some e, h') => (Err (Syscall "kill" e ("pid " +:+ show_dec pid +:+ " signal " +:+ show_dec sig)), h')
  end.

Definition sleep {H : Type} `{Processes H} (ms : Z) : HM H unit := fun h => (Ok tt, sleep_ms ms h).
