(* ===== verification/Mount.v ===== *)
(** * The table of mounts in [src/sys/mount.rs]

    Reading [/proc/<pid>/mountinfo]: the fields of a line, the octal escapes,
    and the search for the cgroup v2 hierarchy. *)
From S2P Require Import Prelude RustStr Num Utf8 Error Fs Host KernFs.

Module MountEntry.
Record t := Mk {
  mount_id : Z;
  parent_id : Z;
  root : string;
  mount_point : string;
  options : string;
  fstype : string;
  source : string;
  super_options : string
}.

Definition is_readonly (m : t) : bool := existsb (fun o => bool_decide (o = "ro")) (split_on "," (options m)).
End MountEntry.

Module mount.

(** [b as char] pushed to a [String]. *)
Definition push_byte (b : ascii) : string := utf8_encode (bz b).

(** [unescape_octal], from the unread rest.  A slice that ends inside a
    character panics: [None]. *)
Fixpoint unescape_go (fuel : nat) (s : string) : option string :=
  match fuel with
  | O => Some ""
  | S f =>
      match s with
      | EmptyString => Some ""
      | String c s' =>
          let plain := r ← unescape_go f s'; Some (push_byte c +:+ r) in
          if bool_decide (c = "\"%char) then
            match take_bytes 3 s' with
            | Some (oct, rest) =>
                if match rest with String d _ => is_cont d | EmptyString => false end then None
                else match parse_unsigned 8 8 oct with
                     | inr v => r ← unescape_go f rest; Some (utf8_encode v +:+ r)
                     | inl _ => plain
                     end
            | None => plain
            end
          else plain
      end
  end.

Definition unescape_octal (s : string) : option string :=
  if contains_char "\" s then unescape_go (String.length s) s else Some s.

(** The place of the separator among the fields. *)
Fixpoint position (f : string) (l : list string) : option nat :=
  match l with
  | [] => None
  | x :: l' => if bool_decide (x = f) then Some O else S <$> position f l'
  end.

Definition field (l : list string) (i : nat) : string := default "" (l !! i).

(** One line: the outer [option] is the panic, the inner one a line that is
    skipped. *)
Definition parse_line (line : string) : option (option MountEntry.t) :=
  let fields := split_whitespace line in
  if (length fields <? 10)%nat then Some None
  else match position "-" fields with
       | None => Some None
       | Some sep =>
           if (length fields <? sep + 3)%nat then Some None
           else
             root ← unescape_octal (field fields 3);
             mount_point ← unescape_octal (field fields 4);
             source ← unescape_octal (field fields (sep + 2));
             Some (Some (MountEntry.Mk
               (default (-1) (parse_i 32 (field fields 0)))
               (default (-1) (parse_i 32 (field fields 1)))
               root mount_point (field fields 5) (field fields (sep + 1))
               source (field fields (sep + 3))))
       end.

Fixpoint parse_lines (l : list string) : option (list MountEntry.t) :=
  match l with
  | [] => Some []
  | line :: l' =>
      e ← parse_line line;
      es ← parse_lines l';
      Some (match e with Some m => m :: es | None => es end)
  end.

Definition parse_mountinfo (text : string) : option (list MountEntry.t) := parse_lines (lines text).

(** The loop of [find_cgroup2_mount] over the table. *)
Fixpoint find_cgroup2 (best : option string) (l : list MountEntry.t) : option string :=
  match l with
  | [] => best
  | m :: l' =>
      if bool_decide (MountEntry.fstype m = "cgroup2") then
        if bool_decide (MountEntry.mount_point m = "/sys/fs/cgroup") then Some (MountEntry.mount_point m)
        else find_cgroup2 (match best with None => Some (MountEntry.mount_point m) | Some _ => best end) l'
      else find_cgroup2 best l'
  end.

Section ops.
Context {H : Type} `{KernFs H}.

(** A panic ends the process: the outer [option]. *)
Definition mountinfo_for (pid : string) (h : H) : option (result (list MountEntry.t)) * H :=
  let p := "/proc/" +:+ pid +:+ "/mountinfo" in
  match kf_read p h with
  | (inl e, h') => (Some (Err (Io (p +:+ ": " +:+ kf_message h' e))), h')
  | (inr text, h') => (Ok <$> parse_mountinfo text, h')
  end.

Definition is_mount_point (p : string) (h : H) : option bool * H :=
  let '(r, h') := mountinfo_for "self" h in
  ((fun r => match r with
             | Ok v => existsb (fun m => bool_decide (MountEntry.mount_point m = p)) v
             | Err _ => false
             end) <$> r, h').

Definition find_cgroup2_mount (h : H) : option (option string) * H :=
  let '(r, h') := mountinfo_for "self" h in
  ((fun r => match r with Ok v => find_cgroup2 None v | Err _ => None end) <$> r, h').

End ops.
End mount.
