(* ===== verification/MountFacts.v ===== *)
(** * Theorems about the table of mounts: what the kernel prints is read back *)
From S2P Require Import Prelude RustStr Num Utf8 Error Fs Host KernFs Mount.
Import mount.

(** ** What the kernel prints *)

Definition octal3 (n : Z) : string :=
  String (digit_char (n `div` 64)) (String (digit_char ((n `div` 8) `mod` 8)) (String (digit_char (n `mod` 8)) "")).

(** [mangle] of the kernel: blanks and the backslash as octal numbers. *)
Definition special (c : ascii) : bool := bool_decide (c ∈ [" "; "009"; "010"; "\"]%char).
Definition mangle_char (c : ascii) : string :=
  if special c then String "\" (octal3 (bz c)) else String c "".
Definition mangle : string -> string := str_flat_map mangle_char.

(** The characters of a path that are printed so that they can be read. *)
Definition path_char (c : ascii) : bool := is_graph c || special c.
Definition path_text (s : string) : Prop := s <> "" /\ s <> "-" /\ str_all path_char s = true.

Definition option_word (s : string) : Prop := word_ok s /\ s <> "-".

(** One line, with the device and the optional fields the reader ignores. *)
Definition print_entry (dev : string) (optional : list string) (m : MountEntry.t) : string :=
  join " " ([show_dec (MountEntry.mount_id m); show_dec (MountEntry.parent_id m); dev;
             mangle (MountEntry.root m); mangle (MountEntry.mount_point m); MountEntry.options m]
            ++ optional ++ "-" ::
            [MountEntry.fstype m; mangle (MountEntry.source m); MountEntry.super_options m]).

Record entry_ok (m : MountEntry.t) : Prop := {
  e_ids : in_s 32 (MountEntry.mount_id m) /\ in_s 32 (MountEntry.parent_id m);
  e_root : path_text (MountEntry.root m);
  e_point : path_text (MountEntry.mount_point m);
  e_options : option_word (MountEntry.options m);
  e_fstype : word_ok (MountEntry.fstype m);
  e_source : path_text (MountEntry.source m);
  e_super : word_ok (MountEntry.super_options m)
}.

(** ** The escapes *)

(** A readable character stands for itself and continues no sequence. *)
Lemma path_char_byte c : path_char c = true -> push_byte c = String c "" /\ is_cont c = false.
Proof. destruct c as [a1 a2 a3 a4 a5 a6 a7 a8]. destruct a1, a2, a3, a4, a5, a6, a7, a8; vm_compute; intuition congruence. Qed.

Lemma special_cases c : special c = true -> c = " "%char \/ c = "009"%char \/ c = "010"%char \/ c = "\"%char.
Proof.
  intros Hc%bool_decide_eq_true. rewrite !elem_of_cons, elem_of_nil in Hc. naive_solver.
Qed.

(** The rest of a printed text does not begin inside a character. *)
Definition boundary (s : string) : Prop := match s with String d _ => is_cont d = false | EmptyString => True end.

Lemma unescape_one c f rest : path_char c = true -> boundary rest ->
  unescape_go (S f) (mangle_char c +:+ rest) = r ← unescape_go f rest; Some (String c r).
Proof.
  intros Hc Hr. unfold mangle_char. destruct (special c) eqn:Hs.
  - assert (Hb : match rest with String d _ => is_cont d | EmptyString => false end = false) by (by destruct rest).
    apply special_cases in Hs as [-> | [-> | [-> | ->]]]; cbn -[is_cont parse_unsigned unescape_go];
      cbn [unescape_go take_bytes]; rewrite bool_decide_true by done; cbn -[is_cont unescape_go];
      rewrite Hb; done.
  - rewrite app_cons. cbn [unescape_go String.append]. rewrite bool_decide_false.
    + by rewrite (proj1 (path_char_byte c Hc)).
    + intros ->. done.
Qed.

Lemma mangle_cons c s : mangle (String c s) = mangle_char c +:+ mangle s.
Proof. done. Qed.

Lemma mangle_boundary s : str_all path_char s = true -> boundary (mangle s).
Proof.
  destruct s as [|c s]; [done|]. cbn [str_all]. intros [Hc _]%andb_prop. rewrite mangle_cons.
  unfold mangle_char. destruct (special c); [done|]. by apply path_char_byte.
Qed.

Lemma mangle_length s : (String.length s <= String.length (mangle s))%nat.
Proof.
  induction s as [|c s IH]; [done|]. rewrite mangle_cons, str_length_app. unfold mangle_char.
  destruct (special c); cbn; lia.
Qed.

Lemma unescape_mangle s : str_all path_char s = true -> unescape_octal (mangle s) = Some s.
Proof.
  intros Hs. unfold unescape_octal. destruct (contains_char "\" (mangle s)) eqn:E.
  - clear E. pose proof (mangle_length s) as Hl. revert Hl. generalize (String.length (mangle s)).
    induction s as [|c s IH]; intros fuel Hf; [by destruct fuel|].
    cbn [str_all] in Hs. apply andb_prop in Hs as [Hc Hs]. destruct fuel as [|fuel]; [cbn in Hf; lia|].
    rewrite mangle_cons, unescape_one by (done || by apply mangle_boundary).
    rewrite IH by (done || cbn in Hf; lia). done.
  - f_equal. induction s as [|c s IH]; [done|]. cbn [str_all] in Hs. apply andb_prop in Hs as [Hc Hs].
    rewrite mangle_cons in *. rewrite contains_char_app in E. apply orb_false_elim in E as [E1 E2].
    rewrite IH by done. unfold mangle_char in *. by destruct (special c).
Qed.

(** A printed path is a word. *)
Lemma mangle_word s : path_text s -> word_ok (mangle s) /\ mangle s <> "-".
Proof.
  intros (Hn & Hd & Hs). split; [split|].
  - destruct s as [|c s]; [done|]. rewrite mangle_cons. unfold mangle_char. by destruct (special c).
  - clear Hn Hd. induction s as [|c s IH]; [done|]. cbn [str_all] in Hs. apply andb_prop in Hs as [Hc Hs].
    rewrite mangle_cons, str_all_app, IH by done. rewrite andb_true_r. unfold mangle_char.
    destruct (special c) eqn:E; [by apply special_cases in E as [-> | [-> | [-> | ->]]]|].
    unfold path_char in Hc. rewrite E, orb_false_r in Hc. cbn. by rewrite Hc.
  - intros E. apply (f_equal unescape_octal) in E. rewrite unescape_mangle in E by done.
    change (unescape_octal "-") with (Some "-") in E. congruence.
Qed.

Lemma show_word n : in_s 32 n -> option_word (show_dec n).
Proof.
  intros Hn. assert (Hd : show_dec n <> "" /\ show_dec n <> "-").
  { pose proof (parse_i_show 32 n ltac:(lia) Hn) as Hp. split; intros E; by rewrite E in Hp. }
  split; [split; [apply Hd|]|apply Hd].
  assert (Hg : forall k, 0 <= k -> str_all is_graph (show_u 10 k) = true).
  { intros k Hk. apply (str_all_impl is_ascii_digit); [|by apply show_u_dec]. intros c Hc.
    unfold is_ascii_digit, is_graph, in_range in *. lia. }
  destruct (Z_lt_le_dec n 0).
  - rewrite show_dec_neg by done. cbn [str_all]. by rewrite Hg by lia.
  - rewrite show_dec_nonneg by done. by apply Hg.
Qed.

Lemma position_app f l r : f ∉ l -> position f (l ++ f :: r) = Some (length l).
Proof.
  induction l as [|x l IH]; intros Hl; cbn [position app].
  - by rewrite bool_decide_true.
  - rewrite bool_decide_false by set_solver. by rewrite IH by set_solver.
Qed.

Lemma field_app l r i : field (l ++ r) (length l + i) = field r i.
Proof. unfold field. by rewrite lookup_app_r, Nat.add_sub' by lia. Qed.

(** ** Reading a line back *)

Lemma parse_print_entry dev optional m :
  option_word dev -> Forall option_word optional -> entry_ok m ->
  parse_line (print_entry dev optional m) = Some (Some m).
Proof.
  intros Hdev Hopt [[Hid1 Hid2] Hr Hp Ho Hf Hs Hsup].
  unfold parse_line, print_entry. rewrite List.app_assoc.
  set (front := [_; _; _; _; _; _] ++ optional).
  assert (Hfront : Forall option_word front).
  { unfold front. rewrite Forall_app. split; [|done].
    repeat (apply Forall_cons; split); try done; by apply show_word || by apply mangle_word. }
  assert (Hdash : "-" ∉ front).
  { intros Hin. rewrite Forall_forall in Hfront. by apply Hfront in Hin as [_ ?]. }
  assert (Hlen : length front = (6 + length optional)%nat) by (unfold front; by rewrite length_app).
  rewrite split_whitespace_join.
  2: { rewrite Forall_app. split; [eapply Forall_impl; [exact Hfront|]; by intros x [? _]|].
       repeat (apply Forall_cons; split); try done; by apply mangle_word. }
  rewrite length_app, Hlen. cbn [length]. rewrite (proj2 (Nat.ltb_ge _ _)) by lia.
  rewrite position_app by done. rewrite Hlen at 1. rewrite (proj2 (Nat.ltb_ge _ _)) by lia.
  rewrite !field_app. change (field ("-" :: ?r) 1) with (field r 0). change (field ("-" :: ?r) 2) with (field r 1).
  change (field ("-" :: ?r) 3) with (field r 2).
  unfold front, field. cbn [app lookup list_lookup default id].
  rewrite (unescape_mangle (MountEntry.root m)) by apply Hr. cbn [mbind option_bind].
  rewrite (unescape_mangle (MountEntry.mount_point m)) by apply Hp. cbn [mbind option_bind].
  rewrite (unescape_mangle (MountEntry.source m)) by apply Hs. cbn [mbind option_bind].
  rewrite !parse_i_show by (done || lia). by destruct m.
Qed.

(** ** The whole table *)

Lemma join_graph_char c ws : is_graph c = false -> c <> " "%char -> Forall word_ok ws ->
  contains_char c (join " " ws) = false.
Proof.
  intros Hc Hs. induction 1 as [|w ws [_ Hw] _ IH]; [done|].
  assert (Hwc : contains_char c w = false) by (by apply (str_all_not_contains is_graph)).
  destruct ws as [|v ws]; [done|]. change (join " " (w :: v :: ws)) with (w +:+ String " " (join " " (v :: ws))).
  rewrite contains_char_app, Hwc. cbn [contains_char orb]. destruct (ascii_dec " " c); [congruence|done].
Qed.

Lemma print_entry_words dev optional m :
  option_word dev -> Forall option_word optional -> entry_ok m ->
  plain_line (print_entry dev optional m) = true.
Proof.
  intros Hdev Hopt [[Hid1 Hid2] Hr Hp Ho Hf Hs Hsup].
  assert (Hw : forall x, option_word x -> word_ok x) by (by intros x [? _]).
  unfold print_entry. set (ws := _ ++ _). assert (Hws : Forall word_ok ws).
  { unfold ws. rewrite !Forall_app. split_and!.
    - repeat (apply Forall_cons; split); try done;
        first [by apply Hw | by apply Hw, show_word | by apply mangle_word].
    - eapply Forall_impl; [exact Hopt|exact Hw].
    - repeat (apply Forall_cons; split); try done; by apply mangle_word. }
  unfold plain_line. rewrite join_graph_char by done. cbn [negb andb]. apply negb_true_iff.
  destruct (ends_with (String "013" "") (join " " ws)) eqn:E; [|done].
  assert (Hc : contains_char "013" (join " " ws) = false) by (by apply join_graph_char).
  unfold ends_with, strip_suffix in E.
  destruct (strip_prefix _ (String.rev (join " " ws))) as [r|] eqn:Er; [|done]. apply strip_prefix_Some in Er.
  apply (f_equal String.rev) in Er. rewrite rev_involutive in Er. rewrite Er in Hc.
  change (String.rev (String "013" "") +:+ r) with (String "013" r) in Hc.
  change (String.rev (String "013" r)) with (String.rev_app r (String "013" "")) in Hc.
  rewrite rev_app_last, contains_char_app in Hc. by destruct (contains_char "013" (String.rev r)).
Qed.

(** A line of the table: device, optional fields and the entry. *)
Definition row : Type := string * list string * MountEntry.t.
Definition print_row (x : row) : string := let '(dev, optional, m) := x in print_entry dev optional m.
Definition row_ok (x : row) : Prop :=
  let '(dev, optional, m) := x in option_word dev /\ Forall option_word optional /\ entry_ok m.

Lemma parse_table (rows : list row) : Forall row_ok rows ->
  parse_mountinfo (unlines (print_row <$> rows)) = Some (snd <$> rows).
Proof.
  intros Hok. unfold parse_mountinfo. rewrite lines_unlines.
  - induction Hok as [|[[dev optional] m] rows (Hd & Ho & Hm) _ IH]; [done|].
    rewrite !fmap_cons. cbn [parse_lines print_row]. rewrite parse_print_entry by done.
    cbn [mbind option_bind]. by rewrite IH.
  - rewrite Forall_fmap. eapply Forall_impl; [exact Hok|]. intros [[dev optional] m] (Hd & Ho & Hm).
    by apply print_entry_words.
Qed.

(** Where the hierarchy is: at its usual place, or at the first one. *)
Lemma find_cgroup2_spec best l :
  find_cgroup2 best l
  = if existsb (fun m => bool_decide (MountEntry.fstype m = "cgroup2" /\ MountEntry.mount_point m = "/sys/fs/cgroup")) l
    then Some "/sys/fs/cgroup"
    else match best with
         | Some b => Some b
         | None => MountEntry.mount_point <$> head (filter (fun m => MountEntry.fstype m = "cgroup2") l)
         end.
Proof.
  revert best. induction l as [|m l IH]; intros best; [by destruct best|]. cbn [find_cgroup2 existsb].
  rewrite filter_cons. destruct (decide (MountEntry.fstype m = "cgroup2")) as [E|E].
  - rewrite bool_decide_true by done. destruct (decide (MountEntry.mount_point m = "/sys/fs/cgroup")) as [P|P].
    + rewrite !bool_decide_true by done. by rewrite P.
    + rewrite bool_decide_false by done. rewrite (bool_decide_false (_ /\ _)) by tauto. rewrite IH. cbn [orb].
      by destruct (existsb _ l), best.
  - rewrite !bool_decide_false by tauto. by rewrite IH.
Qed.

(** The table of mounts that the kernel prints is read back entry by entry,
    whatever blanks the paths contain, and the cgroup v2 hierarchy is found at
    its usual place, else at the first cgroup2 mount, else nowhere. *)
Theorem mount_table_read {H : Type} `{KernFs H} (rows : list row) (h h' : H) :
  Forall row_ok rows -> kf_read "/proc/self/mountinfo" h = (inr (unlines (print_row <$> rows)), h') ->
  mountinfo_for "self" h = (Some (Ok (snd <$> rows)), h') /\
  exists found, find_cgroup2_mount h = (Some found, h') /\
  let here m := MountEntry.fstype m = "cgroup2" in
  (found = None <-> Forall (fun x => ~ here (snd x)) rows) /\
  (found = Some "/sys/fs/cgroup" \/
   ~ (exists x, x ∈ rows /\ here (snd x) /\ MountEntry.mount_point (snd x) = "/sys/fs/cgroup") /\
   found = MountEntry.mount_point <$> head (filter here (snd <$> rows))).
Proof.
  intros Hok Hr. assert (Hm : mountinfo_for "self" h = (Some (Ok (snd <$> rows)), h')).
  { unfold mountinfo_for. change ("/proc/" +:+ "self" +:+ "/mountinfo") with "/proc/self/mountinfo".
    by rewrite Hr, parse_table. }
  split; [done|]. unfold find_cgroup2_mount. rewrite Hm. eexists. split; [done|]. cbv zeta.
  rewrite find_cgroup2_spec. set (usual := existsb _ _).
  assert (Hu : usual = true <-> exists x, x ∈ rows /\ MountEntry.fstype (snd x) = "cgroup2" /\
                                 MountEntry.mount_point (snd x) = "/sys/fs/cgroup").
  { unfold usual. rewrite existsb_exists. setoid_rewrite bool_decide_eq_true. setoid_rewrite <- list_elem_of_In.
    setoid_rewrite list_elem_of_fmap. naive_solver. }
  assert (Hn : head (filter (fun m => MountEntry.fstype m = "cgroup2") (snd <$> rows)) = None <->
               Forall (fun x => MountEntry.fstype (snd x) <> "cgroup2") rows).
  { rewrite head_None. clear. induction rows as [|x rows IH]; [by split|]. rewrite fmap_cons, filter_cons, Forall_cons.
    destruct (decide _); [split; [done|tauto]|]. rewrite IH. tauto. }
  destruct usual.
  - split; [|by left]. split; [done|]. intros Hall. destruct (proj1 Hu eq_refl) as (x & Hx & Hf & _).
    rewrite Forall_forall in Hall. by apply Hall in Hx.
  - split; [|right; split; [|done]; intros Hx; by apply Hu in Hx]. rewrite <- Hn. by destruct (head _).
Qed.

(** A kernel whose only file is the table. *)
Definition table_kf : KernFs string := {|
  kf_read p h := (if bool_decide (p = "/proc/self/mountinfo") then inr h else inl (Os 2), h);
  kf_write _ _ h := (inl (Os 13), h);
  kf_mkdir _ h := (inl (Os 13), h);
  kf_rmdir _ h := (inl (Os 13), h);
  kf_read_dir _ h := (inl (Os 2), h);
  kf_exists _ _ := false;
  kf_is_dir _ _ := false;
  kf_message _ _ := "No such file or directory"
|}.

Definition sample_rows : list row :=
  [("0:21", ["shared:12"], MountEntry.Mk 23 28 "/" "/proc" "rw,nosuid" "proc" "proc" "rw");
   ("8:1", [], MountEntry.Mk 77 28 "/srv/a b\c" "/mnt" "ro" "ext4" "/dev/sda1" "rw");
   ("0:36", ["shared:16"], MountEntry.Mk 41 24 "/" "/sys/fs/cgroup/unified" "rw" "cgroup2" "cgroup2" "rw")].

Lemma mount_table_read_witness :
  Forall row_ok sample_rows /\
  @mountinfo_for _ table_kf "self" (unlines (print_row <$> sample_rows))
  = (Some (Ok (snd <$> sample_rows)), unlines (print_row <$> sample_rows)).
Proof.
  assert (Hok : Forall row_ok sample_rows).
  { repeat (apply Forall_cons; split); try done; split_and!; try constructor; done. }
  split; [exact Hok|]. exact (proj1 (@mount_table_read _ table_kf sample_rows _ _ Hok eq_refl)).
Defined.

(** A path with an escape and a character outside of ASCII is not read back:
    its bytes are taken for characters one by one. *)
Example non_ascii_path_mangled :
  let e_acute := String "195" (String "169" "") in
  unescape_octal ("/" +:+ e_acute +:+ "\040x")
  = Some ("/" +:+ String "195" (String "131" (String "194" (String "169" ""))) +:+ " x").
Proof. reflexivity. Qed.
