(* ===== verification/NatRules.v ===== *)
(** * [src/runtime/nat.rs]: forwarding, masquerading and published ports

    The [iptables] program is not part of the runtime: it is the class
    [Iptables], one operation that runs it with some arguments.  What its
    manual page promises about the options used here is [IptablesLaws]. *)
From S2P Require Import Prelude RustStr Num Error Fault Net Config Fs Host.

(** ** The program *)

(** What comes of running it: it could not be started, or it ended. *)
Inductive ipt_out := Unstartable (m : string) | Exited (success : bool) (stdout stderr : string).

Class Iptables (H : Type) := iptables : list string -> H -> ipt_out * H.

Module nat.

Definition NAT_TABLE : string := "nat".
Definition FILTER_TABLE : string := "filter".
Definition CHAIN_PRE : string := "MYRUN-PRE".
Definition CHAIN_POST : string := "MYRUN-POST".
Definition CHAIN_FWD : string := "MYRUN-FWD".

(** The words of a line of [iptables -S]: double quotes group, white space
    outside of them separates. *)
Fixpoint split_go (fuel : nat) (in_quotes : bool) (cur s : string) : list string :=
  let flush := if str_is_empty cur then [] else [cur] in
  match fuel with
  | O => flush
  | S f =>
      match s with
      | EmptyString => flush
      | String c s' =>
          if ascii_dec c "034" then split_go f (negb in_quotes) cur s'
          else match (if in_quotes then None else strip_one_of whitespace s) with
               | Some r => flush ++ split_go f false "" r
               | None => split_go f in_quotes (cur +:+ String c "") s'
               end
      end
  end.

Definition split_rule (line : string) : list string := split_go (S (String.length line)) false "" line.

Definition tag (id : string) : string := "myrun:" +:+ id.

Section nat.
Context {H : Type} `{HasWorld H} `{Iptables H}.
(** The environment variable [MYRUN_FAULT]. *)
Context (MYRUN_FAULT : option string).

Definition available : HM H bool := fun h =>
  match iptables ["-t"; "nat"; "-S"] h with
  | (Exited ok _ _, h') => (Ok ok, h')
  | (Unstartable _, h') => (Ok false, h')
  end.

Definition run (args : list string) : HM H string := fun h =>
  match iptables args h with
  | (Unstartable m, h') => (Err (Io ("running iptables: " +:+ m)), h')
  | (Exited false _ stderr, h') =>
      (Err (Container ("iptables " +:+ join " " args +:+ " failed: " +:+ trim stderr)), h')
  | (Exited true stdout _, h') => (Ok stdout, h')
  end.

Definition is_run_ok (args : list string) : HM H bool := fun h =>
  let '(r, h') := run args h in (Ok (is_ok r), h').

Definition run_ok (args : list string) : HM H bool := is_run_ok args.

Definition chain_exists (table chain : string) : HM H bool := is_run_ok ["-t"; table; "-S"; chain].

Definition rule_exists (table : string) (args : list string) : HM H bool :=
  is_run_ok (["-t"; table; "-C"] ++ args).

Definition append_unique (table : string) (args : list string) : HM H unit :=
  present ← rule_exists table args;
  if present : bool then mret tt else _ ← run (["-t"; table; "-A"] ++ args); mret tt.

Definition insert_unique (table : string) (args : list string) : HM H unit :=
  present ← rule_exists table args;
  if present : bool then mret tt else _ ← run (["-t"; table; "-I"] ++ args); mret tt.

(** [if read_trimmed(p).unwrap_or_default() == "1" { return Ok(()) } write_file(p, "1")]. *)
Definition enable_knob (p what : string) : HM H unit :=
  cur ← host.try (on_files (ufs.read_trimmed p));
  if bool_decide (default "" (ok cur) = "1") then mret tt
  else host.map_err (fun e => Container ("enabling " +:+ what +:+ ": " +:+ error_str e))
         (on_files (ufs.write_file p "1")).

Definition enable_ip_forwarding : HM H unit :=
  enable_knob "/proc/sys/net/ipv4/ip_forward" "IPv4 forwarding".

Definition enable_route_localnet : HM H unit :=
  enable_knob "/proc/sys/net/ipv4/conf/all/route_localnet" "route_localnet".

Definition ensure_chain (tc : string * string) : HM H unit :=
  let '(table, chain) := tc in
  present ← chain_exists table chain;
  if present : bool then mret tt else _ ← run ["-t"; table; "-N"; chain]; mret tt.

Definition CHAINS : list (string * string) :=
  [(NAT_TABLE, CHAIN_PRE); (NAT_TABLE, CHAIN_POST); (FILTER_TABLE, CHAIN_FWD)].

(** The guard rule against outside packets with a loopback destination. *)
Definition guard_rule : list string :=
  ["INPUT"; "!"; "-i"; "lo"; "-d"; "127.0.0.0/8"; "-m"; "conntrack"; "--ctstate"; "NEW";
   "-j"; "DROP"; "-m"; "comment"; "--comment"; tag "base"].

(** The jumps into the runtime's chains, and the guard. *)
Definition base_inserts : list (string * list string) :=
  [(NAT_TABLE, ["PREROUTING"; "-j"; CHAIN_PRE]); (NAT_TABLE, ["OUTPUT"; "-j"; CHAIN_PRE]);
   (NAT_TABLE, ["POSTROUTING"; "-j"; CHAIN_POST]); (FILTER_TABLE, ["FORWARD"; "-j"; CHAIN_FWD]);
   (FILTER_TABLE, guard_rule)].

Definition ensure_chains : HM H unit :=
  _ ← host.for_each ensure_chain CHAINS;
  host.for_each (fun '(table, args) => insert_unique table args) base_inserts.

Definition comment_args (id : string) : list string := ["-m"; "comment"; "--comment"; tag id].

(** The rules of [setup_bridge]. *)
Definition bridge_rules (bridge subnet : string) (nat : bool) : list (string * list string) :=
  (if nat
   then [(NAT_TABLE, [CHAIN_POST; "-s"; subnet; "!"; "-o"; bridge; "-j"; "MASQUERADE"] ++ comment_args "base")]
   else []) ++
  [(NAT_TABLE, [CHAIN_POST; "-s"; "127.0.0.0/8"; "-o"; bridge; "-j"; "MASQUERADE"] ++ comment_args "base");
   (FILTER_TABLE, [CHAIN_FWD; "-i"; bridge; "!"; "-o"; bridge; "-j"; "ACCEPT"] ++ comment_args "base");
   (FILTER_TABLE, [CHAIN_FWD; "-o"; bridge; "-m"; "conntrack"; "--ctstate"; "RELATED,ESTABLISHED";
                   "-j"; "ACCEPT"] ++ comment_args "base");
   (FILTER_TABLE, [CHAIN_FWD; "-i"; bridge; "-o"; bridge; "-j"; "ACCEPT"] ++ comment_args "base")].

Definition setup_bridge (bridge subnet : string) (nat : bool) : HM H unit :=
  _ ← enable_ip_forwarding;
  _ ← host.ignore enable_route_localnet;
  _ ← ensure_chains;
  _ ← host.for_each (fun '(table, args) => append_unique table args) (bridge_rules bridge subnet nat);
  host.lift (fault.check MYRUN_FAULT "after_nat_rules").

(** The rules of [publish]. *)
Definition publish_rules (id bridge : string) (container_ip : list Z) (m : PortMapping.t)
    : list (string * list string) :=
  let ip := net.format_ipv4 container_ip in
  let dest := ip +:+ ":" +:+ show_dec (PortMapping.container_port m) in
  let hp := show_dec (PortMapping.host_port m) in
  let cp := show_dec (PortMapping.container_port m) in
  [(NAT_TABLE, [CHAIN_PRE; "-p"; PortMapping.protocol m; "--dport"; hp; "-j"; "DNAT";
                "--to-destination"; dest] ++ comment_args id);
   (NAT_TABLE, [CHAIN_POST; "-s"; ip; "-d"; ip; "-p"; PortMapping.protocol m; "--dport"; cp;
                "-j"; "MASQUERADE"] ++ comment_args id);
   (FILTER_TABLE, [CHAIN_FWD; "-o"; bridge; "-d"; ip; "-p"; PortMapping.protocol m; "--dport"; cp;
                   "-j"; "ACCEPT"] ++ comment_args id)].

Definition publish (id bridge : string) (container_ip : list Z) (m : PortMapping.t) : HM H unit :=
  _ ← ensure_chains;
  host.for_each (fun '(table, args) => append_unique table args) (publish_rules id bridge container_ip m).

(** Is a line of the listing a rule with this tag?  The tag is looked for as
    text, with and without the quotes. *)
Definition line_tagged (id line : string) : bool :=
  starts_with "-A " line
  && (contains_str ("--comment " +:+ tag id) line
      || contains_str ("--comment " +:+ quote +:+ tag id +:+ quote) line).

(** The rules of one table's listing: the words after [-A]. *)
Definition rules_in (id dump : string) : list (list string) :=
  filter (fun args => args <> [])
    ((fun line => split_rule (default "" (strip_prefix "-A " line)))
       <$> filter (fun line => line_tagged id line = true) (lines dump)).

Fixpoint tagged_go (id : string) (tables : list string) : HM H (list (string * list string)) :=
  match tables with
  | [] => mret []
  | table :: rest =>
      dump ← host.try (run ["-t"; table; "-S"]);
      others ← tagged_go id rest;
      mret (match dump with Ok d => (fun args => (table, args)) <$> rules_in id d | Err _ => [] end ++ others)
  end.

Definition tagged_rules (id : string) : HM H (list (string * list string)) :=
  tagged_go id [NAT_TABLE; FILTER_TABLE].

Fixpoint delete_rules (rules : list (string * list string)) (removed : Z) : HM H Z :=
  match rules with
  | [] => mret removed
  | (table, args) :: rest =>
      ok ← run_ok (["-t"; table; "-D"] ++ args);
      delete_rules rest (if ok : bool then removed + 1 else removed)
  end.

Definition cleanup (id : string) : HM H Z :=
  rules ← tagged_rules id; delete_rules rules 0.

Definition run_all_ok (cmds : list (list string)) : HM H unit :=
  host.for_each (fun args => host.ignore (run_ok args)) cmds.

Definition teardown_base : HM H unit :=
  _ ← cleanup "base";
  _ ← host.ignore (run_ok (["-t"; FILTER_TABLE; "-D"] ++ guard_rule));
  _ ← run_all_ok [["-t"; NAT_TABLE; "-D"; "PREROUTING"; "-j"; CHAIN_PRE];
                  ["-t"; NAT_TABLE; "-D"; "OUTPUT"; "-j"; CHAIN_PRE];
                  ["-t"; NAT_TABLE; "-D"; "POSTROUTING"; "-j"; CHAIN_POST];
                  ["-t"; FILTER_TABLE; "-D"; "FORWARD"; "-j"; CHAIN_FWD]];
  run_all_ok (CHAINS ≫= fun '(table, chain) => [["-t"; table; "-F"; chain]; ["-t"; table; "-X"; chain]]).

Definition rule_count (id : string) : HM H Z :=
  rules ← tagged_rules id; mret (Z.of_nat (length rules)).

End nat.

End nat.
