(* ===== verification/NatFacts.v ===== *)
(** * Theorems about the packet filter: cleaning up removes exactly the rules
    tagged for the container, whatever other rules there are *)
From S2P Require Import Prelude RustStr Num Error Fault Util UtilFacts Net Config Fs Host NatRules.
Import nat.

(** ** The listing *)

(** [iptables -S] prints a rule word by word; the free texts among the words
    (the arguments of these options) are put in quotes, unless they consist of
    letters, digits, dashes and underscores. *)
Definition text_options : list string := ["--comment"; "--log-prefix"; "--nflog-prefix"; "--string"].

Definition simple_char (c : ascii) : bool :=
  is_ascii_alphanumeric c || bool_decide (c = "-"%char) || bool_decide (c = "_"%char).

(** The word is the text of the option [prev]. *)
Definition is_text (prev : string) : bool := bool_decide (prev ∈ text_options).

(** The option the word after [a] may belong to. *)
Definition next_prev (prev a : string) : string := if is_text prev then "" else a.

Definition print_arg (prev a : string) : string :=
  if is_text prev && negb (str_all simple_char a) then quote +:+ a +:+ quote else a.

Fixpoint print_args (prev : string) (r : list string) : list string :=
  match r with
  | [] => []
  | a :: r' => print_arg prev a :: print_args (next_prev prev a) r'
  end.

Definition print_rule (r : list string) : string := join " " (print_args "" r).

(** A word of a rule, and a free text. *)
Definition word (a : string) : Prop :=
  a <> "" /\ contains_char "034" a = false /\ str_all is_graph a = true /\
  (a = "--comment" \/ contains_str "--comment" a = false).
Definition free_text (a : string) : Prop :=
  a <> "" /\ contains_char "034" a = false /\ contains_str "--comment " a = false /\
  (str_all simple_char a = true -> contains_str "--comment" a = false).

Definition arg_ok (prev a : string) : Prop := if is_text prev then free_text a else word a.

Fixpoint args_ok (prev : string) (r : list string) : Prop :=
  match r with
  | [] => True
  | a :: r' => arg_ok prev a /\ args_ok (next_prev prev a) r'
  end.

Definition rule_ok (r : list string) : Prop := r <> [] /\ args_ok "" r.

(** The rule has a comment with this text. *)
Fixpoint commented (prev c : string) (r : list string) : bool :=
  match r with
  | [] => false
  | a :: r' =>
      bool_decide (prev = "--comment") && bool_decide (a = c)
      || commented (next_prev prev a) c r'
  end.

Definition has_tag (id : string) (r : list string) : bool := commented "" (tag id) r.

(** *** Reading a listed rule back *)

Lemma simple_graph c : simple_char c = true -> is_graph c = true.
Proof.
  unfold simple_char, is_graph, is_ascii_alphanumeric, is_ascii_digit, is_ascii_upper, is_ascii_lower, in_range.
  intros Hc. apply orb_prop in Hc as [Hc|Hc%bool_decide_eq_true]; [|by rewrite Hc].
  apply orb_prop in Hc as [Hc|Hc%bool_decide_eq_true]; [lia|by rewrite Hc].
Qed.

Lemma print_arg_cases prev a : arg_ok prev a ->
  contains_char "034" a = false /\ str_is_empty a = false /\
  (print_arg prev a = quote +:+ a +:+ quote /\ contains_str "--comment " a = false \/
   print_arg prev a = a /\ str_all is_graph a = true).
Proof.
  unfold arg_ok, print_arg. destruct (is_text prev); cbn [andb].
  - intros (Hn & Hq & Hc & _). split; [done|]. split; [by destruct a|].
    destruct (str_all simple_char a) eqn:E; cbn [negb]; [right|by left].
    split; [done|]. revert E. apply str_all_impl, simple_graph.
  - intros (Hn & Hq & Hg & _). split; [done|]. split; [by destruct a|]. by right.
Qed.

Lemma split_chars f cur a s :
  (f = false -> str_all is_graph a = true) -> contains_char "034" a = false ->
  forall fuel, (String.length a <= fuel)%nat ->
  split_go fuel f cur (a +:+ s) = split_go (fuel - String.length a) f (cur +:+ a) s.
Proof.
  revert cur. induction a as [|c a IH]; intros cur Hg Hq fuel Hf.
  { cbn. by rewrite app_nil_r, Nat.sub_0_r. }
  destruct fuel as [|fuel]; [cbn in Hf; lia|]. rewrite app_cons. cbn [split_go].
  cbn in Hq. destruct (ascii_dec c "034"); [done|]. cbn [str_all] in Hg.
  assert ((if f then None else strip_one_of whitespace (String c (a +:+ s))) = None) as ->.
  { destruct f; [done|]. apply strip_one_graph. by apply andb_prop in Hg as [? _]. }
  rewrite IH; [by rewrite <- app_assoc| |done|cbn in Hf; lia].
  intros Hd. by apply andb_prop in Hg as [_ ?].
Qed.

(** One printed argument, followed by the end or a space. *)
Lemma split_arg prev a fuel s :
  arg_ok prev a -> (String.length (print_arg prev a +:+ s) < fuel)%nat ->
  exists fuel', (String.length s < fuel')%nat /\
  split_go fuel false "" (print_arg prev a +:+ s) = split_go fuel' false a s.
Proof.
  intros Ha. destruct (print_arg_cases _ _ Ha) as (Hq & _ & [[-> _]|[-> Hg]]); intros Hf; rewrite !str_length_app in Hf.
  - destruct fuel as [|fuel]; [lia|]. cbn in Hf. rewrite <- !app_assoc. unfold quote at 1. rewrite app_cons. cbn [split_go].
    destruct (ascii_dec "034" "034") as [_|]; [|done]. cbn [negb]. change ("" +:+ ?t) with t.
    rewrite (split_chars true "" a) by (done || lia).
    destruct (fuel - String.length a)%nat as [|n] eqn:E; [lia|]. unfold quote. rewrite app_cons. cbn [split_go].
    destruct (ascii_dec "034" "034") as [_|]; [|done]. exists n. split; [lia|done].
  - exists (fuel - String.length a)%nat. split; [lia|].
    by rewrite split_chars by (done || lia).
Qed.

Lemma print_args_cons prev a r : print_args prev (a :: r) = print_arg prev a :: print_args (next_prev prev a) r.
Proof. done. Qed.

(** The printed words are joined by spaces. *)
Lemma join_cons2 sep a b l : join sep (a :: b :: l) = a +:+ sep +:+ join sep (b :: l).
Proof. done. Qed.

Lemma split_print prev r : forall fuel,
  args_ok prev r -> (String.length (join " " (print_args prev r)) < fuel)%nat ->
  split_go fuel false "" (join " " (print_args prev r)) = r.
Proof.
  revert prev. induction r as [|a r IH]; intros prev fuel Hr Hf.
  { by destruct fuel. }
  destruct Hr as [Ha Hr]. destruct (print_arg_cases _ _ Ha) as (_ & Hn & _). destruct r as [|b r].
  - cbn [join print_args] in *. rewrite <- (app_nil_r (print_arg _ _)) in Hf |- *.
    destruct (split_arg prev a fuel "" Ha Hf) as (n & _ & ->). destruct n; cbn; by rewrite Hn.
  - rewrite !print_args_cons, join_cons2 in *. rewrite <- print_args_cons in *.
    destruct (split_arg prev a fuel _ Ha Hf) as (n & Hm & ->).
    destruct n as [|n]; [lia|]. rewrite app_cons. cbn [split_go].
    destruct (ascii_dec " " "034"); [done|]. rewrite Hn.
    set (rest := join _ _) in *. change (strip_one_of whitespace (String " " ("" +:+ rest))) with (Some rest).
    cbn [app]. f_equal. apply IH; [done|]. change (S (String.length rest) < S n)%nat in Hm. fold rest. lia.
Qed.

Lemma split_print_rule r : rule_ok r -> split_rule (print_rule r) = r.
Proof. intros [_ Hr]. apply split_print; [done|]. unfold print_rule. lia. Qed.

(** *** Finding a tag in a line *)

Lemma contains_str_cons p c s : contains_str p (String c s) = starts_with p (String c s) || contains_str p s.
Proof. done. Qed.

(** A match that begins in [a] and has [x] in front, when [x] cannot go past
    what follows [a], has [x] in [a]. *)
Definition stops (x v : string) : Prop :=
  match v with EmptyString => True | String q _ => contains_char q x = false end.

Lemma starts_within x p a v :
  stops x v -> starts_with (x +:+ p) (a +:+ v) = true -> starts_with x a = true.
Proof.
  intros Hv [r Hr]%starts_with_spec. revert a Hr. induction x as [|c x IH]; intros a Hr; [done|].
  destruct a as [|d a]; rewrite app_cons in Hr.
  - destruct v as [|q v]; [done|]. injection Hr as -> _. cbn in Hv. by destruct (ascii_dec c c).
  - rewrite app_cons in Hr. injection Hr as -> Hr. unfold starts_with. cbn [strip_prefix].
    destruct (ascii_dec c c) as [_|]; [|done]. apply IH; [|done].
    destruct v as [|q v]; [done|]. cbn in Hv |- *. by destruct (ascii_dec c q).
Qed.

(** So such a match begins behind [a] when [a] does not contain [x]. *)
Lemma contains_behind x p a v :
  stops x v -> contains_str x a = false -> contains_str (x +:+ p) (a +:+ v) = contains_str (x +:+ p) v.
Proof.
  intros Hv. induction a as [|c a IH]; intros Ha; [done|].
  rewrite contains_str_cons in Ha. apply orb_false_elim in Ha as [Ha Ha'].
  change (String c a +:+ v) with (String c (a +:+ v)). rewrite contains_str_cons, IH by done.
  destruct (starts_with (x +:+ p) (String c (a +:+ v))) eqn:E; [|done].
  rewrite <- app_cons in E. by rewrite (starts_within x p _ v Hv E) in Ha.
Qed.

Lemma contains_str_char p c s : contains_char c p = true -> contains_char c s = false -> contains_str p s = false.
Proof.
  intros Hp. induction s as [|d s IH]; intros Hs; [by destruct p|].
  rewrite contains_str_cons, IH.
  - rewrite orb_false_r. destruct (starts_with p (String d s)) eqn:E; [|done].
    apply starts_with_spec in E as [r E]. rewrite E, contains_char_app, Hp in Hs. done.
  - cbn in Hs. by destruct (ascii_dec d c).
Qed.

Lemma graph_no_space a : str_all is_graph a = true -> contains_char " " a = false.
Proof. intros Ha. by apply (str_all_not_contains is_graph). Qed.

(** What may follow a printed word. *)
Definition word_end (v : string) : Prop := v = "" \/ exists v', v = " " +:+ v'.

Lemma word_end_stops x v : contains_char " " x = false -> word_end v -> stops x v.
Proof. intros Hx [->|[v' ->]]; done. Qed.

Section needles.
Context (id : string).
Hypothesis Hid : contains_char "034" (tag id) = false.

(** The two texts that are looked for, behind the option. *)
Definition needles : list string := [tag id; quote +:+ tag id +:+ quote].

(** The text after the option matches when it is the tag, in quotes. *)
Lemma text_matches prev a v :
  is_text prev = true -> arg_ok prev a -> word_end v ->
  (exists p, p ∈ needles /\ starts_with p (print_arg prev a +:+ v) = true) <-> a = tag id.
Proof.
  unfold arg_ok, print_arg. intros -> (_ & Hq & _) Hv. cbn [andb].
  assert (Hs : str_all simple_char (tag id) = false) by done.
  split.
  - intros (p & Hp & Hm). destruct (str_all simple_char a) eqn:E; cbn [negb] in Hm.
    + exfalso. unfold needles in Hp. rewrite !elem_of_cons, elem_of_nil in Hp. destruct Hp as [->|[->|[]]].
      * apply (starts_within "myrun:" id a v) in Hm; [|by apply word_end_stops].
        apply starts_with_spec in Hm as [r ->]. done.
      * apply starts_with_spec in Hm as [r Hm]. destruct a as [|c a].
        { destruct Hv as [->|[v' ->]]; done. }
        rewrite <- !app_assoc in Hm. injection Hm as -> _. done.
    + unfold needles in Hp. rewrite !elem_of_cons, elem_of_nil in Hp. destruct Hp as [->|[->|[]]]; [done|].
      apply starts_with_spec in Hm as [r Hm]. rewrite <- !app_assoc in Hm. injection Hm as Hm.
      assert (H1 : split_once "034" (a +:+ quote +:+ v) = Some (a, v)) by (by apply split_once_app).
      assert (H2 : split_once "034" (tag id +:+ quote +:+ r) = Some (tag id, r)) by (by apply split_once_app).
      change (a +:+ String "034" v = tag id +:+ quote +:+ r) in Hm.
      change (quote +:+ v) with (String "034" v) in H1. rewrite Hm, H2 in H1. by injection H1 as -> ->.
  - intros ->. rewrite Hs. cbn [negb]. exists (quote +:+ tag id +:+ quote). split; [|apply starts_with_app].
    unfold needles. set_solver.
Qed.

(** Behind a text and behind a word that is not the option, the search goes on. *)
Lemma contains_arg p prev a v :
  arg_ok prev a -> word_end v -> next_prev prev a <> "--comment" ->
  contains_str ("--comment " +:+ p) (print_arg prev a +:+ v) = contains_str ("--comment " +:+ p) v.
Proof.
  intros Ha Hv Hn. unfold arg_ok, next_prev, print_arg in *. destruct (is_text prev); cbn [andb].
  - destruct Ha as (_ & Hq & Hc & Hs). destruct (str_all simple_char a) eqn:E; cbn [negb].
    + change ("--comment " +:+ p) with ("--comment" +:+ (" " +:+ p)).
      apply contains_behind; [by apply word_end_stops|by apply Hs].
    + rewrite <- !app_assoc. change (quote +:+ ?t) with (String "034" t). rewrite contains_str_cons.
      change (starts_with ("--comment " +:+ p) (String "034" _)) with false. cbn [orb].
      rewrite contains_behind by done. done.
  - destruct Ha as (_ & _ & _ & [->|Hc]); [done|].
    change ("--comment " +:+ p) with ("--comment" +:+ (" " +:+ p)).
    apply contains_behind; [by apply word_end_stops|done].
Qed.

(** The printed words after an argument. *)
Definition tail_str (l : list string) : string :=
  match l with [] => "" | _ => " " +:+ join " " l end.

Lemma join_tail a l : join " " (a :: l) = a +:+ tail_str l.
Proof. destruct l; [by rewrite <- (app_nil_r a) at 1|done]. Qed.

Lemma tail_word_end l : word_end (tail_str l).
Proof. destruct l; [by left|right]. by eexists. Qed.

Lemma contains_tail p l :
  contains_str ("--comment " +:+ p) (tail_str l) = contains_str ("--comment " +:+ p) (join " " l).
Proof. by destruct l. Qed.

Lemma contains_option p s :
  contains_str ("--comment " +:+ p) ("--comment" +:+ (" " +:+ s)) = starts_with p s || contains_str ("--comment " +:+ p) s.
Proof. done. Qed.

(** A rule is found by one of the texts exactly when it has the tag. *)
Lemma found_iff_commented prev r :
  prev <> "--comment" -> args_ok prev r ->
  (exists p, p ∈ needles /\ contains_str ("--comment " +:+ p) (join " " (print_args prev r)) = true)
  <-> commented prev (tag id) r = true.
Proof.
  remember (length r) as n eqn:En. assert (Hn : (length r <= n)%nat) by lia. clear En.
  revert prev r Hn. induction n as [|n IH]; intros prev r Hn Hp Hr.
  { destruct r; [|cbn in Hn; lia]. split; [by intros (p & _ & ?)|done]. }
  destruct r as [|a r]; [split; [by intros (p & _ & ?)|done]|].
  destruct Hr as [Ha Hr]. cbn [print_args commented]. rewrite join_tail, bool_decide_false by done. cbn [andb orb].
  destruct (decide (next_prev prev a = "--comment")) as [Hc|Hc].
  - rewrite Hc in *. unfold next_prev in Hc. destruct (is_text prev) eqn:Ht; [done|]. subst a.
    unfold print_arg. rewrite Ht. cbn [andb]. destruct r as [|b r].
    { split; [intros (p & _ & Hm)|done]. cbn in Hm. destruct p; done. }
    destruct Hr as [Hb Hr]. specialize (IH "" r ltac:(cbn in Hn; lia) ltac:(done) Hr).
    cbn [print_args commented tail_str]. rewrite join_tail, (bool_decide_true ("--comment" = _)) by done.
    cbn [andb]. set (v := tail_str _). rewrite orb_true_iff, bool_decide_eq_true, <- IH, <- (text_matches "--comment" b v).
    + setoid_rewrite contains_option. setoid_rewrite orb_true_iff.
      assert (Hc : forall p, contains_str ("--comment " +:+ p) (print_arg "--comment" b +:+ v)
                             = contains_str ("--comment " +:+ p) (join " " (print_args "" r))).
      { intros p. rewrite contains_arg by (done || apply tail_word_end). apply contains_tail. }
      setoid_rewrite Hc. clear. naive_solver.
    + done.
    + done.
    + apply tail_word_end.
  - rewrite <- (IH _ r) by (done || cbn in Hn; lia).
    setoid_rewrite contains_arg; [|done|apply tail_word_end|done]. by setoid_rewrite contains_tail.
Qed.

Lemma contains_append p line :
  contains_str ("--comment " +:+ p) ("-A " +:+ line) = contains_str ("--comment " +:+ p) line.
Proof. done. Qed.

Lemma line_tagged_rule r : args_ok "" r -> line_tagged id ("-A " +:+ print_rule r) = has_tag id r.
Proof.
  intros Hr. unfold line_tagged. change (starts_with "-A " _) with true. cbn [andb]. rewrite !contains_append.
  apply eq_true_iff_eq. unfold has_tag. rewrite <- (found_iff_commented "" r) by done.
  rewrite orb_true_iff. unfold needles, print_rule. split.
  - intros [Hm|Hm]; eexists; (split; [|exact Hm]); set_solver.
  - intros (p & Hp & Hm). rewrite !elem_of_cons, elem_of_nil in Hp. naive_solver.
Qed.
End needles.

(** ** What the program promises *)

Definition succeeded (o : ipt_out) : bool := match o with Exited ok _ _ => ok | Unstartable _ => false end.

(** The manual page of [iptables] on the options that are used.  [canon] is
    the form in which a rule given on the command line is listed. *)
Class IptablesLaws (H : Type) `{HasWorld H} `{Iptables H} := {
  rules : H -> string -> list (list string);
  canon : list string -> list string;
  (** The program can be run, and does what it is asked when that is possible. *)
  healthy : H -> Prop;
  canon_comment : forall r c, commented "" c (canon r) = commented "" c r;
  ipt_failed : forall args h t, succeeded (fst (iptables args h)) = false ->
    rules (snd (iptables args h)) t = rules h t;
  (** [-S], [-C] and [-N] add and remove no rule. *)
  ipt_query : forall table op args h t, op ∈ ["-S"; "-C"; "-N"] ->
    rules (snd (iptables ("-t" :: table :: op :: args) h)) t = rules h t;
  (** [-S] lists the rules, one to a line, here for rules without quotes. *)
  ipt_list : forall table h out err h', Forall rule_ok (rules h table) ->
    iptables ["-t"; table; "-S"] h = (Exited true out err, h') ->
    filter (fun line => starts_with "-A " line = true) (lines out)
    = (fun r => "-A " +:+ print_rule r) <$> rules h table;
  (** [-A] and [-I] add one rule. *)
  ipt_add : forall table op args h, op ∈ ["-A"; "-I"] ->
    succeeded (fst (iptables ("-t" :: table :: op :: args) h)) = true ->
    forall t, rules (snd (iptables ("-t" :: table :: op :: args) h)) t
              ≡ₚ (if bool_decide (t = table) then [canon args] else []) ++ rules h t;
  (** [-D] removes one rule equal to the given one. *)
  ipt_delete : forall table r h, r ∈ rules h table ->
    succeeded (fst (iptables ("-t" :: table :: "-D" :: r) h)) = true ->
    forall t, rules h t ≡ₚ (if bool_decide (t = table) then [r] else [])
                           ++ rules (snd (iptables ("-t" :: table :: "-D" :: r) h)) t;
  healthy_keeps : forall args h, healthy h -> healthy (snd (iptables args h));
  healthy_list : forall table h, healthy h -> table ∈ [NAT_TABLE; FILTER_TABLE] ->
    succeeded (fst (iptables ["-t"; table; "-S"] h)) = true;
  healthy_check : forall table args h, healthy h ->
    succeeded (fst (iptables ("-t" :: table :: "-C" :: args) h)) = bool_decide (canon args ∈ rules h table);
  healthy_delete : forall table r h, healthy h -> r ∈ rules h table ->
    succeeded (fst (iptables ("-t" :: table :: "-D" :: r) h)) = true
}.

Section facts.
Context {H : Type} `{IptablesLaws H}.

(** The rules of one table in a list of rules with their tables. *)
Definition of_table (t : string) (l : list (string * list string)) : list (list string) :=
  snd <$> filter (fun x => fst x = t) l.

Definition tagged (id : string) (rs : list (list string)) : list (list string) :=
  filter (fun r => has_tag id r = true) rs.
Definition untagged (id : string) (rs : list (list string)) : list (list string) :=
  filter (fun r => has_tag id r = false) rs.

(** No rule, whoever installed it, has a quote in an argument, and none a text
    that holds the option [--comment], so that a rule is not mistaken for
    another one in the listing. *)
Definition plain_rules (h : H) : Prop := forall t, Forall rule_ok (rules h t).

Definition tables : list string := [NAT_TABLE; FILTER_TABLE].

(** How many rules the container has. *)
Definition tag_count (id : string) (h : H) : nat :=
  length (tagged id (rules h NAT_TABLE)) + length (tagged id (rules h FILTER_TABLE)).

Lemma run_eq args h : exists e,
  run args h = (match fst (iptables args h) with Exited true out _ => Ok out | _ => Err e end, snd (iptables args h)).
Proof. unfold run. destruct (iptables args h) as [[m|[] out err] h']; [by eexists|by exists (Io "")|by eexists]. Qed.

Lemma is_run_ok_eq args h : is_run_ok args h = (Ok (succeeded (fst (iptables args h))), snd (iptables args h)).
Proof.
  unfold is_run_ok. destruct (run_eq args h) as [e ->]. by destruct (fst (iptables args h)) as [|[]].
Qed.

(** *** Listing *)

Lemma filter_and_lines id (l : list string) :
  filter (fun line => line_tagged id line = true) l
  = filter (fun line => line_tagged id line = true) (filter (fun line => starts_with "-A " line = true) l).
Proof.
  rewrite list_filter_filter. apply list_filter_iff. intros line. unfold line_tagged.
  destruct (starts_with "-A " line); cbn [andb]; intuition discriminate.
Qed.

Lemma rules_in_listing id out (rs : list (list string)) :
  contains_char "034" (tag id) = false -> Forall rule_ok rs ->
  filter (fun line => starts_with "-A " line = true) (lines out) = (fun r => "-A " +:+ print_rule r) <$> rs ->
  rules_in id out = tagged id rs.
Proof.
  intros Hid Hok Hl. unfold rules_in. rewrite filter_and_lines, Hl. clear Hl.
  induction Hok as [|r rs Hr _ IH]; [done|]. rewrite fmap_cons. unfold tagged in *.
  rewrite !filter_cons, line_tagged_rule by (done || apply Hr).
  destruct (decide (has_tag id r = true)) as [E|E]; [|exact IH].
  assert (Hs : split_rule (default "" (strip_prefix "-A " ("-A " +:+ print_rule r))) = r).
  { rewrite strip_prefix_app. by apply split_print_rule. }
  rewrite fmap_cons, Hs. rewrite filter_cons_True by apply Hr. by rewrite IH.
Qed.

(** Listing one table. *)
Lemma list_table_spec id t h : contains_char "034" (tag id) = false -> plain_rules h -> exists l h1,
  (host.try (run ["-t"; t; "-S"]) h = (Ok l, h1)) /\ (forall t', rules h1 t' = rules h t') /\
  let found := match l with Ok d => rules_in id d | Err _ => [] end in
  Forall (fun r => has_tag id r = true) found /\ found ⊆+ rules h t /\
  (healthy h -> t ∈ tables -> healthy h1 /\ length found = length (tagged id (rules h t))).
Proof.
  intros Hid Hpl. unfold host.try. destruct (run_eq ["-t"; t; "-S"] h) as [e ->].
  destruct (iptables ["-t"; t; "-S"] h) as [o h1] eqn:E. cbn [fst snd]. eexists _, h1. split; [done|].
  split; [intros t'; change h1 with (snd (o, h1)); rewrite <- E; apply ipt_query; set_solver|].
  assert (Hh : healthy h -> t ∈ tables -> healthy h1 /\ succeeded o = true).
  { intros Hh Ht. split; [change h1 with (snd (o, h1)); rewrite <- E; by apply healthy_keeps|].
    pose proof (healthy_list t h Hh Ht) as Hs. by rewrite E in Hs. }
  destruct o as [m|[] out err]; cbn zeta iota.
  - split; [done|]. split; [apply submseteq_nil_l|]. naive_solver.
  - rewrite (rules_in_listing id out (rules h t)); [|done|apply Hpl|eapply ipt_list; [apply Hpl|exact E]].
    split; [apply Forall_forall; intros r [? _]%list_elem_of_filter; done|].
    split; [apply sublist_submseteq, sublist_filter|]. naive_solver.
  - split; [done|]. split; [apply submseteq_nil_l|]. naive_solver.
Qed.

Lemma of_table_app t l1 l2 : of_table t (l1 ++ l2) = of_table t l1 ++ of_table t l2.
Proof. unfold of_table. by rewrite filter_app, fmap_app. Qed.

Lemma of_table_tabled t t' rs : of_table t ((fun r => (t', r)) <$> rs) = if bool_decide (t = t') then rs else [].
Proof.
  unfold of_table. induction rs as [|r rs IH]; [by case_bool_decide|]. rewrite fmap_cons, filter_cons.
  case_bool_decide as Ht; destruct (decide _) as [E|E]; cbn in E; subst; rewrite ?fmap_cons; cbn; congruence.
Qed.

Lemma tagged_go_cons id t ts h l h1 : host.try (run ["-t"; t; "-S"]) h = (Ok l, h1) ->
  tagged_go id (t :: ts) h
  = match tagged_go id ts h1 with
    | (Ok others, h2) =>
        (Ok (((fun r => (t, r)) <$> match l with Ok d => rules_in id d | Err _ => [] end) ++ others), h2)
    | (Err e, h2) => (Err e, h2)
    end.
Proof.
  intros E. cbn [tagged_go]. rewrite hm_bind_eq, E, hm_bind_eq.
  destruct (tagged_go id ts h1) as [[o|e] h2]; [|done]. by destruct l.
Qed.

Lemma tagged_rules_spec id h : contains_char "034" (tag id) = false -> plain_rules h -> exists l h1,
  tagged_rules id h = (Ok l, h1) /\ (forall t, rules h1 t = rules h t) /\
  Forall (fun x => has_tag id (snd x) = true) l /\ Forall (fun x => fst x ∈ tables) l /\
  (forall t, of_table t l ⊆+ rules h t) /\ (healthy h -> healthy h1 /\ length l = tag_count id h).
Proof.
  intros Hid Hpl. unfold tagged_rules.
  destruct (list_table_spec id NAT_TABLE h Hid Hpl) as (l1 & h1 & E1 & R1 & T1 & S1 & L1).
  assert (Hpl1 : plain_rules h1) by (intros t; rewrite R1; apply Hpl).
  destruct (list_table_spec id FILTER_TABLE h1 Hid Hpl1) as (l2 & h2 & E2 & R2 & T2 & S2 & L2).
  rewrite (tagged_go_cons _ _ _ _ _ _ E1), (tagged_go_cons _ _ _ _ _ _ E2). cbv beta iota delta [mret HM_ret tagged_go].
  rewrite List.app_nil_r.
  set (f1 := match l1 with Ok d => rules_in id d | Err _ => [] end) in *.
  set (f2 := match l2 with Ok d => rules_in id d | Err _ => [] end) in *.
  exists (((fun r => (NAT_TABLE, r)) <$> f1) ++ ((fun r => (FILTER_TABLE, r)) <$> f2)), h2.
  split; [unfold f1, f2; by destruct l1, l2|]. split; [intros t; by rewrite R2, R1|].
  split; [rewrite Forall_app, !Forall_fmap; done|].
  split; [rewrite Forall_app, !Forall_fmap; split; apply Forall_true; cbn; set_solver|]. split.
  - intros t. rewrite of_table_app, !of_table_tabled, R1 in *. repeat case_bool_decide; subst; try done.
    + by rewrite List.app_nil_r.
    + apply submseteq_nil_l.
  - intros Hh. destruct L1 as [Hh1 L1]; [done|set_solver|]. destruct L2 as [Hh2 L2]; [done|set_solver|].
    split; [done|]. rewrite length_app, !length_fmap, L1, L2, R1. done.
Qed.

(** *** Deleting *)

Lemma tagged_perm id rs rs' : rs ≡ₚ rs' -> tagged id rs ≡ₚ tagged id rs' /\ untagged id rs ≡ₚ untagged id rs'.
Proof. intros E. unfold tagged, untagged. by rewrite E. Qed.

(** One rule with the tag is deleted, or nothing changes. *)
Lemma delete_one id table r h :
  r ∈ rules h table -> has_tag id r = true -> table ∈ tables ->
  exists ok h1, run_ok ("-t" :: table :: "-D" :: r) h = (Ok ok, h1) /\
  (forall t, untagged id (rules h1 t) ≡ₚ untagged id (rules h t)) /\
  (tag_count id h = tag_count id h1 + if ok then 1 else 0)%nat /\
  (forall t l, (if bool_decide (t = table) then [r] else []) ++ l ⊆+ rules h t -> l ⊆+ rules h1 t) /\
  (healthy h -> healthy h1 /\ ok = true).
Proof.
  intros Hr Ht Htab. unfold run_ok. rewrite is_run_ok_eq. eexists _, _. split; [done|].
  pose proof (ipt_delete table r h Hr) as Hd.
  pose proof (ipt_failed ("-t" :: table :: "-D" :: r) h) as Hf.
  pose proof (healthy_delete table r h) as Hs. pose proof (healthy_keeps ("-t" :: table :: "-D" :: r) h) as Hk.
  destruct (iptables _ h) as [o h1]. cbn [fst snd] in *.
  destruct (succeeded o); [specialize (Hd eq_refl); clear Hf|specialize (fun t => Hf t eq_refl) as Hf; clear Hd].
  - split; [|split; [|split; [|naive_solver]]].
    + intros t. destruct (tagged_perm id _ _ (Hd t)) as [_ E]. rewrite E. unfold untagged. rewrite filter_app.
      case_bool_decide; [|done]. rewrite filter_cons_False by congruence. done.
    + unfold tag_count. destruct (tagged_perm id _ _ (Hd NAT_TABLE)) as [-> _], (tagged_perm id _ _ (Hd FILTER_TABLE)) as [-> _].
      unfold tagged. rewrite !filter_app, !length_app. unfold tables in Htab.
      rewrite !elem_of_cons, elem_of_nil in Htab. destruct Htab as [->|[->|[]]];
        repeat case_bool_decide; try done; rewrite filter_cons_True by done; cbn; lia.
    + intros t l Hl. rewrite (Hd t) in Hl. by apply submseteq_app_inv_l in Hl.
  - split; [intros t; by rewrite Hf|]. split; [unfold tag_count; rewrite !Hf; lia|]. split; [|naive_solver].
    intros t l Hl. rewrite Hf. etrans; [|exact Hl]. by apply submseteq_inserts_l.
Qed.

Lemma of_table_cons t t' r l :
  of_table t ((t', r) :: l) = (if bool_decide (t = t') then [r] else []) ++ of_table t l.
Proof.
  change ((t', r) :: l) with (((fun r => (t', r)) <$> [r]) ++ l). by rewrite of_table_app, of_table_tabled.
Qed.

Lemma delete_rules_spec id l : forall removed h,
  Forall (fun x => has_tag id (snd x) = true) l -> Forall (fun x => fst x ∈ tables) l ->
  (forall t, of_table t l ⊆+ rules h t) ->
  exists n h1, delete_rules l removed h = (Ok (removed + Z.of_nat n), h1) /\
  (forall t, untagged id (rules h1 t) ≡ₚ untagged id (rules h t)) /\
  tag_count id h = (tag_count id h1 + n)%nat /\ (healthy h -> healthy h1 /\ n = length l).
Proof.
  induction l as [|[t r] l IH]; intros removed h Hl Ht Hs.
  { exists O, h. rewrite Z.add_0_r, Nat.add_0_r. done. }
  apply Forall_cons_1 in Hl as [Hr Hl], Ht as [Htt Ht]. cbn [fst snd] in *.
  assert (Hin : r ∈ rules h t).
  { specialize (Hs t). rewrite of_table_cons, bool_decide_true in Hs by done.
    eapply elem_of_submseteq; [|exact Hs]. set_solver. }
  destruct (delete_one id t r h Hin Hr Htt) as (ok & h1 & E & U1 & C1 & S1 & H1').
  destruct (IH (if ok then removed + 1 else removed) h1 Hl Ht) as (n & h2 & E2 & U2 & C2 & D2).
  { intros t'. apply S1. rewrite <- of_table_cons. apply Hs. }
  exists (n + if ok then 1 else 0)%nat, h2. split.
  { cbn [delete_rules]. rewrite hm_bind_eq.
    change (["-t"; t; "-D"] ++ r) with ("-t" :: t :: "-D" :: r). rewrite E, E2. do 2 f_equal. destruct ok; lia. }
  split; [intros t'; by rewrite U2|]. split; [lia|]. cbn [length].
  intros [Hh1 ->]%H1'. apply D2 in Hh1 as [? ->]. split; [done|lia].
Qed.

(** The clean up answers with a count, whatever the rules are. *)
Lemma cleanup_total id h : exists n h1, cleanup id h = (Ok n, h1).
Proof.
  assert (forall l n h, exists n' h', delete_rules l n h = (Ok n', h')) as Hd.
  { induction l as [|[t r] l IH]; intros n h'; [by eexists _, _|]. cbn [delete_rules]. rewrite hm_bind_eq.
    unfold run_ok. rewrite is_run_ok_eq. apply IH. }
  assert (forall ts h, exists l h', tagged_go id ts h = (Ok l, h')) as Ht.
  { induction ts as [|t ts IH]; intros h'; [by eexists _, _|].
    destruct (host.try (run ["-t"; t; "-S"]) h') as [[l|e] h1] eqn:E.
    - rewrite (tagged_go_cons _ _ _ _ _ _ E). destruct (IH h1) as (l' & h2 & ->). by eexists _, _.
    - unfold host.try in E. by destruct (run _ h'). }
  unfold cleanup, tagged_rules. rewrite hm_bind_eq. destruct (Ht [NAT_TABLE; FILTER_TABLE] h) as (l & h1 & ->). apply Hd.
Qed.

Lemma cleanup_spec id h : contains_char "034" (tag id) = false -> plain_rules h -> exists n h1,
  cleanup id h = (Ok (Z.of_nat n), h1) /\
  (forall t, untagged id (rules h1 t) ≡ₚ untagged id (rules h t)) /\
  tag_count id h = (tag_count id h1 + n)%nat /\ (healthy h -> healthy h1 /\ tag_count id h1 = O).
Proof.
  intros Hid Hpl. destruct (tagged_rules_spec id h Hid Hpl) as (l & h1 & E & R & T & Ht & S & L).
  destruct (delete_rules_spec id l 0 h1 T Ht) as (n & h2 & E2 & U & C & D).
  { intros t. by rewrite R. }
  exists n, h2. unfold cleanup. rewrite hm_bind_eq, E, E2. split; [done|].
  assert (Hc : tag_count id h1 = tag_count id h) by (unfold tag_count; by rewrite !R).
  split; [intros t; by rewrite U, R|]. split; [congruence|].
  intros [Hh1 Hl]%L. apply D in Hh1 as [? ->]. split; [done|]. lia.
Qed.

(** *** Adding *)

(** Between two states of the host only rules of some kind were added. *)
Definition adds (P : string -> list string -> Prop) (h h' : H) : Prop :=
  forall t, exists l, rules h' t ≡ₚ l ++ rules h t /\ Forall (P t) l.

Definition present (h : H) (x : string * list string) : Prop := canon (snd x) ∈ rules h (fst x).

Lemma adds_refl P h : adds P h h.
Proof. intros t. exists []. by split. Qed.

Lemma adds_same P h h' : (forall t, rules h' t = rules h t) -> adds P h h'.
Proof. intros E t. exists []. by rewrite E. Qed.

Lemma adds_trans P h1 h2 h3 : adds P h1 h2 -> adds P h2 h3 -> adds P h1 h3.
Proof.
  intros A1 A2 t. destruct (A1 t) as (l1 & E1 & F1), (A2 t) as (l2 & E2 & F2).
  exists (l2 ++ l1). rewrite E2, E1, List.app_assoc, Forall_app. done.
Qed.

Lemma adds_impl (P Q : string -> list string -> Prop) h h' :
  (forall t r, P t r -> Q t r) -> adds P h h' -> adds Q h h'.
Proof.
  intros HPQ A t. destruct (A t) as (l & E & F). exists l. split; [done|]. eapply Forall_impl; eauto.
Qed.

Lemma adds_present P h h' x : adds P h h' -> present h x -> present h' x.
Proof. intros A Hx. unfold present in *. destruct (A (fst x)) as (l & -> & _). set_solver. Qed.

(** [append_unique] and [insert_unique] differ in the option only. *)
Definition add_unique (op table : string) (args : list string) : HM H unit :=
  present ← rule_exists table args;
  if present : bool then mret tt else _ ← run ("-t" :: table :: op :: args); mret tt.

Lemma add_unique_eq op table args h :
  let '(c, h1) := iptables ("-t" :: table :: "-C" :: args) h in
  add_unique op table args h
  = if succeeded c then (Ok tt, h1)
    else (_ ← run ("-t" :: table :: op :: args); mret tt) h1.
Proof.
  unfold add_unique, rule_exists. rewrite hm_bind_eq, is_run_ok_eq.
  change (["-t"; table; "-C"] ++ args) with ("-t" :: table :: "-C" :: args).
  destruct (iptables ("-t" :: table :: "-C" :: args) h) as [c h1]. cbn [fst snd]. by destruct (succeeded c).
Qed.

Lemma run_unit_eq args h : exists e,
  (_ ← run args; mret tt) h
  = (if succeeded (fst (iptables args h)) then Ok tt else Err e, snd (iptables args h)).
Proof.
  destruct (run_eq args h) as [e E]. exists e. rewrite hm_bind_eq, E. by destruct (fst (iptables args h)) as [|[]].
Qed.

Lemma add_unique_spec op table args h : op ∈ ["-A"; "-I"] -> exists res h1,
  add_unique op table args h = (res, h1) /\
  adds (fun t r => t = table /\ r = canon args) h h1 /\
  (healthy h -> healthy h1 /\ (res = Ok tt -> present h1 (table, args)) /\
                (present h (table, args) -> res = Ok tt /\ forall t, rules h1 t = rules h t)).
Proof.
  intros Hop. pose proof (add_unique_eq op table args h) as E.
  pose proof (fun t => ipt_query table "-C" args h t ltac:(set_solver)) as Rc.
  pose proof (healthy_check table args h) as Hc.
  pose proof (healthy_keeps ("-t" :: table :: "-C" :: args) h) as Kc.
  destruct (iptables ("-t" :: table :: "-C" :: args) h) as [c h1]. cbn [fst snd] in *. rewrite E. clear E.
  destruct (succeeded c).
  { exists (Ok tt), h1. split; [done|]. split; [by apply adds_same|]. intros Hh. split; [by apply Kc|].
    specialize (Hc Hh). symmetry in Hc. apply bool_decide_eq_true in Hc. unfold present. cbn [fst snd]. by rewrite Rc. }
  destruct (run_unit_eq ("-t" :: table :: op :: args) h1) as [e ->].
  pose proof (ipt_add table op args h1 Hop) as Ra. pose proof (ipt_failed ("-t" :: table :: op :: args) h1) as Rf.
  pose proof (healthy_keeps ("-t" :: table :: op :: args) h1) as Ka.
  destruct (iptables ("-t" :: table :: op :: args) h1) as [a h2]. cbn [fst snd] in *. eexists _, h2. split; [done|].
  assert (A : adds (fun t r => t = table /\ r = canon args) h1 h2).
  { destruct (succeeded a); [|apply adds_same; auto]. intros t. eexists. split; [by apply Ra|].
    destruct (decide (t = table)); [rewrite bool_decide_true by done; by constructor|by rewrite bool_decide_false]. }
  split; [by apply (adds_trans _ h h1 h2); [apply adds_same|]|]. intros Hh. split; [auto|]. split.
  - intros Hok. destruct (succeeded a); [|done]. unfold present. cbn [fst snd].
    rewrite (Ra eq_refl table), bool_decide_true by done. set_solver.
  - intros Hp. specialize (Hc Hh). symmetry in Hc. by apply bool_decide_eq_false in Hc.
Qed.

Definition added_by (xs : list (string * list string)) (t : string) (r : list string) : Prop :=
  exists a, (t, a) ∈ xs /\ r = canon a.

Lemma for_each_add_spec op xs : op ∈ ["-A"; "-I"] -> forall h, exists res h1,
  host.for_each (fun '(table, args) => add_unique op table args) xs h = (res, h1) /\
  adds (added_by xs) h h1 /\
  (healthy h -> healthy h1 /\ (res = Ok tt -> Forall (present h1) xs) /\
                (Forall (present h) xs -> res = Ok tt /\ forall t, rules h1 t = rules h t)).
Proof.
  intros Hop. induction xs as [|[t a] xs IH]; intros h.
  { exists (Ok tt), h. split; [done|]. split; [apply adds_refl|]. done. }
  destruct (add_unique_spec op t a h Hop) as (r1 & h1 & E1 & A1 & P1).
  assert (A1' : adds (added_by ((t, a) :: xs)) h h1).
  { eapply adds_impl; [|exact A1]. intros t' r [-> ->]. exists a. split; [set_solver|done]. }
  cbn [host.for_each]. rewrite hm_bind_eq, E1. destruct r1 as [[]|e].
  - destruct (IH h1) as (r2 & h2 & E2 & A2 & P2). exists r2, h2. split; [done|]. split.
    { eapply adds_trans; [exact A1'|]. eapply adds_impl; [|exact A2]. intros t' r (b & Hb & ->). exists b. set_solver. }
    intros Hh. destruct (P1 Hh) as (Hh1 & Q1 & Q1'). destruct (P2 Hh1) as (Hh2 & Q2 & Q2'). split; [done|]. split.
    + intros Hok. constructor; [|by apply Q2]. eapply adds_present; eauto.
    + intros [Hp Hps]%Forall_cons_1. destruct (Q1' Hp) as [_ R1]. destruct Q2' as [-> R2].
      { eapply Forall_impl; [exact Hps|]. intros x Hx. by eapply adds_present. }
      split; [done|]. intros t'. by rewrite R2, R1.
  - exists (Err e), h1. split; [done|]. split; [done|]. intros Hh. destruct (P1 Hh) as (Hh1 & Q1 & Q1').
    split; [done|]. split; [done|]. intros [Hp _]%Forall_cons_1. by destruct (Q1' Hp).
Qed.

(** Making the chains adds no rule. *)
Lemma make_chains_spec l : forall h, exists res h1,
  host.for_each ensure_chain l h = (res, h1) /\ (forall t, rules h1 t = rules h t) /\ (healthy h -> healthy h1).
Proof.
  induction l as [|[t c] l IH]; intros h; [by exists (Ok tt), h|].
  assert (exists r1 h1, ensure_chain (t, c) h = (r1, h1) /\ (forall t', rules h1 t' = rules h t') /\
                        (healthy h -> healthy h1)) as (r1 & h1 & E1 & R1 & K1).
  { unfold ensure_chain, chain_exists. rewrite hm_bind_eq, is_run_ok_eq.
    set (h1 := snd (iptables ["-t"; t; "-S"; c] h)).
    assert (R : forall t', rules h1 t' = rules h t') by (intros t'; apply (ipt_query t "-S" [c]); set_solver).
    assert (K : healthy h -> healthy h1) by apply healthy_keeps.
    destruct (succeeded _); [by exists (Ok tt), h1|]. destruct (run_unit_eq ["-t"; t; "-N"; c] h1) as [e ->].
    eexists _, _. split; [done|]. split; [|intros Hh; by apply healthy_keeps, K].
    intros t'. rewrite <- R. apply (ipt_query t "-N" [c]). set_solver. }
  cbn [host.for_each]. rewrite hm_bind_eq, E1. destruct r1 as [[]|e]; [|by exists (Err e), h1].
  destruct (IH h1) as (r2 & h2 & -> & R2 & K2). exists r2, h2. split; [done|]. split; [|auto].
  intros t'. by rewrite R2, R1.
Qed.

Lemma ensure_chains_spec h : exists res h1,
  ensure_chains h = (res, h1) /\ adds (added_by base_inserts) h h1 /\
  (healthy h -> healthy h1 /\ (res = Ok tt -> Forall (present h1) base_inserts) /\
                (Forall (present h) base_inserts -> forall t, rules h1 t = rules h t)).
Proof.
  destruct (make_chains_spec CHAINS h) as (r1 & h1 & E1 & R1 & K1). unfold ensure_chains. rewrite hm_bind_eq, E1.
  destruct r1 as [[]|e]; [|exists (Err e), h1; split; [done|]; split; [by apply adds_same|]; intros Hh; by split_and!; auto].
  destruct (for_each_add_spec "-I" base_inserts ltac:(set_solver) h1) as (r2 & h2 & E2 & A2 & P2).
  exists r2, h2. split; [exact E2|]. split; [eapply adds_trans; [by apply adds_same|done]|].
  intros Hh. destruct (P2 (K1 Hh)) as (Hh2 & Q2 & Q2'). split; [done|]. split; [done|].
  intros Hp t. destruct Q2' as [_ R2]; [|by rewrite R2, R1].
  eapply Forall_impl; [exact Hp|]. intros x. unfold present. by rewrite R1.
Qed.

Lemma publish_spec id bridge ip m h :
  let xs := base_inserts ++ publish_rules id bridge ip m in
  exists res h1, publish id bridge ip m h = (res, h1) /\ adds (added_by xs) h h1 /\
  (healthy h -> healthy h1 /\ (res = Ok tt -> Forall (present h1) xs) /\
                (Forall (present h) xs -> forall t, rules h1 t = rules h t)).
Proof.
  intros xs. destruct (ensure_chains_spec h) as (r1 & h1 & E1 & A1 & P1). unfold publish. rewrite hm_bind_eq, E1.
  assert (A1' : adds (added_by xs) h h1).
  { eapply adds_impl; [|exact A1]. intros t r (a & Ha & ->). exists a. unfold xs. set_solver. }
  destruct r1 as [[]|e].
  - destruct (for_each_add_spec "-A" (publish_rules id bridge ip m) ltac:(set_solver) h1) as (r2 & h2 & E2 & A2 & P2).
    exists r2, h2. split; [exact E2|]. split.
    { eapply adds_trans; [exact A1'|]. eapply adds_impl; [|exact A2]. intros t r (a & Ha & ->). exists a. unfold xs. set_solver. }
    intros Hh. destruct (P1 Hh) as (Hh1 & Q1 & Q1'). destruct (P2 Hh1) as (Hh2 & Q2 & Q2'). split; [done|].
    unfold xs. rewrite !Forall_app. split.
    + intros Hok. split; [|by apply Q2]. eapply Forall_impl; [by apply Q1|]. intros x. by eapply adds_present.
    + intros [Hb Hp] t. specialize (Q1' Hb). destruct Q2' as [_ R2]; [|by rewrite R2, Q1'].
      eapply Forall_impl; [exact Hp|]. intros x. unfold present. by rewrite Q1'.
  - exists (Err e), h1. split; [done|]. split; [done|]. intros Hh. destruct (P1 Hh) as (Hh1 & _ & Q1').
    split; [done|]. split; [done|]. unfold xs. rewrite Forall_app. intros [Hb _]. by apply Q1'.
Qed.

Lemma commented_last c l : forall prev, commented prev c (l ++ ["-m"; "comment"; "--comment"; c]) = true.
Proof.
  induction l as [|a l IH]; intros prev; cbn [app commented]; [|by rewrite IH, orb_true_r].
  assert (E : next_prev (next_prev (next_prev prev "-m") "comment") "--comment" = "--comment").
  { unfold next_prev at 3. by destruct (is_text prev). }
  rewrite E, (bool_decide_true ("--comment" = "--comment")), (bool_decide_true (c = c)) by done.
  by rewrite !orb_true_r.
Qed.

Lemma publish_rules_tagged id bridge ip m :
  Forall (fun x => has_tag id (canon (snd x)) = true) (publish_rules id bridge ip m).
Proof.
  unfold has_tag, publish_rules. repeat (apply Forall_cons; split); [..|by apply Forall_nil];
    rewrite canon_comment; cbn [snd]; apply (commented_last (tag id)).
Qed.

Lemma valid_id_tag id : util.validate_id id = Ok tt -> contains_char "034" (tag id) = false.
Proof.
  intros (_ & Ha & _)%validate_id_spec. unfold tag. rewrite contains_char_app.
  by rewrite (str_all_not_contains util.id_char "034" id).
Qed.



End facts.

(** ** A packet filter *)

(** A packet filter that only takes the rules of a fixed list, on which the
    theorems are tried. *)
Module sample.

Definition mapping : PortMapping.t := PortMapping.Mk 8080 80 "tcp".

Definition pool : list (string * list string) :=
  base_inserts ++ bridge_rules "myrun0" "10.87.0.0/24" true ++ publish_rules "web" "myrun0" [10; 87; 0; 2] mapping ++
  [("filter", ["INPUT"; "-p"; "tcp"; "-m"; "comment"; "--comment"; "see --to myrun:web"; "-j"; "ACCEPT"])].

(** A rule of somebody else whose comment quotes the option. *)
Definition foreign : string * list string :=
  ("filter", ["INPUT"; "-p"; "tcp"; "-m"; "comment"; "--comment"; "see --comment myrun:web"; "-j"; "ACCEPT"]).

Definition accepted : list (string * list string) := foreign :: pool.

Record host := mk { files : World; installed : list (string * list string) }.

#[export] Instance host_world : HasWorld host := {
  world := files; set_world w h := mk w (installed h) }.

Definition listed (h : host) (t : string) : list (list string) :=
  of_table t (filter (fun x => x ∈ accepted) (installed h)).

Fixpoint remove_one (x : string * list string) (l : list (string * list string)) : list (string * list string) :=
  match l with
  | [] => []
  | y :: l' => if bool_decide (y = x) then l' else y :: remove_one x l'
  end.

Definition listing (rs : list (list string)) : string := unlines ((fun r => "-A " +:+ print_rule r) <$> rs).

Definition refuse (h : host) : ipt_out * host := (Exited false "" "Bad rule", h).
Definition accept (h : host) : ipt_out * host := (Exited true "" "", h).

#[export] Instance host_iptables : Iptables host := fun args h =>
  match args with
  | "-t" :: table :: op :: r =>
      if bool_decide (op = "-S") then
        match r with [] => (Exited true (listing (listed h table)) "", h) | _ => refuse h end
      else if bool_decide (op = "-C") then
        if bool_decide (r ∈ listed h table) then accept h else refuse h
      else if bool_decide (op = "-N") then accept h
      else if bool_decide (op ∈ ["-A"; "-I"]) then
        if bool_decide ((table, r) ∈ accepted) then accept (mk (files h) ((table, r) :: installed h)) else refuse h
      else if bool_decide (op = "-D") then
        if bool_decide (r ∈ listed h table) then accept (mk (files h) (remove_one (table, r) (installed h)))
        else refuse h
      else refuse h
  | _ => refuse h
  end.


(** *** It keeps the promises *)

Definition arg_okb (prev a : string) : bool :=
  negb (str_is_empty a) && negb (contains_char "034" a) &&
  (if is_text prev
   then negb (contains_str "--comment " a) && (negb (str_all simple_char a) || negb (contains_str "--comment" a))
   else str_all is_graph a && (bool_decide (a = "--comment") || negb (contains_str "--comment" a))).

Fixpoint args_okb (prev : string) (r : list string) : bool :=
  match r with [] => true | a :: r' => arg_okb prev a && args_okb (next_prev prev a) r' end.

Lemma arg_okb_sound prev a : arg_okb prev a = true -> arg_ok prev a.
Proof.
  unfold arg_okb, arg_ok, word, free_text. rewrite !andb_true_iff, !negb_true_iff. intros [[Hn Hq] Hx].
  assert (a <> "") by (by destruct a). destruct (is_text prev).
  - apply andb_prop in Hx as [Hx Hy]. split_and!; [done..|by apply negb_true_iff|].
    intros Hs. rewrite Hs in Hy. by apply negb_true_iff.
  - apply andb_prop in Hx as [Hx Hy]. split_and!; [done..|]. apply orb_prop in Hy as [Hy|Hy]; [left|right].
    + by apply bool_decide_eq_true in Hy.
    + by apply negb_true_iff.
Qed.

Lemma args_okb_sound r : forall prev, args_okb prev r = true -> args_ok prev r.
Proof.
  induction r as [|a r IH]; intros prev; [done|]. cbn. intros [Ha Hr]%andb_prop.
  split; [by apply arg_okb_sound|by apply IH].
Qed.

Lemma accepted_line (x : string * list string) : x ∈ accepted -> plain_line ("-A " +:+ print_rule (snd x)) = true.
Proof.
  assert (E : forallb (fun x => plain_line ("-A " +:+ print_rule (snd x))) accepted = true) by (vm_compute; done).
  rewrite forallb_forall in E. intros Hx%list_elem_of_In. by apply (E x Hx).
Qed.

Definition rule_okb (r : list string) : bool := args_okb "" r && negb (bool_decide (r = [])).

(** The listed lines are read back. *)
Lemma lines_listing rs : Forall (fun r => plain_line ("-A " +:+ print_rule r) = true) rs ->
  lines (listing rs) = (fun r => "-A " +:+ print_rule r) <$> rs.
Proof. intros Hr. apply lines_unlines. by rewrite Forall_fmap. Qed.

Lemma listed_in h t r : r ∈ listed h t -> (t, r) ∈ accepted.
Proof.
  unfold listed, of_table. intros ([t' r'] & -> & [Ht Hx]%list_elem_of_filter)%list_elem_of_fmap.
  cbn in Ht. subst. by apply list_elem_of_filter in Hx as [? _].
Qed.

Lemma listed_cons x h t : x ∈ accepted ->
  listed (mk (files h) (x :: installed h)) t = (if bool_decide (t = fst x) then [snd x] else []) ++ listed h t.
Proof.
  destruct x as [t' r]. intros Hx. unfold listed. cbn [installed]. rewrite filter_cons_True by done.
  apply of_table_cons.
Qed.

Lemma remove_one_perm x l : x ∈ l -> l ≡ₚ x :: remove_one x l.
Proof.
  induction l as [|y l IH]; [by intros ?%elem_of_nil|]. cbn [remove_one]. intros Hx.
  case_bool_decide as E; [by subst|]. rewrite IH at 1 by set_solver. apply Permutation_swap.
Qed.

Lemma listed_remove h t t' r : r ∈ listed h t ->
  listed h t' ≡ₚ (if bool_decide (t' = t) then [r] else [])
                 ++ listed (mk (files h) (remove_one (t, r) (installed h))) t'.
Proof.
  intros Hr. pose proof (listed_in h t r Hr) as Hp. unfold listed in *. rewrite <- of_table_cons.
  unfold of_table in Hr at 1. apply list_elem_of_fmap in Hr as ([t1 r1] & E & [Et Hx]%list_elem_of_filter).
  cbn in E, Et. subst. apply list_elem_of_filter in Hx as [_ Hx]. cbn [installed]. unfold of_table.
  rewrite (remove_one_perm _ _ Hx) at 1. by rewrite filter_cons_True.
Qed.

(** The program on the arguments the theorems are about. *)
Lemma iptables_op table op r h :
  iptables ("-t" :: table :: op :: r) h
  = if bool_decide (op = "-S") then
      match r with [] => (Exited true (listing (listed h table)) "", h) | _ => refuse h end
    else if bool_decide (op = "-C") then if bool_decide (r ∈ listed h table) then accept h else refuse h
    else if bool_decide (op = "-N") then accept h
    else if bool_decide (op ∈ ["-A"; "-I"]) then
      if bool_decide ((table, r) ∈ accepted) then accept (mk (files h) ((table, r) :: installed h)) else refuse h
    else if bool_decide (op = "-D") then
      if bool_decide (r ∈ listed h table) then accept (mk (files h) (remove_one (table, r) (installed h)))
      else refuse h
    else refuse h.
Proof. done. Qed.

Lemma iptables_failed args h : succeeded (fst (iptables args h)) = false -> snd (iptables args h) = h.
Proof.
  assert (Hc : forall h', succeeded (fst (accept h')) = false -> snd (accept h') = h) by done.
  unfold iptables, host_iptables. intros Hf.
  repeat match type of Hf with
  | context [match ?x with _ => _ end] => destruct x
  | context [if ?b then _ else _] => destruct b
  end; done || by apply Hc.
Qed.

#[export] Instance host_laws : IptablesLaws host.
Proof.
  refine {| rules := listed; canon r := r; healthy _ := True |}.
  - done.
  - intros args h t Hf. by rewrite iptables_failed.
  - intros table op args h t Hop. rewrite iptables_op.
    repeat case_bool_decide; try done; [by destruct args|set_solver..].
  - intros table h out err h' _. rewrite iptables_op, bool_decide_true by done. intros [= <- <- <-].
    rewrite lines_listing; [|apply Forall_forall; intros r Hr; by apply (accepted_line (table, r)), (listed_in h)].
    induction (listed h table) as [|r rs IH]; [done|]. rewrite fmap_cons, filter_cons_True, IH by done. done.
  - intros table op args h Hop. rewrite iptables_op.
    rewrite !(bool_decide_false (op = _)) by set_solver. rewrite bool_decide_true by done.
    case_bool_decide as Hp; [|done]. intros _ t. cbn [accept snd]. by rewrite listed_cons.
  - intros table r h Hr. rewrite iptables_op, !(bool_decide_false ("-D" = _)), bool_decide_false by set_solver.
    rewrite !bool_decide_true by done. intros _ t. cbn [accept snd]. by apply listed_remove.
  - done.
  - done.
  - intros table args h _. rewrite iptables_op, bool_decide_false, bool_decide_true by done. by case_bool_decide.
  - intros table r h _ Hr. rewrite iptables_op, !(bool_decide_false ("-D" = _)), bool_decide_false by set_solver.
    by rewrite !bool_decide_true.
Defined.

(** Whether the rules of a host are plain is decided on the list of them. *)
Lemma plain_check h : forallb (fun x => rule_okb (snd x)) (installed h) = true -> plain_rules h.
Proof.
  intros E t. apply Forall_forall. intros r Hr. rewrite forallb_forall in E.
  unfold rules, host_laws, listed, of_table in Hr.
  apply list_elem_of_fmap in Hr as (x & -> & [_ Hx]%list_elem_of_filter). apply list_elem_of_filter in Hx as [_ Hx].
  apply list_elem_of_In, E, andb_prop in Hx as [H1 H2]. apply negb_true_iff in H2.
  split; [by apply bool_decide_eq_false in H2|by apply args_okb_sound].
Qed.

Definition start (l : list (string * list string)) : host := mk (MkWorld (MkFs ∅ ∅) [] [] (fun _ => "")) l.

End sample.
Export (hints) sample.



(** The search is for the text of the option anywhere in a line, so a rule
    that only mentions it in a comment is taken for one of the container, and
    deleted. *)
Example foreign_rule_deleted :
  let h := sample.start [sample.foreign] in
  has_tag "web" (snd sample.foreign) = false /\ rules h "filter" = [snd sample.foreign] /\
  (cleanup "web" h).1 = Ok 1 /\ rules (cleanup "web" h).2 "filter" = [].
Proof. vm_compute. split_and!; reflexivity. Qed.

(** A container may be called [base], the name in the tag of the rules all
    containers share: cleaning up after it removes the guard. *)
Example base_is_a_valid_id : util.validate_id "base" = Ok tt /\ has_tag "base" guard_rule = true.
Proof. split; vm_compute; reflexivity. Qed.
