(* ===== verification/Ipam.v ===== *)
(** * [src/runtime/ipam.rs]: address leases

    Each operation of the module takes the lock [ipam.lock] and holds it to
    its end, so operations of different processes do not interleave: a run of
    the system is a sequence of them. *)
From S2P Require Import Prelude RustStr Num Utf8 F64 Error Json Util Net Config Fs.
Import json.

Module ipam.

(** [struct Lease] and [struct Leases]. *)
Record Lease := MkLease { ip : list Z; id : string }.
Record Leases := MkLeases { subnet : string; entries : list Lease }.

Definition default_leases : Leases := MkLeases "" [].

(** ** The file format *)

Definition lease_json (l : Lease) : Json :=
  set (set obj "ip" (JStr (net.format_ipv4 (ip l)))) "id" (JStr (id l)).

Definition to_json (l : Leases) : Json :=
  set (set obj "subnet" (JStr (subnet l))) "leases" (JArr (lease_json <$> entries l)).

(** One turn of the loop of [from_json]. *)
Definition lease_of_json (e : Json) : option Lease :=
  let ip := s ← get_str e "ip"; ok (net.parse_ipv4 s) in
  let id := get_str e "id" in
  match ip, id with Some ip, Some id => Some (MkLease ip id) | _, _ => None end.

Definition from_json (j : Json) : Leases :=
  MkLeases (unwrap_or "" (get_str j "subnet"))
    (match get_array j "leases" with Some a => omap lease_of_json a | None => [] end).

(** ** The choice of an address *)

(** [usable_range]; the arithmetic is that of [u32]. *)
Definition usable_range (subnet : string) : result (Z * Z) :=
  '(a, prefix) ← net.parse_cidr subnet;
  if 30 <? prefix
  then Err (Config ("subnet " +:+ subnet +:+ " is too small to allocate addresses from"))
  else
    let mask := net.mask_of prefix in
    let base := Z.land (net.u32_of a) mask in
    let last := Z.lor base (Z.lxor mask (Z.ones 32)) in
    Ok (wrap_u 32 (base + 1), wrap_u 32 (last - 1)).

(** The loop over [lo..=hi]: the first candidate that is neither the gateway
    nor taken.  [fuel] bounds the candidates looked at; the outer [None] says
    that it ran out. *)
Fixpoint search (fuel : nat) (gw : Z) (taken : list (list Z)) (c hi : Z) : option (option (list Z)) :=
  match fuel with
  | O => None
  | S f =>
      if hi <? c then Some None
      else if c =? gw then search f gw taken (c + 1) hi
      else
        let addr := net.octets_of c in
        if bool_decide (addr ∈ taken) then search f gw taken (c + 1) hi
        else Some (Some addr)
  end.

(** No more candidates are passed over than there are addresses to avoid. *)
Definition search_fuel (taken : list (list Z)) : nat := length taken + 3.

Definition find_id (id' : string) (l : list Lease) : option Lease :=
  snd <$> list_find (fun x => id x = id') l.

Definition without (id' : string) (l : list Lease) : list Lease :=
  filter (fun x => id x <> id') l.

(** [let chosen = match requested ..]. *)
Definition choose (subnet : string) (requested : option (list Z)) (gateway : list Z)
    (taken : list (list Z)) : result (list Z) :=
  let gw := net.u32_of gateway in
  match requested with
  | Some ip =>
      if bool_decide (ip ∈ taken)
      then Err (Config ("address " +:+ net.format_ipv4 ip +:+ " is already leased to another container"))
      else if net.u32_of ip =? gw
      then Err (Config ("address " +:+ net.format_ipv4 ip +:+ " is the bridge gateway"))
      else Ok ip
  | None =>
      '(lo, hi) ← usable_range subnet;
      ok_or (Container ("no free addresses left in " +:+ subnet +:+ " ("
                        +:+ show_dec (Z.of_nat (length taken)) +:+ " in use)"))
        (default None (search (search_fuel taken) gw taken lo hi))
  end.

(** What [allocate] does with the leases it loaded: an address that was
    already leased, or a new one with the leases to store. *)
Inductive decision := Reuse (ip : list Z) | Grant (ip : list Z) (leases : Leases).

Definition decide_lease (sub id' : string) (requested : option (list Z)) (gateway : list Z)
    (leases : Leases) : result decision :=
  let leases := if decide (subnet leases = sub) then leases else MkLeases sub [] in
  match find_id id' (entries leases) with
  | Some existing =>
      if match requested with Some r => bool_decide (r = ip existing) | None => true end
      then Ok (Reuse (ip existing))
      else
        let kept := without id' (entries leases) in
        chosen ← choose sub requested gateway (ip <$> kept);
        Ok (Grant chosen (MkLeases sub (kept ++ [MkLease chosen id'])))
  | None =>
      chosen ← choose sub requested gateway (ip <$> entries leases);
      Ok (Grant chosen (MkLeases sub (entries leases ++ [MkLease chosen id'])))
  end.

(** ** The operations *)

Section Operations.
(** [runtime_root()] and the process id. *)
Context (root : string) (pid : Z).

Definition state_path : string := path.join root "ipam.json".
Definition lock_path : string := path.join root "ipam.lock".

(** What a lease file means; [None] when there is none. *)
Definition leases_in (text : option string) : Leases :=
  match text with
  | None => default_leases
  | Some t =>
      if str_is_empty (trim t) then default_leases
      else match json.parse t with Ok j => from_json j | Err _ => default_leases end
  end.

Definition load : M Leases :=
  there ← ufs.exists_ state_path;
  if (there : bool) then text ← ufs.read_to_string state_path; mret (leases_in (Some text))
  else mret default_leases.

Definition store (l : Leases) : M unit :=
  _ ← ufs.mkdir_p root; ufs.write_atomic pid state_path (to_string_pretty (to_json l)).

Definition guard : M unit := _ ← ufs.mkdir_p root; flock_acquire lock_path.

Definition allocate (sub id' : string) (requested : option (list Z)) (gateway : list Z)
    : M (list Z * Z) :=
  _ ← guard;
  '(_, prefix) ← lift (net.parse_cidr sub);
  leases ← load;
  d ← lift (decide_lease sub id' requested gateway leases);
  match d with
  | Reuse ip => mret (ip, prefix)
  | Grant ip leases' => _ ← store leases'; mret (ip, prefix)
  end.

Definition release (id' : string) : M unit :=
  _ ← guard;
  leases ← load;
  let kept := without id' (entries leases) in
  if (length kept =? length (entries leases))%nat then mret tt
  else store (MkLeases (subnet leases) kept).

Definition lease_of (id' : string) : M (option (list Z)) :=
  _ ← guard; leases ← load; mret (ip <$> find_id id' (entries leases)).

Definition all_leases : M (list Lease) := _ ← guard; leases ← load; mret (entries leases).

Definition gc (live_ids : list string) : M Z :=
  _ ← guard;
  leases ← load;
  let kept := filter (fun l => id l ∈ live_ids) (entries leases) in
  let removed := (length (entries leases) - length kept)%nat in
  if (0 <? removed)%nat
  then _ ← store (MkLeases (subnet leases) kept); mret (Z.of_nat removed)
  else mret (Z.of_nat removed).

End Operations.
End ipam.
