(* ===== verification/IpamFacts.v ===== *)
(** * Theorems about address leases: no address is held twice, the lowest free
    one is granted, and the lease file refines the abstract lease table
    whatever I/O fails *)
From S2P Require Import Prelude RustStr Num Utf8 F64 Error Json JsonFacts Util Net Config ConfigFacts Fs FsFacts Ipam.
Import json ipam.

(** ** The search *)

Section Search.
Context (gw : Z) (taken : list (list Z)).

Definition avoided (x : Z) : Prop := x = gw \/ net.octets_of x ∈ taken.

Lemma search_some fuel c hi a :
  search fuel gw taken c hi = Some (Some a) ->
  exists x, c <= x <= hi /\ a = net.octets_of x /\ ~ avoided x /\ forall y, c <= y < x -> avoided y.
Proof.
  unfold avoided. revert c. induction fuel as [|f IH]; intros c H; cbn in H; [done|].
  destruct (hi <? c) eqn:E1; [done|]. bool_prop.
  assert (c = gw \/ net.octets_of c ∈ taken -> search f gw taken (c + 1) hi = Some (Some a) ->
    exists x, c <= x <= hi /\ a = net.octets_of x /\ ~ (x = gw \/ net.octets_of x ∈ taken) /\
      forall y, c <= y < x -> y = gw \/ net.octets_of y ∈ taken) as Hskip.
  { intros Hc (x & Hx & -> & Hn & Hall)%IH. exists x. split_and!; [lia..|done|done|].
    intros y Hy. destruct (decide (y = c)) as [->|]; [done|]. apply Hall. lia. }
  destruct (c =? gw) eqn:E2; bool_prop; [by apply Hskip; auto|].
  case_bool_decide as E3; [by apply Hskip; auto|]. injection H as <-.
  exists c. split_and!; [lia..|done|naive_solver|]. intros y Hy. lia.
Qed.

Lemma search_none fuel c hi :
  search fuel gw taken c hi = Some None -> forall y, c <= y <= hi -> avoided y.
Proof.
  unfold avoided. revert c. induction fuel as [|f IH]; intros c H y Hy; cbn in H; [done|].
  destruct (hi <? c) eqn:E1; bool_prop; [lia|].
  destruct (c =? gw) eqn:E2; bool_prop;
    [|case_bool_decide as E3; [|done]];
    (destruct (decide (y = c)) as [->|]; [by auto|]; apply (IH _ H); lia).
Qed.

Lemma search_stuck fuel c hi :
  search fuel gw taken c hi = None ->
  forall y, c <= y < c + Z.of_nat fuel -> avoided y /\ y <= hi.
Proof.
  unfold avoided. revert c. induction fuel as [|f IH]; intros c H y Hy; cbn in H; [lia|].
  destruct (hi <? c) eqn:E1; [done|]. bool_prop.
  destruct (c =? gw) eqn:E2; bool_prop;
    [|case_bool_decide as E3; [|done]];
    (destruct (decide (y = c)) as [->|]; [by auto|]; apply (IH _ H); lia).
Qed.

(** The fuel is enough: every candidate passed over is a different address to
    avoid. *)
Lemma search_total c hi :
  0 <= c -> hi < 2 ^ 32 -> exists o, search (search_fuel taken) gw taken c hi = Some o.
Proof.
  intros Hc Hhi. destruct (search _ _ _ c hi) as [o|] eqn:E; [eauto|exfalso].
  assert (seqZ c (Z.of_nat (search_fuel taken)) ⊆ gw :: (net.u32_of <$> taken)) as Hsub.
  { intros y Hy%elem_of_seqZ. destruct (search_stuck _ _ _ E y ltac:(lia)) as [[->|Ht] Hle].
    - constructor.
    - apply elem_of_cons. right. apply list_elem_of_fmap. exists (net.octets_of y). split; [|done].
      rewrite net.u32_octets; [done|]. unfold in_u. lia. }
  pose proof (NoDup_submseteq _ _ (NoDup_seqZ c (Z.of_nat (search_fuel taken))) Hsub) as Hs.
  apply submseteq_length in Hs. rewrite length_seqZ in Hs. cbn in Hs.
  rewrite length_fmap in Hs. unfold search_fuel in Hs. lia.
Qed.

End Search.

(** ** The range *)

Lemma not_mask prefix : 0 <= prefix <= 32 ->
  Z.lxor (net.mask_of prefix) (Z.ones 32) = 2 ^ (32 - prefix) - 1.
Proof.
  intros Hp.
  assert (forallb (fun p => Z.lxor (net.mask_of p) (Z.ones 32) =? 2 ^ (32 - p) - 1) (seqZ 0 33) = true)
    as H by (vm_compute; reflexivity).
  rewrite forallb_forall in H. apply Z.eqb_eq, H. apply list_elem_of_In, elem_of_seqZ. lia.
Qed.

Lemma usable_range_ok sub lo hi :
  usable_range sub = Ok (lo, hi) ->
  exists a prefix, net.parse_cidr sub = Ok (a, prefix) /\ 0 <= prefix <= 30 /\ net.is_addr a /\
    lo = net.net_base a prefix + 1 /\ hi = net.net_base a prefix + 2 ^ (32 - prefix) - 2 /\
    0 <= net.net_base a prefix /\ net.net_base a prefix + 2 ^ (32 - prefix) <= 2 ^ 32.
Proof.
  unfold usable_range. intros ([a prefix] & Hc & H)%bind_ok. exists a, prefix.
  destruct (net.parse_cidr_ok _ _ _ Hc) as [Ha Hp].
  destruct (30 <? prefix) eqn:E; [done|]. bool_prop.
  pose proof (net.u32_of_range a Ha) as Hr. rewrite net.land_mask, not_mask in H by done.
  fold (net.net_base a prefix) in H. set (h := 32 - prefix) in *.
  assert (4 <= 2 ^ h) as H4 by (change 4 with (2 ^ 2); apply Z.pow_le_mono_r; lia).
  assert (2 ^ 32 = 2 ^ h * 2 ^ prefix) as E32 by (rewrite <- Z.pow_add_r by lia; f_equal; lia).
  assert (exists q, net.net_base a prefix = q * 2 ^ h /\ 0 <= q < 2 ^ prefix) as (q & Eq & Hq).
  { exists (net.u32_of a `div` 2 ^ h). unfold net.net_base. fold h. split.
    - pose proof (Z.div_mod (net.u32_of a) (2 ^ h)). lia.
    - unfold in_u in Hr. split; [apply Z.div_pos; lia|]. apply Z.div_lt_upper_bound; lia. }
  assert (Z.lor (net.net_base a prefix) (2 ^ h - 1) = net.net_base a prefix + (2 ^ h - 1)) as El.
  { assert (2 ^ h - 1 = Z.ones h) as -> by (rewrite Z.ones_equiv; lia).
    assert (Z.land (net.net_base a prefix) (Z.ones h) = 0) as E0
      by (rewrite Z.land_ones by lia; rewrite Eq; apply Z.mod_mul; lia).
    rewrite <- Z.lxor_lor, Z.add_nocarry_lxor by done. done. }
  rewrite El in H. rewrite !wrap_u_id in H by (unfold in_u; nia).
  injection H as <- <-. split_and!; try done; try lia; nia.
Qed.

Lemma forall_filter {A : Type} (P Q : A -> Prop) {HP : forall x, Decision (P x)} (l : list A) :
  Forall Q l -> Forall Q (filter P l).
Proof. rewrite !Forall_forall. intros H x [_ Hx]%list_elem_of_filter. auto. Qed.

Lemma filter_same_length {A : Type} (P : A -> Prop) {HP : forall x, Decision (P x)} (l : list A) :
  length (filter P l) = length l -> filter P l = l.
Proof.
  induction l as [|x l IH]; [done|]. rewrite filter_cons. case_decide; cbn.
  - intros H1. f_equal. apply IH. lia.
  - pose proof (length_filter P l). lia.
Qed.

(** ** The lease table *)

Definition table_ok (l : Leases) : Prop :=
  NoDup (ip <$> entries l) /\ NoDup (id <$> entries l) /\
  Forall (fun x => net.is_addr (ip x)) (entries l).

(** Every address of a subnet but its first and last one. *)
Definition host_of (sub : string) (a : list Z) : Prop :=
  exists n prefix, net.parse_cidr sub = Ok (n, prefix) /\ net.in_subnet a n prefix = true /\
    net.u32_of a <> net.net_base n prefix /\
    net.u32_of a <> net.net_base n prefix + 2 ^ (32 - prefix) - 1.

Lemma choose_ok sub req gw taken a :
  opt_all net.is_addr req -> net.is_addr gw -> choose sub req gw taken = Ok a ->
  net.is_addr a /\ (a ∉ taken) /\ a <> gw /\
  match req with
  | Some r => a = r
  | None => host_of sub a /\ (forall x, host_of sub x -> net.is_addr x -> (x ∉ taken) -> x <> gw ->
              net.u32_of a <= net.u32_of x)
  end.
Proof.
  intros Hreq Hgw. unfold choose. destruct req as [r|].
  - case_bool_decide as Ht; [done|]. destruct (net.u32_of r =? net.u32_of gw) eqn:E; [done|].
    bool_prop. intros [= ->]. split_and!; [done..| |done]. by intros ->.
  - intros ([lo hi] & Hr & H)%bind_ok.
    destruct (usable_range_ok _ _ _ Hr) as (n & p & Hc & Hp & Hn & -> & -> & H0 & H32).
    destruct (search _ _ _ _ _) as [[x|]|] eqn:E; cbn in H; try done. injection H as <-.
    apply search_some in E as (y & Hy & -> & Hav & Hlow).
    assert (in_u 32 y) as Hyr by (unfold in_u; lia).
    pose proof (net.octets_addr y) as Hoa.
    split_and!; [done|by intros ?; apply Hav; right| | |].
    + intros <-. apply Hav. left. by rewrite net.u32_octets.
    + exists n, p. split; [done|]. rewrite net.u32_octets by done. split_and!; try lia.
      apply net.in_subnet_interval; [done|done|lia|]. rewrite net.u32_octets by done. lia.
    + intros x (n' & p' & Hc' & Hin & Hf & Hl) Hx Hxt Hxg. rewrite Hc in Hc'. simplify_eq.
      apply net.in_subnet_interval in Hin; [|done..|lia].
      rewrite net.u32_octets by done. destruct (Z_le_gt_dec y (net.u32_of x)); [done|exfalso].
      destruct (Hlow (net.u32_of x) ltac:(lia)) as [Eg|Et].
      * apply Hxg. rewrite <- (net.octets_u32 x), <- (net.octets_u32 gw) by done. by rewrite Eg.
      * apply Hxt. by rewrite net.octets_u32 in Et.
Qed.

(** The search only fails when every address is leased or the gateway. *)
Lemma choose_full sub gw taken m :
  choose sub None gw taken = Err (Container m) ->
  forall a, net.is_addr a -> host_of sub a -> a ∈ taken \/ net.u32_of a = net.u32_of gw.
Proof.
  unfold choose. destruct (usable_range sub) as [[lo hi]|e] eqn:Hr; cbn.
  2: { intros [= ->]. unfold usable_range in Hr. destruct (net.parse_cidr sub) as [[a p]|e] eqn:E; cbn in Hr.
       - by destruct (30 <? p).
       - apply net.parse_cidr_err in E as [m' ->]. done. }
  destruct (usable_range_ok _ _ _ Hr) as (n & p & Hc & Hp & Hn & -> & -> & H0 & H32).
  destruct (search_total (net.u32_of gw) taken (net.net_base n p + 1)
    (net.net_base n p + 2 ^ (32 - p) - 2) ltac:(lia) ltac:(lia)) as [o Ho].
  rewrite Ho. cbn. destruct o; [done|]. intros _ a Ha (n' & p' & Hc' & Hin & Hf & Hl).
  rewrite Hc in Hc'. simplify_eq. apply net.in_subnet_interval in Hin; [|done..|lia].
  destruct (search_none _ _ _ _ _ Ho (net.u32_of a) ltac:(lia)) as [->|Ht]; [by right|left].
  by rewrite net.octets_u32 in Ht.
Qed.

(** ** What [allocate] decides *)

Definition granted_ip (d : decision) : list Z := match d with Reuse a | Grant a _ => a end.
Definition table_after (l : Leases) (d : decision) : Leases :=
  match d with Reuse _ => l | Grant _ l' => l' end.

Lemma find_id_some i l x : find_id i l = Some x -> x ∈ l /\ id x = i.
Proof.
  unfold find_id. destruct (list_find _ l) as [[n y]|] eqn:E; cbn; [|done]. intros [= ->].
  apply list_find_Some in E as (H1 & H2 & _). split; [|done]. by eapply list_elem_of_lookup_2.
Qed.

Lemma find_id_none i l : find_id i l = None -> Forall (fun x => id x <> i) l.
Proof. unfold find_id. destruct (list_find _ l) eqn:E; [done|]. intros _. by apply list_find_None in E. Qed.

Lemma elem_of_without i l x : x ∈ without i l <-> x ∈ l /\ id x <> i.
Proof. unfold without. rewrite list_elem_of_filter. tauto. Qed.

Lemma NoDup_fmap_filter {A B : Type} (f : A -> B) (P : A -> Prop) `{!forall x, Decision (P x)} l :
  NoDup (f <$> l) -> NoDup (f <$> filter P l).
Proof. intros HN. eapply sublist_NoDup; [done|]. apply fmap_sublist, sublist_filter. Qed.

Lemma table_filter (P : Lease -> Prop) `{!forall x, Decision (P x)} s l :
  table_ok l -> table_ok (MkLeases s (filter P (entries l))).
Proof.
  intros (H1 & H2 & H3). split_and!; cbn; try (by apply NoDup_fmap_filter).
  rewrite Forall_forall in *. intros x [_ Hx]%list_elem_of_filter. by apply H3.
Qed.

Lemma table_push s l a i :
  table_ok (MkLeases s l) -> (a ∉ ip <$> l) -> Forall (fun x => id x <> i) l -> net.is_addr a ->
  table_ok (MkLeases s (l ++ [MkLease a i])).
Proof.
  intros (H1 & H2 & H3) Ha Hi Haddr. cbn in *. split_and!; cbn.
  - rewrite fmap_app. apply NoDup_app. split_and!; [done| |apply NoDup_singleton].
    intros x Hx ->%list_elem_of_singleton. done.
  - rewrite fmap_app. apply NoDup_app. split_and!; [done| |apply NoDup_singleton].
    intros x (y & -> & Hy)%list_elem_of_fmap E%list_elem_of_singleton.
    rewrite Forall_forall in Hi. by apply (Hi y Hy).
  - apply Forall_app. split; [done|]. by constructor.
Qed.

(** The leases a request for [sub] sees. *)
Definition current (sub : string) (l : Leases) : Leases :=
  if decide (subnet l = sub) then l else MkLeases sub [].

Lemma current_ok sub l : table_ok l -> table_ok (current sub l).
Proof. unfold current. case_decide; [done|]. intros _. split_and!; cbn; constructor. Qed.

Lemma decide_cases sub i req gw l d :
  table_ok l -> opt_all net.is_addr req -> net.is_addr gw -> decide_lease sub i req gw l = Ok d ->
  let old := entries (current sub l) in
  match d with
  | Reuse a => MkLease a i ∈ old
  | Grant a l' => subnet l' = sub /\ entries l' = without i old ++ [MkLease a i] /\
      (a ∉ ip <$> without i old) /\ table_ok l' /\ a <> gw /\
      match req with
      | Some r => a = r
      | None => host_of sub a /\ forall x, host_of sub x -> net.is_addr x ->
                  (x ∉ ip <$> old) -> x <> gw -> net.u32_of a <= net.u32_of x
      end
  end.
Proof.
  intros Hl Hreq Hgw. unfold decide_lease. fold (current sub l). pose proof (current_ok sub l Hl) as Hc.
  cbv zeta. destruct (find_id i (entries (current sub l))) as [x|] eqn:Ef.
  - apply find_id_some in Ef as [Hx <-]. case_match eqn:Em.
    + intros [= <-]. by destruct x.
    + intros (a & Ha & [= <-])%bind_ok.
      destruct (choose_ok _ _ _ _ _ Hreq Hgw Ha) as (A1 & A2 & A3 & A4).
      destruct req as [r|]; [|done]. split_and!; try done.
      apply (table_push sub); [|done| |done].
      * by apply (table_filter (fun y => id y <> id x)).
      * apply Forall_forall. by intros y [_ ?]%elem_of_without.
  - pose proof (find_id_none _ _ Ef) as Hn. intros (a & Ha & [= <-])%bind_ok.
    destruct (choose_ok _ _ _ _ _ Hreq Hgw Ha) as (A1 & A2 & A3 & A4).
    assert (without i (entries (current sub l)) = entries (current sub l)) as ->.
    { unfold without. clear -Hn. induction Hn; [done|]. rewrite filter_cons_True by done. by f_equal. }
    split_and!; try done. by apply (table_push sub).
Qed.

(** [allocate] hands an address to one container at a time: what it grants
    is leased to nobody else and is not the gateway; without a request it is
    the lowest host address of the subnet that is free; a second call gives a
    container its own address back; and it fails for want of addresses only
    when every host address is leased or the gateway. *)
Theorem allocate_decision (sub i : string) (req : option (list Z)) (gw : list Z) (l : Leases) :
  table_ok l -> opt_all net.is_addr req -> net.is_addr gw ->
  match decide_lease sub i req gw l with
  | Ok d =>
      table_ok (table_after l d) /\
      MkLease (granted_ip d) i ∈ entries (table_after l d) /\
      match d with
      | Reuse a => forall x, x ∈ entries l -> ip x = a -> id x = i
      | Grant a l' =>
          a <> gw /\ (forall x, x ∈ entries l' -> ip x = a -> id x = i) /\
          match req with
          | Some r => a = r
          | None => host_of sub a /\ forall x, host_of sub x -> net.is_addr x ->
                  (x ∉ ip <$> entries (current sub l)) -> x <> gw -> net.u32_of a <= net.u32_of x
          end
      end
  | Err (Container _) => forall a, net.is_addr a -> host_of sub a ->
      a ∈ ip <$> entries (current sub l) \/ a = gw
  | Err _ => True
  end.
Proof.
  intros Hl Hreq Hgw. destruct (decide_lease sub i req gw l) as [d|e] eqn:Ed.
  - pose proof (decide_cases _ _ _ _ _ _ Hl Hreq Hgw Ed) as Hd. cbv zeta in Hd.
    assert (forall t a j, table_ok t -> MkLease a j ∈ entries t ->
      forall x, x ∈ entries t -> ip x = a -> id x = j) as Huniq.
    { intros t a j (Hn & _) Hin x Hx <-. apply list_elem_of_lookup in Hin as [n1 E1], Hx as [n2 E2].
      assert (n1 = n2) as ->.
      { apply (NoDup_lookup (ip <$> entries t) n1 n2 (ip x)); [done|..];
          rewrite list_lookup_fmap; [by rewrite E1|by rewrite E2]. }
      rewrite E1 in E2. injection E2 as <-. done. }
    destruct d as [a|a l']; cbn.
    + assert (MkLease a i ∈ entries l) as Hin.
      { unfold current in Hd. case_decide; [done|]. by apply elem_of_nil in Hd. }
      split_and!; [done..|]. by apply (Huniq l).
    + destruct Hd as (H1 & H2 & H3 & H4 & H5 & H6).
      assert (MkLease a i ∈ entries l') as Hin by (rewrite H2; set_solver).
      split_and!; [done..| |done]. by apply (Huniq l').
  - destruct e; try done. intros a Ha Hhost. unfold decide_lease in Ed. fold (current sub l) in Ed.
    cbv zeta in Ed.
    assert (forall k, choose sub req gw (ip <$> k) = Err (Container m) ->
        (forall x, x ∈ k -> x ∈ entries (current sub l)) ->
        a ∈ ip <$> entries (current sub l) \/ a = gw) as Hfull.
    { intros k Hk Hsub. destruct req as [r|].
      - unfold choose in Hk. case_bool_decide; [done|]. by destruct (_ =? _).
      - destruct (choose_full _ _ _ _ Hk a Ha Hhost) as [Ht|Eg].
        + left. apply list_elem_of_fmap in Ht as (x & -> & Hx). apply list_elem_of_fmap. eauto.
        + right. rewrite <- (net.octets_u32 a), <- (net.octets_u32 gw) by done. by rewrite Eg. }
    destruct (find_id i _).
    + case_match; [done|]. destruct (choose _ _ _ _) eqn:Ec; cbn in Ed; [done|]. simplify_eq.
      apply (Hfull _ Ec). intros x [? _]%elem_of_without. done.
    + destruct (choose _ _ _ _) eqn:Ec; cbn in Ed; [done|]. simplify_eq. by apply (Hfull _ Ec).
Qed.

Lemma allocate_decision_witness :
  let l := MkLeases "10.87.0.0/29" [MkLease [10; 87; 0; 2] "a"; MkLease [10; 87; 0; 4] "b"] in
  match decide_lease "10.87.0.0/29" "c" None [10; 87; 0; 1] l with
  | Ok d =>
      table_ok (table_after l d) /\
      MkLease (granted_ip d) "c" ∈ entries (table_after l d) /\
      match d with
      | Reuse a => forall x, x ∈ entries l -> ip x = a -> id x = "c"
      | Grant a l' =>
          a <> [10; 87; 0; 1] /\ (forall x, x ∈ entries l' -> ip x = a -> id x = "c") /\
          (host_of "10.87.0.0/29" a /\ forall x, host_of "10.87.0.0/29" x -> net.is_addr x ->
             (x ∉ ip <$> entries (current "10.87.0.0/29" l)) -> x <> [10; 87; 0; 1] ->
             net.u32_of a <= net.u32_of x)
      end
  | Err (Container _) => forall a, net.is_addr a -> host_of "10.87.0.0/29" a ->
      a ∈ ip <$> entries (current "10.87.0.0/29" l) \/ a = [10; 87; 0; 1]
  | Err _ => True
  end.
Proof.
  apply (allocate_decision "10.87.0.0/29" "c" None [10; 87; 0; 1]); [|exact I|].
  - split_and!; apply (bool_decide_unpack _); vm_compute; exact I.
  - apply (bool_decide_unpack _); vm_compute; exact I.
Defined.

(** ** Runs

    Operations on any subnets, with the addresses the containers hold kept
    beside the table: what a call returned, until it is released or collected,
    or until an allocation on another subnet makes the leases of the old one
    meaningless (the file holds one subnet). *)
Definition since (cur sub : string) (held : gmap string (list Z)) : gmap string (list Z) :=
  if decide (cur = sub) then held else ∅.

Inductive run : string -> Leases -> gmap string (list Z) -> Prop :=
| run_start sub : run sub default_leases ∅
| run_allocate cur sub l held i req gw d :
    run cur l held -> opt_all net.is_addr req -> net.is_addr gw ->
    decide_lease sub i req gw l = Ok d ->
    run sub (table_after l d) (<[i := granted_ip d]> (since cur sub held))
| run_release cur l held i :
    run cur l held ->
    run cur (MkLeases (subnet l) (without i (entries l))) (delete i held)
| run_gc cur l held (live : list string) :
    run cur l held ->
    run cur (MkLeases (subnet l) (filter (fun x => id x ∈ live) (entries l)))
      (filter (fun kv => kv.1 ∈ live) held).

(** The table is exactly what is held. *)
Definition in_step (sub : string) (l : Leases) (held : gmap string (list Z)) : Prop :=
  table_ok l /\ (subnet l = sub \/ entries l = []) /\
  forall i a, held !! i = Some a <-> MkLease a i ∈ entries l.

(** What a request on [sub] sees is what is held there. *)
Lemma current_since cur sub l held : in_step cur l held ->
  forall i a, since cur sub held !! i = Some a <-> MkLease a i ∈ entries (current sub l).
Proof.
  intros (_ & Hs & H) i a. unfold since, current. destruct (decide (cur = sub)) as [->|Hne].
  - rewrite H. destruct Hs as [->|E]; [by rewrite decide_True|]. case_decide; [done|]. cbn. by rewrite E.
  - rewrite lookup_empty. case_decide as Hc; [|cbn; by rewrite elem_of_nil].
    destruct Hs as [?|E]; [congruence|]. by rewrite E, elem_of_nil.
Qed.

Lemma table_same_id l a b i :
  table_ok l -> MkLease a i ∈ entries l -> MkLease b i ∈ entries l -> a = b.
Proof.
  intros (_ & Hn & _) [n1 E1]%list_elem_of_lookup [n2 E2]%list_elem_of_lookup.
  assert (n1 = n2) as -> by (apply (NoDup_lookup (id <$> entries l) n1 n2 i); [done|..];
    rewrite list_lookup_fmap; [by rewrite E1|by rewrite E2]).
  rewrite E1 in E2. by injection E2.
Qed.

Lemma run_in_step sub l held : run sub l held -> in_step sub l held.
Proof.
  induction 1 as [sub|cur sub l held i req gw d H IH Hreq Hgw Hd|sub l held i H IH|sub l held live H IH].
  - split; [split_and!; cbn; constructor|]. split; [by right|].
    intros i a. cbn. rewrite lookup_empty, elem_of_nil. done.
  - pose proof (current_since cur sub _ _ IH) as Ec. destruct IH as (I1 & I2 & I3).
    pose proof (decide_cases _ _ _ _ _ _ I1 Hreq Hgw Hd) as Hc. cbv zeta in Hc.
    destruct d as [a|a l']; cbn [table_after granted_ip].
    + assert (current sub l = l /\ subnet l = sub) as [El Es].
      { unfold current in *. case_decide; [done|]. by apply elem_of_nil in Hc. }
      rewrite El in *. split_and!; [done|by left|]. intros j b. destruct (decide (i = j)) as [<-|Hne].
      * rewrite lookup_insert_eq. split; [by intros [= <-]|].
        intros Hb. f_equal. by apply (table_same_id l a b i).
      * by rewrite lookup_insert_ne.
    + destruct Hc as (E1 & E2 & _ & Ht & _). split_and!; [done|by left|]. intros j b. rewrite E2.
      rewrite elem_of_app, elem_of_without, list_elem_of_singleton. cbn [id].
      destruct (decide (i = j)) as [<-|Hne].
      * rewrite lookup_insert_eq. naive_solver.
      * rewrite lookup_insert_ne by done. rewrite Ec. naive_solver.
  - destruct IH as (I1 & I2 & I3). split_and!; cbn.
    + by apply (table_filter (fun x => id x <> i)).
    + destruct I2 as [?|I2]; [by left|]. right. unfold without. by rewrite I2.
    + intros j b. rewrite elem_of_without. cbn [id]. destruct (decide (i = j)) as [<-|Hne].
      * rewrite lookup_delete_eq. naive_solver.
      * rewrite lookup_delete_ne by done. rewrite I3. naive_solver.
  - destruct IH as (I1 & I2 & I3). split_and!; cbn.
    + by apply (table_filter (fun x => id x ∈ live)).
    + destruct I2 as [?|I2]; [by left|]. right. by rewrite I2.
    + intros j b. rewrite list_elem_of_filter. cbn [id].
      rewrite map_lookup_filter_Some, I3. cbn. tauto.
Qed.

Lemma run_exclusive sub l held :
  run sub l held -> forall i j a, held !! i = Some a -> held !! j = Some a -> i = j.
Proof.
  intros ((Hn & _) & _ & I3)%run_in_step i j a Hi%I3 Hj%I3.
  apply list_elem_of_lookup in Hi as [n1 E1], Hj as [n2 E2].
  assert (n1 = n2) as -> by (apply (NoDup_lookup (ip <$> entries l) n1 n2 a); [done|..];
    rewrite list_lookup_fmap; [by rewrite E1|by rewrite E2]).
  rewrite E1 in E2. by injection E2.
Qed.

Definition gw1 : list Z := [10; 87; 0; 1].

(** With two subnets it is otherwise: an allocation on the second forgets the
    leases of the first, whose containers still run, and the next allocation
    on the first hands out an address that is in use. *)
Example second_subnet_forgets_leases :
  (t1 ← decide_lease "10.87.0.0/24" "a" None gw1 default_leases;
   let l1 := table_after default_leases t1 in
   t2 ← decide_lease "10.88.0.0/24" "b" None [10; 88; 0; 1] l1;
   let l2 := table_after l1 t2 in
   t3 ← decide_lease "10.87.0.0/24" "c" None gw1 l2;
   Ok (granted_ip t1, granted_ip t3)) = Ok ([10; 87; 0; 2], [10; 87; 0; 2]).
Proof. vm_compute. reflexivity. Qed.

(** ** The lease file refines the table *)

Definition leases_wf (l : Leases) : Prop :=
  utf8 (subnet l) /\ Forall (fun x => utf8 (id x) /\ net.is_addr (ip x)) (entries l).

Lemma ipv4_utf8 a : net.is_addr a -> utf8 (net.format_ipv4 a).
Proof.
  intros [Hl Ha]. unfold net.format_ipv4, utf8.
  destruct a as [|o1 [|o2 [|o3 [|o4 [|]]]]]; try done.
  repeat (apply Forall_cons in Ha as [[? _] Ha]). cbn [fmap list_fmap join].
  assert (forall n s, 0 <= n -> valid_utf8 s = true -> valid_utf8 (show_u 10 n +:+ s) = true) as Happ
    by (intros; apply security_config.valid_utf8_ascii_app; [by apply show_u_dec|done]).
  repeat (apply Happ; [done|]; change (valid_utf8 ("." +:+ ?s)) with (valid_utf8 s)).
  by apply security_config.dec_ascii, show_u_dec.
Qed.

Lemma lease_json_back x : net.is_addr (ip x) -> lease_of_json (lease_json x) = Some x.
Proof.
  intros Ha. unfold lease_of_json, lease_json, get_str. json_get.
  cbn [mbind option_bind as_str]. rewrite net.parse_format_ipv4 by done. by destruct x.
Qed.

Lemma norm_lease x : norm (lease_json x) = lease_json x.
Proof. unfold lease_json. by rewrite !norm_set. Qed.

Lemma leases_text l :
  leases_wf l -> leases_in (Some (to_string_pretty (to_json l))) = l.
Proof.
  intros [Hs Hl]. unfold leases_in.
  assert (json_ok (to_json l) = true) as Hok.
  { unfold to_json. json_ok_fields; [done|]. apply json_ok_arr. apply (Forall_impl _ _ _ Hl).
    intros x [H1 H2]. unfold lease_json. json_ok_fields; [by apply ipv4_utf8|done]. }
  assert (exists s, to_string_pretty (to_json l) = String "{" s) as [s Es].
  { unfold to_string_pretty, to_json. cbn [write set set_slot obj]. by eexists. }
  rewrite Es, trim_graph_nonempty, <- Es by done. unfold to_string_pretty.
  rewrite parse_write by done. unfold to_json. rewrite !norm_set by done.
  rewrite norm_arr by apply norm_lease. unfold from_json, get_str, get_array. json_get.
  cbn [mbind option_bind as_str as_array norm]. change (unwrap_or ?d (Some ?x)) with x.
  assert (omap lease_of_json (lease_json <$> entries l) = entries l) as ->; [|by destruct l].
  induction Hl as [|x k [_ Hx] Hl IH]; [done|]. cbn [fmap list_fmap].
  change (omap lease_of_json (?a :: ?r)) with
    (match lease_of_json a with Some y => y :: omap lease_of_json r | None => omap lease_of_json r end).
  rewrite lease_json_back by done. rewrite <- IH at 2. done.
Qed.

Section Refinement.
Context (root : string) (pid : Z) (Hroot : path.dir_ok root).

Lemma ipam_json_ok : path.name_ok "ipam.json".
Proof. done. Qed.
Lemma ipam_lock_ok : path.name_ok "ipam.lock".
Proof. done. Qed.

Lemma paths_differ : lock_path root <> state_path root.
Proof. intros E. apply path.join_inj in E; done. Qed.

(** The table the file stands for. *)
Definition table_of (w : World) : Leases := leases_in (files (fs w) !! state_path root).

Lemma keeps_table w w' : keeps (state_path root) w w' -> table_of w' = table_of w.
Proof. unfold keeps, table_of. by intros ->. Qed.

Lemma guard_keeps w : keeps (state_path root) w (guard root w).2.
Proof.
  unfold guard, mbind, M_bind. pose proof (mkdir_p_keeps (state_path root) root w) as H.
  destruct (ufs.mkdir_p root w) as [[u|e] w1]; [|done].
  eapply keeps_trans; [exact H|]. apply flock_keeps, paths_differ.
Qed.

Lemma lease_load_spec w :
  let '(r, w') := load root w in
  keeps (state_path root) w w' /\ (forall l, r = Ok l -> l = table_of w).
Proof.
  unfold load, ufs.exists_, table_of, mbind, M_bind.
  destruct (path_exists (fs w) (state_path root)) eqn:Ee.
  - pose proof (read_to_string_spec (state_path root) w) as H.
    destruct (ufs.read_to_string (state_path root) w) as [[s|e] w1]; destruct H as [(E & _) H2].
    + split; [unfold keeps; cbn; by rewrite E|]. intros l Hl. injection Hl as <-.
      by destruct (H2 s eq_refl) as [-> _].
    + split; [unfold keeps; by rewrite E|done].
  - split; [done|]. intros l [= <-]. unfold path_exists in Ee. apply orb_false_iff in Ee as [_ Ee].
    by destruct (files (fs w) !! state_path root).
Qed.

Lemma store_spec l w :
  leases_wf l ->
  let '(r, w') := store root pid l w in
  match r with Ok _ => table_of w' = l | Err _ => keeps (state_path root) w w' end.
Proof.
  intros Hl. unfold store, mbind, M_bind.
  pose proof (mkdir_p_keeps (state_path root) root w) as H.
  destruct (ufs.mkdir_p root w) as [[u|e] w1]; [|done].
  destruct (ufs.write_atomic pid (state_path root) _ w1) as [r w2] eqn:E.
  pose proof (write_atomic.write_atomic_spec pid (state_path root) _ _ eq_refl
    (write_atomic.tmp_path_ne pid root "ipam.json" Hroot ipam_json_ok) _ _ _ E) as [_ Hr].
  destruct r as [u'|e].
  - destruct Hr as [Hr _]. unfold table_of. rewrite Hr. by apply leases_text.
  - eapply keeps_trans; [exact H|done].
Qed.

Lemma decide_wf sub i req gw l d :
  leases_wf l -> table_ok l -> utf8 sub -> utf8 i -> opt_all net.is_addr req -> net.is_addr gw ->
  decide_lease sub i req gw l = Ok d -> leases_wf (table_after l d).
Proof.
  intros [W1 W2] Hl Hs Hi Hreq Hgw Hd.
  pose proof (decide_cases _ _ _ _ _ _ Hl Hreq Hgw Hd) as Hc. cbv zeta in Hc.
  destruct d as [a|a l']; cbn; [by split|]. destruct Hc as (E1 & E2 & _ & (_ & _ & H3) & _).
  split; [by rewrite E1|]. rewrite Forall_forall in *. intros x Hx. split; [|by apply H3].
  rewrite E2 in Hx. apply elem_of_app in Hx as [[Hx _]%elem_of_without|Hx%list_elem_of_singleton]; [|by subst].
  unfold current in Hx. case_decide; [|by apply elem_of_nil in Hx]. by apply W2.
Qed.

(** No call fails, and the paths of the module are not taken by directories. *)
Definition healthy (w : World) : Prop :=
  plan w = [] /\ root ∈ dirs (fs w) /\ (lock_path root ∉ dirs (fs w)) /\
  (state_path root ∉ dirs (fs w)) /\ (ufs.tmp_path pid (state_path root) ∉ dirs (fs w)) /\
  opt_all utf8 (files (fs w) !! state_path root).

Lemma mkdir_p_there d w : plan w = [] -> d ∈ dirs (fs w) -> ufs.mkdir_p d w = (Ok tt, w).
Proof.
  intros Hp Hd. unfold ufs.mkdir_p, io_err, fs_create_dir_all, next_fault. rewrite Hp.
  by rewrite bool_decide_eq_true_2.
Qed.

Lemma guard_healthy w : healthy w -> exists w', guard root w = (Ok tt, w') /\ healthy w'.
Proof.
  intros (Hp & Hd & Hl & Hs & Ht & Hu). unfold guard, mbind, M_bind. rewrite mkdir_p_there by done.
  unfold flock_acquire, mbind, M_bind, io_err, next_fault. rewrite Hp.
  destruct (files (fs w) !! lock_path root) eqn:El.
  - unfold sys_flock, next_fault. rewrite Hp. by eexists.
  - rewrite bool_decide_eq_false_2 by done. unfold in_dir at 1, lock_path at 1.
    rewrite path.parent_join by done. rewrite (bool_decide_eq_true_2 (root ∈ _)), orb_true_r by done.
    cbn [negb]. unfold sys_flock, next_fault, set_fs. cbn [plan]. rewrite Hp.
    eexists. split; [done|]. split_and!; cbn [plan fs dirs files]; try done.
    rewrite lookup_insert_ne by apply paths_differ. done.
Qed.

Lemma load_healthy w : healthy w -> load root w = (Ok (table_of w), w).
Proof.
  intros (Hp & Hd & Hl & Hs & Ht & Hu). unfold load, ufs.exists_, table_of, mbind, M_bind, path_exists.
  rewrite bool_decide_eq_false_2 by done. destruct (files (fs w) !! state_path root) as [t|] eqn:E; [|done].
  cbn [orb]. unfold ufs.read_to_string, io_err, fs_read_to_string, next_fault. rewrite Hp, E.
  cbn in Hu. by rewrite Hu.
Qed.

Lemma store_healthy l w : healthy w -> (store root pid l w).1 = Ok tt.
Proof.
  intros (Hp & Hd & Hl & Hs & Ht & Hu). unfold store, mbind, M_bind. rewrite mkdir_p_there by done.
  by apply (write_atomic.write_atomic_succeeds pid root "ipam.json").
Qed.

(** What [allocate] answers when nothing fails. *)
Definition answer (sub i : string) (req : option (list Z)) (gw : list Z) (l : Leases) : result (list Z * Z) :=
  '(_, prefix) ← net.parse_cidr sub; d ← decide_lease sub i req gw l; Ok (granted_ip d, prefix).

Lemma allocate_healthy sub i req gw w :
  healthy w -> (allocate root pid sub i req gw w).1 = answer sub i req gw (table_of w).
Proof.
  intros Hw. destruct (guard_healthy w Hw) as (w1 & Hg & Hw1). unfold allocate, answer.
  pose proof (guard_keeps w) as K. rewrite Hg in K. apply keeps_table in K. cbn [snd] in K.
  unfold mbind, M_bind. rewrite Hg. unfold lift at 1.
  destruct (net.parse_cidr sub) as [[a p]|e]; [|done]. rewrite load_healthy, K by done.
  unfold lift. cbn [mbind result_bind]. destruct (decide_lease _ _ _ _ _) as [[b|b l']|e] eqn:Ed; try done.
  pose proof (store_healthy l' w1 Hw1) as S. destruct (store root pid l' w1) as [r2 w2].
  cbn in S. by subst.
Qed.

Lemma allocate_sim sub i req gw w w' r :
  leases_wf (table_of w) -> table_ok (table_of w) -> utf8 sub -> utf8 i ->
  opt_all net.is_addr req -> net.is_addr gw ->
  allocate root pid sub i req gw w = (r, w') ->
  match r with
  | Ok (a, prefix) => exists d, decide_lease sub i req gw (table_of w) = Ok d /\
      a = granted_ip d /\ table_of w' = table_after (table_of w) d
  | Err _ => table_of w' = table_of w
  end.
Proof.
  intros Hwf Hok Hs Hi Hreq Hgw H. unfold allocate in H.
  apply M_bind_inv in H as [(u & w1 & Hg & H)|(e & Hg & ->)].
  2: { apply keeps_table. pose proof (guard_keeps w) as K. by rewrite Hg in K. }
  pose proof (guard_keeps w) as K1. rewrite Hg in K1. cbn in K1. apply keeps_table in K1.
  apply M_bind_inv in H as [([a0 prefix] & w2 & Hp & H)|(e & Hp & ->)].
  2: { unfold lift in Hp. simplify_eq. done. }
  unfold lift in Hp. injection Hp as Hp <-.
  apply M_bind_inv in H as [(l & w3 & Hl & H)|(e & Hl & ->)];
    pose proof (lease_load_spec w1) as L; rewrite Hl in L; destruct L as [K2%keeps_table L2].
  2: congruence.
  rewrite (L2 l eq_refl) in *. clear L2. rewrite K1 in *.
  apply M_bind_inv in H as [(d & w4 & Hd & H)|(e & Hd & ->)].
  2: { unfold lift in Hd. simplify_eq. done. }
  unfold lift in Hd. injection Hd as Hd <-.
  pose proof (decide_wf _ _ _ _ _ _ Hwf Hok Hs Hi Hreq Hgw Hd) as Hwf'.
  destruct d as [a|a l'].
  - cbn in H. injection H as <- <-. eauto.
  - apply M_bind_inv in H as [(u' & w5 & Hst & H)|(e & Hst & ->)];
      pose proof (store_spec l' w3 Hwf') as S; rewrite Hst in S.
    + cbn in H. injection H as <- <-. eauto.
    + apply keeps_table in S. congruence.
Qed.

(** Keeping some of the leases, as [release] and [gc] do. *)
Lemma keep_sim (P : Lease -> Prop) {HP : forall x, Decision (P x)} {A : Type} (changed : bool) (v : A) w r w' :
  let l := table_of w in
  let l' := MkLeases (subnet l) (filter P (entries l)) in
  leases_wf l ->
  (changed = false -> filter P (entries l) = entries l) ->
  (if changed then _ ← store root pid l'; mret v else mret v) w = (r, w') ->
  match r with Ok a => a = v /\ table_of w' = l' | Err _ => table_of w' = l end.
Proof.
  intros l l' Hwf Hc H. destruct changed.
  - assert (leases_wf l') as Hwf'
      by (destruct Hwf; split; [done|]; by apply forall_filter).
    apply M_bind_inv in H as [(u & w1 & Hs & H)|(e & Hs & ->)];
      pose proof (store_spec l' w Hwf') as S; rewrite Hs in S.
    + cbn in H. injection H as <- <-. done.
    + by apply keeps_table in S.
  - cbn in H. injection H as <- <-. split; [done|]. unfold l'. rewrite Hc by done.
    unfold l. by destruct (table_of w).
Qed.

Lemma guarded_inv {A : Type} (k : Leases -> M A) w r w' :
  (_ ← guard root; l ← load root; k l) w = (r, w') ->
  (exists w1, table_of w1 = table_of w /\ k (table_of w1) w1 = (r, w')) \/
  (exists e, r = Err e /\ table_of w' = table_of w).
Proof.
  intros H. pose proof (guard_keeps w) as K1.
  apply M_bind_inv in H as [(u & w1 & Hg & H)|(e & Hg & ->)]; rewrite Hg in K1; apply keeps_table in K1; cbn in K1.
  2: { right. eauto. }
  pose proof (lease_load_spec w1) as L.
  apply M_bind_inv in H as [(l & w2 & Hl & H)|(e & Hl & ->)]; rewrite Hl in L; destruct L as [K2%keeps_table L].
  - left. exists w2. rewrite (L l eq_refl), <- K2 in H. split; [congruence|done].
  - right. exists e. split; [done|congruence].
Qed.

Lemma release_sim i w r w' :
  leases_wf (table_of w) -> release root pid i w = (r, w') ->
  let l := table_of w in
  match r with
  | Ok _ => table_of w' = MkLeases (subnet l) (without i (entries l))
  | Err _ => table_of w' = l
  end.
Proof.
  intros Hwf [(w1 & E & H)|(e & -> & E)]%guarded_inv; [|done]. cbv zeta. rewrite <- E in *.
  unfold without in *.
  pose proof (keep_sim (fun x => id x <> i)
    (negb (length (filter (fun x => id x <> i) (entries (table_of w1))) =? length (entries (table_of w1)))%nat)
    tt w1 r w' Hwf) as S. cbv zeta in S.
  destruct (_ =? _)%nat eqn:En; cbn [negb] in S.
  - apply Nat.eqb_eq, filter_same_length in En. specialize (S (fun _ => En) H). destruct r; [by destruct S|done].
  - specialize (S ltac:(done)). unfold mbind, M_bind in S. destruct (store _ _ _ w1) as [[[]|e] w2] eqn:Es;
      cbn in H; simplify_eq; by destruct (S eq_refl).
Qed.

Lemma gc_sim live w r w' :
  leases_wf (table_of w) -> gc root pid live w = (r, w') ->
  let l := table_of w in
  let kept := filter (fun x => id x ∈ live) (entries l) in
  match r with
  | Ok n => n = Z.of_nat (length (entries l) - length kept) /\ table_of w' = MkLeases (subnet l) kept
  | Err _ => table_of w' = l
  end.
Proof.
  intros Hwf [(w1 & E & H)|(e & -> & E)]%guarded_inv; [|done]. cbv zeta. rewrite <- E in *.
  apply (keep_sim (fun x => id x ∈ live)) in H; [done|done|].
  intros En. apply filter_same_length. apply Nat.ltb_ge in En.
  pose proof (length_filter (fun x => id x ∈ live) (entries (table_of w1))). lia.
Qed.

(** C8: the lease file refines the lease table: whatever I/O fails, a call of
    [allocate] that returns an address has made exactly the abstract decision
    durable, and one that returns an error has changed no lease.  When no I/O
    fails, it returns what the abstract decision says. *)
Theorem allocate_refines (sub i : string) (req : option (list Z)) (gw : list Z) (w w' : World)
    (r : result (list Z * Z)) :
  leases_wf (table_of w) -> table_ok (table_of w) -> utf8 sub -> utf8 i ->
  opt_all net.is_addr req -> net.is_addr gw ->
  allocate root pid sub i req gw w = (r, w') ->
  match r with
  | Ok (a, prefix) => exists d, decide_lease sub i req gw (table_of w) = Ok d /\
      a = granted_ip d /\ table_of w' = table_after (table_of w) d
  | Err _ => table_of w' = table_of w
  end /\
  (healthy w -> r = answer sub i req gw (table_of w)).
Proof.
  intros Hwf Hok Hs Hi Hreq Hgw H. split; [by apply (allocate_sim sub i req gw)|].
  intros Hw. by rewrite <- allocate_healthy, H.
Qed.

End Refinement.

(** A world whose only directory is the runtime root. *)
Definition empty_world (pl : list fault) : World :=
  MkWorld (MkFs ∅ {["/run"]}) pl [] (fun _ => "No space left on device").

Lemma default_leases_ok : leases_wf default_leases /\ table_ok default_leases.
Proof. split; [split; [done|constructor]|]. split_and!; constructor. Qed.

(** The first write of the lease file fails on a full disk. *)
Lemma allocate_refines_witness :
  let w := empty_world [FNone; FNone; FNone; FNone; FNone; FErr 28 10] in
  let '(r, w') := allocate "/run" 7 "10.87.0.0/24" "a" None gw1 w in
  r = Err (Syscall "io" 28 "No space left on device (os error 28)") /\
  match r with
  | Ok (a, prefix) => exists d, decide_lease "10.87.0.0/24" "a" None gw1 (table_of "/run" w) = Ok d /\
      a = granted_ip d /\ table_of "/run" w' = table_after (table_of "/run" w) d
  | Err _ => table_of "/run" w' = table_of "/run" w
  end /\
  (healthy "/run" 7 w -> r = answer "10.87.0.0/24" "a" None gw1 (table_of "/run" w)).
Proof.
  cbv zeta. destruct (allocate _ _ _ _ _ _ _) as [r w'] eqn:E.
  split; [vm_compute in E; by injection E as <- _|].
  apply (allocate_refines "/run" 7) in E; [exact E|split; [discriminate|reflexivity]
    |apply default_leases_ok|apply default_leases_ok|reflexivity|reflexivity|exact I
    |apply (bool_decide_unpack _); vm_compute; exact I].
Defined.

(** ** The whole system

    Any processes, any subnets, any faults: every step is a whole call of one
    process, or any change of the world that leaves the lease file alone.  The
    string is the subnet of the last allocation, and [held] what calls on it
    returned to containers that have not been released since. *)
Definition hold (i : string) (r : result (list Z * Z)) (held : gmap string (list Z)) : gmap string (list Z) :=
  match r with Ok (a, _) => <[i := a]> held | Err _ => held end.

Inductive system (root : string) : World -> string -> gmap string (list Z) -> Prop :=
| sys_start w sub : table_of root w = default_leases -> system root w sub ∅
| sys_allocate pid w cur sub held i req gw a prefix w' :
    system root w cur held -> utf8 sub -> utf8 i -> opt_all net.is_addr req -> net.is_addr gw ->
    allocate root pid sub i req gw w = (Ok (a, prefix), w') ->
    system root w' sub (<[i := a]> (since cur sub held))
| sys_refused pid w cur sub held i req gw e w' :
    system root w cur held -> utf8 sub -> utf8 i -> opt_all net.is_addr req -> net.is_addr gw ->
    allocate root pid sub i req gw w = (Err e, w') ->
    system root w' cur held
| sys_release pid w cur held i r w' :
    system root w cur held -> release root pid i w = (r, w') ->
    system root w' cur (match r with Ok _ => delete i held | Err _ => held end)
| sys_gc pid w cur held live r w' :
    system root w cur held -> gc root pid live w = (r, w') ->
    system root w' cur (match r with Ok _ => filter (fun kv => kv.1 ∈ live) held | Err _ => held end)
| sys_other w cur held w' :
    system root w cur held -> keeps (state_path root) w w' -> system root w' cur held.

Lemma system_runs root w sub held :
  path.dir_ok root -> system root w sub held ->
  leases_wf (table_of root w) /\ run sub (table_of root w) held.
Proof.
  intros Hr. induction 1 as [w sub E|pid w cur sub held i req gw a p w' _ [IH1 IH2] Hs Hi Hreq Hgw H
    |pid w cur sub held i req gw e w' _ [IH1 IH2] Hs Hi Hreq Hgw H
    |pid w cur held i r w' _ [IH1 IH2] H|pid w cur held live r w' _ [IH1 IH2] H|w cur held w' _ [IH1 IH2] H].
  - rewrite E. split; [apply default_leases_ok|constructor].
  - pose proof (run_in_step _ _ _ IH2) as (Hok & _).
    destruct (allocate_sim root pid Hr sub i req gw w w' _ IH1 Hok Hs Hi Hreq Hgw H) as (d & Hd & -> & ->).
    split; [by apply (decide_wf sub i req gw)|by apply (run_allocate _ _ _ _ i req gw)].
  - pose proof (run_in_step _ _ _ IH2) as (Hok & _).
    pose proof (allocate_sim root pid Hr sub i req gw w w' _ IH1 Hok Hs Hi Hreq Hgw H) as S. by rewrite S.
  - pose proof (release_sim root pid Hr i w r w' IH1 H) as S. cbv zeta in S.
    destruct r as [u|e]; rewrite S; [|done]. split; [|by apply run_release].
    destruct IH1. split; [done|]. by apply forall_filter.
  - pose proof (gc_sim root pid Hr live w r w' IH1 H) as S. cbv zeta in S.
    destruct r as [u|e]; [destruct S as [_ S]|]; rewrite S; [|done]. split; [|by apply run_gc].
    destruct IH1. split; [done|]. by apply forall_filter.
  - by rewrite (keeps_table root w w' H).
Qed.


(** Two containers, the first allocation of the second cut short by a fault. *)
Definition demo_call (i : string) : World -> result (list Z * Z) * World :=
  allocate "/run" 7 "10.87.0.0/24" i None gw1.
Definition demo_1 : World := (demo_call "a" (empty_world [])).2.
Definition demo_2 : World := MkWorld (fs demo_1) [FNone; FNone; FNone; FNone; FErr 28 10] [] (strerror demo_1).
Definition demo_3 : World := (demo_call "b" demo_2).2.

Lemma demo_step i w held :
  utf8 i -> system "/run" w "10.87.0.0/24" held ->
  system "/run" (demo_call i w).2 "10.87.0.0/24" (hold i (demo_call i w).1 held).
Proof.
  intros Hi H. assert (net.is_addr gw1) as Hg by (apply (bool_decide_unpack _); vm_compute; exact I).
  assert (since "10.87.0.0/24" "10.87.0.0/24" held = held) as E by done.
  destruct (demo_call i w) as [[[a p]|e] w'] eqn:Ec; cbn [fst snd hold].
  - rewrite <- E. by apply (sys_allocate _ 7 w _ _ held i None gw1 a p).
  - by apply (sys_refused _ 7 w _ "10.87.0.0/24" held i None gw1 e).
Qed.

Lemma demo_run :
  system "/run" (demo_call "b" demo_3).2 "10.87.0.0/24"
    (hold "b" (demo_call "b" demo_3).1 (hold "b" (demo_call "b" demo_2).1
      (hold "a" (demo_call "a" (empty_world [])).1 ∅))).
Proof.
  apply demo_step; [done|]. apply demo_step; [done|]. apply (sys_other _ demo_1); [|done].
  apply demo_step; [done|]. by apply sys_start.
Qed.

