(* ===== verification/Store.v ===== *)
(** * The state store of [src/runtime/state.rs], and the runtime root of
    [src/runtime/mod.rs]

    One directory per container under [<root>/containers], with its
    [state.json] and [config.json].  File names are taken to be UTF-8, so that
    [to_string_lossy] is the identity; warnings that only go to the log are
    left out.  Paths are literal strings, without resolution of [.] and [..]:
    a needle that is itself a path, such as [./web], which the program
    resolves, is not found here, and the theorems about [resolve] are about
    needles that are no paths. *)
From S2P Require Import Prelude RustStr Num Utf8 F64 Error Json Util Process Net Caps Seccomp Config State Fs.
Import json.

(** A stable sort, as [Vec::sort] and [Vec::sort_by_key] are. *)
Section Sort.
Context {A : Type} (le : A -> A -> bool).

Fixpoint insert_sorted (x : A) (l : list A) : list A :=
  match l with
  | [] => [x]
  | y :: l' => if le x y then x :: l else y :: insert_sorted x l'
  end.

Definition sort (l : list A) : list A := foldr insert_sorted [] l.
End Sort.

(** ** [runtime_root] and [ensure_root] *)

(** [env] is the environment, [euid] the effective user id and [run_is_dir]
    whether [/run] is a directory. *)
Definition runtime_root (env : string -> option string) (euid : Z) (run_is_dir : bool) : string :=
  let set_to k := match env k with Some p => if str_is_empty p then None else Some p | None => None end in
  match set_to "MYRUN_ROOT" with
  | Some p => p
  | None =>
      if (euid =? 0) && run_is_dir then "/run/myrun"
      else match set_to "XDG_RUNTIME_DIR" with
           | Some x => path.join x "myrun"
           | None => "/tmp/myrun-" +:+ show_dec euid
           end
  end.

Definition ensure_root (r : string) : M string :=
  _ ← ufs.mkdir_p (path.join r "containers"); mret r.

(** The tree the existence tests look at. *)
Definition get_fs : M Fs := fun w => (Ok (fs w), w).

Module Store.
Section Store.
(** The [root] field, and the process id for temporary names. *)
Context (root : string) (pid : Z).

Definition containers_dir : string := path.join root "containers".
Definition dir (id : string) : string := path.join containers_dir id.
Definition state_path (id : string) : string := path.join (dir id) "state.json".
Definition config_path (id : string) : string := path.join (dir id) "config.json".
Definition log_path (id : string) : string := path.join (dir id) "container.log".
Definition shim_socket_path (id : string) : string := path.join (dir id) "shim.sock".

Definition exists_in (f : Fs) (id : string) : bool := path_exists f (state_path id).
Definition exists_ (id : string) : M bool := ufs.exists_ (state_path id).

(** [lock]: what follows runs with the lock of the container held. *)
Definition lock (id : string) : M unit :=
  _ ← ufs.mkdir_p (dir id); flock_acquire (path.join (dir id) "lock").

Definition ids : M (list string) :=
  there ← ufs.exists_ containers_dir;
  if negb there then mret []
  else
    names ← io_err (fun w e => Io (containers_dir +:+ ": " +:+ io_str w e)) (fs_read_dir containers_dir);
    f ← get_fs;
    mret (sort String.leb (filter (fun n => exists_in f n = true) names)).

(** What the text of a state file means. *)
Definition decode (p text : string) : result ContainerState.t :=
  j ← map_err (fun e => Parse (p +:+ ": " +:+ error_str e)) (json.parse text);
  ContainerState.from_json j.

Definition load (id : string) : M ContainerState.t :=
  there ← ufs.exists_ (state_path id);
  if negb there then fail (NotFound ("container " +:+ util.short_id id))
  else
    text ← ufs.read_to_string (state_path id);
    lift (decode (state_path id) text).

(** The loop of [resolve]: [inl] is its early [return Ok(id)]. *)
Fixpoint scan (needle : string) (l matches : list string) : M (string + list string) :=
  match l with
  | [] => mret (inr matches)
  | id :: rest =>
      if starts_with needle id then scan needle rest (matches ++ [id])
      else
        st ← try (load id);
        match st with
        | Ok st =>
            if decide (ContainerState.name st = Some needle) then mret (inl id)
            else scan needle rest matches
        | Err _ => scan needle rest matches
        end
  end.

Definition resolve (needle : string) : M string :=
  if str_is_empty needle then fail (Usage "no container specified")
  else
    there ← exists_ needle;
    if (there : bool) then mret needle
    else
      l ← ids;
      found ← scan needle l [];
      match found with
      | inl id => mret id
      | inr [] => fail (NotFound ("container " +:+ debug_str needle))
      | inr [id] => mret id
      | inr matches =>
          fail (Usage ("container id prefix " +:+ debug_str needle +:+ " is ambiguous: "
                       +:+ RustStr.join ", " (util.short_id <$> matches)))
      end.

Definition save (st : ContainerState.t) : M unit :=
  _ ← ufs.mkdir_p (dir (ContainerState.id st));
  ufs.write_atomic pid (state_path (ContainerState.id st)) (to_string_pretty (ContainerState.to_json st)).

(** The loop of [create] over the other containers. *)
Fixpoint check_name (name : string) (l : list string) : M unit :=
  match l with
  | [] => mret tt
  | id :: rest =>
      other ← try (load id);
      match other with
      | Ok other =>
          if decide (ContainerState.name other = Some name)
          then fail (AlreadyExists ("container name " +:+ debug_str name +:+ " (used by "
                                    +:+ util.short_id id +:+ ")"))
          else check_name name rest
      | Err _ => check_name name rest
      end
  end.

Definition create (st : ContainerState.t) : M unit :=
  there ← exists_ (ContainerState.id st);
  if (there : bool)
  then fail (AlreadyExists ("container " +:+ util.short_id (ContainerState.id st)))
  else
    _ ← match ContainerState.name st with
        | Some name => l ← ids; check_name name l
        | None => mret tt
        end;
    _ ← ufs.mkdir_p (dir (ContainerState.id st));
    _ ← ufs.write_atomic pid (config_path (ContainerState.id st))
          (to_string_pretty (ContainerConfig.to_json (ContainerState.config st)));
    save st.

Definition remove (id : string) : M unit :=
  there ← ufs.exists_ (dir id);
  if (there : bool)
  then io_err (fun w e => Io ("removing " +:+ dir id +:+ ": " +:+ io_str w e)) (fs_remove_dir_all (dir id))
  else mret tt.

Fixpoint load_all (l : list string) : M (list ContainerState.t) :=
  match l with
  | [] => mret []
  | id :: rest =>
      s ← try (load id);
      out ← load_all rest;
      mret (match s with Ok s => s :: out | Err _ => out end)
  end.

Definition list : M (list ContainerState.t) :=
  l ← ids;
  out ← load_all l;
  mret (sort (fun a b => ContainerState.created_at a <=? ContainerState.created_at b) out).

(** [reconcile]; the state it was given is changed in place, also when the
    write fails. *)
Definition reconcile (now : Z) (stat : Z -> option string) (st : ContainerState.t) (w : World)
    : result bool * ContainerState.t * World :=
  if negb (Status.is_live (ContainerState.status st)) then (Ok false, st, w)
  else if ContainerState.init_is_alive stat st then (Ok false, st, w)
  else
    let st := ContainerState.set_status st Status.Stopped in
    let st := if ContainerState.finished_at st =? 0 then ContainerState.set_finished st now else st in
    let st := match ContainerState.error st with
              | None => ContainerState.set_error st
                          (Some "init process disappeared without recording an exit status")
              | Some _ => st
              end in
    match save st w with
    | (Ok _, w') => (Ok true, st, w')
    | (Err e, w') => (Err e, st, w')
    end.

End Store.
End Store.
