(* ===== verification/StoreFacts.v ===== *)
(** * Theorems about the state store: what is saved is what is loaded, for
    every observer and whatever I/O fails; containers do not touch each other;
    names resolve to the container they name and are not given out twice *)
From S2P Require Import Prelude RustStr Num Utf8 F64 Error Json JsonFacts JsonUtf8 Util UtilFacts Process Net Caps Seccomp Config ConfigFacts State StateFacts Fs FsFacts FsTree Store.
Import json Store.

Lemma valid_id_name_ok i : util.validate_id i = Ok tt -> path.name_ok i.
Proof.
  intros (Hl & Ha & Hd)%validate_id_spec.
  split_and!; [| | |by apply (str_all_not_contains util.id_char)]; intros ->; vm_compute in Hl, Hd;
    first [discriminate Hd | by destruct Hl].
Qed.

(** ** Paths *)

Lemma rev_app_eq s t : String.rev_app s t = String.rev s +:+ t.
Proof.
  unfold String.rev. revert t. induction s as [|a s IH]; intros t; cbn; [done|].
  by rewrite IH, (IH (String a "")), str_app_assoc.
Qed.

Lemma ends_with_slash s : ends_with "/" s = true -> exists r, s = r +:+ "/".
Proof.
  unfold ends_with, strip_suffix. destruct (strip_prefix _ _) as [r|] eqn:E; [|done]. intros _.
  apply strip_prefix_Some in E. change (String.rev "/") with "/" in E. exists (String.rev r). rewrite <- (rev_involutive s), E.
  change (String.rev ("/" +:+ r)) with (String.rev_app r "/").
  exact (rev_app_eq r "/").
Qed.

Lemma join_dir_ok d n : path.dir_ok d -> path.name_ok n -> path.dir_ok (path.join d n).
Proof.
  intros Hd Hn. rewrite path.join_eq by done. split; [by destruct d|].
  destruct (ends_with _ _) eqn:E; [|done]. exfalso. apply ends_with_slash in E as (r & E).
  pose proof (path.rsplit_app d n ltac:(apply Hn)) as H1.
  pose proof (path.rsplit_app r "" eq_refl) as H2. cbn [String.append] in *.
  rewrite E in H1. rewrite H2 in H1. injection H1 as _ H1. by destruct Hn.
Qed.

(** A needle that is no path: empty, or one component that is neither "." nor
    "..".  Paths are literal strings here, so [./web] is not found, while the
    program looks up [<root>/containers/./web/state.json]. *)
Definition plain (needle : string) : Prop := needle = "" \/ path.name_ok needle.

Section Store.
Context (root : string) (pid : Z) (Hroot : path.dir_ok root).

Lemma containers_dir_ok : path.dir_ok (containers_dir root).
Proof. by apply join_dir_ok. Qed.

Lemma dir_dir_ok i : path.name_ok i -> path.dir_ok (dir root i).
Proof. intros Hi. apply join_dir_ok; [apply containers_dir_ok|done]. Qed.

Lemma dir_inj i j : path.name_ok i -> path.name_ok j -> dir root i = dir root j -> i = j.
Proof. intros Hi Hj. apply path.join_inj; [apply containers_dir_ok|done..]. Qed.

(** A file of container [i]. *)
Lemma parent_in_dir i n : path.name_ok i -> path.name_ok n ->
  path.parent (path.join (dir root i) n) = Some (dir root i).
Proof. intros Hi Hn. apply path.parent_join; [by apply dir_dir_ok|done]. Qed.

Lemma files_differ i j n m :
  path.name_ok i -> path.name_ok j -> path.name_ok n -> path.name_ok m -> i <> j ->
  path.join (dir root i) n <> path.join (dir root j) m.
Proof.
  intros Hi Hj Hn Hm Hne E. apply (f_equal path.parent) in E. rewrite !parent_in_dir in E by done.
  injection E as E. by apply dir_inj in E.
Qed.

Lemma state_name : path.name_ok "state.json".
Proof. done. Qed.
Lemma config_name : path.name_ok "config.json".
Proof. done. Qed.

(** What is below a container's directory is not below another's. *)
Lemma below_other i j n :
  path.name_ok i -> path.name_ok j -> path.name_ok n -> i <> j ->
  below (dir root i) (path.join (dir root j) n) = false.
Proof.
  intros Hi Hj Hn Hne. destruct (below _ _) eqn:E; [exfalso|done]. unfold below in E.
  rewrite path.join_eq in E by (done || by apply dir_dir_ok).
  unfold dir in E. rewrite !path.join_eq in E by (done || apply containers_dir_ok).
  apply orb_prop in E as [E|E].
  - apply bool_decide_eq_true in E. rewrite !str_app_assoc in E. apply path.app_inv_l in E.
    cbn [String.append] in E. injection E as E. destruct Hi as (_ & _ & _ & Hi).
    rewrite <- E in Hi. clear -Hi. induction j as [|a j IH]; cbn in Hi; [done|].
    destruct (ascii_dec a "/"); [done|]. by apply IH.
  - apply starts_with_spec in E as (b & E). rewrite !str_app_assoc in E. apply path.app_inv_l in E.
    cbn [String.append] in E. injection E as E. apply Hne.
    destruct Hi as (_ & _ & _ & Hi), Hj as (_ & _ & _ & Hj).
    clear -Hi Hj E. revert j E Hj. induction i as [|a i IH]; intros [|c j] E Hj; cbn in *.
    + done.
    + injection E as -> _. by destruct (ascii_dec "/" "/").
    + injection E as <- _. by destruct (ascii_dec "/" "/").
    + injection E as -> E. f_equal. destruct (ascii_dec a "/"); [done|]. by apply IH.
Qed.

(** ** The abstract store *)

(** The state of a container, as the tree [f] has it. *)
Definition loaded (f : Fs) (i : string) : option ContainerState.t :=
  match files f !! state_path root i with
  | Some t => if valid_utf8 t then ok (decode (state_path root i) t) else None
  | None => None
  end.

Lemma loaded_same f g i :
  files f !! state_path root i = files g !! state_path root i -> loaded f i = loaded g i.
Proof. unfold loaded. by intros ->. Qed.

Lemma loaded_text f i st :
  container_state.wf st ->
  files f !! state_path root i = Some (to_string_pretty (ContainerState.to_json st)) ->
  loaded f i = Some (container_state.without_detach st).
Proof.
  intros Hwf Hf. unfold loaded. rewrite Hf. pose proof (container_state.state_to_json_ok st (container_state.state_typed st Hwf)) as Hok.
  unfold to_string_pretty. rewrite write_utf8 by done. unfold decode.
  rewrite parse_write by done. cbn [map_err mbind result_bind]. by rewrite container_state.state_json_back, container_state.state_stored by auto using container_state.state_typed.
Qed.

(** ** Reading *)

Lemma load_spec i w :
  let '(r, w') := load root i w in
  same_fs w w' /\ (forall st, r = Ok st -> loaded (fs w) i = Some st) /\
  (plan w = [] -> w' = w /\ ok r = loaded (fs w) i).
Proof.
  unfold load, ufs.exists_, mbind, M_bind, loaded. generalize (state_path root i). intros p.
  destruct (path_exists _ _) eqn:Ee; cbn [negb].
  - unfold ufs.read_to_string, io_err, fs_read_to_string.
    destruct (next_fault w) as [f w1] eqn:En. pose proof (next_fault_same _ _ _ En) as Hs.
    pose proof Hs as (E & _). rewrite <- E.
    assert (plan w = [] -> w1 = w /\ f = FNone) as Hq
      by (intros Hp; rewrite write_atomic.no_fault in En by done; by simplify_eq).
    destruct f as [|e n].
    + destruct (files (fs w1) !! p) as [t|].
      * destruct (valid_utf8 t); unfold lift; (split_and!; [done| |naive_solver]); [|done].
        intros st Hst. by rewrite Hst.
      * split_and!; [done|done|naive_solver].
    + split_and!; [done|done|naive_solver].
  - split_and!; [done|done|]. intros _. split; [done|]. unfold path_exists in Ee.
    apply orb_false_iff in Ee as [_ Ee]. by destruct (files (fs w) !! p).
Qed.

Lemma insert_sorted_perm {A : Type} (le : A -> A -> bool) x l : insert_sorted le x l ≡ₚ x :: l.
Proof.
  induction l as [|y l IH]; cbn; [done|]. destruct (le x y); [done|]. rewrite IH. apply perm_swap.
Qed.

Lemma sort_perm {A : Type} (le : A -> A -> bool) l : sort le l ≡ₚ l.
Proof. induction l as [|x l IH]; cbn; [done|]. by rewrite insert_sorted_perm, IH. Qed.

Lemma tree_parent f p d : tree_ok f -> is_Some (files f !! p) \/ p ∈ dirs f ->
  path.parent p = Some d -> d <> "" -> d ∈ dirs f.
Proof.
  intros Ht Hp Hd Hne. specialize (Ht p Hp). unfold in_dir in Ht. rewrite Hd in Ht.
  apply orb_true_iff in Ht as [Ht|Ht]; by apply bool_decide_eq_true in Ht.
Qed.

Lemma state_file_listed f i :
  tree_ok f -> path.name_ok i -> is_Some (files f !! state_path root i) ->
  containers_dir root ∈ dirs f /\ i ∈ entries f (containers_dir root).
Proof.
  intros Ht Hi Hs.
  assert (dir root i ∈ dirs f) as Hd.
  { eapply tree_parent; [done|by left|by apply parent_in_dir|]. by apply dir_dir_ok. }
  assert (path.parent (dir root i) = Some (containers_dir root)) as Hp
    by (apply path.parent_join; [apply containers_dir_ok|done]).
  split; [eapply tree_parent; [done|by right|done|apply containers_dir_ok]|].
  apply list_elem_of_omap. exists (dir root i). split.
  - apply elem_of_app. right. by apply elem_of_elements.
  - rewrite Hp, bool_decide_eq_true_2 by done. apply path.file_name_join; [apply containers_dir_ok|done].
Qed.

Lemma rsplit_right s l r : path.rsplit s = Some (l, r) -> contains_char "/" r = false.
Proof.
  revert l r. induction s as [|a s IH]; intros l r; cbn; [done|].
  destruct (path.rsplit s) as [[l' r']|] eqn:E; [intros [= _ <-]; by apply (IH l')|].
  destruct (ascii_dec a "/"); [|done]. intros [= _ <-]. clear -E.
  induction s as [|b s IH]; [done|]. cbn in *. destruct (path.rsplit s) as [[]|]; [done|].
  destruct (ascii_dec b "/"); [done|]. by apply IH.
Qed.

Lemma entries_ok f d i : i ∈ entries f d -> d <> "" -> path.name_ok i.
Proof.
  intros (p & _ & H)%list_elem_of_omap Hd. destruct (path.parent p) as [d'|] eqn:Ep; [|done].
  case_bool_decide as E; [subst d'|done]. unfold path.file_name in H. unfold path.parent in Ep.
  destruct (path.rsplit p) as [[l r]|] eqn:Er.
  - apply rsplit_right in Er. destruct (str_is_empty r) eqn:E1; [done|].
    case_bool_decide; [done|]. case_bool_decide; [done|]. injection H as <-.
    split_and!; [|done..]. by intros ->.
  - exfalso. apply Hd. destruct (str_is_empty p); by simplify_eq.
Qed.

Lemma ids_spec w :
  let '(r, w') := ids root w in
  same_fs w w' /\ (plan w = [] -> w' = w) /\
  match r with
  | Ok l =>
      (forall i, i ∈ l -> exists_in root (fs w) i = true /\ path.name_ok i) /\
      (forall i, tree_ok (fs w) -> path.name_ok i -> is_Some (files (fs w) !! state_path root i) -> i ∈ l)
  | Err e => (exists m, e = Io m) /\ (plan w = [] -> containers_dir root ∉ dirs (fs w))
  end.
Proof.
  unfold ids, ufs.exists_, mbind, M_bind. destruct (path_exists _ _) eqn:Ee; cbn [negb].
  - unfold io_err, fs_read_dir. destruct (next_fault w) as [[|e n] w1] eqn:En; cbn.
    + pose proof (next_fault_same _ _ _ En) as Hs. pose proof Hs as (E & _).
      assert (plan w = [] -> w1 = w) as Hq by (intros Hp; rewrite write_atomic.no_fault in En by done; congruence).
      rewrite E. case_bool_decide as Hd; cbn; (split; [done|]; split; [done|]); [|eauto]. rewrite E. split.
      * intros i. rewrite sort_perm, list_elem_of_filter. intros [? Hi]. split; [done|].
        eapply entries_ok; [exact Hi|apply containers_dir_ok].
      * intros i Ht Hi Hf. rewrite sort_perm, list_elem_of_filter. split; [|by apply state_file_listed].
        unfold exists_in, path_exists. destruct Hf as [t ->]. apply orb_true_r.
    + split; [by apply next_fault_same in En|]. split; [|split; [eauto|]]; intros Hp;
      rewrite write_atomic.no_fault in En by done; done.
  - split; [done|]. split; [done|]. split; [by intros i ?%elem_of_nil|].
    intros i Ht Hi Hf. exfalso. apply (state_file_listed (fs w)) in Hf as [Hf _]; [|done..].
    unfold path_exists in Ee. by rewrite bool_decide_eq_true_2 in Ee.
Qed.

(** ** Writing *)

(** The tree [f] differs from [f0] at most in container [i], whose state is
    the old one or [st]. *)
Definition seen (f0 : Fs) (i : string) (st : ContainerState.t) (f : Fs) : Prop :=
  (loaded f i = loaded f0 i \/ loaded f i = Some (container_state.without_detach st)) /\
  (forall j, path.name_ok j -> j <> i -> loaded f j = loaded f0 j).

Lemma mkdir_p_reaches d w :
  reaches (fun f => files f = files (fs w)) w (ufs.mkdir_p d w).2.
Proof.
  unfold ufs.mkdir_p, io_err, fs_create_dir_all.
  destruct (next_fault w) as [[|e n] w1] eqn:E; apply next_fault_same in E;
    pose proof E as (E1 & _); assert (reaches (fun f => files f = files (fs w)) w w1) as R
      by (eapply reaches_same; [by apply reaches_refl|done]); [|done].
  repeat case_match; simplify_eq; try done; cbn [snd].
  eapply reaches_step; [done| |apply set_fs_step]. cbn. by rewrite E1.
Qed.

(** A write of one file of container [i]. *)
Lemma write_frame i n data w r w' :
  path.name_ok i -> path.name_ok n -> dir root i ∈ dirs (fs w) -> tree_ok (fs w) ->
  ufs.write_atomic pid (path.join (dir root i) n) data w = (r, w') ->
  let p := path.join (dir root i) n in
  reaches (fun f => (files f !! p = files (fs w) !! p \/ files f !! p = Some data) /\
    (forall j m, path.name_ok j -> path.name_ok m -> (m <> n /\ m <> write_atomic.tmp_name pid n) \/ j <> i ->
       files f !! path.join (dir root j) m = files (fs w) !! path.join (dir root j) m)) w w' /\
  tree_ok (fs w') /\ dirs (fs w') = dirs (fs w) /\
  match r with Ok _ => files (fs w') !! p = Some data | Err _ => files (fs w') !! p = files (fs w) !! p end.
Proof.
  intros Hi Hn Hd Ht H. cbv zeta. pose proof (dir_dir_ok i Hi) as Hdi.
  pose proof (write_atomic_tree pid _ n data w r w' Hdi Hn Hd H Ht) as Ht'.
  destruct (write_atomic.write_atomic_spec pid _ data _ eq_refl
    (write_atomic.tmp_path_ne pid _ n Hdi Hn) _ _ _ H) as (Hr & Hres).
  split_and!; [|done|apply Hr|by destruct r; [apply Hres|]].
  revert Hr. apply reaches_impl. intros f (H1 & H2 & _). split; [done|].
  intros j m Hj Hm Hdiff. apply H2; rewrite ?write_atomic.tmp_path_join by done.
  - intros E. destruct Hdiff as [[Hne _]|Hne]; [|by apply files_differ in E].
    destruct (decide (i = j)) as [<-|Hij]; [|by apply not_eq_sym in Hij; apply files_differ in E].
    by apply path.join_inj in E.
  - intros E. pose proof (write_atomic.tmp_name_ok pid n Hn). 
    destruct Hdiff as [[_ Hne]|Hne]; [|by apply files_differ in E].
    destruct (decide (i = j)) as [<-|Hij]; [|by apply not_eq_sym in Hij; apply files_differ in E].
    by apply path.join_inj in E.
Qed.

Lemma not_tmp_state : "config.json" <> write_atomic.tmp_name pid "state.json".
Proof. done. Qed.
Lemma not_tmp_config : "state.json" <> write_atomic.tmp_name pid "config.json".
Proof. done. Qed.

Lemma save_spec st w r w' :
  let i := ContainerState.id st in
  path.name_ok i -> container_state.wf st -> tree_ok (fs w) -> save root pid st w = (r, w') ->
  reaches (seen (fs w) i st) w w' /\ tree_ok (fs w') /\
  loaded (fs w') i =
    match r with Ok _ => Some (container_state.without_detach st) | Err _ => loaded (fs w) i end /\
  files (fs w') !! config_path root i = files (fs w) !! config_path root i.
Proof.
  intros i Hi Hwf Ht H. unfold save in H. fold i in H.
  assert (reaches (seen (fs w) i st) w (ufs.mkdir_p (dir root i) w).2) as R.
  { eapply reaches_impl; [|apply mkdir_p_reaches]. intros f Hf.
    split; [left|intros]; apply loaded_same; by rewrite Hf. }
  apply M_bind_inv in H as [([] & w1 & Hm & H)|(e & Hm & ->)]; rewrite Hm in R; cbn [snd] in R;
    destruct (mkdir_p_tree _ _ _ _ Hm Ht) as (Ht1 & Hf1 & _ & Hin).
  2: { split_and!; [done|done|apply loaded_same; by rewrite Hf1|by rewrite Hf1]. }
  pose proof (write_frame i "state.json" _ w1 r w' Hi state_name (Hin eq_refl) Ht1 H) as (Rw & Ht' & _ & Hr).
  assert (forall f, (files f !! state_path root i = files (fs w1) !! state_path root i \/
      files f !! state_path root i = Some (to_string_pretty (ContainerState.to_json st))) ->
      loaded f i = loaded (fs w) i \/ loaded f i = Some (container_state.without_detach st)) as Hl.
  { intros f [Hf|Hf]; [left; apply loaded_same; by rewrite Hf, Hf1|right; by apply loaded_text]. }
  split_and!; [|done| |].
  - eapply reaches_trans; [exact R|]. revert Rw. apply reaches_impl. intros f [H1 H2].
    split; [by apply Hl|]. intros j Hj Hne. apply loaded_same. rewrite <- Hf1. apply H2; auto using state_name.
  - destruct r; [by apply loaded_text|]. apply loaded_same. rewrite <- Hf1. exact Hr.
  - destruct Rw as (_ & [_ Hk] & _). rewrite <- Hf1. apply Hk; [done|apply config_name|]. left. split; [done|].
    apply not_tmp_state.
Qed.

(** C3: a save is atomic for every process that looks at the store: at each
    moment the container's state reads as the old one or as the new one, and
    no other container's state changes; when the save returns an error the old
    state is still there, when it succeeds the new one is what a load gives. *)
Theorem save_atomic (st : ContainerState.t) (w w' : World) (r : result unit) :
  let i := ContainerState.id st in
  util.validate_id i = Ok tt -> container_state.wf st -> tree_ok (fs w) ->
  save root pid st w = (r, w') ->
  (exists new, hist w' = hist w ++ new /\ Forall (seen (fs w) i st) new) /\ seen (fs w) i st (fs w') /\
  match r with
  | Ok _ => plan w' = [] -> load root i w' = (Ok (container_state.without_detach st), w')
  | Err _ => loaded (fs w') i = loaded (fs w) i
  end.
Proof.
  intros i Hi%valid_id_name_ok Hwf Ht H.
  destruct (save_spec st w r w' Hi Hwf Ht H) as ((Hh & Hs & _) & _ & Hl & _).
  split_and!; [done..|]. destruct r; [|done]. intros Hp.
  pose proof (load_spec i w') as L. destruct (load root i w') as [r2 w2]. destruct L as (_ & _ & L).
  destruct (L Hp) as [-> E]. fold i in Hl. rewrite Hl in E. destruct r2; by simplify_eq/=.
Qed.

(** ** Creating and removing *)

(** Some container of the tree other than [i] has the name [n]. *)
Definition name_used (f : Fs) (n : string) : Prop :=
  exists j o, path.name_ok j /\ loaded f j = Some o /\ ContainerState.name o = Some n.

Lemma load_quiet i w : plan w = [] -> exists r, load root i w = (r, w) /\ ok r = loaded (fs w) i.
Proof.
  intros Hp. pose proof (load_spec i w) as L. destruct (load root i w) as [r w'].
  destruct L as (_ & _ & L). destruct (L Hp) as [-> E]. eauto.
Qed.

(** The loop over the other containers, whichever of its reads fail: a name it
    reports is in use, and when no read fails it reports every one. *)
Lemma check_name_spec n l : forall w,
  let '(r, w') := check_name root n l w in
  same_fs w w' /\ (plan w = [] -> w' = w) /\
  match r with
  | Ok _ => plan w = [] -> forall j o, j ∈ l -> loaded (fs w) j = Some o -> ContainerState.name o <> Some n
  | Err e => (exists m, e = AlreadyExists m) /\
             exists j o, j ∈ l /\ loaded (fs w) j = Some o /\ ContainerState.name o = Some n
  end.
Proof.
  induction l as [|j l IH]; intros w; cbn [check_name].
  - split_and!; [done..|]. by intros _ j o ?%elem_of_nil.
  - unfold mbind, M_bind, try. pose proof (load_spec j w) as L. destruct (load root j w) as [r1 w1].
    destruct L as (S1 & L & Hq). pose proof S1 as (E1 & _). specialize (IH w1). rewrite E1 in IH.
    assert (forall o, loaded (fs w) j = Some o -> plan w = [] -> r1 = Ok o) as Hl
      by (intros o Ho Hp; destruct (Hq Hp) as [_ Hr]; rewrite Ho in Hr; by destruct r1; simplify_eq/=).
    assert ((forall o, r1 = Ok o -> ContainerState.name o <> Some n) ->
      let '(r, w') := check_name root n l w1 in
      same_fs w w' /\ (plan w = [] -> w' = w) /\
      match r with
      | Ok _ => plan w = [] -> forall j' o, j' ∈ j :: l -> loaded (fs w) j' = Some o -> ContainerState.name o <> Some n
      | Err e => (exists m, e = AlreadyExists m) /\
                 exists j' o, j' ∈ j :: l /\ loaded (fs w) j' = Some o /\ ContainerState.name o = Some n
      end) as Hgo.
    { intros Hn. destruct (check_name root n l w1) as [r w']. destruct IH as (S2 & W2 & IH).
      split_and!; [by eapply same_fs_trans|intros Hp; destruct (Hq Hp) as [-> _]; auto|]. destruct r.
      - intros Hp j' o [->|Hj]%elem_of_cons Ho; [by eapply Hn, Hl|]. destruct (Hq Hp) as [-> _]. by eapply IH.
      - destruct IH as (? & j' & o' & ? & ?). split; [done|]. exists j', o'. split; [by constructor|done]. }
    destruct r1 as [o|e]; [|by apply Hgo]. case_decide as Hn; [|apply Hgo; congruence].
    split_and!; [done|by intros Hp; apply Hq|eauto|]. exists j, o. split_and!; [constructor|auto|done].
Qed.

Lemma loaded_file f i o : loaded f i = Some o -> is_Some (files f !! state_path root i).
Proof. unfold loaded. destruct (files f !! state_path root i); [by eexists|done]. Qed.

(** The directory, the configuration and the state, after the checks. *)
Definition create_files (st : ContainerState.t) : M unit :=
  _ ← ufs.mkdir_p (dir root (ContainerState.id st));
  _ ← ufs.write_atomic pid (config_path root (ContainerState.id st))
        (to_string_pretty (ContainerConfig.to_json (ContainerState.config st)));
  save root pid st.

Lemma create_files_spec st w r w' :
  let i := ContainerState.id st in
  path.name_ok i -> container_state.wf st -> tree_ok (fs w) -> create_files st w = (r, w') ->
  tree_ok (fs w') /\
  (forall j, path.name_ok j -> j <> i -> loaded (fs w') j = loaded (fs w) j) /\
  match r with
  | Ok _ => loaded (fs w') i = Some (container_state.without_detach st) /\
      files (fs w') !! config_path root i = Some (to_string_pretty (ContainerConfig.to_json (ContainerState.config st)))
  | Err _ => loaded (fs w') i = loaded (fs w) i
  end.
Proof.
  intros i Hi Hwf Ht H. unfold create_files in H. fold i in H.
  apply M_bind_inv in H as [([] & w1 & Hm & H)|(e & Hm & ->)];
    destruct (mkdir_p_tree _ _ _ _ Hm Ht) as (Ht1 & Hf1 & _ & Hin).
  2: { split_and!; [done|intros..|]; apply loaded_same; by rewrite Hf1. }
  assert (forall f, (forall j m, path.name_ok j -> path.name_ok m ->
      (m <> "config.json" /\ m <> write_atomic.tmp_name pid "config.json") \/ j <> i ->
      files f !! path.join (dir root j) m = files (fs w1) !! path.join (dir root j) m) ->
      forall j, path.name_ok j -> loaded f j = loaded (fs w) j) as Hl'.
  { intros f Hk j Hj. apply loaded_same. rewrite <- Hf1. apply Hk; [done|apply state_name|].
    left. split; [done|apply not_tmp_config]. }
  apply M_bind_inv in H as [([] & w2 & Hc & H)|(e & Hc & ->)];
    pose proof (write_frame i "config.json" _ w1 _ _ Hi config_name (Hin eq_refl) Ht1 Hc)
      as ((_ & [_ Hk] & _) & Ht2 & _ & Hr); pose proof (Hl' _ Hk) as Hl; clear Hl' Hk.
  2: { split_and!; [done|by intros; apply Hl|by apply Hl]. }
  destruct (save_spec st w2 r w' Hi Hwf Ht2 H) as ((_ & [_ Hs] & _) & Ht3 & Hl3 & Hc3).
  fold i in Hs, Hl3, Hc3.
  split_and!; [done|intros j Hj Hne; rewrite Hs by done; by apply Hl|].
  destruct r; [|by rewrite Hl3, Hl]. split; [done|]. rewrite Hc3. exact Hr.
Qed.

(** The calls of [create_files] fail as file operations do, never with the
    error of a clash. *)
Definition no_clash_error {A : Type} (m : M A) : Prop :=
  forall w e w', m w = (Err e, w') -> match e with AlreadyExists _ => False | _ => True end.

Lemma no_clash_bind {A B : Type} (m : M A) (k : A -> M B) :
  no_clash_error m -> (forall a, no_clash_error (k a)) -> no_clash_error (m ≫= k).
Proof. intros Hm Hk w e w' [(a & w1 & _ & H)|(e' & H & [= <-])]%M_bind_inv; [by eapply Hk|by eapply Hm]. Qed.

Lemma no_clash_io {A : Type} f (m : IO A) :
  (forall w e, match f w e with AlreadyExists _ => False | _ => True end) -> no_clash_error (io_err f m).
Proof. intros Hf w e w'. unfold io_err. destruct (m w) as [[e'|a] w1]; intros [=]; subst. apply Hf. Qed.

Lemma no_clash_rename tmp p : no_clash_error (ufs.rename_or_clean tmp p).
Proof.
  intros w e w'. unfold ufs.rename_or_clean. destruct (fs_rename tmp p w) as [[e'|] w1]; [|done].
  destruct (fs_remove_file tmp w1) as [? w2]. by intros [= <- _].
Qed.

Lemma create_files_err st : no_clash_error (create_files st).
Proof.
  unfold create_files, save, ufs.write_atomic, ufs.mkdir_p.
  repeat first [apply no_clash_bind; [|intros ?] | apply no_clash_rename | apply no_clash_io; intros ? []; exact I].
Qed.

(** The id is taken, or the name is. *)
Definition clash (f : Fs) (st : ContainerState.t) : Prop :=
  exists_in root f (ContainerState.id st) = true \/
  exists n, ContainerState.name st = Some n /\ name_used f n.

(** The name check of [create]. *)
Definition name_check (st : ContainerState.t) : M unit :=
  match ContainerState.name st with
  | Some name => l ← ids root; check_name root name l
  | None => mret tt
  end.

Lemma create_eq st w :
  create root pid st w =
  if exists_in root (fs w) (ContainerState.id st)
  then (Err (AlreadyExists ("container " +:+ util.short_id (ContainerState.id st))), w)
  else match name_check st w with
       | (Ok _, w1) => create_files st w1
       | (Err e, w1) => (Err e, w1)
       end.
Proof.
  unfold create, exists_, ufs.exists_. unfold mbind at 1, M_bind at 1. fold (exists_in root (fs w) (ContainerState.id st)).
  by destruct (exists_in _ _ _).
Qed.

Lemma name_check_spec st w : tree_ok (fs w) -> exists_in root (fs w) (ContainerState.id st) = false ->
  let '(r, w') := name_check st w in
  same_fs w w' /\ (plan w = [] -> w' = w) /\
  match r with
  | Ok _ => plan w = [] -> ~ clash (fs w) st
  | Err e => (clash (fs w) st /\ exists m, e = AlreadyExists m) \/
             (exists m, e = Io m) /\ (plan w = [] -> ~ clash (fs w) st)
  end.
Proof.
  intros Ht Ee. unfold name_check, clash. rewrite Ee.
  destruct (ContainerState.name st) as [n|] eqn:En.
  2: { split_and!; [done..|]. by intros _ [?|(n & ? & _)]. }
  pose proof (ids_spec w) as I. unfold mbind, M_bind. destruct (ids root w) as [[l|e] w1].
  - destruct I as (S1 & Hw & Hn & Hin). pose proof S1 as (E1 & _).
    pose proof (check_name_spec n l w1) as C. destruct (check_name root n l w1) as [r w2].
    destruct C as (S2 & W2 & C). rewrite E1 in C.
    split_and!; [by eapply same_fs_trans|intros Hp; rewrite (Hw Hp) in *; auto|]. destruct r.
    + intros Hp [?|(n' & [= <-] & j & o & Hj & Ho & Hno)]; [done|]. rewrite (Hw Hp) in C.
      by apply (C Hp j o); [apply Hin; [done|done|by eapply loaded_file]|..].
    + destruct C as ([m ->] & j & o & Hj & Ho & Hno). left. split; [|eauto].
      right. exists n. split; [done|]. exists j, o. split; [by apply Hn|done].
  - destruct I as (S1 & Hw & He & Hd). split_and!; [done..|]. right. split; [done|].
    intros Hp [?|(n' & [= <-] & j & o & Hj & Ho & Hno)]; [done|]. apply (Hd Hp).
    by apply (state_file_listed _ j); [..|by eapply loaded_file].
Qed.

(** The ways a creation goes: a clash it saw, names it could not read, or its
    files written.  When no call fails, every clash is seen. *)
Lemma create_cases st w : tree_ok (fs w) ->
  exists w1, same_fs w w1 /\ (plan w = [] -> w1 = w) /\
  ((clash (fs w) st /\ exists m, create root pid st w = (Err (AlreadyExists m), w1)) \/
   ((plan w = [] -> ~ clash (fs w) st) /\ exists m, create root pid st w = (Err (Io m), w1)) \/
   (exists_in root (fs w) (ContainerState.id st) = false /\ (plan w = [] -> ~ clash (fs w) st) /\
    create root pid st w = create_files st w1)).
Proof.
  intros Ht. rewrite create_eq. destruct (exists_in root (fs w) _) eqn:Ee.
  { exists w. split_and!; [done..|]. left. split; [by left|eauto]. }
  pose proof (name_check_spec st w Ht Ee) as N. destruct (name_check st w) as [[u|e] w1]; destruct N as (S & W & N);
    exists w1; (split_and!; [done..|]); [by right; right|].
  destruct N as [[? [m ->]]|[[m ->] ?]]; [left|right; left]; eauto.
Qed.

Lemma remove_spec i w r w' :
  path.name_ok i -> tree_ok (fs w) -> remove root i w = (r, w') ->
  tree_ok (fs w') /\
  (forall j, path.name_ok j -> j <> i -> loaded (fs w') j = loaded (fs w) j) /\
  (loaded (fs w') i = loaded (fs w) i \/ loaded (fs w') i = None) /\
  (r = Ok tt -> exists_in root (fs w') i = false).
Proof.
  intros Hi Ht H. pose proof (dir_dir_ok i Hi) as Hd. unfold remove, ufs.exists_, mbind, M_bind in H.
  destruct (path_exists _ _) eqn:Ee.
  - unfold io_err in H. destruct (fs_remove_dir_all (dir root i) w) as [r1 w1] eqn:Er.
    destruct (remove_dir_all_tree _ _ _ _ Hd Er Ht) as (Ht' & Hk & Hor & Hgone).
    assert (w' = w1) as -> by (by destruct r1; simplify_eq). split_and!; [done| | |].
    + intros j Hj Hne. apply loaded_same, Hk. by apply below_other.
    + destruct (Hor (state_path root i)) as [E|E]; [left; by apply loaded_same|right].
      unfold loaded. by rewrite E.
    + intros ->. destruct r1 as [|u]; [done|].
      destruct (Hgone u eq_refl (state_path root i)) as [E1 E2].
      { unfold below. apply orb_true_iff. right. unfold state_path. rewrite path.join_eq by done.
        rewrite <- str_app_assoc. apply starts_with_app. }
      unfold exists_in, path_exists. rewrite E1. by rewrite bool_decide_eq_false_2.
  - cbv [mret M_ret] in H. injection H as <- <-. split_and!; [done|done|by left|]. intros _.
    destruct (exists_in root (fs w) i) eqn:E; [exfalso|done].
    assert (dir root i ∈ dirs (fs w)) as Hin.
    { eapply tree_parent; [done| |by apply parent_in_dir; [|apply state_name]|by destruct Hd].
      unfold exists_in, path_exists in E. apply orb_true_iff in E as [E|E];
        [right; by apply bool_decide_eq_true in E|left].
      unfold state_path in E. by destruct (files (fs w) !! _); [eexists|]. }
    unfold path_exists in Ee. by rewrite bool_decide_eq_true_2 in Ee.
Qed.

(** ** Names *)

(** Calls one after another, under any faults but two: a creation that takes a
    name reads the other records without I/O errors (it passes over those it
    cannot read), and a save is of a record that is there and keeps its name
    (one after the removal would bring the container back). *)
Inductive history : World -> Prop :=
| h_start w : tree_ok (fs w) -> (forall i, path.name_ok i -> loaded (fs w) i = None) -> history w
| h_create st w r w' :
    history w -> util.validate_id (ContainerState.id st) = Ok tt -> container_state.wf st ->
    create root pid st w = (r, w') ->
    plan w = [] \/ is_ok r = false \/ ContainerState.name st = None -> history w'
| h_save st old w r w' :
    history w -> util.validate_id (ContainerState.id st) = Ok tt -> container_state.wf st ->
    loaded (fs w) (ContainerState.id st) = Some old -> ContainerState.name st = ContainerState.name old ->
    save root pid st w = (r, w') -> history w'
| h_remove i w r w' :
    history w -> util.validate_id i = Ok tt -> remove root i w = (r, w') -> history w'
| h_other w w' : history w -> fs w' = fs w -> history w'.

Definition names_unique (f : Fs) : Prop :=
  forall i j a b n, path.name_ok i -> path.name_ok j -> loaded f i = Some a -> loaded f j = Some b ->
    ContainerState.name a = Some n -> ContainerState.name b = Some n -> i = j.

(** One container changes: to nothing, or to a state whose name no other has. *)
Lemma names_step f g i :
  names_unique f ->
  (forall j, path.name_ok j -> j <> i -> loaded g j = loaded f j) ->
  (forall a n j b, loaded g i = Some a -> ContainerState.name a = Some n ->
     path.name_ok j -> loaded f j = Some b -> ContainerState.name b = Some n -> j = i) ->
  names_unique g.
Proof.
  intros Hu Hf Hi j1 j2 a b n H1 H2 Ha Hb Hna Hnb.
  destruct (decide (j1 = i)) as [->|N1], (decide (j2 = i)) as [->|N2]; [done|..].
  - rewrite Hf in Hb by done. symmetry. by eapply Hi.
  - rewrite Hf in Ha by done. by eapply Hi.
  - rewrite Hf in Ha, Hb by done. by apply (Hu j1 j2 a b n).
Qed.

Lemma history_inv w : history w -> tree_ok (fs w) /\ names_unique (fs w).
Proof.
  induction 1 as [w Ht Hn|st w r w' _ [Ht Hu] Hi%valid_id_name_ok Hwf H Hq
    |st old w r w' _ [Ht Hu] Hi%valid_id_name_ok Hwf Hold Hname H|i w r w' _ [Ht Hu] Hi%valid_id_name_ok H|w w' _ IH E].
  - split; [done|]. intros i j a b n Hi _ Ha. by rewrite Hn in Ha.
  - destruct (create_cases st w Ht) as (w1 & [E1 _] & W & [[_ [m E]]|[[_ [m E]]|(_ & Hc & E)]]); rewrite E in H;
      [simplify_eq; by rewrite E1..|].
    destruct (create_files_spec st w1 r w' Hi Hwf ltac:(by rewrite E1) H) as (Ht' & Hf & Hr). rewrite E1 in Hf, Hr.
    split; [done|]. apply (names_step (fs w) _ (ContainerState.id st)); [done|done|].
    intros a n j b Ha Hna Hj Hb Hnb. destruct r.
    + destruct Hr as [Hr _]. rewrite Hr in Ha. injection Ha as <-. exfalso.
      destruct Hq as [Hp|[?|Hq]]; [|done|by cbn in Hna; rewrite Hq in Hna].
      apply (Hc Hp). right. exists n. split; [done|]. by exists j, b.
    + rewrite Hr in Ha. by apply (Hu _ _ b a n).
  - destruct (save_spec st w r w' Hi Hwf Ht H) as ((_ & [_ Hf] & _) & Ht' & Hl & _). split; [done|].
    apply (names_step (fs w) _ (ContainerState.id st)); [done|done|].
    intros a n j b Ha Hna Hj Hb Hnb. rewrite Hl in Ha. destruct r.
    + injection Ha as <-. apply (Hu _ _ b old n); try done. by rewrite <- Hname.
    + by apply (Hu _ _ b a n).
  - destruct (remove_spec i w r w' Hi Ht H) as (Ht' & Hf & Hl & _). split; [done|].
    apply (names_step (fs w) _ i); [done|done|]. intros a n j b Ha Hna Hj Hb Hnb.
    destruct Hl as [Hl|Hl]; rewrite Hl in Ha; [|done]. by apply (Hu _ _ b a n).
  - by rewrite E.
Qed.


(** ** Resolving *)

(** What the loop of [resolve] finds, whichever of its reads fail: a container
    it returns has the needle as its name, and the matches are the ids with
    the prefix; when no read fails, no other container has the name. *)
Definition scan_ok (w : World) (needle : string) (l acc : Datatypes.list string)
    (r : string + Datatypes.list string) : Prop :=
  match r with
  | inl i => i ∈ l /\ exists st, loaded (fs w) i = Some st /\ ContainerState.name st = Some needle
  | inr m => m = acc ++ filter (fun j => starts_with needle j = true) l /\
      (plan w = [] -> forall j st, j ∈ l -> starts_with needle j = false -> loaded (fs w) j = Some st ->
        ContainerState.name st <> Some needle)
  end.

Lemma scan_ok_skip w w1 needle j l acc r :
  fs w1 = fs w -> (plan w = [] -> w1 = w) -> starts_with needle j = false ->
  (plan w = [] -> forall st, loaded (fs w) j = Some st -> ContainerState.name st <> Some needle) ->
  scan_ok w1 needle l acc r -> scan_ok w needle (j :: l) acc r.
Proof.
  intros E W Hs Hn. destruct r as [i|m]; cbn [scan_ok]; rewrite E.
  - intros [Hi H]. split; [by constructor|done].
  - rewrite filter_cons, decide_False by congruence. intros [-> H]. split; [done|].
    intros Hp j' st [->|Hj]%elem_of_cons; [by eauto|]. apply H; [by rewrite (W Hp)|done].
Qed.

Lemma scan_ok_match w needle j l acc r :
  starts_with needle j = true -> scan_ok w needle l (acc ++ [j]) r -> scan_ok w needle (j :: l) acc r.
Proof.
  intros Hs. destruct r as [i|m]; cbn [scan_ok].
  - intros [Hi H]. split; [by constructor|done].
  - rewrite filter_cons, decide_True, <- (assoc_L (++)) by done. intros [-> H]. split; [done|].
    intros Hp j' st [->|Hj]%elem_of_cons; [congruence|eauto].
Qed.

Lemma scan_spec needle l : forall acc w,
  let '(r, w') := scan root needle l acc w in
  same_fs w w' /\ exists x, r = Ok x /\ scan_ok w needle l acc x.
Proof.
  induction l as [|j l IH]; intros acc w; cbn [scan].
  - split; [done|]. eexists. split; [done|]. cbn. rewrite (right_id_L [] (++)). split; [done|].
    by intros _ ? ? ?%elem_of_nil.
  - destruct (starts_with needle j) eqn:Es.
    { specialize (IH (acc ++ [j]) w). destruct (scan root needle l _ w) as [r w'].
      destruct IH as (S & x & -> & Hx). split; [done|]. exists x. split; [done|]. by apply scan_ok_match. }
    unfold mbind, M_bind, try. pose proof (load_spec j w) as L. destruct (load root j w) as [r1 w1].
    destruct L as (S1 & L & Hq). specialize (IH acc w1).
    assert ((forall o, r1 = Ok o -> ContainerState.name o <> Some needle) ->
      let '(r, w') := scan root needle l acc w1 in
      same_fs w w' /\ exists x, r = Ok x /\ scan_ok w needle (j :: l) acc x) as Hgo.
    { intros Hn. destruct (scan root needle l acc w1) as [r w']. destruct IH as (S2 & x & -> & Hx).
      split; [by eapply same_fs_trans|]. exists x. split; [done|]. revert Hx. apply scan_ok_skip; [apply S1| |done|].
      - intros Hp. by apply Hq.
      - intros Hp st Hst. apply Hn. destruct (Hq Hp) as [_ E]. rewrite Hst in E. by destruct r1; simplify_eq/=. }
    destruct r1 as [o|e]; [|by apply Hgo]. case_decide as Hn; [|apply Hgo; congruence].
    split; [done|]. eexists. split; [done|]. split; [constructor|]. exists o. auto.
Qed.


(** ** Creating and reconciling *)


(** The state [reconcile] leaves when the init process is gone. *)
Definition lost (now : Z) (st : ContainerState.t) : ContainerState.t :=
  let st := ContainerState.set_status st Status.Stopped in
  let st := if ContainerState.finished_at st =? 0 then ContainerState.set_finished st now else st in
  match ContainerState.error st with
  | None => ContainerState.set_error st (Some "init process disappeared without recording an exit status")
  | Some _ => st
  end.

Lemma lost_wf now st : size_ok now -> container_state.wf st -> container_state.wf (lost now st).
Proof.
  intros Hn (H1 & H2 & H3 & H4 & H5 & H6 & H7 & H8 & H9 & H10 & H11 & H12 & H13 & H14). unfold lost.
  cbn. destruct (ContainerState.finished_at st =? 0); cbn;
    destruct (ContainerState.error st) eqn:E; unfold container_state.wf; cbn; rewrite ?E; cbn; split_and!;
    try done; cbn in H11; done.
Qed.

Lemma lost_id now st : ContainerState.id (lost now st) = ContainerState.id st.
Proof. unfold lost. repeat case_match; done. Qed.

(** A state file that claims a live container whose init process is gone is
    corrected: the state becomes stopped with an end time and an error, and it
    is saved (or, when that fails, the old file stays); every other state is
    left alone. *)
Theorem reconcile_correct (now : Z) (stat : Z -> option string) (st : ContainerState.t) (w : World) :
  0 < now -> size_ok now -> util.validate_id (ContainerState.id st) = Ok tt ->
  container_state.wf st -> tree_ok (fs w) ->
  let '(r, st', w') := reconcile root pid now stat st w in
  if Status.is_live (ContainerState.status st) && negb (ContainerState.init_is_alive stat st) then
    ContainerState.status st' = Status.Stopped /\ ContainerState.finished_at st' <> 0 /\
    is_Some (ContainerState.error st') /\ ContainerState.config st' = ContainerState.config st /\
    match r with
    | Ok b => b = true /\ loaded (fs w') (ContainerState.id st) = Some (container_state.without_detach st')
    | Err _ => loaded (fs w') (ContainerState.id st) = loaded (fs w) (ContainerState.id st)
    end
  else r = Ok false /\ st' = st /\ w' = w.
Proof.
  intros Hn Hs Hi%valid_id_name_ok Hwf Ht. unfold reconcile.
  destruct (Status.is_live _); [|done]. destruct (ContainerState.init_is_alive stat st); [done|]. cbn [negb andb].
  fold (lost now st). cbv zeta. fold (lost now st).
  destruct (save root pid (lost now st) w) as [r w'] eqn:E.
  rewrite <- (lost_id now st) in Hi.
  pose proof (save_spec (lost now st) w r w' Hi (lost_wf _ _ Hs Hwf) Ht E) as (_ & _ & Hl & _).
  rewrite lost_id in Hl.
  assert (ContainerState.status (lost now st) = Status.Stopped /\ ContainerState.finished_at (lost now st) <> 0 /\
    is_Some (ContainerState.error (lost now st)) /\
    ContainerState.config (lost now st) = ContainerState.config st) as (F1 & F2 & F3 & F4).
  { unfold lost. cbn. destruct (ContainerState.finished_at st =? 0) eqn:Ef; bool_prop; cbn;
      destruct (ContainerState.error st) eqn:Ee; cbn; rewrite ?Ee; split_and!; try done; try lia; by eexists. }
  destruct r; split_and!; done.
Qed.

End Store.

(** ** A store with one container *)

Definition demo_store : World := MkWorld (MkFs ∅ {["/"; "/run"; "/run/containers"]}) [] [] (fun _ => "No space left on device").

Definition tree_okb (f : Fs) : bool :=
  forallb (in_dir f) ((map_to_list (files f)).*1 ++ elements (dirs f)).

Lemma tree_okb_ok f : tree_okb f = true -> tree_ok f.
Proof.
  unfold tree_okb. rewrite forallb_forall. intros H p Hp. apply H, list_elem_of_In, elem_of_app.
  destruct Hp as [[c Hc]|Hp]; [left|right; by apply elem_of_elements].
  apply list_elem_of_fmap. exists (p, c). split; [done|]. by apply elem_of_map_to_list.
Qed.

Lemma demo_tree : tree_ok (fs demo_store).
Proof. apply tree_okb_ok. vm_compute. reflexivity. Qed.

Lemma run_dir_ok : path.dir_ok "/run".
Proof. split; [discriminate|reflexivity]. Qed.

(** A save whose rename fails. *)
Lemma save_atomic_witness :
  let st := container_state.sample in
  let w := MkWorld (fs demo_store) [FNone; FNone; FNone; FNone; FErr 28 0] [] (strerror demo_store) in
  let '(r, w') := save "/run" 7 st w in
  is_ok r = false /\
  (exists new, hist w' = hist w ++ new /\ Forall (seen "/run" (fs w) "web-1" st) new) /\
  seen "/run" (fs w) "web-1" st (fs w') /\
  match r with
  | Ok _ => plan w' = [] -> load "/run" "web-1" w' = (Ok (container_state.without_detach st), w')
  | Err _ => loaded "/run" (fs w') "web-1" = loaded "/run" (fs w) "web-1"
  end.
Proof.
  cbv zeta. set (w := MkWorld _ _ _ _).
  assert (is_ok (save "/run" 7 container_state.sample w).1 = false) as Hr by (vm_compute; reflexivity).
  destruct (save "/run" 7 container_state.sample w) as [r w'] eqn:E. split; [exact Hr|].
  exact (save_atomic "/run" 7 run_dir_ok container_state.sample w w' r eq_refl container_state.state_sample_wf demo_tree E).
Defined.

Lemma demo_history :
  history "/run" 7 (create "/run" 7 container_state.sample demo_store).2.
Proof.
  apply (h_create "/run" 7 container_state.sample demo_store
    (create "/run" 7 container_state.sample demo_store).1);
    [|reflexivity|exact container_state.state_sample_wf|by destruct (create _ _ _ _)|by left].
  apply h_start; [exact demo_tree|]. intros i _. unfold loaded, demo_store.
  cbn [fs files]. by rewrite lookup_empty.
Qed.

(** A second container of the same name is refused. *)
Definition second_web : ContainerState.t :=
  ContainerState.Mk "web-2" (Some "web") Status.Creating 0 0 0 5 0 0 None None false None None
    NetworkState.default ContainerConfig.default.


(** Two containers, the second of which is called "db". *)
Definition db : ContainerState.t :=
  ContainerState.Mk "cafe-2" (Some "db") Status.Creating 0 0 0 5 0 0 None None false None None
    NetworkState.default container_config.sample.

Lemma db_wf : container_state.wf db.
Proof.
  unfold container_state.wf, network_state.wf, port_mapping.wf, size_ok, utf8, in_u, in_s.
  split_and!; first [exact container_config.config_sample_wf | vm_compute; done | by apply Forall_nil].
Qed.

Definition two_stored : World :=
  (create "/run" 7 db (create "/run" 7 container_state.sample demo_store).2).2.

Lemma two_stored_tree : tree_ok (fs two_stored).
Proof. apply tree_okb_ok. vm_compute. reflexivity. Qed.


(** The other answers: an id, an unshared prefix, nothing, and, when the record
    of the container cannot be read, nothing although its name matches. *)
Example resolve_answers :
  (resolve "/run" "web-1" two_stored).1 = Ok "web-1" /\
  (resolve "/run" "caf" two_stored).1 = Ok "cafe-2" /\
  (exists m, (resolve "/run" "mail" two_stored).1 = Err (NotFound m)) /\
  let unreadable := MkWorld (fs two_stored) [FNone; FErr 5 0] [] (strerror two_stored) in
  (exists m, (resolve "/run" "db" unreadable).1 = Err (NotFound m)).
Proof. split_and!; [..|cbv zeta]; try eexists; vm_compute; reflexivity. Qed.


Lemma reconcile_correct_witness :
  let st := container_state.sample in
  let w := demo_store in
  let '(r, st', w') := reconcile "/run" 7 1700000009999 (fun _ => None) st w in
  ContainerState.status st' = Status.Stopped /\ ContainerState.finished_at st' <> 0 /\
  is_Some (ContainerState.error st') /\ ContainerState.config st' = ContainerState.config st /\
  match r with
  | Ok b => b = true /\ loaded "/run" (fs w') "web-1" = Some (container_state.without_detach st')
  | Err _ => loaded "/run" (fs w') "web-1" = loaded "/run" (fs w) "web-1"
  end.
Proof.
  cbv zeta.
  pose proof (reconcile_correct "/run" 7 run_dir_ok 1700000009999 (fun _ => None) container_state.sample demo_store
    ltac:(lia) ltac:(split; vm_compute; done) eq_refl container_state.state_sample_wf demo_tree) as H.
  exact H.
Defined.

(** A name does not always resolve: when the named container's own id also
    starts with it, the name is not looked at, and a second such id makes it
    ambiguous. *)
Example name_shadowed_by_prefix :
  let w1 := (create "/run" 7 container_state.sample demo_store).2 in
  let other := ContainerState.Mk "web-2" None Status.Creating 0 0 0 5 0 0 None None false None None
    NetworkState.default ContainerConfig.default in
  let w2 := (create "/run" 7 other w1).2 in
  (resolve "/run" "web" w1).1 = Ok "web-1" /\
  is_ok (resolve "/run" "web" w2).1 = false.
Proof. vm_compute. done. Qed.
