(* ===== verification/Cgroup.v ===== *)
(** * [src/runtime/cgroup.rs]: cgroup v2 resource control

    Every function over the kernel's files ([KernFs]) and the processes
    ([Processes]).  The environment variables are arguments. *)
From S2P Require Import Prelude RustStr Num Utf8 F64 Error Fault Config Fs Host KernFs Mount.

Module CgroupStats.
Record t := Mk {
  memory_current : option Z; memory_peak : option Z; memory_max : option Z; oom_kills : Z;
  cpu_usage_usec : option Z; cpu_user_usec : option Z; cpu_system_usec : option Z;
  nr_throttled : Z; throttled_usec : Z; pids_current : option Z; pids_max : option Z
}.
End CgroupStats.

Module cgroup.

Definition WANTED : list string := ["memory"; "cpu"; "pids"].
Definition BASE_NAME : string := "myrun".

Record Cgroup := MkCgroup { path : string; enabled : list string }.

Definition allow_missing_controllers (MYRUN_ALLOW_MISSING_CONTROLLERS : option string) : bool :=
  bool_decide (MYRUN_ALLOW_MISSING_CONTROLLERS ∈ [Some "1"; Some "true"; Some "yes"]).

(** What the controllers the configuration needs are. *)
Definition required_for (res : Resources.t) : list string :=
  (if negb (Resources.is_none (Resources.memory res)) || negb (Resources.is_none (Resources.memory_swap res))
   then ["memory"] else []) ++
  (if negb (Resources.is_none (Resources.cpus res)) || negb (Resources.is_none (Resources.cpu_weight res))
   then ["cpu"] else []) ++
  (if negb (Resources.is_none (Resources.pids res)) then ["pids"] else []).

(** The process ended in a panic of the reader of the mount table. *)
Definition panicked : Error := Io "panicked".

Definition no_cgroup2 : string :=
  "no cgroup2 filesystem is mounted; myrun requires cgroup v2 (mount one with: mount -t cgroup2 none /sys/fs/cgroup)".

Definition missing_message (missing mount available : string) : string :=
  "cgroup v2 controller(s) " +:+ missing +:+ " are not available at " +:+ mount
  +:+ " (cgroup.controllers = [" +:+ available +:+ "]). The requested limits cannot be enforced."
  +:+ " This usually means the host is running cgroup v1 or hybrid mode, or the controllers are not"
  +:+ " delegated to this subtree. Boot with systemd.unified_cgroup_hierarchy=1, or set"
  +:+ " MYRUN_ALLOW_MISSING_CONTROLLERS=1 to run without enforcement.".

(** [(k, v)] of the lines of a flat keyed file. *)
Definition keyed_line (line : string) : option (string * Z) :=
  match split_whitespace line with
  | k :: v :: _ => n ← parse_u 64 v; Some (k, n)
  | _ => None
  end.

Section ops.
Context {H : Type} `{KernFs H} `{Processes H}.
Context (MYRUN_FAULT MYRUN_ALLOW_MISSING_CONTROLLERS : option string).

Definition mount_point : HM H string := fun h =>
  match mount.find_cgroup2_mount h with
  | (None, h') => (Err panicked, h')
  | (Some (Some m), h') => (Ok m, h')
  | (Some None, h') => (Err (Unsupported no_cgroup2), h')
  end.

Definition read_list (p : string) : HM H (list string) :=
  r ← host.try (kfs.read_trimmed p);
  mret (match r with Ok s => split_whitespace s | Err _ => [] end).

Definition available_controllers (dir : string) : HM H (list string) :=
  read_list (path.join dir "cgroup.controllers").

(** The loop of [enable_subtree]. *)
Fixpoint enable_go (dir : string) (already wanted : list string) : HM H (list string) :=
  match wanted with
  | [] => mret []
  | c :: rest =>
      ok ← (if bool_decide (c ∈ already) then mret true
            else r ← host.try (kfs.write_file (path.join dir "cgroup.subtree_control") ("+" +:+ c));
                 mret (is_ok r));
      others ← enable_go dir already rest;
      mret (if ok : bool then c :: others else others)
  end.

Definition enable_subtree (dir : string) (wanted : list string) : HM H (list string) :=
  already ← read_list (path.join dir "cgroup.subtree_control");
  enable_go dir already wanted.

Definition has (cg : Cgroup) (controller : string) : bool := bool_decide (controller ∈ enabled cg).

Definition write (cg : Cgroup) (file value : string) : HM H unit :=
  host.map_err (fun e => Io ("writing " +:+ debug_str value +:+ " to " +:+ path cg +:+ "/" +:+ file
                             +:+ ": " +:+ error_str e))
    (kfs.write_file (path.join (path cg) file) value).

Definition write_if (cg : Cgroup) (controller file value : string) : HM H unit :=
  if has cg controller then write cg file value else mret tt.

Definition read (cg : Cgroup) (file : string) : HM H (option string) :=
  r ← host.try (kfs.read_trimmed (path.join (path cg) file)); mret (ok r).

Definition read_u64 (cg : Cgroup) (file : string) : HM H (option Z) :=
  t ← read cg file;
  mret (s ← t; if bool_decide (s = "max") then None else parse_u 64 s).

Definition read_keyed (cg : Cgroup) (file : string) : HM H (list (string * Z)) :=
  t ← read cg file;
  mret (match t with Some text => omap keyed_line (lines text) | None => [] end).

Definition keyed_value (cg : Cgroup) (file key : string) : HM H (option Z) :=
  l ← read_keyed cg file;
  mret (snd <$> List.find (fun kv => bool_decide (fst kv = key)) l).

(** [if let Some(v) = o { f(v)?; }]. *)
Definition when_some {A : Type} (o : option A) (f : A -> HM H unit) : HM H unit :=
  match o with Some v => f v | None => mret tt end.

Definition swap_only (res : Resources.t) (s : Z) : Z :=
  match Resources.memory res with Some m => Z.max 0 (s - m) | None => s end.

Definition apply (cg : Cgroup) (res : Resources.t) : HM H unit :=
  _ ← when_some (Resources.memory res) (fun m => write_if cg "memory" "memory.max" (show_dec m));
  _ ← match Resources.memory_swap res with
      | Some s => write_if cg "memory" "memory.swap.max" (show_dec (swap_only res s))
      | None =>
          if Resources.is_none (Resources.memory res) then mret tt
          else host.ignore (write_if cg "memory" "memory.swap.max" "0")
      end;
  _ ← when_some (Resources.cpu_max_value res) (fun v => write_if cg "cpu" "cpu.max" v);
  _ ← when_some (Resources.cpu_weight res) (fun w => write_if cg "cpu" "cpu.weight" (show_dec w));
  when_some (Resources.pids res) (fun p => write_if cg "pids" "pids.max" (show_dec p)).

(** [let _ = std::fs::remove_dir(p)]. *)
Definition remove_dir_ignored (p : string) : HM H unit := fun h => (Ok tt, snd (kf_rmdir p h)).

(** The closure [finish] of [create]. *)
Definition finish (cg : Cgroup) (res : Resources.t) : HM H unit :=
  _ ← host.lift (fault.check MYRUN_FAULT "after_cgroup_create");
  _ ← apply cg res;
  host.lift (fault.check MYRUN_FAULT "after_cgroup_limits").

(** The refusal of [create] when the limits cannot be enforced. *)
Definition check_missing (mount : string) (required enabled : list string) : HM H unit :=
  let missing := filter (fun c => c ∉ enabled) required in
  if bool_decide (missing = []) then mret tt
  else
    available ← available_controllers mount;
    if allow_missing_controllers MYRUN_ALLOW_MISSING_CONTROLLERS then mret tt
    else host.fail (Unsupported (missing_message (join ", " missing) mount (join " " available))).

Definition create (id : string) (res : Resources.t) : HM H Cgroup :=
  mount ← mount_point;
  let base := path.join mount BASE_NAME in
  _ ← enable_subtree mount WANTED;
  there ← kfs.exists_ base;
  _ ← (if there : bool then mret tt else kfs.create_dir "creating cgroup " base);
  enabled ← enable_subtree base WANTED;
  _ ← check_missing mount (required_for res) enabled;
  let p := path.join base id in
  left_over ← kfs.exists_ p;
  _ ← (if left_over : bool then remove_dir_ignored p else mret tt);
  _ ← kfs.create_dir "creating cgroup " p;
  let cg := MkCgroup p enabled in
  r ← host.try (finish cg res);
  match r with
  | Err e => _ ← remove_dir_ignored p; host.fail e
  | Ok _ => mret cg
  end.

Definition attach (p : string) : HM H Cgroup :=
  d ← kfs.is_dir p;
  if d : bool then enabled ← available_controllers p; mret (MkCgroup p enabled)
  else host.fail (NotFound ("cgroup " +:+ p)).

Definition add_pid (cg : Cgroup) (pid : Z) : HM H unit := write cg "cgroup.procs" (show_dec pid).

Definition pids (cg : Cgroup) : HM H (list Z) :=
  t ← read cg "cgroup.procs";
  mret (match t with Some s => omap (fun l => parse_i 32 (trim l)) (lines s) | None => [] end).

Definition is_populated (cg : Cgroup) : HM H bool :=
  v ← keyed_value cg "cgroup.events" "populated"; mret (default 0 v =? 1).

Definition freeze (cg : Cgroup) : HM H unit := write cg "cgroup.freeze" "1".
Definition thaw (cg : Cgroup) : HM H unit := write cg "cgroup.freeze" "0".
Definition frozen (cg : Cgroup) : HM H bool :=
  v ← read cg "cgroup.freeze"; mret (bool_decide (v = Some "1")).

Definition kill_all (cg : Cgroup) : HM H unit :=
  there ← kfs.exists_ (path.join (path cg) "cgroup.kill");
  if there : bool then write cg "cgroup.kill" "1"
  else ps ← pids cg; host.for_each (fun pid => host.ignore (kill_pid pid SIGKILL)) ps.

Definition stats (cg : Cgroup) : HM H CgroupStats.t :=
  memory_current ← read_u64 cg "memory.current";
  memory_peak ← read_u64 cg "memory.peak";
  memory_max ← read_u64 cg "memory.max";
  oom_kills ← keyed_value cg "memory.events" "oom_kill";
  cpu_usage_usec ← keyed_value cg "cpu.stat" "usage_usec";
  cpu_user_usec ← keyed_value cg "cpu.stat" "user_usec";
  cpu_system_usec ← keyed_value cg "cpu.stat" "system_usec";
  nr_throttled ← keyed_value cg "cpu.stat" "nr_throttled";
  throttled_usec ← keyed_value cg "cpu.stat" "throttled_usec";
  pids_current ← read_u64 cg "pids.current";
  pids_max ← read_u64 cg "pids.max";
  mret (CgroupStats.Mk memory_current memory_peak memory_max (default 0 oom_kills)
          cpu_usage_usec cpu_user_usec cpu_system_usec (default 0 nr_throttled) (default 0 throttled_usec)
          pids_current pids_max).

Definition was_oom_killed (cg : Cgroup) : HM H bool :=
  s ← stats cg; mret (0 <? CgroupStats.oom_kills s).

(** The loop of [remove]: [attempts] rounds are left. *)
Fixpoint remove_go (attempts : nat) (first : bool) (cg : Cgroup) : HM H unit := fun h =>
  match attempts with
  | O => (Err (Io ("cgroup " +:+ path cg +:+
                   " is still busy after 1s; processes may be unkillable (D state)")), h)
  | S n =>
      match kf_rmdir (path cg) h with
      | (inr _, h1) => (Ok tt, h1)
      | (inl e, h1) =>
          let busy := match e with Os k => k =? EBUSY | Other _ => false end in
          if negb busy && negb (kf_exists (path cg) h1) then (Ok tt, h1)
          else
            let h2 := if first && busy then snd (kill_all cg h1) else h1 in
            remove_go n false cg (sleep_ms 20 h2)
      end
  end.

Definition remove (cg : Cgroup) : HM H unit :=
  there ← kfs.exists_ (path cg);
  if there : bool then remove_go 50 true cg else mret tt.

(** The loop of [gc_empty] over the entries of the base directory. *)
Fixpoint gc_go (base : string) (live_ids names : list string) (removed : Z) : HM H Z :=
  match names with
  | [] => mret removed
  | name :: rest =>
      let p := path.join base name in
      gone ← (d ← kfs.is_dir p;
              if negb d || bool_decide (name ∈ live_ids) then mret false
              else
                a ← host.try (attach p);
                match a with
                | Err _ => mret false
                | Ok cg =>
                    ps ← pids cg;
                    if bool_decide (ps = []) then r ← host.try (remove cg); mret (is_ok r) else mret false
                end);
      gc_go base live_ids rest (if gone : bool then removed + 1 else removed)
  end.

Definition gc_base (live_ids : list string) (base : string) : HM H Z := fun h =>
  match kf_read_dir base h with
  | (inl _, h') => (Ok 0, h')
  | (inr names, h') => gc_go base live_ids names 0 h'
  end.

Definition gc_empty (live_ids : list string) : HM H Z :=
  m ← host.try mount_point;
  match m with
  | Err _ => mret 0
  | Ok mount => gc_base live_ids (path.join mount BASE_NAME)
  end.

End ops.
End cgroup.
