(* ===== verification/CgroupFacts.v ===== *)
(** * Theorems about control groups: the limits are in place before the process
    exists, and a failed creation leaves nothing behind *)
From S2P Require Import Prelude RustStr Num F64 Error Fault Util UtilFacts Config Fs Host KernFs Mount Store StoreFacts Cgroup.
Import cgroup.

(** ** What the kernel promises *)

(** The documentation of cgroup v2 on the calls the runtime makes. *)
Class CgroupLaws (H : Type) `{KernFs H} `{Processes H} := {
  (** The directories of the hierarchy. *)
  dirs : H -> gset string;
  (** The value a control file was last given. *)
  value : H -> string -> option string;
  (** A group without processes and without groups below it. *)
  idle : H -> string -> Prop;
  cg_exists : forall p h, p ∈ dirs h -> kf_exists p h = true;
  cg_is_dir : forall p h, kf_is_dir p h = bool_decide (p ∈ dirs h);
  cg_read_keeps : forall p h, let h' := snd (kf_read p h) in
    dirs h' = dirs h /\ (forall f, value h' f = value h f) /\ (forall q, idle h q -> idle h' q);
  cg_read_dir_keeps : forall p h, let h' := snd (kf_read_dir p h) in
    dirs h' = dirs h /\ (forall f, value h' f = value h f) /\ (forall q, idle h q -> idle h' q);
  cg_write_dirs : forall p v h, dirs (snd (kf_write p v h)) = dirs h;
  cg_write_value : forall p v h f,
    value (snd (kf_write p v h)) f
    = (if bool_decide (f = p) && (match fst (kf_write p v h) with inr _ => true | inl _ => false end)
       then Some v else value h f);
  (** Only [cgroup.procs] moves processes. *)
  cg_write_idle : forall p v h q, path.file_name p <> Some "cgroup.procs" -> idle h q -> idle (snd (kf_write p v h)) q;
  cg_mkdir_ok : forall p h h', kf_mkdir p h = (inr tt, h') ->
    (p ∉ dirs h) /\ dirs h' = {[p]} ∪ dirs h /\ idle h' p;
  cg_mkdir_failed : forall p h e h', kf_mkdir p h = (inl e, h') -> dirs h' = dirs h;
  cg_rmdir_ok : forall p h h', kf_rmdir p h = (inr tt, h') -> dirs h' = dirs h ∖ {[p]};
  cg_rmdir_failed : forall p h e h', kf_rmdir p h = (inl e, h') -> dirs h' = dirs h;
  (** Making and removing a group concerns the files of that group only. *)
  cg_mkdir_value : forall p h f, path.parent f <> Some p -> value (snd (kf_mkdir p h)) f = value h f;
  cg_rmdir_value : forall p h f, path.parent f <> Some p -> value (snd (kf_rmdir p h)) f = value h f;
  cg_rmdir_idle : forall p h, p ∈ dirs h -> idle h p -> exists h', kf_rmdir p h = (inr tt, h');
  (** Killing and waiting make and remove no group. *)
  cg_kill_dirs : forall pid sig h, dirs (snd (sys_kill pid sig h)) = dirs h;
  cg_sleep_dirs : forall ms h, dirs (sleep_ms ms h) = dirs h
}.

(** ** The limits *)

(** The writes of [apply]: controller, file, value, and whether a failure
    counts. *)
Record limit := MkLimit { controller : string; file : string; text : string; must : bool }.

Definition limits (res : Resources.t) : list limit :=
  match Resources.memory res with Some m => [MkLimit "memory" "memory.max" (show_dec m) true] | None => [] end ++
  match Resources.memory_swap res with
  | Some s => [MkLimit "memory" "memory.swap.max" (show_dec (swap_only res s)) true]
  | None => if Resources.is_none (Resources.memory res) then []
            else [MkLimit "memory" "memory.swap.max" "0" false]
  end ++
  match Resources.cpu_max_value res with Some v => [MkLimit "cpu" "cpu.max" v true] | None => [] end ++
  match Resources.cpu_weight res with Some w => [MkLimit "cpu" "cpu.weight" (show_dec w) true] | None => [] end ++
  match Resources.pids res with Some p => [MkLimit "pids" "pids.max" (show_dec p) true] | None => [] end.

Lemma limits_files res : NoDup (file <$> limits res).
Proof.
  assert (exists l, file <$> limits res = l /\
              l `sublist_of` ["memory.max"; "memory.swap.max"; "cpu.max"; "cpu.weight"; "pids.max"]) as (l & -> & Hl).
  { eexists. split; [done|]. unfold limits. destruct res as [mem swap cpus w p]. cbn.
    destruct mem, swap, cpus, w, p; cbn; repeat constructor. }
  eapply sublist_NoDup; [|exact Hl]. apply (bool_decide_unpack _). vm_compute. done.
Qed.

Lemma limits_required res : Forall (fun l => controller l ∈ required_for res) (limits res).
Proof.
  unfold limits, required_for. destruct res as [mem swap cpus w p]. cbn.
  destruct mem, swap, cpus, w, p; cbn; repeat constructor; set_solver.
Qed.

Lemma limits_names res : Forall (fun l => path.name_ok (file l) /\ file l <> "cgroup.procs") (limits res).
Proof.
  assert (Hn : forall f, f ∈ ["memory.max"; "memory.swap.max"; "cpu.max"; "cpu.weight"; "pids.max"] ->
                         path.name_ok f /\ f <> "cgroup.procs").
  { intros f. rewrite !elem_of_cons, elem_of_nil. by intros [->|[->|[->|[->|[->|[]]]]]]. }
  unfold limits. destruct res as [mem swap cpus w p]. cbn.
  destruct mem, swap, cpus, w, p; cbn; repeat constructor; apply Hn; cbn [file]; set_solver.
Qed.

Section facts.
Context {H : Type} `{CgroupLaws H}.

(** The two states have the same groups, and what was idle still is. *)
Definition same_groups (h h' : H) : Prop := dirs h' = dirs h /\ forall q, idle h q -> idle h' q.

Lemma same_groups_refl h : same_groups h h.
Proof. by split. Qed.

Lemma same_groups_trans h1 h2 h3 : same_groups h1 h2 -> same_groups h2 h3 -> same_groups h1 h3.
Proof. intros [E1 I1] [E2 I2]. split; [congruence|auto]. Qed.

(** One write of a limit. *)
Definition put (cg : Cgroup) (l : limit) : HM H unit :=
  if must l then write_if cg (controller l) (file l) (text l)
  else host.ignore (write_if cg (controller l) (file l) (text l)).

(** [apply] makes its writes one after the other. *)
Lemma for_each_app {A} (f : A -> HM H unit) l1 l2 h :
  host.for_each f (l1 ++ l2) h
  = match host.for_each f l1 h with (Ok _, h') => host.for_each f l2 h' | (Err e, h') => (Err e, h') end.
Proof.
  revert h. induction l1 as [|x l1 IH]; intros h; [done|]. cbn [app host.for_each]. rewrite !hm_bind_eq.
  destruct (f x h) as [[[]|e] h1]; [apply IH|done].
Qed.

Lemma for_each_one {A} (f : A -> HM H unit) x h : host.for_each f [x] h = f x h.
Proof. cbn [host.for_each]. rewrite hm_bind_eq. by destruct (f x h) as [[[]|e] h1]. Qed.

Lemma for_each_seq {A} (f : A -> HM H unit) (m k : HM H unit) l1 l2 h :
  (forall h, m h = host.for_each f l1 h) -> (forall h, k h = host.for_each f l2 h) ->
  (_ ← m; k) h = host.for_each f (l1 ++ l2) h.
Proof.
  intros Hm Hk. rewrite for_each_app, hm_bind_eq, Hm. destruct (host.for_each f l1 h) as [[[]|e] h1]; [apply Hk|done].
Qed.

Lemma apply_eq cg res h : apply cg res h = host.for_each (put cg) (limits res) h.
Proof.
  unfold apply, limits, when_some. repeat (apply for_each_seq; intros ?).
  - destruct (Resources.memory res); [by rewrite for_each_one|done].
  - destruct (Resources.memory_swap res); [by rewrite for_each_one|].
    destruct (Resources.is_none _); [done|by rewrite for_each_one].
  - destruct (Resources.cpu_max_value res); [by rewrite for_each_one|done].
  - destruct (Resources.cpu_weight res); [by rewrite for_each_one|done].
  - destruct (Resources.pids res); [by rewrite for_each_one|done].
Qed.

(** *** Writing *)

Lemma write_eq cg f v h :
  write cg f v h
  = (match fst (kf_write (path.join (path cg) f) v h) with
     | inr _ => Ok tt
     | inl e => Err (Io ("writing " +:+ debug_str v +:+ " to " +:+ path cg +:+ "/" +:+ f
                         +:+ ": " +:+ error_str (kfs.os_or_io "write" (path.join (path cg) f) e)))
     end, snd (kf_write (path.join (path cg) f) v h)).
Proof. unfold write, host.map_err, kfs.write_file. by destruct (kf_write _ v h) as [[e|[]] h1]. Qed.

(** The control file of a group. *)
Definition at_ (cg : Cgroup) (f : string) : string := path.join (path cg) f.

Lemma put_spec cg l h : path.dir_ok (path cg) -> path.name_ok (file l) -> file l <> "cgroup.procs" ->
  exists r h1, put cg l h = (r, h1) /\ same_groups h h1 /\
  (forall f, f <> at_ cg (file l) -> value h1 f = value h f) /\
  (r = Ok tt -> must l = true -> has cg (controller l) = true -> value h1 (at_ cg (file l)) = Some (text l)).
Proof.
  intros Hd Hf Hp. unfold put, write_if. destruct (has cg (controller l)) eqn:Hc.
  - set (h1 := snd (kf_write (at_ cg (file l)) (text l) h)).
    assert (Hs : same_groups h h1).
    { split; [apply cg_write_dirs|]. intros q. apply cg_write_idle. unfold at_. rewrite path.file_name_join by done. congruence. }
    assert (Hv : forall f, f <> at_ cg (file l) -> value h1 f = value h f).
    { intros f Hn. unfold h1. rewrite cg_write_value, bool_decide_false by done. done. }
    assert (Hw : forall u, fst (kf_write (at_ cg (file l)) (text l) h) = inr u -> value h1 (at_ cg (file l)) = Some (text l)).
    { intros u E. unfold h1. rewrite cg_write_value, E, bool_decide_true by done. done. }
    fold (at_ cg (file l)) in *. destruct (must l) eqn:Hm.
    + rewrite write_eq. fold (at_ cg (file l)). eexists _, h1. split; [done|]. split; [done|]. split; [done|].
      destruct (fst _) as [e|u]; [done|]. intros _ _ _. by apply (Hw u).
    + unfold host.ignore. rewrite write_eq. fold (at_ cg (file l)). by exists (Ok tt), h1.
  - destruct (must l); exists (Ok tt), h; (split; [done|]); split; try apply same_groups_refl; done.
Qed.

Lemma at_inj cg f f' : path.dir_ok (path cg) -> path.name_ok f -> path.name_ok f' -> at_ cg f = at_ cg f' -> f = f'.
Proof. apply path.join_inj. Qed.

Lemma puts_spec cg ls : path.dir_ok (path cg) ->
  Forall (fun l => path.name_ok (file l) /\ file l <> "cgroup.procs") ls -> NoDup (file <$> ls) ->
  forall h, exists r h1, host.for_each (put cg) ls h = (r, h1) /\ same_groups h h1 /\
  (forall f, f ∉ at_ cg <$> (file <$> ls) -> value h1 f = value h f) /\
  (r = Ok tt -> Forall (fun l => must l = true -> has cg (controller l) = true ->
                                 value h1 (at_ cg (file l)) = Some (text l)) ls).
Proof.
  intros Hd Hn. induction Hn as [|l ls [Hl Hp] Hn IH]; intros Hnd h.
  { exists (Ok tt), h. split; [done|]. split; [apply same_groups_refl|]. done. }
  rewrite fmap_cons in Hnd. apply NoDup_cons in Hnd as [Hni Hnd].
  destruct (put_spec cg l h Hd Hl Hp) as (r1 & h1 & E1 & S1 & V1 & P1).
  cbn [host.for_each]. rewrite hm_bind_eq, E1. destruct r1 as [[]|e].
  2: { exists (Err e), h1. split; [done|]. split; [done|]. split; [|done]. intros f Hf. apply V1. set_solver. }
  destruct (IH Hnd h1) as (r2 & h2 & E2 & S2 & V2 & P2). exists r2, h2. split; [done|].
  split; [by eapply same_groups_trans|]. split.
  - intros f Hf. rewrite V2 by set_solver. apply V1. set_solver.
  - intros Hok. constructor; [|by apply P2]. intros Hm Hh. rewrite V2; [by apply P1|].
    intros (f & E & Hf)%list_elem_of_fmap. apply at_inj in E; [subst; done|done|done|].
    apply list_elem_of_fmap in Hf as (l' & -> & Hl'). rewrite Forall_forall in Hn. by apply Hn.
Qed.

(** Applying the limits of a configuration. *)
Lemma apply_spec cg res h : path.dir_ok (path cg) -> exists r h1, apply cg res h = (r, h1) /\ same_groups h h1 /\
  (r = Ok tt -> Forall (fun l => must l = true -> has cg (controller l) = true ->
                                 value h1 (at_ cg (file l)) = Some (text l)) (limits res)).
Proof.
  intros Hd. rewrite apply_eq.
  destruct (puts_spec cg (limits res) Hd (limits_names res) (limits_files res) h) as (r & h1 & ? & ? & _ & ?).
  by exists r, h1.
Qed.

(** *** Reading *)

Lemma read_list_spec p h : exists l h1, read_list p h = (Ok l, h1) /\ same_groups h h1.
Proof.
  pose proof (cg_read_keeps p h) as (Kd & _ & Ki). unfold read_list, host.try, kfs.read_trimmed. rewrite hm_bind_eq.
  destruct (kf_read p h) as [[e|s] h1]; eexists _, h1; (split; [done|by split]).
Qed.

Lemma mount_point_spec h : exists r h1, mount_point h = (r, h1) /\ same_groups h h1.
Proof.
  pose proof (cg_read_keeps "/proc/self/mountinfo" h) as (Kd & _ & Ki).
  unfold mount_point, mount.find_cgroup2_mount, mount.mountinfo_for.
  change ("/proc/" +:+ "self" +:+ "/mountinfo") with "/proc/self/mountinfo".
  destruct (kf_read "/proc/self/mountinfo" h) as [[e|s] h1]; cbn [fst snd] in *.
  - eexists _, h1. split; [done|by split].
  - destruct (mount.parse_mountinfo s) as [v|]; cbn [fmap option_fmap option_map];
      [destruct (mount.find_cgroup2 None v)|]; eexists _, h1; (split; [done|by split]).
Qed.

Lemma enable_go_spec d already wanted : path.dir_ok d -> forall h, exists l h1,
  enable_go d already wanted h = (Ok l, h1) /\ same_groups h h1 /\ l ⊆ wanted.
Proof.
  intros Hd. induction wanted as [|c wanted IH]; intros h.
  { exists [], h. split; [done|]. split; [apply same_groups_refl|done]. }
  cbn [enable_go]. rewrite hm_bind_eq. case_bool_decide.
  - destruct (IH h) as (l & h1 & E & S & Hl). cbn [mret HM_ret]. rewrite hm_bind_eq, E. exists (c :: l), h1.
    split; [done|]. split; [done|set_solver].
  - rewrite hm_bind_eq. unfold host.try, kfs.write_file. set (p := path.join d "cgroup.subtree_control").
    assert (S0 : same_groups h (snd (kf_write p ("+" +:+ c) h))).
    { split; [apply cg_write_dirs|]. intros q. apply cg_write_idle. unfold p. by rewrite path.file_name_join. }
    destruct (kf_write p ("+" +:+ c) h) as [[e|u] h0]; cbn [snd] in S0; destruct (IH h0) as (l & h1 & E & S & Hl);
      cbn [mret HM_ret is_ok]; rewrite hm_bind_eq, E;
      [exists l, h1|exists (c :: l), h1]; (split; [done|]); (split; [by eapply same_groups_trans|set_solver]).
Qed.

Lemma enable_subtree_spec d wanted h : path.dir_ok d -> exists l h1,
  enable_subtree d wanted h = (Ok l, h1) /\ same_groups h h1 /\ l ⊆ wanted.
Proof.
  intros Hd. unfold enable_subtree. rewrite hm_bind_eq.
  destruct (read_list_spec (path.join d "cgroup.subtree_control") h) as (a & h1 & -> & S1).
  destruct (enable_go_spec d a wanted Hd h1) as (l & h2 & -> & S2 & Hl). exists l, h2.
  split; [done|]. split; [by eapply same_groups_trans|done].
Qed.

(** *** Creating a group *)

Lemma create_dir_spec what p h : exists r h1, kfs.create_dir what p h = (r, h1) /\
  (r = Ok tt -> (p ∉ dirs h) /\ dirs h1 = {[p]} ∪ dirs h /\ idle h1 p) /\
  (forall e, r = Err e -> dirs h1 = dirs h).
Proof.
  unfold kfs.create_dir. destruct (kf_mkdir p h) as [[e|[]] h1] eqn:E; eexists _, h1; (split; [done|]); split; try done.
  - intros _ _. by eapply cg_mkdir_failed.
  - intros _. by apply cg_mkdir_ok.
Qed.

Lemma remove_dir_spec p h : exists h1, remove_dir_ignored p h = (Ok tt, h1) /\
  dirs h ∖ {[p]} ⊆ dirs h1 /\ dirs h1 ⊆ dirs h /\ (p ∈ dirs h -> idle h p -> dirs h1 = dirs h ∖ {[p]}).
Proof.
  unfold remove_dir_ignored. pose proof (cg_rmdir_idle p h) as Hi. destruct (kf_rmdir p h) as [[e|[]] h1] eqn:E.
  - exists h1. split; [done|]. apply cg_rmdir_failed in E. split_and!; [set_solver..|].
    intros Hp Hidle. by destruct (Hi Hp Hidle).
  - exists h1. split; [done|]. apply cg_rmdir_ok in E. split_and!; [set_solver..|done].
Qed.

Lemma check_missing_spec allow mount required enabled h : exists r h1,
  check_missing allow mount required enabled h = (r, h1) /\ same_groups h h1 /\
  (r = Ok tt -> allow_missing_controllers allow = false -> required ⊆ enabled).
Proof.
  unfold check_missing. case_bool_decide as Hm.
  - exists (Ok tt), h. split; [done|]. split; [apply same_groups_refl|]. intros _ _ c Hc.
    destruct (decide (c ∈ enabled)) as [|Hn]; [done|]. exfalso. apply (not_elem_of_nil (A := string) c). rewrite <- Hm.
    by apply list_elem_of_filter.
  - unfold available_controllers. rewrite hm_bind_eq.
    destruct (read_list_spec (path.join mount "cgroup.controllers") h) as (l & h1 & -> & S1).
    destruct (allow_missing_controllers allow); eexists _, h1; (split; [done|]); (split; [done|]); done.
Qed.

Lemma finish_spec fault cg res h : path.dir_ok (path cg) -> exists r h1,
  finish fault cg res h = (r, h1) /\ same_groups h h1 /\
  (r = Ok tt -> Forall (fun l => must l = true -> has cg (controller l) = true ->
                                 value h1 (at_ cg (file l)) = Some (text l)) (limits res)).
Proof.
  intros Hd. unfold finish. rewrite hm_bind_eq. unfold host.lift at 1.
  destruct (fault.check fault "after_cgroup_create") as [[]|e].
  2: { exists (Err e), h. split; [done|]. split; [apply same_groups_refl|done]. }
  rewrite hm_bind_eq. destruct (apply_spec cg res h Hd) as (r & h1 & -> & S1 & P1). destruct r as [[]|e].
  2: { by exists (Err e), h1. }
  eexists _, h1. split; [done|]. split; [done|]. intros _. by apply P1.
Qed.

(** The second half of [create]: making the leaf, with the controllers known. *)
Definition make_leaf (fault : option string) (p : string) (enabled : list string) (res : Resources.t) : HM H Cgroup :=
  _ ← kfs.create_dir "creating cgroup " p;
  r ← host.try (finish fault (MkCgroup p enabled) res);
  match r with
  | Err e => _ ← remove_dir_ignored p; host.fail e
  | Ok _ => mret (MkCgroup p enabled)
  end.

Lemma make_leaf_spec fault p enabled res h : path.dir_ok p -> exists r h1, make_leaf fault p enabled res h = (r, h1) /\
  match r with
  | Ok cg => cg = MkCgroup p enabled /\ dirs h1 = {[p]} ∪ dirs h /\
      Forall (fun l => must l = true -> controller l ∈ enabled -> value h1 (path.join p (file l)) = Some (text l)) (limits res)
  | Err _ => dirs h1 = dirs h
  end.
Proof.
  intros Hd. unfold make_leaf. rewrite hm_bind_eq.
  destruct (create_dir_spec "creating cgroup " p h) as (r1 & h1 & -> & K1 & F1). destruct r1 as [[]|e].
  2: { exists (Err e), h1. split; [done|]. by apply (F1 e). }
  destruct (K1 eq_refl) as (Hn & Hdirs & Hidle). rewrite hm_bind_eq. unfold host.try.
  destruct (finish_spec fault (MkCgroup p enabled) res h1 Hd) as (r2 & h2 & -> & [D2 I2] & P2). destruct r2 as [[]|e].
  - exists (Ok (MkCgroup p enabled)), h2. split; [done|]. split; [done|]. split; [congruence|].
    eapply Forall_impl; [by apply P2|]. intros l Hl Hm Hc. apply Hl; [done|]. by apply bool_decide_eq_true.
  - rewrite hm_bind_eq. destruct (remove_dir_spec p h2) as (h3 & -> & _ & _ & R3). exists (Err e), h3.
    split; [done|]. rewrite R3; [set_solver|set_solver|by apply I2].
Qed.

(** The first half: the base group and the controllers. *)
Definition prepare (allow : option string) (mount : string) (res : Resources.t) : HM H (list string) :=
  let base := path.join mount BASE_NAME in
  _ ← enable_subtree mount WANTED;
  there ← kfs.exists_ base;
  _ ← (if there : bool then mret tt else kfs.create_dir "creating cgroup " base);
  enabled ← enable_subtree base WANTED;
  _ ← check_missing allow mount (required_for res) enabled;
  mret enabled.

Lemma prepare_spec allow mount res h : path.dir_ok mount -> exists r h1, prepare allow mount res h = (r, h1) /\
  dirs h ⊆ dirs h1 /\ dirs h1 ⊆ {[path.join mount BASE_NAME]} ∪ dirs h /\
  forall enabled, r = Ok enabled -> allow_missing_controllers allow = false -> required_for res ⊆ enabled.
Proof.
  intros Hd. unfold prepare. set (base := path.join mount BASE_NAME).
  assert (Hb : path.dir_ok base) by (by apply join_dir_ok).
  rewrite hm_bind_eq. destruct (enable_subtree_spec mount WANTED h Hd) as (l1 & h1 & -> & [D1 _] & _).
  rewrite hm_bind_eq. unfold kfs.exists_ at 1. rewrite hm_bind_eq.
  assert (exists r h2, (if kf_exists base h1 then mret tt else kfs.create_dir "creating cgroup " base) h1 = (r, h2) /\
          dirs h1 ⊆ dirs h2 /\ dirs h2 ⊆ {[base]} ∪ dirs h1) as (r2 & h2 & -> & L2 & U2).
  { destruct (kf_exists base h1); [exists (Ok tt), h1; split; [done|]; set_solver|].
    destruct (create_dir_spec "creating cgroup " base h1) as (r & h2 & -> & K & F). exists r, h2. split; [done|].
    destruct r as [[]|e]; [destruct (K eq_refl) as (_ & -> & _)|rewrite (F e eq_refl)]; set_solver. }
  destruct r2 as [[]|e]; [|exists (Err e), h2; split; [done|]; split_and!; [set_solver..|done]].
  rewrite hm_bind_eq. destruct (enable_subtree_spec base WANTED h2 Hb) as (enabled & h3 & -> & [D3 _] & _).
  rewrite hm_bind_eq. destruct (check_missing_spec allow mount (required_for res) enabled h3) as (r4 & h4 & -> & [D4 _] & P4).
  destruct r4 as [[]|e]; eexists _, h4; (split; [done|]); split_and!; set_solver.
Qed.

Lemma group_create_eq fault allow id res h :
  create fault allow id res h
  = (mount ← mount_point;
     enabled ← prepare allow mount res;
     let p := path.join (path.join mount BASE_NAME) id in
     left_over ← kfs.exists_ p;
     _ ← (if left_over : bool then remove_dir_ignored p else mret tt);
     make_leaf fault p enabled res) h.
Proof.
  unfold create, prepare. rewrite !hm_bind_eq. destruct (mount_point h) as [[m|e] h1]; [|done].
  rewrite !hm_bind_eq. destruct (enable_subtree m WANTED h1) as [[l|e] h2]; [|done].
  rewrite !hm_bind_eq. destruct (kfs.exists_ _ h2) as [[b|e] h3]; [|done].
  rewrite !hm_bind_eq. destruct ((if b : bool then mret tt else kfs.create_dir _ _) h3) as [[u|e] h4]; [|done].
  rewrite !hm_bind_eq. destruct (enable_subtree _ WANTED h4) as [[l'|e] h5]; [|done].
  rewrite !hm_bind_eq. by destruct (check_missing _ _ _ _ h5) as [[u'|e] h6].
Qed.

Lemma group_create_spec fault allow id res mount h r h' :
  util.validate_id id = Ok tt -> path.dir_ok mount -> fst (mount_point h) = Ok mount ->
  create fault allow id res h = (r, h') ->
  let base := path.join mount BASE_NAME in
  let p := path.join base id in
  match r with
  | Ok cg => path cg = p /\ p ∈ dirs h' /\ dirs h ⊆ dirs h' /\ dirs h' ⊆ {[p; base]} ∪ dirs h /\
      (allow_missing_controllers allow = false ->
       Forall (fun l => must l = true -> value h' (path.join p (file l)) = Some (text l)) (limits res))
  | Err _ => dirs h' ⊆ {[base]} ∪ dirs h /\ dirs h ∖ {[p]} ⊆ dirs h'
  end.
Proof.
  intros Hid Hd Hm Hc base p. assert (Hb : path.dir_ok base) by (by apply join_dir_ok).
  assert (Hp : path.dir_ok p) by (apply join_dir_ok; [done|by apply valid_id_name_ok]).
  rewrite group_create_eq, hm_bind_eq in Hc. destruct (mount_point_spec h) as (r0 & h0 & E0 & [D0 _]).
  rewrite E0 in Hm, Hc. cbn [fst] in Hm. subst r0. rewrite hm_bind_eq in Hc.
  destruct (prepare_spec allow mount res h0 Hd) as (r1 & h1 & E1 & L1 & U1 & P1). rewrite E1 in Hc.
  destruct r1 as [enabled|e]; [|injection Hc as <- <-; split; set_solver].
  rewrite hm_bind_eq in Hc. unfold kfs.exists_ in Hc. cbv zeta in Hc. fold base in Hc. fold p in Hc. rewrite hm_bind_eq in Hc.
  assert (exists h2, (if kf_exists p h1 then remove_dir_ignored p else mret tt) h1 = (Ok tt, h2) /\
          dirs h1 ∖ {[p]} ⊆ dirs h2 /\ dirs h2 ⊆ dirs h1) as (h2 & E2 & L2 & U2).
  { destruct (kf_exists p h1); [|exists h1; split; [done|]; set_solver].
    destruct (remove_dir_spec p h1) as (h2 & E & ? & ? & _). by exists h2. }
  rewrite E2 in Hc. destruct (make_leaf_spec fault p enabled res h2 Hp) as (r3 & h3 & E3 & P3). rewrite E3 in Hc.
  injection Hc as <- <-. destruct r3 as [cg|e].
  - destruct P3 as (-> & D3 & V3). split; [done|]. split; [set_solver|].
    split; [intros x Hx; destruct (decide (x = p)); set_solver|]. split; [set_solver|].
    intros Ha. pose proof (limits_required res) as Hr. rewrite Forall_forall in V3, Hr |- *.
    intros l Hl Hmust. apply V3; [done|done|]. by apply (P1 enabled), Hr.
  - split; [set_solver|]. set_solver.
Qed.

(** *** The files that are written *)

(** The files that [create] may write or replace: the delegation of the
    controllers in the mount point and in the base group, and the files of the
    container's own group; those of the base group when that is made, too. *)
Definition touched (mount id : string) (h : H) (f : string) : Prop :=
  let base := path.join mount BASE_NAME in
  f = path.join mount "cgroup.subtree_control" \/ f = path.join base "cgroup.subtree_control" \/
  path.parent f = Some (path.join base id) \/ (path.parent f = Some base /\ base ∉ dirs h).

(** The files that are not in [T] keep their values. *)
Definition values_kept (T : string -> Prop) (h h' : H) : Prop := forall f, ~ T f -> value h' f = value h f.

#[local] Instance values_kept_pre T : PreOrder (values_kept T).
Proof. split; [done|]. intros a b c E1 E2 f Hf. rewrite E2, E1; done. Qed.

Section kept.
Context (T : string -> Prop).

Lemma kept_write p v : T p -> pres (values_kept T) (kfs.write_file p v).
Proof.
  intros Hp h f Hf. unfold kfs.write_file. pose proof (cg_write_value p v h f) as E.
  destruct (kf_write p v h) as [[e|[]] h1]; cbn [fst snd] in *; rewrite E; [by rewrite andb_false_r|].
  rewrite bool_decide_false; [done|]. by intros ->.
Qed.

Lemma kept_read_list p : pres (values_kept T) (read_list p).
Proof.
  intros h f _. pose proof (cg_read_keeps p h) as (_ & Kv & _). unfold read_list, host.try, kfs.read_trimmed. rewrite hm_bind_eq.
  by destruct (kf_read p h) as [[e|s] h1].
Qed.

Lemma kept_mount_point : pres (values_kept T) mount_point.
Proof.
  intros h f _. pose proof (cg_read_keeps "/proc/self/mountinfo" h) as (_ & Kv & _).
  unfold mount_point, mount.find_cgroup2_mount, mount.mountinfo_for.
  change ("/proc/" +:+ "self" +:+ "/mountinfo") with "/proc/self/mountinfo".
  destruct (kf_read "/proc/self/mountinfo" h) as [[e|s] h1]; cbn [fst snd] in *; [done|].
  destruct (mount.parse_mountinfo s) as [v|]; cbn [fmap option_fmap option_map]; [|done]. by destruct (mount.find_cgroup2 None v).
Qed.

Lemma kept_enable d wanted : T (path.join d "cgroup.subtree_control") -> pres (values_kept T) (enable_subtree d wanted).
Proof.
  intros Hd. unfold enable_subtree. apply pres_bind; [exact _|apply kept_read_list|]. intros already.
  induction wanted as [|c wanted IH]; cbn [enable_go]; [apply pres_ret; exact _|].
  apply pres_bind; [exact _| |intros ok; apply pres_bind; [exact _|exact IH|intros ?; apply pres_ret; exact _]].
  destruct (bool_decide _); pres_tac. by apply kept_write.
Qed.

Lemma kept_dir p : (forall f, path.parent f = Some p -> T f) ->
  (forall what, pres (values_kept T) (kfs.create_dir what p)) /\ pres (values_kept T) (remove_dir_ignored p).
Proof.
  intros Hp. split.
  - intros what h f Hf. unfold kfs.create_dir. pose proof (cg_mkdir_value p h f ltac:(auto)) as E.
    by destruct (kf_mkdir p h) as [[e|[]] h1].
  - intros h f Hf. unfold remove_dir_ignored. pose proof (cg_rmdir_value p h f ltac:(auto)) as E. exact E.
Qed.

Lemma kept_finish fault p enabled res : path.dir_ok p -> (forall f, path.parent f = Some p -> T f) ->
  pres (values_kept T) (finish fault (MkCgroup p enabled) res).
Proof.
  intros Hd Hp. unfold finish. pres_tac. intros h. rewrite apply_eq. revert h. change (pres (values_kept T) (host.for_each (put (MkCgroup p enabled)) (limits res))).
  pose proof (limits_names res) as Hn. induction Hn as [|l ls [Hl _] _ IH]; cbn [host.for_each]; [apply pres_ret; exact _|].
  apply pres_bind; [exact _| |done]. unfold put, write_if, write. cbn [path].
  assert (T (path.join p (file l))) by (by apply Hp, path.parent_join). pres_tac; by apply kept_write.
Qed.

End kept.

Lemma create_keeps fault allow id res mount h r h' :
  util.validate_id id = Ok tt -> path.dir_ok mount -> fst (mount_point h) = Ok mount ->
  create fault allow id res h = (r, h') -> values_kept (touched mount id h) h h'.
Proof.
  intros Hid Hd Hm Hc. set (base := path.join mount BASE_NAME). set (p := path.join base id).
  assert (Hb : path.dir_ok base) by (by apply join_dir_ok).
  assert (Hp : path.dir_ok p) by (apply join_dir_ok; [done|by apply valid_id_name_ok]).
  set (T := touched mount id h). assert (forall f, path.parent f = Some p -> T f) as HT by (intros f Hf; right; right; by left).
  destruct (mount_point_spec h) as (r0 & h0 & E0 & [D0 _]). pose proof (pres_eq _ _ _ _ _ (kept_mount_point T) E0) as K0.
  unfold create in Hc. rewrite hm_bind_eq, E0 in Hc. rewrite E0 in Hm. cbn [fst] in Hm. subst r0. cbv zeta in Hc. fold base p in Hc.
  destruct (enable_subtree_spec mount WANTED h0 Hd) as (l1 & h1 & E1 & [D1 _] & _).
  pose proof (pres_eq _ _ _ _ _ (kept_enable T mount WANTED ltac:(by left)) E1) as K1.
  rewrite hm_bind_eq, E1, hm_bind_eq in Hc. unfold kfs.exists_ at 1 in Hc. etrans; [exact K0|]. etrans; [exact K1|].
  refine (pres_eq _ _ _ _ _ _ Hc). apply pres_bind; [exact _| |intros _].
  { destruct (kf_exists base h1) eqn:Ex; [apply pres_ret; exact _|]. apply (kept_dir T). intros f Hf.
    right. right. right. split; [done|]. rewrite <- D0, <- D1. intros Hin%cg_exists. fold base in Hin. congruence. }
  apply pres_bind; [exact _|apply kept_enable; right; by left|intros enabled].
  apply pres_bind; [exact _| |intros _].
  { unfold check_missing, available_controllers. pres_tac. apply kept_read_list. }
  apply pres_bind; [exact _|by intros ?|intros left_over]. apply pres_bind; [exact _| |intros _].
  { destruct left_over; [by apply (kept_dir T)|apply pres_ret; exact _]. }
  apply pres_bind; [exact _|by apply (kept_dir T)|intros _]. apply pres_bind; [exact _|apply pres_try; by apply kept_finish|].
  intros r1. destruct r1; [apply pres_ret; exact _|]. apply pres_bind; [exact _|by apply (kept_dir T)|intros _]. apply pres_fail; exact _.
Qed.


(** *** Removing a group *)

Lemma kill_all_dirs cg h : dirs (snd (kill_all cg h)) = dirs h.
Proof.
  unfold kill_all. rewrite hm_bind_eq. unfold kfs.exists_. destruct (kf_exists _ h).
  - rewrite write_eq. cbn [snd]. apply cg_write_dirs.
  - rewrite hm_bind_eq. assert (exists ps h1, pids cg h = (Ok ps, h1) /\ dirs h1 = dirs h) as (ps & h1 & -> & D1).
    { unfold pids, read, host.try, kfs.read_trimmed. rewrite !hm_bind_eq.
      pose proof (cg_read_keeps (path.join (path cg) "cgroup.procs") h) as (Kd & _).
      destruct (kf_read _ h) as [[e|s] h1]; eexists _, h1; (split; [done|]); done. }
    rewrite <- D1. clear D1 h. revert h1. induction ps as [|q ps IH]; intros h1; [done|].
    cbn [host.for_each]. rewrite hm_bind_eq. unfold host.ignore, kill_pid.
    pose proof (cg_kill_dirs q SIGKILL h1) as Hk. destruct (sys_kill q SIGKILL h1) as [[e|] h2]; cbn [snd] in Hk;
      rewrite IH; done.
Qed.

Definition removed_at (p : string) (ok : bool) (h h' : H) : Prop :=
  if ok then dirs h' = dirs h ∖ {[p]} else dirs h' = dirs h.

Lemma remove_go_spec cg n : forall first h, exists r h1, remove_go n first cg h = (r, h1) /\
  removed_at (path cg) (is_ok r) h h1.
Proof.
  induction n as [|n IH]; intros first h; cbn [remove_go]; [by eexists _, h|].
  destruct (kf_rmdir (path cg) h) as [[e|[]] h1] eqn:E.
  - apply cg_rmdir_failed in E. set (busy := match e with Os k => k =? EBUSY | Other _ => false end).
    destruct (negb busy && negb (kf_exists (path cg) h1)) eqn:Hx.
    + exists (Ok tt), h1. split; [done|]. unfold removed_at. cbn [is_ok].
      assert (path cg ∉ dirs h1); [|set_solver]. intros Hp. apply cg_exists in Hp.
      rewrite Hp in Hx. by destruct busy.
    + set (h2 := if first && busy then snd (kill_all cg h1) else h1).
      assert (D2 : dirs h2 = dirs h1) by (unfold h2; destruct (first && busy); [apply kill_all_dirs|done]).
      destruct (IH false (sleep_ms 20 h2)) as (r & h3 & -> & P). unfold removed_at in *.
      rewrite cg_sleep_dirs, D2, E in P. by exists r, h3.
  - apply cg_rmdir_ok in E. by exists (Ok tt), h1.
Qed.

(** Removing ends after at most fifty rounds; a success means that the group is
    gone, and no other group goes with it. *)
Lemma group_remove_spec cg h : exists r h1, remove cg h = (r, h1) /\ removed_at (path cg) (is_ok r) h h1.
Proof.
  unfold remove. rewrite hm_bind_eq. unfold kfs.exists_. destruct (kf_exists (path cg) h) eqn:E; [apply remove_go_spec|].
  exists (Ok tt), h. split; [done|]. unfold removed_at. cbn [is_ok].
  assert (path cg ∉ dirs h); [|set_solver]. intros Hp. apply cg_exists in Hp. congruence.
Qed.

(** *** Collecting orphaned groups *)

Lemma attach_spec p h : exists r h1, attach p h = (r, h1) /\ dirs h1 = dirs h /\
  match r with Ok cg => path cg = p | Err _ => True end.
Proof.
  unfold attach. rewrite hm_bind_eq. unfold kfs.is_dir. destruct (kf_is_dir p h); [|by eexists _, h].
  rewrite hm_bind_eq. destruct (read_list_spec (path.join p "cgroup.controllers") h) as (l & h1 & E & [D _]).
  unfold available_controllers. rewrite E. by eexists _, h1.
Qed.

Lemma pids_spec cg h : exists ps h1, pids cg h = (Ok ps, h1) /\ dirs h1 = dirs h.
Proof.
  unfold pids, read, host.try, kfs.read_trimmed. rewrite !hm_bind_eq.
  pose proof (cg_read_keeps (path.join (path cg) "cgroup.procs") h) as (Kd & _).
  destruct (kf_read _ h) as [[e|s] h1]; eexists _, h1; (split; [done|]); done.
Qed.

(** What was there and is gone. *)
Definition lost (h h' : H) : gset string := dirs h ∖ dirs h'.

Lemma gc_go_spec base live names : forall removed h, exists n h1,
  gc_go base live names removed h = (Ok (removed + Z.of_nat n), h1) /\
  dirs h1 ⊆ dirs h /\ size (dirs h) = (size (dirs h1) + n)%nat /\
  forall d, d ∈ lost h h1 -> exists name, name ∈ names /\ d = path.join base name /\ name ∉ live.
Proof.
  induction names as [|name names IH]; intros removed h.
  { exists O, h. rewrite Z.add_0_r. split; [done|]. unfold lost. split_and!; [done|lia|set_solver]. }
  cbn [gc_go]. rewrite hm_bind_eq. set (p := path.join base name).
  match goal with |- context [match ?m h with _ => _ end] => set (body := m) end.
  assert (exists b h1, body h = (Ok b, h1) /\ dirs h1 = (if b then dirs h ∖ {[p]} else dirs h) /\
          (b = true -> p ∈ dirs h /\ name ∉ live)) as (b & h1 & -> & D1 & B1).
  { unfold body. rewrite hm_bind_eq. unfold kfs.is_dir. rewrite cg_is_dir.
    destruct (negb (bool_decide (p ∈ dirs h)) || bool_decide (name ∈ live)) eqn:Hx; [by exists false, h|].
    apply orb_false_elim in Hx as [Hx%negb_false_iff%bool_decide_eq_true Hl%bool_decide_eq_false].
    rewrite hm_bind_eq. unfold host.try at 1. destruct (attach_spec p h) as (r & h1 & -> & D1 & Hr).
    destruct r as [cg|e]; [|by exists false, h1]. rewrite hm_bind_eq.
    destruct (pids_spec cg h1) as (ps & h2 & -> & D2). case_bool_decide; [|exists false, h2; split; [done|]; split; congruence].
    rewrite hm_bind_eq. unfold host.try. destruct (group_remove_spec cg h2) as (r & h3 & -> & D3). unfold removed_at in D3.
    exists (is_ok r), h3. split; [done|]. rewrite Hr, D2, D1 in D3. by destruct (is_ok r). }
  destruct (IH (if b then removed + 1 else removed) h1) as (n & h2 & -> & U & Sz & L).
  exists (n + if b then 1 else 0)%nat, h2. split; [do 2 f_equal; destruct b; lia|].
  destruct b.
  - destruct (B1 eq_refl) as [Hp Hl]. assert (Hs : size (dirs h) = (size (dirs h1) + 1)%nat).
    { assert (Hu : dirs h = {[p]} ∪ dirs h) by set_solver.
      rewrite Hu at 1. rewrite size_union_alt, size_singleton, D1. lia. }
    split_and!; [set_solver|lia|].
    intros d Hd. unfold lost in *. destruct (decide (d = p)) as [->|]; [exists name; set_solver|].
    destruct (L d) as (name' & ? & ? & ?); [set_solver|]. exists name'. set_solver.
  - rewrite D1 in *. split_and!; [done|lia|]. intros d Hd. unfold lost in *.
    destruct (L d) as (name' & ? & ? & ?); [set_solver|]. exists name'. set_solver.
Qed.

(** Collecting orphaned control groups always ends with a count, which is
    the number of groups that are gone; those are groups of the runtime's base
    directory whose names are not those of live containers, and no other group
    is removed. *)
Theorem gc_spares_live live h : exists n h', gc_empty live h = (Ok n, h') /\
  dirs h' ⊆ dirs h /\ Z.of_nat (size (dirs h)) = Z.of_nat (size (dirs h')) + n /\
  forall d, d ∈ dirs h -> d ∉ dirs h' ->
    exists mount name, fst (mount_point h) = Ok mount /\ d = path.join (path.join mount BASE_NAME) name /\ name ∉ live.
Proof.
  unfold gc_empty. rewrite hm_bind_eq. unfold host.try. destruct (mount_point_spec h) as (r & h1 & -> & [D1 _]).
  destruct r as [mount|e].
  - unfold gc_base. pose proof (cg_read_dir_keeps (path.join mount BASE_NAME) h1) as (D2 & _).
    destruct (kf_read_dir _ h1) as [[e|names] h2]; cbn [snd] in D2.
    + exists 0, h2. split; [done|]. rewrite D2, D1. split_and!; [done|lia|done].
    + destruct (gc_go_spec (path.join mount BASE_NAME) live names 0 h2) as (n & h3 & -> & U & Sz & L).
      exists (Z.of_nat n), h3. unfold lost in L. rewrite D2, D1 in *. split; [done|]. split; [done|]. split; [lia|].
      intros d Hd Hn. destruct (L d) as (name & _ & Hn' & Hl); [set_solver|]. by exists mount, name.
  - exists 0, h1. split; [done|]. rewrite D1. split_and!; [done|lia|done].
Qed.

End facts.

(** ** A hierarchy *)

(** A hierarchy that takes every write below an existing group, on which the
    theorems are tried. *)
Module hierarchy.

Record host := mk { groups : list string; given : list (string * string); table : string }.

Definition known (p : string) (h : host) : bool := bool_decide (p ∈ groups h).

#[export] Instance host_kf : KernFs host := {|
  kf_read p h :=
    (if bool_decide (p = "/proc/self/mountinfo") then inr (table h)
     else match List.find (fun kv => bool_decide (fst kv = p)) (given h) with
          | Some (_, v) => inr v
          | None => inl (Os ENOENT)
          end, h);
  kf_write p v h :=
    if known (default "" (path.parent p)) h then (inr tt, mk (groups h) ((p, v) :: given h) (table h))
    else (inl (Os ENOENT), h);
  kf_mkdir p h :=
    if known p h then (inl (Os EEXIST), h) else (inr tt, mk (p :: groups h) (given h) (table h));
  kf_rmdir p h :=
    if known p h then (inr tt, mk (filter (fun q => q <> p) (groups h)) (given h) (table h))
    else (inl (Os ENOENT), h);
  kf_read_dir d h := (inr (omap (fun p => if bool_decide (path.parent p = Some d) then path.file_name p else None) (groups h)), h);
  kf_exists p h := known p h;
  kf_is_dir p h := known p h;
  kf_message _ _ := "No such file or directory"
|}.

#[export] Instance host_processes : Processes host := {| sys_kill _ _ h := (None, h); sleep_ms _ h := h |}.

#[export] Instance host_laws : CgroupLaws host.
Proof.
  refine {| dirs h := list_to_set (groups h);
            value h f := snd <$> List.find (fun kv => bool_decide (fst kv = f)) (given h);
            idle _ _ := True |}.
  - intros p h Hp%elem_of_list_to_set. by apply bool_decide_eq_true.
  - intros p h. apply bool_decide_ext. by rewrite elem_of_list_to_set.
  - done.
  - done.
  - intros p v h. unfold kf_write. cbn. by destruct (known _ h).
  - intros p v h f. unfold kf_write. cbn. destruct (known _ h); cbn; [|by rewrite andb_false_r].
    rewrite andb_true_r, (bool_decide_ext (p = f) (f = p)) by (split; congruence). by case_bool_decide.
  - done.
  - intros p h h'. unfold kf_mkdir. cbn. unfold known. case_bool_decide as Hp; [done|]. intros [= <-]. cbn.
    split; [by rewrite elem_of_list_to_set|]. done.
  - intros p h e h'. unfold kf_mkdir. cbn. destruct (known p h); [|done]. by intros [= _ <-].
  - intros p h h'. unfold kf_rmdir. cbn. destruct (known p h); [|done]. intros [= <-]. cbn. apply set_eq.
    intros x. rewrite elem_of_difference, !elem_of_list_to_set, list_elem_of_filter. set_solver.
  - intros p h e h'. unfold kf_rmdir. cbn. destruct (known p h); [done|]. by intros [= _ <-].
  - intros p h f _. unfold kf_mkdir. cbn. by destruct (known p h).
  - intros p h f _. unfold kf_rmdir. cbn. by destruct (known p h).
  - intros p h Hp%elem_of_list_to_set _. unfold kf_rmdir. cbn. unfold known. rewrite bool_decide_true by done. by eexists.
  - done.
  - done.
Defined.

Definition start : host :=
  mk ["/sys/fs/cgroup"; "/sys/fs/cgroup/myrun"; "/sys/fs/cgroup/myrun/old"] []
     (unlines ["41 24 0:36 / /sys/fs/cgroup rw shared:16 - cgroup2 cgroup2 rw"]).

Definition sample : Resources.t := Resources.Mk (Some 1048576) (Some 3145728) None (Some 100) (Some 64).
End hierarchy.
Export (hints) hierarchy.

