(* ===== verification/Network.v ===== *)
(** * [src/runtime/network.rs]: bridge, veth pair, addressing and teardown

    The netlink client is used through the interface [Links]: one operation
    per request of [Netlink.v].  Undo actions are the closures of
    [Rollback.v] on the host. *)
From S2P Require Import Prelude RustStr Num Error Rollback Fault Util Net Config State Fs Host NatRules Ipam.

(** ** The netlink client as the network code uses it *)

Inductive request :=
| Open
| LinkIndex (name : string)
| CreateBridge (name : string)
| CreateVeth (name peer : string)
| DeleteLink (index : Z)
| SetUp (index : Z)
| SetMtu (index mtu : Z)
| SetMaster (index master : Z)
| MoveToNetns (index pid : Z) (name : string)
| AddAddress (index : Z) (addr : list Z) (prefix : Z)
| AddDefaultRoute (gw : list Z) (index : Z)
| ListLinks.

Definition answer (q : request) : Type :=
  match q with LinkIndex _ => option Z | ListLinks => list string | _ => unit end.

Class Links (H : Type) := netlink : forall q : request, HM H (answer q).

Definition EEXIST_errno : Z := 17.

Module network.

Definition CONTAINER_IFNAME : string := "eth0".

Section ops.
Context {H : Type} `{HasWorld H} `{Iptables H} `{Links H}.
(** The environment variable [MYRUN_FAULT], the runtime root and the process id. *)
Context (MYRUN_FAULT : option string) (root : string) (self : Z).

Definition check (point : string) : HM H unit := host.lift (fault.check MYRUN_FAULT point).

Definition link_index_required (name : string) : HM H Z :=
  o ← netlink (LinkIndex name);
  match o with Some i => mret i | None => host.fail (NotFound ("network interface " +:+ debug_str name)) end.

Definition ensure_bridge (bridge : string) (gateway : list Z) (prefix : Z) : HM H Z :=
  o ← netlink (LinkIndex bridge);
  idx ← match o with
        | Some i => mret i
        | None =>
            _ ← netlink (CreateBridge bridge);
            _ ← check "after_bridge_create";
            link_index_required bridge
        end;
  r ← host.try (netlink (AddAddress idx gateway prefix));
  _ ← match r with
      | Ok _ => mret tt
      | Err e =>
          if is_errno e EEXIST_errno then mret tt
          else host.fail (Container ("assigning " +:+ net.format_ipv4 gateway +:+ "/" +:+ show_dec prefix
                                     +:+ " to bridge " +:+ bridge +:+ ": " +:+ error_str e))
      end;
  _ ← netlink (SetUp idx);
  mret idx.

(** *** Steps with a rollback *)

(** The host and the undo actions registered so far. *)
Definition Rb : Type := @rollback.Rollback H.

Definition act {A : Type} (m : HM H A) : HM (H * Rb) A := fun s =>
  let '(r, h) := m (fst s) in (r, (h, snd s)).

Definition push (name : string) (undo : HM H unit) : HM (H * Rb) unit := fun s =>
  (Ok tt, (fst s, rollback.push (snd s) name undo)).

(** The undo actions. *)
Definition undo_lease (id : string) : HM H unit := on_files (ipam.release root self id).

Definition undo_veth (host_name : string) : HM H unit :=
  _ ← netlink Open;
  o ← netlink (LinkIndex host_name);
  match o with Some i => netlink (DeleteLink i) | None => mret tt end.

Definition undo_rules (id : string) : HM H unit := _ ← nat.cleanup id; mret tt.

(** Part 2 of [setup_host]: the veth pair. *)
Definition make_veth (host_name peer_name : string) : HM H unit :=
  o ← netlink (LinkIndex host_name);
  _ ← match o with
      | Some _ =>
          o' ← netlink (LinkIndex host_name);
          match o' with Some i => host.ignore (netlink (DeleteLink i)) | None => mret tt end
      | None => mret tt
      end;
  netlink (CreateVeth host_name peer_name).

(** Parts 3 and 4: the ends are configured, and the peer handed over. *)
Definition connect_veth (cfg : ContainerConfig.t) (pid bridge_idx : Z) (host_name peer_name : string) : HM H unit :=
  let n := ContainerConfig.network cfg in
  host_idx ← link_index_required host_name;
  peer_idx ← link_index_required peer_name;
  _ ← netlink (SetMtu host_idx (NetworkConfig.mtu n));
  _ ← netlink (SetMtu peer_idx (NetworkConfig.mtu n));
  _ ← netlink (SetMaster host_idx bridge_idx);
  _ ← netlink (SetUp host_idx);
  _ ← check "after_veth_master";
  _ ← netlink (MoveToNetns peer_idx pid CONTAINER_IFNAME);
  check "after_netns_move".

(** Part 5: NAT and published ports. *)
Definition publish_all (cfg : ContainerConfig.t) (ip : list Z) : HM H unit :=
  let n := ContainerConfig.network cfg in
  _ ← nat.setup_bridge MYRUN_FAULT (NetworkConfig.bridge n) (NetworkConfig.subnet n) (NetworkConfig.nat n);
  host.for_each (nat.publish (ContainerConfig.id cfg) (NetworkConfig.bridge n) ip) (NetworkConfig.publish n).

Definition no_iptables : Error :=
  Unsupported "iptables is not usable, so bridge networking cannot be set up (install iptables, or use --network none)".

Definition requested_ip (n : NetworkConfig.t) : result (option (list Z)) :=
  match NetworkConfig.ip n with Some s => a ← net.parse_ipv4 s; Ok (Some a) | None => Ok None end.

Definition setup_bridge_mode (cfg : ContainerConfig.t) (pid : Z) : HM (H * Rb) NetworkState.t :=
  let n := ContainerConfig.network cfg in
  let id := ContainerConfig.id cfg in
  ok ← act nat.available;
  if negb ok then host.fail no_iptables
  else
    '(_, prefix) ← host.lift (net.parse_cidr (NetworkConfig.subnet n));
    gateway ← host.lift (NetworkConfig.gateway_addr n);
    _ ← act (netlink Open);
    bridge_idx ← act (ensure_bridge (NetworkConfig.bridge n) gateway prefix);
    requested ← host.lift (requested_ip n);
    '(ip, prefix) ← act (on_files (ipam.allocate root self (NetworkConfig.subnet n) id requested gateway));
    _ ← push "ip lease" (undo_lease id);
    _ ← act (check "after_ip_alloc");
    let '(host_name, peer_name) := util.veth_names id in
    _ ← act (make_veth host_name peer_name);
    _ ← push "veth pair" (undo_veth host_name);
    _ ← act (check "after_veth_create");
    _ ← act (connect_veth cfg pid bridge_idx host_name peer_name);
    _ ← act (publish_all cfg ip);
    _ ← (if bool_decide (NetworkConfig.publish n = []) then mret tt
         else push "iptables rules" (undo_rules id));
    mret (NetworkState.Mk (NetworkMode.as_str (NetworkConfig.mode n)) (Some (NetworkConfig.bridge n)) (Some host_name)
            (Some CONTAINER_IFNAME) (Some (net.format_ipv4 ip)) prefix (Some (net.format_ipv4 gateway))
            (NetworkConfig.publish n)).

Definition setup_host (cfg : ContainerConfig.t) (pid : Z) : HM (H * Rb) NetworkState.t :=
  let mode := NetworkConfig.mode (ContainerConfig.network cfg) in
  match mode with
  | NetworkMode.None | NetworkMode.Host =>
      mret (NetworkState.Mk (NetworkMode.as_str mode) None None None None 24 None [])
  | NetworkMode.Bridge => setup_bridge_mode cfg pid
  end.

(** *** Inside the container's network namespace *)

Definition configure_inside (st : NetworkState.t) : HM H unit :=
  _ ← netlink Open;
  o ← netlink (LinkIndex "lo");
  _ ← match o with Some lo => netlink (SetUp lo) | None => mret tt end;
  if negb (bool_decide (NetworkState.mode st = "bridge")) then mret tt
  else
    let ifname := default CONTAINER_IFNAME (NetworkState.container_veth st) in
    idx ← host.map_err (fun e => Container ("container interface " +:+ ifname
             +:+ " is missing inside the namespace: " +:+ error_str e)) (link_index_required ifname);
    ip ← match NetworkState.ip st with
         | Some ip => mret ip
         | None => host.fail (Container "no address assigned to the container")
         end;
    addr ← host.lift (net.parse_ipv4 ip);
    _ ← netlink (AddAddress idx addr (NetworkState.prefix st));
    _ ← netlink (SetUp idx);
    match NetworkState.gateway st with
    | Some gw => gw ← host.lift (net.parse_ipv4 gw); netlink (AddDefaultRoute gw idx)
    | None => mret tt
    end.

Definition tab : string := String "009" "".
Definition newline : string := String "010" "".

Definition hosts_file (cfg : ContainerConfig.t) (st : NetworkState.t) : string :=
  "127.0.0.1" +:+ tab +:+ "localhost" +:+ newline +:+ "::1" +:+ tab +:+ "localhost ip6-localhost ip6-loopback" +:+ newline
  +:+ (match NetworkState.ip st with Some ip => ip | None => "127.0.1.1" end)
  +:+ tab +:+ ContainerConfig.hostname cfg +:+ newline.

Definition resolv_file (dns : list string) : string :=
  foldr (fun s rest => "nameserver " +:+ s +:+ newline +:+ rest) "" dns.

Definition write_resolver_files (cfg : ContainerConfig.t) (st : NetworkState.t) : HM H unit :=
  let n := ContainerConfig.network cfg in
  made ← host.try (on_files (ufs.mkdir_p "/etc"));
  match made with
  | Err _ => mret tt
  | Ok _ =>
      _ ← host.ignore (on_files (ufs.write_file "/etc/hosts" (hosts_file cfg st)));
      _ ← (if negb (bool_decide (NetworkConfig.dns n = [])) && negb (bool_decide (NetworkConfig.mode n = NetworkMode.None))
           then host.ignore (on_files (ufs.write_file "/etc/resolv.conf" (resolv_file (NetworkConfig.dns n))))
           else mret tt);
      host.ignore (on_files (ufs.write_file "/etc/hostname" (ContainerConfig.hostname cfg +:+ newline)))
  end.

(** *** Teardown *)

Definition teardown (id : string) (st : NetworkState.t) : HM H unit :=
  if negb (bool_decide (NetworkState.mode st = "bridge")) then host.ignore (undo_lease id)
  else
    _ ← host.ignore (nat.cleanup id);
    _ ← match NetworkState.host_veth st with
        | Some host_veth => host.ignore (undo_veth host_veth)
        | None => mret tt
        end;
    host.ignore (undo_lease id).

Definition remove_bridge_if_unused (bridge : string) : HM H bool :=
  _ ← netlink Open;
  o ← netlink (LinkIndex bridge);
  match o with
  | None => mret false
  | Some idx =>
      names ← netlink ListLinks;
      if existsb (starts_with "mrv") names then mret false
      else _ ← netlink (DeleteLink idx); mret true
  end.

Definition orphaned_veths (live_ids : list string) : HM H (list string) :=
  _ ← netlink Open;
  let expected := (fun id => fst (util.veth_names id)) <$> live_ids in
  names ← netlink ListLinks;
  mret (filter (fun l => starts_with "mrv" l = true /\ l ∉ expected) names).

End ops.
End network.
