(* ===== verification/NetworkFacts.v ===== *)
(** * Theorems about the container network: a set-up that is unwound leaves no
    interface, no lease and no rule of the container behind *)
From S2P Require Import Prelude RustStr Num Utf8 Error Json JsonUtf8 Rollback Fault Util UtilFacts Net Config ConfigFacts State Fs FsFacts Host NatRules NatFacts Ipam IpamFacts Network.
Import network ipam.

(** ** What the kernel promises about interfaces *)

Class LinksLaws (H : Type) `{HasWorld H} `{Iptables H} `{!IptablesLaws H} `{Links H} := {
  (** The interfaces of the host's network namespace. *)
  names : H -> gset string;
  index_of : H -> string -> option Z;
  (** The two are the ends of a veth pair. *)
  paired : H -> string -> string -> Prop;
  (** A request that fails changes no interface. *)
  nl_failed : forall q h e h', netlink q h = (Err e, h') ->
    names h' = names h /\ index_of h' = index_of h /\ paired h' = paired h;
  nl_index : forall name h o h', netlink (LinkIndex name) h = (Ok o, h') -> o = index_of h name;
  nl_quiet : forall q h,
    match q with CreateBridge _ | CreateVeth _ _ | DeleteLink _ | MoveToNetns _ _ _ => True
    | _ => let h' := snd (netlink q h) in
           names h' = names h /\ index_of h' = index_of h /\ paired h' = paired h
    end;
  nl_bridge : forall name h u h', netlink (CreateBridge name) h = (Ok u, h') ->
    names h' = {[name]} ∪ names h /\ paired h' = paired h;
  nl_veth : forall a b h u h', netlink (CreateVeth a b) h = (Ok u, h') ->
    names h' = {[a; b]} ∪ names h /\ paired h' a b;
  (** Deleting an interface deletes the other end of its pair, too. *)
  nl_delete : forall name i h u h', index_of h name = Some i -> netlink (DeleteLink i) h = (Ok u, h') ->
    (name ∉ names h') /\ names h' ⊆ names h /\
    forall n, n ∈ names h -> n ∉ names h' -> n = name \/ paired h name n;
  nl_delete_pair : forall a b i h u h', index_of h a = Some i -> paired h a b ->
    netlink (DeleteLink i) h = (Ok u, h') -> b ∉ names h';
  nl_index_names : forall h n, index_of h n = None <-> n ∉ names h;
  (** Handing one end over keeps the pair. *)
  nl_move : forall i pid new h u h', netlink (MoveToNetns i pid new) h = (Ok u, h') ->
    names h' ⊆ names h /\ (forall n, index_of h n <> Some i -> n ∈ names h -> n ∈ names h') /\
    paired h' = paired h;
  nl_one_pair : forall h a b c, paired h a b -> paired h a c -> b = c;
  nl_index_inj : forall h a b i, index_of h a = Some i -> index_of h b = Some i -> a = b;
  (** The packet filter, the interfaces and the files do not touch each other. *)
  nl_rules : forall q h t, rules (snd (netlink q h)) t = rules h t;
  nl_healthy : forall q h, NatFacts.healthy h -> NatFacts.healthy (snd (netlink q h));
  nl_world : forall q h, world (snd (netlink q h)) = world h;
  ipt_world : forall args h, world (snd (iptables args h)) = world h;
  ipt_names : forall args h, names (snd (iptables args h)) = names h /\
    index_of (snd (iptables args h)) = index_of h /\ paired (snd (iptables args h)) = paired h;
  files_names : forall w h, names (set_world w h) = names h /\
    index_of (set_world w h) = index_of h /\ paired (set_world w h) = paired h;
  files_rules : forall w h t, rules (set_world w h) t = rules h t;
  files_healthy : forall w h, NatFacts.healthy h -> NatFacts.healthy (set_world w h)
}.

Section facts.
Context {H : Type} `{LinksLaws H} `{!HasWorldLaws H}.

(** ** What the parts keep *)

Definition same_net (h h' : H) : Prop :=
  names h' = names h /\ index_of h' = index_of h /\ paired h' = paired h.
Definition same_rules (h h' : H) : Prop := (forall t, rules h' t = rules h t) /\ (NatFacts.healthy h -> NatFacts.healthy h').
Definition same_world (h h' : H) : Prop := world h' = world h.

#[local] Instance same_net_pre : PreOrder same_net.
Proof. split; [done|]. intros h1 h2 h3 (?&?&?) (?&?&?). unfold same_net. split_and!; congruence. Qed.
#[local] Instance same_rules_pre : PreOrder same_rules.
Proof. split; [done|]. intros h1 h2 h3 [E1 K1] [E2 K2]. split; [intros t; by rewrite E2, E1|auto]. Qed.
#[local] Instance same_world_pre : PreOrder same_world.
Proof. split; [done|]. intros h1 h2 h3. unfold same_world. congruence. Qed.

Lemma run_net args : pres same_net (nat.run args).
Proof.
  intros h. destruct (run_eq args h) as [e ->]. cbn [snd]. apply ipt_names.
Qed.
Lemma run_world args : pres same_world (nat.run args).
Proof. intros h. destruct (run_eq args h) as [e ->]. cbn [snd]. apply ipt_world. Qed.
Lemma is_run_ok_net args : pres same_net (nat.is_run_ok args).
Proof. intros h. rewrite is_run_ok_eq. cbn [snd]. apply ipt_names. Qed.
Lemma is_run_ok_world args : pres same_world (nat.is_run_ok args).
Proof. intros h. rewrite is_run_ok_eq. cbn [snd]. apply ipt_world. Qed.

Lemma on_files_net {A} (m : M A) : pres same_net (on_files m).
Proof. intros h. unfold on_files. destruct (m (world h)) as [r w]. cbn [snd]. apply files_names. Qed.
Lemma on_files_rules {A} (m : M A) : pres same_rules (on_files m).
Proof.
  intros h. unfold on_files. destruct (m (world h)) as [r w]. cbn [snd].
  split; [intros t; apply files_rules|apply files_healthy].
Qed.

Lemma netlink_rules q : pres same_rules (netlink q).
Proof. intros h. split; [intros t; apply nl_rules|apply nl_healthy]. Qed.
Lemma netlink_world q : pres same_world (netlink q).
Proof. intros h. apply nl_world. Qed.

#[local] Hint Resolve run_net run_world is_run_ok_net is_run_ok_world on_files_net on_files_rules
  netlink_rules netlink_world : core.

Lemma available_net : pres same_net nat.available.
Proof.
  intros h. unfold nat.available. pose proof (ipt_names ["-t"; "nat"; "-S"] h).
  by destruct (iptables _ h) as [[m|ok o e] h'].
Qed.
Lemma available_world : pres same_world nat.available.
Proof.
  intros h. unfold nat.available. pose proof (ipt_world ["-t"; "nat"; "-S"] h).
  by destruct (iptables _ h) as [[m|ok o e] h'].
Qed.

Lemma ensure_chains_net : pres same_net nat.ensure_chains.
Proof.
  unfold nat.ensure_chains, nat.ensure_chain, nat.chain_exists, nat.insert_unique, nat.rule_exists. pres_tac.
Qed.

Lemma publish_net id br ip m : pres same_net (nat.publish id br ip m).
Proof. unfold nat.publish, nat.append_unique, nat.rule_exists. pres_tac; apply ensure_chains_net. Qed.

Lemma setup_bridge_net f br sub n : pres same_net (nat.setup_bridge f br sub n).
Proof.
  unfold nat.setup_bridge, nat.enable_ip_forwarding, nat.enable_route_localnet, nat.enable_knob,
    nat.append_unique, nat.rule_exists. pres_tac; apply ensure_chains_net.
Qed.

Lemma delete_rules_net l : forall n, pres same_net (nat.delete_rules l n).
Proof. induction l as [|[t a] l IH]; intros n; cbn [nat.delete_rules]; unfold nat.run_ok; pres_tac. Qed.
Lemma delete_rules_world l : forall n, pres same_world (nat.delete_rules l n).
Proof. induction l as [|[t a] l IH]; intros n; cbn [nat.delete_rules]; unfold nat.run_ok; pres_tac. Qed.
Lemma tagged_go_net id ts : pres same_net (nat.tagged_go id ts).
Proof. induction ts as [|t ts IH]; cbn [nat.tagged_go]; pres_tac. Qed.
Lemma tagged_go_world id ts : pres same_world (nat.tagged_go id ts).
Proof. induction ts as [|t ts IH]; cbn [nat.tagged_go]; pres_tac. Qed.

Lemma cleanup_net id : pres same_net (nat.cleanup id).
Proof.
  unfold nat.cleanup, nat.tagged_rules. apply pres_bind; [exact _|apply tagged_go_net|intros l; apply delete_rules_net].
Qed.
Lemma cleanup_world id : pres same_world (nat.cleanup id).
Proof.
  unfold nat.cleanup, nat.tagged_rules.
  apply pres_bind; [exact _|apply tagged_go_world|intros l; apply delete_rules_world].
Qed.

(** *** The lease table *)

Section table.
Context (root : string) (Hroot : path.dir_ok root).

Definition same_table (h h' : H) : Prop := table_of root (world h') = table_of root (world h).

#[local] Instance same_table_pre : PreOrder same_table.
Proof. split; [done|]. intros h1 h2 h3. unfold same_table. congruence. Qed.

Lemma world_table h h' : same_world h h' -> same_table h h'.
Proof. unfold same_world, same_table. by intros ->. Qed.

Lemma pres_world_table {A} (m : HM H A) : pres same_world m -> pres same_table m.
Proof. intros Hm h. by apply world_table. Qed.

Lemma write_file_keeps p q data w : q <> p -> keeps p w (ufs.write_file q data w).2.
Proof.
  intros Hq. unfold ufs.write_file, mbind, M_bind, io_err, fs_create, fs_write_all, keeps.
  destruct (next_fault w) as [[|e n] w1] eqn:E; apply next_fault_same in E as (E & _); cbn; [|by rewrite E].
  destruct (bool_decide (q ∈ dirs (fs w1))); [cbn; by rewrite E|].
  destruct (negb (in_dir (fs w1) q)); [cbn; by rewrite E|]. unfold set_fs.
  destruct (next_fault _) as [[|e n] w2] eqn:E2; apply next_fault_same in E2 as (E2 & _); cbn in *;
    rewrite lookup_insert_ne, E2 by done; cbn; by rewrite lookup_insert_ne, E by done.
Qed.

Lemma knob_table p what : path.file_name p <> Some "ipam.json" -> pres same_table (nat.enable_knob p what).
Proof.
  intros Hp. assert (Hne : p <> state_path root).
  { intros ->. apply Hp. by apply path.file_name_join. }
  assert (Hf : forall A (m : M A), (forall w, keeps (state_path root) w (m w).2) -> pres same_table (on_files m)).
  { intros A m Hm h. unfold on_files, same_table. specialize (Hm (world h)). destruct (m (world h)) as [r w].
    cbn [snd] in *. rewrite world_set. by apply keeps_table. }
  unfold nat.enable_knob. pres_tac.
  - apply Hf. intros w. unfold ufs.read_trimmed, mbind, M_bind. pose proof (read_to_string_spec p w) as R.
    destruct (ufs.read_to_string p w) as [[s|e] w1]; destruct R as [(R & _) _]; unfold keeps; cbn; by rewrite R.
  - apply Hf. intros w. by apply write_file_keeps.
Qed.

Lemma ensure_chains_world : pres same_world nat.ensure_chains.
Proof.
  unfold nat.ensure_chains, nat.ensure_chain, nat.chain_exists, nat.insert_unique, nat.rule_exists. pres_tac.
Qed.
Lemma append_unique_world t a : pres same_world (nat.append_unique t a).
Proof. unfold nat.append_unique, nat.rule_exists. pres_tac. Qed.
Lemma publish_world id br ip m : pres same_world (nat.publish id br ip m).
Proof. unfold nat.publish. pres_tac; [apply ensure_chains_world|apply append_unique_world]. Qed.

Lemma setup_bridge_table f br sub n : pres same_table (nat.setup_bridge f br sub n).
Proof.
  unfold nat.setup_bridge, nat.enable_ip_forwarding, nat.enable_route_localnet. repeat pres_step.
  - by apply knob_table.
  - by apply knob_table.
  - apply pres_world_table, ensure_chains_world.
  - apply pres_world_table, append_unique_world.
Qed.
End table.

(** ** The interfaces *)

(** Requests other than these four change no interface. *)
Definition quiet (q : request) : bool :=
  match q with CreateBridge _ | CreateVeth _ _ | DeleteLink _ | MoveToNetns _ _ _ => false | _ => true end.

Lemma quiet_net q : quiet q = true -> pres same_net (netlink q).
Proof. intros Hq h. pose proof (nl_quiet q h) as Hn. by destruct q. Qed.

(** Only the bridge may have been added. *)
Definition grows (bridge : string) (h h' : H) : Prop :=
  names h ⊆ names h' /\ names h' ⊆ {[bridge]} ∪ names h /\ paired h' = paired h.

#[local] Instance grows_pre bridge : PreOrder (grows bridge).
Proof.
  split; [intros h; unfold grows; set_solver|].
  intros h1 h2 h3 (?&?&E1) (?&?&E2). unfold grows. split_and!; [set_solver..|congruence].
Qed.

Lemma net_grows bridge h h' : same_net h h' -> grows bridge h h'.
Proof. intros (E & _ & P). unfold grows. rewrite E. set_solver. Qed.

Lemma quiet_grows bridge q : quiet q = true -> pres (grows bridge) (netlink q).
Proof. intros Hq h. by apply net_grows, quiet_net. Qed.

Lemma create_bridge_grows bridge : pres (grows bridge) (netlink (CreateBridge bridge)).
Proof.
  intros h. destruct (netlink (CreateBridge bridge) h) as [[u|e] h1] eqn:E; cbn [snd].
  - apply nl_bridge in E as [E P]. unfold grows. rewrite E. set_solver.
  - apply nl_failed in E. by apply net_grows.
Qed.

Ltac quiet_tac :=
  match goal with
  | |- pres same_net (netlink ?q) => exact (quiet_net q eq_refl)
  | |- pres (grows ?b) (netlink (CreateBridge ?b)) => apply create_bridge_grows
  | |- pres (grows ?b) (netlink ?q) => exact (quiet_grows b q eq_refl)
  end.

Lemma required_net name : pres same_net (link_index_required name).
Proof. unfold link_index_required. pres_tac; quiet_tac. Qed.

Lemma ensure_bridge_grows f bridge gw prefix : pres (grows bridge) (ensure_bridge f bridge gw prefix).
Proof.
  unfold ensure_bridge, check, link_index_required. pres_tac; quiet_tac.
Qed.

(** Names that may be lost: those of the container's pair, and of one left over. *)
Definition own (h : H) (hv pv n : string) : Prop := n = hv \/ n = pv \/ paired h hv n.

(** *** Making the pair *)

Lemma delete_spec name i h r h1 : index_of h name = Some i -> netlink (DeleteLink i) h = (r, h1) ->
  names h1 ⊆ names h /\ (forall n, n ∈ names h -> n ∉ names h1 -> n = name \/ paired h name n) /\
  (is_ok r = true -> (name ∉ names h1) /\ forall b, paired h name b -> b ∉ names h1).
Proof.
  intros Hi E. destruct r as [u|e].
  - pose proof (nl_delete _ _ _ _ _ Hi E) as (Hn & Hs & Hl). split; [done|]. split; [done|]. intros _.
    split; [done|]. intros b Hb. by eapply nl_delete_pair.
  - apply nl_failed in E as (E & _). rewrite E. split; [done|]. split; [done|]. done.
Qed.

Lemma make_veth_spec hv pv h r h1 : make_veth hv pv h = (r, h1) ->
  names h1 ⊆ {[hv; pv]} ∪ names h /\ (forall n, n ∈ names h -> n ∉ names h1 -> own h hv pv n) /\
  (is_ok r = true -> hv ∈ names h1 /\ paired h1 hv pv) /\ (is_ok r = false -> names h1 ⊆ names h).
Proof.
  unfold make_veth. rewrite hm_bind_eq. intros E.
  pose proof (quiet_net (LinkIndex hv) eq_refl h) as S1.
  destruct (netlink (LinkIndex hv) h) as [[o|e] h2] eqn:E1; cbn [snd] in S1.
  2: { injection E as <- <-. destruct S1 as (-> & _). split_and!; try done; set_solver. }
  rewrite hm_bind_eq in E.
  match type of E with context [match ?m h2 with _ => _ end] => set (clear_old := m) in E end.
  assert (exists r3 h3, clear_old h2 = (r3, h3) /\ names h3 ⊆ names h /\
          (forall n, n ∈ names h -> n ∉ names h3 -> own h hv pv n)) as (r3 & h3 & E3 & Hs & Hl).
  { unfold clear_old. destruct o as [i0|]; [|exists (Ok tt), h2; destruct S1 as (-> & _); split_and!; set_solver].
    rewrite hm_bind_eq. pose proof (quiet_net (LinkIndex hv) eq_refl h2) as S2.
    destruct (netlink (LinkIndex hv) h2) as [[[i|]|e] h3] eqn:E2; cbn [snd] in S2.
    - unfold host.ignore. assert (Hi : index_of h3 hv = Some i).
      { apply nl_index in E2. destruct S2 as (_ & -> & _). by rewrite <- E2. }
      destruct (netlink (DeleteLink i) h3) as [r4 h4] eqn:E4. exists (Ok tt), h4. split; [done|].
      destruct (delete_spec _ _ _ _ _ Hi E4) as (D1 & D2 & _).
      destruct S1 as (N1 & _ & P1), S2 as (N2 & _ & P2). rewrite N2, N1 in *. split; [done|].
      intros n Hn Hn'. unfold own. destruct (D2 n Hn Hn') as [?|Hp]; [by left|]. rewrite P2, P1 in Hp. tauto.
    - exists (Ok tt), h3. split; [done|]. destruct S1 as (N1 & _), S2 as (N2 & _). rewrite N2, N1. set_solver.
    - exists (Err e), h3. split; [done|]. destruct S1 as (N1 & _), S2 as (N2 & _). rewrite N2, N1. set_solver. }
  rewrite E3 in E. destruct r3 as [[]|e].
  2: { injection E as <- <-. split_and!; try done; set_solver. }
  destruct r as [u|e].
  - apply nl_veth in E as [N P]. rewrite N. split_and!; [set_solver| |set_solver|done].
    intros n Hn Hn'. apply Hl; [done|]. set_solver.
  - apply (nl_failed (CreateVeth hv pv)) in E as (N & _). rewrite N. split_and!; [set_solver|done|done|done].
Qed.

(** *** Connecting it *)

Lemma veth_names_ne id hv pv : util.veth_names id = (hv, pv) -> hv <> pv.
Proof. unfold util.veth_names. intros [= <- <-]. by intros [=]. Qed.

Lemma bind_net_inv {A B} (m : HM H A) (k : A -> HM H B) h r h1 : pres same_net m -> (m ≫= k) h = (r, h1) ->
  (same_net h h1 /\ is_ok r = false) \/ exists a h2, m h = (Ok a, h2) /\ same_net h h2 /\ k a h2 = (r, h1).
Proof.
  intros Hm. rewrite hm_bind_eq. specialize (Hm h). destruct (m h) as [[a|e] h2]; cbn [snd] in Hm.
  - intros E. right. by exists a, h2.
  - intros [= <- <-]. by left.
Qed.

Lemma required_index name h i h1 : link_index_required name h = (Ok i, h1) -> index_of h name = Some i.
Proof.
  unfold link_index_required. rewrite hm_bind_eq. destruct (netlink (LinkIndex name) h) as [[[j|]|e] h2] eqn:E; try done.
  intros [= <- <-]. by apply nl_index in E.
Qed.

Lemma connect_veth_spec f cfg pid bi hv pv h r h1 : connect_veth f cfg pid bi hv pv h = (r, h1) ->
  names h1 ⊆ names h /\ (forall n, n <> pv -> n ∈ names h -> n ∈ names h1) /\ paired h1 = paired h.
Proof.
  assert (Hsame : forall h', same_net h h' ->
    names h' ⊆ names h /\ (forall n, n <> pv -> n ∈ names h -> n ∈ names h') /\ paired h' = paired h)
    by (intros h' (-> & _ & ->); done).
  intros E. unfold connect_veth, check in E.
  apply bind_net_inv in E as [[S _]|(i & h2 & _ & S2 & E)]; [by apply Hsame| |apply required_net].
  apply bind_net_inv in E as [[S _]|(j & h3 & Ej & S3 & E)]; [by apply Hsame; etrans| |apply required_net].
  apply required_index in Ej. assert (S : same_net h h3) by (by etrans).
  assert (Hj : index_of h3 pv = Some j) by (by destruct S3 as (_ & -> & _)). clear h2 S2 S3 Ej.
  do 5 (apply bind_net_inv in E as [[S' _]|(? & h4 & _ & S4 & E)];
    [apply Hsame; by etrans| |quiet_tac || apply pres_lift; exact _];
    assert (S' : same_net h h4) by (by etrans);
    assert (Hj' : index_of h4 pv = Some j) by (by destruct S4 as (_ & -> & _));
    clear S Hj S4; rename S' into S, Hj' into Hj; clear dependent h3; rename h4 into h3).
  rewrite hm_bind_eq in E. destruct (netlink (MoveToNetns j pid CONTAINER_IFNAME) h3) as [[v|e] h4] eqn:Em.
  - apply nl_move in Em as (Hs & Hk & Hp). injection E as _ <-. destruct S as (N & _ & P). rewrite N, P in *.
    split; [done|]. split; [|done]. intros n Hn Hin. apply Hk; [|done]. intros Hi. apply Hn.
    by eapply nl_index_inj.
  - apply (nl_failed (MoveToNetns j pid CONTAINER_IFNAME)) in Em. injection E as _ <-. apply Hsame. by etrans.
Qed.

(** *** Undoing it *)

Lemma undo_veth_spec hv h r h1 : undo_veth hv h = (r, h1) ->
  names h1 ⊆ names h /\ (forall n, n ∈ names h -> n ∉ names h1 -> n = hv \/ paired h hv n) /\
  (r = Ok tt -> (hv ∉ names h1) /\ forall b, hv ∈ names h -> paired h hv b -> b ∉ names h1).
Proof.
  intros E. unfold undo_veth in E. apply bind_net_inv in E as [[(N & _) Hr]|(u & h2 & _ & S2 & E)]; [| |quiet_tac].
  { rewrite N. split; [done|]. split; [done|]. by intros ->. }
  rewrite hm_bind_eq in E. pose proof (quiet_net (LinkIndex hv) eq_refl h2) as S3.
  destruct (netlink (LinkIndex hv) h2) as [[o|e] h3] eqn:E3; cbn [snd] in S3.
  2: { injection E as <- <-. destruct S2 as (N2 & _), S3 as (N3 & _). rewrite N3, N2. done. }
  apply nl_index in E3. subst o. destruct S2 as (N2 & I2 & P2), S3 as (N3 & I3 & P3).
  destruct (index_of h2 hv) as [i|] eqn:Ei.
  - rewrite <- I3 in Ei. destruct (delete_spec _ _ _ _ _ Ei E) as (D1 & D2 & D3).
    rewrite P3, P2, N3, N2 in *. split; [done|]. split; [done|]. intros ->. destruct (D3 eq_refl) as [? D4]. eauto.
  - injection E as <- <-. apply nl_index_names in Ei. rewrite N3, N2 in *. split; [done|]. split; [done|].
    intros _. split; [done|]. intros b Hb. done.
Qed.

(** *** The interface code touches neither files nor rules *)

Ltac frame_tac :=
  pres_tac;
  match goal with
  | |- pres same_world (netlink ?q) => exact (netlink_world q)
  | |- pres same_rules (netlink ?q) => exact (netlink_rules q)
  end.

Lemma undo_veth_world n : pres same_world (undo_veth n).
Proof. unfold undo_veth. frame_tac. Qed.
Lemma undo_veth_rules n : pres same_rules (undo_veth n).
Proof. unfold undo_veth. frame_tac. Qed.
Lemma ensure_bridge_world f b gw p : pres same_world (ensure_bridge f b gw p).
Proof. unfold ensure_bridge, check, link_index_required. frame_tac. Qed.
Lemma make_veth_world a b : pres same_world (make_veth a b).
Proof. unfold make_veth. frame_tac. Qed.
Lemma connect_veth_world f cfg pid bi a b : pres same_world (connect_veth f cfg pid bi a b).
Proof. unfold connect_veth, check, link_index_required. frame_tac. Qed.

(** ** Steps and undo actions *)

Lemma act_bind_inv {A B} (m : HM H A) (k : A -> HM (H * @Rb H) B) h rb r s1 :
  (act m ≫= k) (h, rb) = (r, s1) ->
  (exists e h2, m h = (Err e, h2) /\ r = Err e /\ s1 = (h2, rb)) \/
  (exists a h2, m h = (Ok a, h2) /\ k a (h2, rb) = (r, s1)).
Proof.
  rewrite hm_bind_eq. unfold act. cbn [fst snd]. destruct (m h) as [[a|e] h2]; [by right; exists a, h2|].
  intros [= <- <-]. left. by exists e, h2.
Qed.

Lemma lift_bind_inv {A B} (x : result A) (k : A -> HM (H * @Rb H) B) s r s1 :
  (host.lift x ≫= k) s = (r, s1) ->
  (exists e, r = Err e /\ s1 = s) \/ (exists a, x = Ok a /\ k a s = (r, s1)).
Proof.
  rewrite hm_bind_eq. unfold host.lift. destruct x as [a|e]; [by right; exists a|]. intros [= <- <-]. left. by exists e.
Qed.

Lemma push_bind {B} name (u : HM H unit) (k : unit -> HM (H * @Rb H) B) h rb :
  (push name u ≫= k) (h, rb) = k tt (h, rollback.push rb name u).
Proof. done. Qed.

(** No undo action reported a failure. *)
Lemma unwind_push_clean (rb rb' : @Rb H) name (u : HM H unit) h h2 :
  rollback.unwind (rollback.push rb name u) h = ([], rb', h2) ->
  exists h1, u h = (Ok tt, h1) /\ rollback.unwind rb h1 = ([], rb', h2).
Proof.
  rewrite rollback.unwind_push. destruct (u h) as [[[]|e] h1]; destruct (rollback.unwind rb h1) as [[fl rb1] h3] eqn:E.
  - intros [= -> -> ->]. by exists h1.
  - done.
Qed.

(** ** The whole set-up *)

Lemma valid_id_utf8 i : util.validate_id i = Ok tt -> utf8 i.
Proof.
  intros (_ & Ha & _)%validate_id_spec. apply low_utf8. revert Ha. apply str_all_impl. intros c.
  destruct c as [a1 a2 a3 a4 a5 a6 a7 a8]. destruct a1, a2, a3, a4, a5, a6, a7, a8; vm_compute; congruence.
Qed.

Section setup.
Context (f : option string) (root : string) (self : Z) (Hroot : path.dir_ok root).
Context (cfg : ContainerConfig.t) (pid : Z).

Definition cid : string := ContainerConfig.id cfg.
Definition ncfg : NetworkConfig.t := ContainerConfig.network cfg.
Definition hv : string := fst (util.veth_names cid).
Definition pv : string := snd (util.veth_names cid).
Definition table (h : H) : Leases := table_of root (world h).

(** What may be left of a set-up from [h] that was undone: the bridge. *)
Definition gone (h h2 : H) : Prop :=
  names h2 ⊆ {[NetworkConfig.bridge ncfg]} ∪ names h /\
  (forall n, n ∈ names h -> n ∉ names h2 -> own h hv pv n) /\
  (forall x, x ∈ entries (table h2) -> x ∈ entries (table h)).

(** The stages: nothing of the container yet; the lease; the pair. *)
Definition leased (h h1 : H) : Prop :=
  leases_wf (table h1) /\ forall x, x ∈ entries (table h1) -> id x = cid \/ x ∈ entries (table h).
Definition stage1 (h h1 : H) : Prop :=
  names h1 ⊆ {[NetworkConfig.bridge ncfg]} ∪ names h /\
  (forall n, n ∈ names h -> n ∉ names h1 -> own h hv pv n) /\ leased h h1.
Definition stage2 (h h1 : H) : Prop :=
  names h1 ⊆ {[hv; pv; NetworkConfig.bridge ncfg]} ∪ names h /\
  (forall n, n ∈ names h -> n ∉ names h1 -> own h hv pv n) /\
  hv ∈ names h1 /\ paired h1 hv pv /\ leased h h1.

Definition rb1 : @Rb H := rollback.push rollback.new "ip lease" (undo_lease root self cid).
Definition rb2 : @Rb H := rollback.push rb1 "veth pair" (undo_veth hv).
Definition rb3 : @Rb H := rollback.push rb2 "iptables rules" (undo_rules cid).

Lemma leased_table h h1 h2 : leased h h1 -> same_table root h1 h2 -> leased h h2.
Proof. unfold leased, table, same_table. by intros Hl ->. Qed.

Lemma undone1 h h1 rb' h2 : stage1 h h1 -> rollback.unwind rb1 h1 = ([], rb', h2) -> gone h h2.
Proof.
  intros (Hn & Hl & Hw & Ht) (h3 & E & [= <- <-])%unwind_push_clean.
  pose proof (on_files_net (release root self cid) h1) as (N & _). unfold undo_lease in E. rewrite E in N. cbn [snd] in N.
  unfold on_files in E. destruct (release root self cid (world h1)) as [r w] eqn:Er.
  injection E as -> <-. pose proof (release_sim root self Hroot cid _ _ _ Hw Er) as S. cbv zeta in S.
  unfold gone, table. rewrite N, world_set, S. split; [done|]. split; [done|].
  intros x [Hx Hi]%elem_of_without. destruct (Ht x Hx); [congruence|done].
Qed.

Lemma undone2 h h1 rb' h2 : stage2 h h1 -> rollback.unwind rb2 h1 = ([], rb', h2) -> gone h h2.
Proof.
  intros (Hn & Hl & Hh & Hp & Hle) (h3 & E & U)%unwind_push_clean.
  assert (W : same_world h1 h3).
  { eapply pres_eq; [apply undo_veth_world|exact E]. }
  destruct (undo_veth_spec hv h1 _ _ E) as (D1 & D2 & D3). destruct (D3 eq_refl) as [D4 D5].
  apply (undone1 h h3 rb' h2); [|done]. split_and!.
  - specialize (D5 pv Hh Hp). set_solver.
  - intros n Hin Hout. destruct (decide (n ∈ names h1)) as [Hin1|]; [|by apply Hl].
    destruct (D2 n Hin1 Hout) as [->|Hpn]; [by left|].
    right. left. by eapply nl_one_pair.
  - by apply (leased_table h h1), world_table.
Qed.

Lemma stage2_frame h h1 h2 : stage2 h h1 -> same_net h1 h2 -> same_table root h1 h2 -> stage2 h h2.
Proof.
  intros (Hn & Hl & Hh & Hp & Hle) (N & _ & P) T. unfold stage2. rewrite N, P.
  split_and!; try done. by apply (leased_table h h1).
Qed.

Lemma undone3 h h1 rb' h2 : util.validate_id cid = Ok tt -> stage2 h h1 ->
  rollback.unwind rb3 h1 = ([], rb', h2) ->
  gone h h2 /\
  (plain_rules h1 -> (NatFacts.healthy h1 -> tag_count cid h2 = O) /\
                     forall t, untagged cid (rules h2 t) ≡ₚ untagged cid (rules h1 t)).
Proof.
  intros Hid%valid_id_tag Hs (h3 & E & U)%unwind_push_clean.
  destruct (cleanup_total cid h1) as (n & h3' & C).
  assert (h3' = h3) as ->.
  { unfold undo_rules in E. rewrite hm_bind_eq, C in E. by injection E. }
  assert (Hs3 : stage2 h h3).
  { apply (stage2_frame h h1); [done|..].
    - by apply (pres_eq _ _ _ _ _ (cleanup_net cid) C).
    - by apply world_table, (pres_eq _ _ _ _ _ (cleanup_world cid) C). }
  split; [by apply (undone2 h h3 rb' h2)|].
  assert (R : same_rules h3 h2).
  { apply unwind_push_clean in U as (h4 & E4 & U). apply unwind_push_clean in U as (h5 & E5 & U). injection U as _ <-.
    etrans; [by apply (pres_eq _ _ _ _ _ (undo_veth_rules hv) E4)|].
    by apply (pres_eq _ _ _ _ _ (on_files_rules (release root self cid)) E5). }
  destruct R as [R _]. intros Hpl. destruct (cleanup_spec cid h1 Hid Hpl) as (n' & h3' & C' & Un & _ & L).
  rewrite C in C'. injection C' as _ <-. split.
  - intros [_ Hz]%L. unfold tag_count in *. by rewrite !R.
  - intros t. by rewrite R, Un.
Qed.

(** The stage at which the set-up ended, with what is registered then. *)
Definition ended (h : H) (r : result NetworkState.t) (h1 : H) (rb : @Rb H) : Prop :=
  (is_ok r = false /\ rb = rollback.new /\ gone h h1) \/
  (is_ok r = false /\ rb = rb1 /\ stage1 h h1) \/
  ((is_ok r = true -> NetworkConfig.publish ncfg = []) /\ rb = rb2 /\ stage2 h h1) \/
  (rb = rb3 /\ stage2 h h1).

Lemma grows_gone h h1 : grows (NetworkConfig.bridge ncfg) h h1 -> same_table root h h1 -> gone h h1.
Proof.
  intros (G1 & G2 & _) T. unfold gone, table. rewrite T. split; [done|]. split; [|done].
  intros n Hn Hn'. exfalso. by apply Hn', G1.
Qed.

Lemma gateway_is_addr n gw : NetworkConfig.gateway_addr n = Ok gw -> net.is_addr gw.
Proof.
  unfold NetworkConfig.gateway_addr. destruct (NetworkConfig.gateway n) as [g|]; [apply net.parse_ipv4_addr|].
  destruct (net.parse_cidr _) as [[a p]|e]; [|done]. intros [= <-]. apply net.octets_addr.
Qed.

(** The lease. *)
Lemma allocate_leased sub req gw h a h1 :
  leases_wf (table h) -> table_ok (table h) -> utf8 sub -> utf8 cid -> opt_all net.is_addr req -> net.is_addr gw ->
  on_files (allocate root self sub cid req gw) h = (Ok a, h1) -> leased h h1.
Proof.
  intros Hwf Hok Hs Hi Hreq Hgw E. unfold on_files in E.
  destruct (allocate root self sub cid req gw (world h)) as [r w] eqn:Ea. injection E as -> <-. destruct a as [a p].
  destruct (allocate_sim root self Hroot sub cid req gw _ _ _ Hwf Hok Hs Hi Hreq Hgw Ea) as (d & Hd & _ & T).
  unfold leased, table. rewrite world_set, T. split; [by apply (decide_wf sub cid req gw)|].
  intros x Hx. pose proof (decide_cases sub cid req gw _ d Hok Hreq Hgw Hd) as Hc. cbv zeta in Hc.
  destruct d as [b|b l']; cbn [table_after] in Hx; [by right|].
  destruct Hc as (_ & El & _). rewrite El in Hx. apply elem_of_app in Hx as [[Hx _]%elem_of_without|Hx%list_elem_of_singleton].
  - right. unfold current in Hx. case_decide; [done|]. by apply elem_of_nil in Hx.
  - left. by subst.
Qed.

Lemma allocate_failed sub req gw h e h1 :
  leases_wf (table h) -> table_ok (table h) -> utf8 sub -> utf8 cid -> opt_all net.is_addr req -> net.is_addr gw ->
  on_files (allocate root self sub cid req gw) h = (Err e, h1) -> same_table root h h1.
Proof.
  intros Hwf Hok Hs Hi Hreq Hgw E. unfold on_files in E.
  destruct (allocate root self sub cid req gw (world h)) as [r w] eqn:Ea. injection E as -> <-.
  unfold same_table. rewrite world_set.
  by apply (allocate_sim root self Hroot sub cid req gw _ _ _ Hwf Hok Hs Hi Hreq Hgw Ea).
Qed.

Lemma publish_all_net ip : pres same_net (publish_all f cfg ip).
Proof.
  unfold publish_all. pres_tac; [apply setup_bridge_net|apply publish_net].
Qed.
Lemma publish_all_table ip : pres (same_table root) (publish_all f cfg ip).
Proof.
  unfold publish_all. apply pres_bind; [apply same_table_pre|by apply setup_bridge_table|intros _].
  apply pres_for_each; [apply same_table_pre|]. intros m. apply pres_world_table, publish_world.
Qed.

(** The part after the lease. *)
Lemma after_lease bi h h1 (st : list Z -> NetworkState.t) ip r h2 rb :
  grows (NetworkConfig.bridge ncfg) h h1 -> leased h h1 ->
  (_ ← act (check f "after_ip_alloc");
   _ ← act (make_veth hv pv);
   _ ← push "veth pair" (undo_veth hv);
   _ ← act (check f "after_veth_create");
   _ ← act (connect_veth f cfg pid bi hv pv);
   _ ← act (publish_all f cfg ip);
   _ ← (if bool_decide (NetworkConfig.publish ncfg = []) then mret tt
        else push "iptables rules" (undo_rules cid));
   mret (st ip)) (h1, rb1) = (r, (h2, rb)) ->
  ended h r h2 rb.
Proof.
  intros (G1 & G2 & G3) Hle E.
  assert (S1 : stage1 h h1) by (split_and!; [done| |done]; intros n Hn Hn'; by exfalso; apply Hn', G1).
  apply act_bind_inv in E as [(e & h3 & E3 & -> & [= -> ->])|([] & h3 & E3 & E)].
  { unfold check, host.lift in E3. injection E3 as _ <-. right. left. done. }
  unfold check, host.lift in E3. injection E3 as _ <-.
  apply act_bind_inv in E as [(e & h3 & E3 & -> & [= -> ->])|([] & h3 & E3 & E)];
    pose proof (pres_eq _ _ _ _ _ (make_veth_world hv pv) E3) as W3;
    destruct (make_veth_spec hv pv _ _ _ E3) as (V1 & V2 & V3 & V4);
    assert (Hlost : forall n, n ∈ names h -> n ∉ names h3 -> own h hv pv n) by
      (intros n Hn Hn'; specialize (V2 n (G1 n Hn) Hn'); unfold own in *; by rewrite G3 in V2);
    assert (Hle3 : leased h h3) by (by apply (leased_table h h1), world_table).
  { right. left. split; [done|]. split; [done|]. split_and!; [specialize (V4 eq_refl); clear -V4 G2; set_solver|done|done]. }
  destruct (V3 eq_refl) as [V5 V6]. rewrite push_bind in E. fold rb2 in E.
  assert (S2 : stage2 h h3) by (split_and!; [clear -V1 G2; set_solver|done..]).
  apply act_bind_inv in E as [(e & h4 & E4 & -> & [= -> ->])|([] & h4 & E4 & E)];
    unfold check, host.lift in E4; injection E4 as _ <-.
  { right. right. left. done. }
  apply act_bind_inv in E as [(e & h4 & E4 & -> & [= -> ->])|([] & h4 & E4 & E)];
    pose proof (pres_eq _ _ _ _ _ (connect_veth_world f cfg pid bi hv pv) E4) as W4;
    destruct (connect_veth_spec _ _ _ _ _ _ _ _ _ E4) as (C1 & C2 & C3);
    assert (Hne : hv <> pv) by (apply (veth_names_ne cid), surjective_pairing);
    assert (S4 : stage2 h h4) by
      (destruct S2 as (A1 & A2 & A3 & A4 & A5); split_and!;
       [clear -A1 C1; set_solver| |by apply C2|by rewrite C3|by apply (leased_table h h3), world_table];
       intros n Hn Hn'; destruct (decide (n = pv)) as [->|]; [by (right; left)|];
       apply A2; [done|]; intros Hin; by apply Hn', C2).
  { right. right. left. done. }
  apply act_bind_inv in E as [(e & h5 & E5 & -> & [= -> ->])|([] & h5 & E5 & E)];
    pose proof (pres_eq _ _ _ _ _ (publish_all_net ip) E5) as N5;
    pose proof (pres_eq _ _ _ _ _ (publish_all_table ip) E5) as T5;
    assert (S5 : stage2 h h5) by (by apply (stage2_frame h h4)).
  { right. right. left. done. }
  case_bool_decide as Hpub.
  - injection E as <- <- <-. right. right. left. done.
  - rewrite push_bind in E. injection E as <- <- <-. right. right. right. done.
Qed.

Lemma setup_ended h r h1 rb :
  leases_wf (table h) -> table_ok (table h) -> utf8 (NetworkConfig.subnet ncfg) -> utf8 cid ->
  setup_bridge_mode f root self cfg pid (h, rollback.new) = (r, (h1, rb)) -> ended h r h1 rb.
Proof.
  intros Hwf Hok Hs Hi E. unfold setup_bridge_mode in E. fold cid ncfg in E. set (br := NetworkConfig.bridge ncfg) in *.
  assert (Hfail : forall e h', r = Err e -> (h1, rb) = (h', rollback.new) -> grows br h h' -> same_world h h' ->
                  ended h r h1 rb).
  { intros e h' -> [= -> ->] G W. left. split; [done|]. split; [done|]. by apply grows_gone, world_table. }
  apply act_bind_inv in E as [(e & h2 & E2 & -> & Es)|(ok & h2 & E2 & E)];
    pose proof (pres_eq _ _ _ _ _ available_net E2) as N2; pose proof (pres_eq _ _ _ _ _ available_world E2) as W2;
    apply (net_grows br) in N2; [by eapply Hfail|].
  destruct (negb ok); [injection E as <- <- <-; by eapply Hfail|].
  apply lift_bind_inv in E as [(e & -> & Es)|([a0 prefix] & Ep & E)]; [by eapply Hfail|].
  apply lift_bind_inv in E as [(e & -> & Es)|(gw & Egw & E)]; [by eapply Hfail|].
  apply act_bind_inv in E as [(e & h3 & E3 & -> & Es)|(u & h3 & E3 & E)];
    pose proof (pres_eq _ _ _ _ _ (quiet_grows br Open eq_refl) E3) as N3;
    pose proof (pres_eq _ _ _ _ _ (netlink_world Open) E3) as W3;
    assert (grows br h h3) as N by (by etrans); assert (same_world h h3) as W by (by etrans); [by eapply Hfail|].
  clear h2 E2 N2 W2 N3 W3 E3.
  apply act_bind_inv in E as [(e & h4 & E4 & -> & Es)|(bi & h4 & E4 & E)];
    pose proof (pres_eq _ _ _ _ _ (ensure_bridge_grows f br gw prefix) E4) as N4;
    pose proof (pres_eq _ _ _ _ _ (ensure_bridge_world f br gw prefix) E4) as W4;
    assert (grows br h h4) as N' by (by etrans); assert (same_world h h4) as W' by (by etrans); [by eapply Hfail|].
  clear h3 E4 N4 W4 N W. rename N' into N, W' into W.
  apply lift_bind_inv in E as [(e & -> & Es)|(req & Ereq & E)]; [by eapply Hfail|].
  assert (Hreq : opt_all net.is_addr req).
  { unfold requested_ip in Ereq. destruct (NetworkConfig.ip ncfg) as [t|]; [|by injection Ereq as <-].
    destruct (net.parse_ipv4 t) as [a|e] eqn:Ea; [|done]. injection Ereq as <-. by eapply net.parse_ipv4_addr. }
  apply gateway_is_addr in Egw.
  assert (Hwf4 : leases_wf (table h4)) by (unfold table; by rewrite W).
  assert (Hok4 : table_ok (table h4)) by (unfold table; by rewrite W).
  apply act_bind_inv in E as [(e & h5 & E5 & -> & [= -> ->])|([ip prefix'] & h5 & E5 & E)].
  { left. split; [done|]. split; [done|]. apply grows_gone.
    - etrans; [exact N|]. apply net_grows. by apply (pres_eq _ _ _ _ _ (on_files_net _) E5).
    - pose proof (allocate_failed _ _ _ _ _ _ Hwf4 Hok4 Hs Hi Hreq Egw E5) as T. unfold same_table in *. by rewrite T, W. }
  rewrite push_bind in E. fold rb1 in E.
  assert (G5 : grows br h h5).
  { etrans; [exact N|]. apply net_grows. by apply (pres_eq _ _ _ _ _ (on_files_net _) E5). }
  assert (L5 : leased h h5).
  { pose proof (allocate_leased _ _ _ _ _ _ Hwf4 Hok4 Hs Hi Hreq Egw E5) as L. unfold leased, table in *. by rewrite W in L. }
  rewrite (surjective_pairing (util.veth_names cid)) in E.
  by eapply (after_lease bi h h5 (fun ip => _) ip).
Qed.

End setup.
End facts.

(** ** A host *)

(** The packet filter of [NatFacts.sample] with interfaces, on which the
    theorems are tried. *)
Module lan.

Record host := mk { filt : sample.host; ifs : list string; pairs : list (string * string) }.

#[export] Instance host_world : HasWorld host := {
  world h := world (filt h); set_world w h := mk (set_world w (filt h)) (ifs h) (pairs h) }.

#[export] Instance host_world_laws : HasWorldLaws host.
Proof. split; [done| |done]. by intros [[w l] i p]. Qed.

#[export] Instance host_iptables : Iptables host := fun args h =>
  let '(o, s) := iptables args (filt h) in (o, mk s (ifs h) (pairs h)).

#[export] Instance host_ipt_laws : IptablesLaws host.
Proof.
  refine {| rules h t := rules (filt h) t; canon := canon (H := sample.host); NatFacts.healthy _ := True |}.
  - apply canon_comment.
  - intros args h t. unfold iptables, host_iptables. pose proof (ipt_failed args (filt h) t) as L.
    by destruct (iptables args (filt h)).
  - intros table op args h t Hop. pose proof (ipt_query table op args (filt h) t Hop) as L.
    unfold iptables, host_iptables. by destruct (iptables _ (filt h)).
  - intros table h out err h' Hpl. unfold iptables at 1, host_iptables.
    destruct (iptables _ (filt h)) as [o s] eqn:E. intros [= -> <-]. by eapply ipt_list.
  - intros table op args h Hop. pose proof (ipt_add table op args (filt h) Hop) as L.
    unfold iptables, host_iptables. by destruct (iptables _ (filt h)).
  - intros table r h Hr. pose proof (ipt_delete table r (filt h) Hr) as L.
    unfold iptables, host_iptables. by destruct (iptables _ (filt h)).
  - done.
  - intros table h _ Ht. pose proof (healthy_list table (filt h) I Ht) as L.
    unfold iptables, host_iptables. by destruct (iptables _ (filt h)).
  - intros table args h _. pose proof (healthy_check table args (filt h) I) as L.
    unfold iptables, host_iptables. by destruct (iptables _ (filt h)).
  - intros table r h _ Hr. pose proof (healthy_delete table r (filt h) I Hr) as L.
    unfold iptables, host_iptables. by destruct (iptables _ (filt h)).
Defined.

Definition index (h : host) (n : string) : option Z :=
  (fun x => Z.of_nat (fst x) + 1) <$> list_find (fun m => m = n) (ifs h).

Definition peer (h : host) (n : string) : option string :=
  snd <$> List.find (fun x => bool_decide (fst x = n)) (pairs h).

(** The interface with this index. *)
Definition named (h : host) (i : Z) : option string :=
  n ← ifs h !! Z.to_nat (i - 1); if bool_decide (index h n = Some i) then Some n else None.

Definition no_link : Error := Syscall "netlink" 19 "No such device".
Definition taken : Error := Syscall "netlink" 17 "File exists".

#[export] Instance host_links : Links host := fun q =>
  match q return HM host (answer q) with
  | LinkIndex n => fun h => (Ok (index h n), h)
  | ListLinks => fun h => (Ok (ifs h), h)
  | CreateBridge n => fun h =>
      if bool_decide (n ∈ ifs h) then (Err taken, h) else (Ok tt, mk (filt h) (ifs h ++ [n]) (pairs h))
  | CreateVeth a b => fun h =>
      if bool_decide (a ∈ ifs h) || bool_decide (b ∈ ifs h) then (Err taken, h)
      else (Ok tt, mk (filt h) (ifs h ++ [a; b]) ((a, b) :: (b, a) :: pairs h))
  | DeleteLink i => fun h =>
      match named h i with
      | None => (Err no_link, h)
      | Some a => (Ok tt, mk (filt h) (filter (fun n => n <> a /\ peer h a <> Some n) (ifs h)) (pairs h))
      end
  | MoveToNetns i pid name => fun h =>
      match named h i with
      | None => (Err no_link, h)
      | Some a => (Ok tt, mk (filt h) (filter (fun n => n <> a) (ifs h)) (pairs h))
      end
  | Open | SetUp _ | SetMtu _ _ | SetMaster _ _ | AddAddress _ _ _ | AddDefaultRoute _ _ => fun h => (Ok tt, h)
  end.

Lemma index_named h n i : index h n = Some i -> named h i = Some n.
Proof.
  intros Hi. unfold named. pose proof Hi as Hj. unfold index in Hi. apply fmap_Some in Hi as ([k m] & Hf & ->).
  apply list_find_Some in Hf as (Hl & -> & _). cbn [fst] in *. rewrite Z.add_simpl_r, Nat2Z.id, Hl. cbn.
  by rewrite bool_decide_true.
Qed.

Lemma filter_world args (s : sample.host) : world (snd (iptables args s)) = world s.
Proof.
  unfold iptables, sample.host_iptables.
  repeat match goal with
  | |- context [match ?x with _ => _ end] => destruct x
  | |- context [if ?b then _ else _] => destruct b
  end; done.
Qed.

#[export] Instance host_links_laws : LinksLaws host.
Proof.
  refine {| names h := list_to_set (ifs h); index_of := index; paired h a b := peer h a = Some b |}.
  - intros q h e h' E. destruct q; cbn in E; repeat case_match; simplify_eq; done.
  - intros name h o h' E. by injection E.
  - intros q h. by destruct q.
  - intros name h u h' E. cbn in E. case_bool_decide; simplify_eq. cbn. split; [|done]. set_solver.
  - intros a b h u h' E. cbn in E. destruct (bool_decide (a ∈ ifs h) || bool_decide (b ∈ ifs h)); [done|].
    injection E as _ <-. cbn. split; [set_solver|]. unfold peer. cbn. by rewrite bool_decide_true.
  - intros name i h u h' Hi E. cbn in E. rewrite (index_named h name i Hi) in E. simplify_eq. cbn.
    split; [rewrite elem_of_list_to_set, list_elem_of_filter; tauto|].
    split; [intros n; rewrite !elem_of_list_to_set, list_elem_of_filter; tauto|].
    intros n Hn Hn'. rewrite elem_of_list_to_set, list_elem_of_filter in Hn'.
    rewrite elem_of_list_to_set in Hn. destruct (decide (n = name)); [by left|]. right.
    destruct (decide (peer h name = Some n)); [done|]. tauto.
  - intros a b i h u h' Hi Hp E. cbn in E. rewrite (index_named h a i Hi) in E. simplify_eq. cbn.
    rewrite elem_of_list_to_set, list_elem_of_filter. tauto.
  - intros h n. unfold index. rewrite fmap_None, list_find_None, elem_of_list_to_set, Forall_forall. set_solver.
  - intros i pid new h u h' E. cbn in E. destruct (named h i) as [a|] eqn:En; [|done]. simplify_eq. cbn.
    split; [intros n; rewrite !elem_of_list_to_set, list_elem_of_filter; tauto|].
    split; [|done]. intros n Hn Hin. rewrite elem_of_list_to_set, list_elem_of_filter in *.
    split; [|done]. intros ->. unfold named in En. destruct (ifs h !! Z.to_nat (i - 1)) as [m|]; [|done]. cbn in En.
    case_bool_decide; [|done]. by injection En as ->.
  - congruence.
  - intros h a b i Ha%index_named Hb%index_named. congruence.
  - intros q h t. destruct q; cbn; repeat case_match; done.
  - done.
  - intros q h. destruct q; cbn; repeat case_match; done.
  - intros args h. pose proof (filter_world args (filt h)) as L. unfold iptables, host_iptables.
    by destruct (iptables args (filt h)).
  - intros args h. unfold iptables, host_iptables. by destruct (iptables args (filt h)).
  - done.
  - done.
  - done.
Defined.
End lan.
Export (hints) lan.

Definition sample_world : World :=
  MkWorld (MkFs {["/proc/sys/net/ipv4/ip_forward" := "1"; "/proc/sys/net/ipv4/conf/all/route_localnet" := "1"]}
             {["/run"; "/"]}) [] [] (fun _ => "No such file").
Definition sample_start : lan.host := lan.mk (sample.mk sample_world []) ["lo"] [].
Definition sample_cfg (ports : list PortMapping.t) : ContainerConfig.t :=
  ContainerConfig.Mk "web" None "/srv" ["/bin/sh"] [] "/" "web" false [] Resources.default
    (NetworkConfig.Mk NetworkMode.Bridge "myrun0" "10.87.0.0/24" None None 1500 ports true [])
    SecurityConfig.default Namespaces.default false false [].

Definition set_up_sample (ports : list PortMapping.t) : result NetworkState.t * (lan.host * @Rb lan.host) :=
  setup_host None "/run" 7 (sample_cfg ports) 100 (sample_start, rollback.new).

(** The interfaces and the number of the container's rules after undoing, and
    what the undo actions report. *)
Definition undo_sample (ports : list PortMapping.t) : list string * list string * nat :=
  let '(_, (h, rb)) := set_up_sample ports in
  let '(failed, _, h2) := rollback.unwind rb h in
  (failed, lan.ifs h2, tag_count "web" h2).


(** The rules are registered with the rollback only after all ports are
    published.  When the second one is refused, the three rules of the first
    stay behind although every undo action succeeds. *)
Example failed_publish_leaks_rules :
  undo_sample [sample.mapping; PortMapping.Mk 9090 90 "tcp"] = ([], ["lo"; "myrun0"], 3%nat).
Proof. vm_compute. reflexivity. Qed.
