(* ===== verification/Ipc.v ===== *)
(** * [src/runtime/ipc.rs]: the channel between the runtime and the
    container's init process

    A [SOCK_STREAM] socketpair delivers bytes in order and keeps no message
    boundaries.  What the kernel does with each [read(2)] and [write(2)] is
    scripted: it may be interrupted, may fail, and may transfer fewer bytes
    than it was asked to.  The bytes a receiver will ever get before the peer
    closes are its [stream]; a blocking read waits for the next of them, so it
    returns nothing only at their end. *)
From S2P Require Import Prelude RustStr Num Utf8 Error.

Module ipc.

Definition TAG_READY : ascii := "R".
Definition TAG_GO : ascii := "G".
Definition TAG_STARTED : ascii := "S".
Definition TAG_ERROR : ascii := "E".
Definition TAG_EXIT : ascii := "X".

Definition MAX_PAYLOAD : Z := 64 * 1024.

Definition tag_name (t : ascii) : string :=
  if ascii_dec t TAG_READY then "ready"
  else if ascii_dec t TAG_GO then "go"
  else if ascii_dec t TAG_STARTED then "started"
  else if ascii_dec t TAG_ERROR then "error"
  else if ascii_dec t TAG_EXIT then "exit"
  else "unknown".

(** What the kernel answers to one call: [Xfer n] moves at most [n] bytes. *)
Inductive answer := Intr | Fail (errno : Z) | Xfer (n : nat).

(** [&buf[n..]] and [&buf[..n]]. *)
Fixpoint take_str (n : nat) (s : string) : string :=
  match n, s with S n', String a s' => String a (take_str n' s') | _, _ => "" end.
Fixpoint drop_str (n : nat) (s : string) : string :=
  match n, s with S n', String _ s' => drop_str n' s' | _, _ => s end.

(** ** Writing *)

(** [Channel::write_all]: the bytes that reached the socket.  The kernel takes
    everything once the script is used up. *)
Fixpoint write_all (script : list answer) (buf : string) : result unit * list answer * string :=
  if str_is_empty buf then (Ok tt, script, "")
  else match script with
       | [] => (Ok tt, [], buf)
       | Intr :: s => write_all s buf
       | Fail e :: s => (Err (Syscall "write" e "sync channel"), s, "")
       | Xfer n :: s =>
           if (n =? 0)%nat then (Err (Io "sync channel closed while writing"), s, "")
           else
             let '(r, s', out) := write_all s (drop_str n buf) in
             (r, s', take_str n buf +:+ out)
       end.

(** [u32::to_le_bytes] and [u32::from_le_bytes]. *)
Definition le32 (n : Z) : string :=
  String (byte_of (n `mod` 256)) (String (byte_of ((n `div` 256) `mod` 256))
    (String (byte_of ((n `div` 65536) `mod` 256)) (String (byte_of ((n `div` 16777216) `mod` 256)) ""))).

Definition of_le32 (a b c d : ascii) : Z := bz a + 256 * bz b + 65536 * bz c + 16777216 * bz d.

Definition frame (tag : ascii) (payload : string) : string :=
  String tag (le32 (wrap_u 32 (str_len payload)) +:+ payload).

Definition send (script : list answer) (tag : ascii) (payload : string)
    : result unit * list answer * string :=
  if MAX_PAYLOAD <? wrap_u 32 (str_len payload) then (Err (Io "sync message too large"), script, "")
  else write_all script (frame tag payload).

Definition send_tag (script : list answer) (tag : ascii) := send script tag "".

Definition send_error (script : list answer) (msg : string) :=
  send script TAG_ERROR (take_str (Nat.min (String.length msg) (Z.to_nat MAX_PAYLOAD)) msg).

Definition send_exit (script : list answer) (code signal : Z) :=
  send script TAG_EXIT (le32 (wrap_u 32 code) +:+ le32 (wrap_u 32 signal)).

(** ** Reading *)

Definition truncated (n got : nat) : Error :=
  Io ("sync channel truncated: wanted " +:+ show_dec (Z.of_nat n) +:+ " bytes, got "
      +:+ show_dec (Z.of_nat got)).

(** The [while got < n] loop of [Channel::read_exact]; [out] holds the bytes
    got so far.  Gives the result, the rest of the script and the rest of the
    stream. *)
Fixpoint read_go (n : nat) (script : list answer) (out stream : string)
    : result (option string) * list answer * string :=
  let got := String.length out in
  let left := (n - got)%nat in
  if (n <=? got)%nat then (Ok (Some out), script, stream)
  else match script with
       | [] =>
           if (left <=? String.length stream)%nat
           then (Ok (Some (out +:+ take_str left stream)), [], drop_str left stream)
           else if str_is_empty (out +:+ stream) then (Ok None, [], "")
           else (Err (truncated n (got + String.length stream)), [], "")
       | Intr :: s => read_go n s out stream
       | Fail e :: s => (Err (Syscall "read" e "sync channel"), s, stream)
       | Xfer k :: s =>
           if str_is_empty stream then
             (if (got =? 0)%nat then Ok None else Err (truncated n got), s, "")
           else
             let m := Nat.min (Nat.max k 1) left in
             read_go n s (out +:+ take_str m stream) (drop_str m stream)
       end.

Definition read_exact (n : nat) (script : list answer) (stream : string) := read_go n script "" stream.

Definition recv (script : list answer) (stream : string)
    : result (option (ascii * string)) * list answer * string :=
  match read_exact 5 script stream with
  | (Err e, s, r) => (Err e, s, r)
  | (Ok None, s, r) => (Ok None, s, r)
  | (Ok (Some (String tag (String a (String b (String c (String d _)))))), s, r) =>
      let len := of_le32 a b c d in
      if MAX_PAYLOAD <? len then
        (Err (Parse ("sync frame claims " +:+ show_dec len +:+ " bytes, which is beyond the "
                     +:+ show_dec MAX_PAYLOAD +:+ " byte limit")), s, r)
      else if len =? 0 then (Ok (Some (tag, "")), s, r)
      else match read_exact (Z.to_nat len) s r with
           | (Err e, s', r') => (Err e, s', r')
           | (Ok None, s', r') => (Err (Io "sync channel closed mid-frame"), s', r')
           | (Ok (Some payload), s', r') => (Ok (Some (tag, payload)), s', r')
           end
  | (Ok (Some _), s, r) => (Err (Io "unreachable"), s, r)
  end.

(** [String::from_utf8_lossy]: each maximal part of an ill-formed sequence is
    replaced by U+FFFD. *)
Definition replacement : string := utf8_encode 0xFFFD.

(** The length of the well-formed sequence at the head, or the number of bytes
    to replace. *)
Definition seq_at (s : string) : nat + nat :=
  match s with
  | EmptyString => inr 0%nat
  | String a s1 =>
      if bz a <? 0x80 then inl 1%nat
      else match s1 with
      | EmptyString => inr 1%nat
      | String b s2 =>
          if negb (in_range 0xC2 0xF4 a && second_ok a b) then inr 1%nat
          else if in_range 0xC2 0xDF a then inl 2%nat
          else match s2 with
          | EmptyString => inr 2%nat
          | String c s3 =>
              if negb (is_cont c) then inr 2%nat
              else if in_range 0xE0 0xEF a then inl 3%nat
              else match s3 with
              | EmptyString => inr 3%nat
              | String d _ => if is_cont d then inl 4%nat else inr 3%nat
              end
          end
      end
  end.

Fixpoint lossy_go (fuel : nat) (s : string) : string :=
  match fuel with
  | O => ""
  | S f =>
      if str_is_empty s then ""
      else match seq_at s with
           | inl n => take_str n s +:+ lossy_go f (drop_str n s)
           | inr n => replacement +:+ lossy_go f (drop_str (Nat.max n 1) s)
           end
  end.

Definition from_utf8_lossy (s : string) : string := lossy_go (String.length s) s.

Definition expect (script : list answer) (want : ascii) (stream : string)
    : result string * list answer * string :=
  match recv script stream with
  | (Err e, s, r) => (Err e, s, r)
  | (Ok None, s, r) =>
      (Err (Container ("container init exited before sending " +:+ tag_name want)), s, r)
  | (Ok (Some (tag, payload)), s, r) =>
      if ascii_dec tag want then (Ok payload, s, r)
      else if ascii_dec tag TAG_ERROR then (Err (Container (from_utf8_lossy payload)), s, r)
      else (Err (Container ("expected " +:+ tag_name want +:+ " from container init, got "
                            +:+ tag_name tag)), s, r)
  end.

Definition parse_exit (payload : string) : option (Z * Z) :=
  match payload with
  | String a (String b (String c (String d (String e (String f (String g (String h _))))))) =>
      Some (wrap_s 32 (of_le32 a b c d), wrap_s 32 (of_le32 e f g h))
  | _ => None
  end.

End ipc.
