(* ===== verification/IpcFacts.v ===== *)
(** * Theorems about the channel: whatever the kernel splits, interrupts or
    refuses, the receiver sees the messages that were sent, in order, and never
    a damaged one *)
From S2P Require Import Prelude RustStr Num Utf8 Error Ipc.
Import ipc.

(** ** Bytes *)

Lemma take_drop_str n s : take_str n s +:+ drop_str n s = s.
Proof. revert s. induction n as [|n IH]; intros [|a s]; cbn; try done. by rewrite IH. Qed.

Lemma length_take_str n s : String.length (take_str n s) = Nat.min n (String.length s).
Proof. revert s. induction n as [|n IH]; intros [|a s]; cbn; try done. by rewrite IH. Qed.

Lemma take_str_app a b : take_str (String.length a) (a +:+ b) = a.
Proof. induction a as [|x a IH]; cbn; [by destruct b|]. by rewrite IH. Qed.

Lemma drop_str_app a b : drop_str (String.length a) (a +:+ b) = b.
Proof. induction a as [|x a IH]; cbn; [by destruct b|]. by rewrite IH. Qed.

Lemma take_str_le n a b : (n <= String.length a)%nat -> take_str n (a +:+ b) = take_str n a.
Proof.
  revert a. induction n as [|n IH]; intros a H; [by destruct (a +:+ b), a|].
  destruct a as [|x a]; cbn in *; [lia|]. rewrite IH by lia. done.
Qed.

Lemma drop_str_le n a b : (n <= String.length a)%nat -> drop_str n (a +:+ b) = drop_str n a +:+ b.
Proof.
  revert a. induction n as [|n IH]; intros a H; [by destruct a; destruct b|].
  destruct a as [|x a]; cbn in *; [lia|]. apply IH. lia.
Qed.

Lemma str_app_nil (a b : string) : a +:+ b = "" -> a = "" /\ b = "".
Proof. by destruct a. Qed.

Lemma str_cons_inj a b (x y : string) : String a x = String b y -> a = b /\ x = y.
Proof. by intros [= -> ->]. Qed.

Lemma str_app_inj (a b c d : string) :
  String.length a = String.length c -> a +:+ b = c +:+ d -> a = c /\ b = d.
Proof.
  revert c. induction a as [|x a IH]; intros [|y c] Hl E; cbn in *; try done.
  injection E as -> E. destruct (IH c ltac:(lia) E) as [-> ->]. done.
Qed.

Lemma bz_byte_of z : 0 <= z < 256 -> bz (byte_of z) = z.
Proof. intros H. unfold byte_of. rewrite bz_ascii_of_N; lia. Qed.

Lemma bz_range a : 0 <= bz a < 256.
Proof. unfold bz. pose proof (Ascii.N_ascii_bounded a). lia. Qed.

Definition of_le (s : string) : Z :=
  match s with String a (String b (String c (String d _))) => of_le32 a b c d | _ => 0 end.

Lemma le32_back n : in_u 32 n -> of_le (le32 n) = n.
Proof.
  intros Hn. cbn. unfold of_le32.
  rewrite !bz_byte_of by (apply Z.mod_pos_bound; lia). unfold in_u in Hn.
  pose proof (Z.div_mod n 256). pose proof (Z.div_mod (n `div` 256) 256).
  pose proof (Z.div_mod (n `div` 65536) 256). 
  assert (n `div` 65536 = (n `div` 256) `div` 256) as E1 by (rewrite Z.div_div by lia; done).
  assert (n `div` 16777216 = (n `div` 65536) `div` 256) as E2 by (rewrite Z.div_div by lia; done).
  rewrite (Z.mod_small (n `div` 16777216)); [lia|].
  split; [apply Z.div_pos; lia|apply Z.div_lt_upper_bound; lia].
Qed.

Lemma length_le32 n : String.length (le32 n) = 4%nat.
Proof. done. Qed.

(** ** Writing *)

(** A script without failures. *)
Definition benign (script : list answer) : Prop :=
  Forall (fun a => match a with Fail _ | Xfer O => False | _ => True end) script.

Lemma write_all_spec script buf :
  let '(r, s', out) := write_all script buf in
  (exists rest, buf = out +:+ rest /\ (r = Ok tt <-> rest = "")) /\
  (benign script -> r = Ok tt /\ benign s').
Proof.
  revert buf. induction script as [|a script IH]; intros buf; cbn [write_all];
    destruct (str_is_empty buf) eqn:E; try (destruct buf; [|done]).
  - split; [by exists ""|done].
  - split; [exists ""; by rewrite app_nil_r|done].
  - split; [by exists ""|done].
  - assert (buf <> "") as Hne by (by intros ->).
    destruct a as [|e|[|n]]; cbn [Nat.eqb].
    + specialize (IH buf). destruct (write_all script buf) as [[r s'] out]. destruct IH as [IH1 IH2].
      split; [done|]. intros [_ H]%Forall_cons. by apply IH2.
    + split; [exists buf; split; [done|]; split; [done|by intros ->]|]. by intros [[] _]%Forall_cons.
    + split; [exists buf; split; [done|]; split; [done|by intros ->]|]. by intros [[] _]%Forall_cons.
    + specialize (IH (drop_str (S n) buf)).
      destruct (write_all script (drop_str (S n) buf)) as [[r s'] out].
      destruct IH as [(rest & E1 & E2) IH2]. split.
      * exists rest. split; [|done]. rewrite <- app_assoc, <- E1. by rewrite take_drop_str.
      * intros [_ H]%Forall_cons. by apply IH2.
Qed.

(** ** Reading *)

(** What is returned was at the head of the stream. *)
Lemma read_go_sound n script out stream x s' r' :
  (String.length out <= n)%nat ->
  read_go n script out stream = (Ok (Some x), s', r') ->
  exists a, stream = a +:+ r' /\ x = out +:+ a /\ String.length x = n.
Proof.
  revert out stream. induction script as [|a script IH]; intros out stream Hl; cbn [read_go];
    destruct (n <=? String.length out)%nat eqn:E.
  1,3: intros [= <- <- <-]; apply Nat.leb_le in E; exists ""; rewrite app_nil_r; split_and!; [done|done|lia].
  - apply Nat.leb_gt in E. destruct (_ <=? _)%nat eqn:E2; [|by destruct (str_is_empty _)].
    apply Nat.leb_le in E2. intros [= <- <- <-]. eexists. split_and!; [by rewrite take_drop_str|done|].
    rewrite str_length_app, length_take_str. lia.
  - apply Nat.leb_gt in E. destruct a as [|e|k]; [by apply IH|done|].
    destruct (str_is_empty stream) eqn:E2; [by destruct (_ =? _)%nat|].
    set (m := Nat.min (Nat.max k 1) (n - String.length out)). intros H.
    apply IH in H as (b & E3 & -> & H).
    + exists (take_str m stream +:+ b). split_and!; [by rewrite <- app_assoc, <- E3, take_drop_str|by rewrite app_assoc|done].
    + rewrite str_length_app, length_take_str. lia.
Qed.

Lemma read_go_complete n script out a rest :
  benign script -> (String.length out + String.length a = n)%nat ->
  exists s', benign s' /\ read_go n script out (a +:+ rest) = (Ok (Some (out +:+ a)), s', rest).
Proof.
  revert out a. induction script as [|x script IH]; intros out a Hb Hl; cbn [read_go];
    destruct (n <=? String.length out)%nat eqn:E;
    [apply Nat.leb_le in E; destruct a; [|cbn in Hl; lia]; rewrite app_nil_r; by eexists| |
     apply Nat.leb_le in E; destruct a; [|cbn in Hl; lia]; rewrite app_nil_r; by eexists|];
    apply Nat.leb_gt in E.
  - assert (n - String.length out = String.length a)%nat as -> by lia.
    rewrite (proj2 (Nat.leb_le _ _)) by (rewrite str_length_app; lia).
    rewrite take_str_app, drop_str_app. by eexists.
  - apply Forall_cons in Hb as [Hx Hb]. destruct x as [|e|k]; [by apply IH|done|].
    assert (str_is_empty (a +:+ rest) = false) as -> by (destruct a; [cbn in Hl; lia|done]).
    set (m := Nat.min (Nat.max k 1) (n - String.length out)).
    assert (m <= String.length a)%nat as Hm by lia.
    rewrite take_str_le, drop_str_le by done.
    destruct (IH (out +:+ take_str m a) (drop_str m a) Hb) as (s' & Hs' & E').
    { rewrite str_length_app. rewrite <- (take_drop_str m a), str_length_app in Hl. lia. }
    exists s'. split; [done|]. rewrite E'. by rewrite <- app_assoc, take_drop_str.
Qed.

(** ** Frames *)

Lemma byte_of_bz a : byte_of (bz a) = a.
Proof. unfold byte_of, bz. by rewrite N2Z.id, Ascii.ascii_N_embedding. Qed.

Lemma le32_of a b c d : le32 (of_le32 a b c d) = String a (String b (String c (String d ""))).
Proof.
  pose proof (bz_range a). pose proof (bz_range b). pose proof (bz_range c). pose proof (bz_range d).
  unfold le32, of_le32. set (n := _ + _ + _ + _).
  assert (n `mod` 256 = bz a) as -> by (subst n; Z.to_euclidean_division_equations; lia).
  assert ((n `div` 256) `mod` 256 = bz b) as -> by (subst n; Z.to_euclidean_division_equations; lia).
  assert ((n `div` 65536) `mod` 256 = bz c) as -> by (subst n; Z.to_euclidean_division_equations; lia).
  assert ((n `div` 16777216) `mod` 256 = bz d) as -> by (subst n; Z.to_euclidean_division_equations; lia).
  by rewrite !byte_of_bz.
Qed.

(** A message the protocol carries. *)
Definition fits (m : ascii * string) : Prop := str_len m.2 <= MAX_PAYLOAD.

Definition frame_of (m : ascii * string) : string := frame m.1 m.2.

Lemma fits_wrap p : str_len p <= MAX_PAYLOAD -> wrap_u 32 (str_len p) = str_len p.
Proof. intros H. apply wrap_u_id. unfold in_u, MAX_PAYLOAD, str_len in *. lia. Qed.

Lemma frame_inj m1 m2 r1 r2 :
  fits m1 -> fits m2 -> frame_of m1 +:+ r1 = frame_of m2 +:+ r2 -> m1 = m2 /\ r1 = r2.
Proof.
  destruct m1 as [t1 p1], m2 as [t2 p2]. unfold fits, frame_of, frame. cbn [fst snd]. intros H1 H2 E.
  cbn [String.append] in E. apply str_cons_inj in E as [-> E].
  rewrite !fits_wrap, <- !app_assoc in E by done.
  apply str_app_inj in E as [E1 E2]; [|done].
  assert (str_len p1 = str_len p2) as El.
  { rewrite <- (le32_back (str_len p1)), <- (le32_back (str_len p2)), E1; [done|..];
      unfold in_u, MAX_PAYLOAD, str_len in *; lia. }
  apply str_app_inj in E2 as [-> ->]; [done|]. unfold str_len in El. lia.
Qed.

Lemma recv_sound script stream m s' r' :
  recv script stream = (Ok (Some m), s', r') -> fits m /\ stream = frame_of m +:+ r'.
Proof.
  unfold recv, read_exact. destruct (read_go 5 script "" stream) as [[[[h|]|e] s1] r1] eqn:E1; [|done..].
  apply read_go_sound in E1 as (h' & -> & -> & Hl); [|cbn; lia]. cbn [String.append] in *.
  destruct h' as [|t [|a [|b [|c [|d [|]]]]]]; try discriminate Hl.
  destruct (MAX_PAYLOAD <? _) eqn:E2; [done|]. bool_prop.
  pose proof (bz_range a). pose proof (bz_range b). pose proof (bz_range c). pose proof (bz_range d).
  assert (0 <= of_le32 a b c d) by (unfold of_le32; lia).
  destruct (of_le32 a b c d =? 0) eqn:E3; bool_prop.
  - intros [= <- <- <-]. split; [done|]. unfold frame_of, frame. cbn [fst snd].
    change (wrap_u 32 (str_len "")) with 0. rewrite <- E3, le32_of. done.
  - destruct (read_go _ s1 "" r1) as [[[[p|]|e] s2] r2] eqn:E4; [|done..]. intros [= <- <- <-].
    apply read_go_sound in E4 as (p' & -> & -> & Hp); [|cbn; lia]. cbn [String.append] in *.
    assert (str_len p' = of_le32 a b c d) as Hpl by (unfold str_len; lia).
    unfold fits, frame_of, frame. cbn [fst snd]. rewrite Hpl. split; [done|].
    rewrite wrap_u_id by (unfold in_u, MAX_PAYLOAD in *; lia). rewrite le32_of. done.
Qed.

Lemma recv_complete script m rest :
  benign script -> fits m ->
  exists s', benign s' /\ recv script (frame_of m +:+ rest) = (Ok (Some m), s', rest).
Proof.
  destruct m as [t p]. unfold fits, frame_of. cbn [fst snd]. intros Hb Hf.
  set (n := str_len p). assert (0 <= n) as H0 by (unfold n, str_len; lia).
  assert (frame t p +:+ rest = String t (le32 n) +:+ (p +:+ rest)) as ->.
  { unfold frame. rewrite fits_wrap by done. cbn [String.append]. by rewrite <- app_assoc. }
  unfold recv, read_exact.
  destruct (read_go_complete 5 script "" (String t (le32 n)) (p +:+ rest) Hb eq_refl) as (s1 & Hb1 & E1).
  rewrite E1. pose proof (le32_back n ltac:(unfold in_u, MAX_PAYLOAD in *; lia)) as En.
  unfold le32 in *. cbn [String.append of_le] in *. rewrite En.
  rewrite (proj2 (Z.ltb_ge _ _)) by done. destruct (n =? 0) eqn:E0; bool_prop.
  - assert (p = "") as -> by (destruct p; [done|exfalso; unfold n, str_len in E0; cbn in E0; lia]). eauto.
  - destruct (read_go_complete (Z.to_nat n) s1 "" p rest Hb1) as (s2 & Hb2 & E2).
    { unfold n, str_len. cbn. lia. }
    rewrite E2. eauto.
Qed.

Lemma recv_end script : benign script -> exists s', recv script "" = (Ok None, s', "").
Proof.
  intros Hb. unfold recv, read_exact.
  enough (exists s', read_go 5 script "" "" = (Ok None, s', "")) as [s' ->] by eauto.
  induction Hb as [|a script Ha Hb IH]; [by eexists|]. destruct a as [|e|[|k]]; cbn in *; by eauto.
Qed.

(** ** Conversations *)

(** The messages are sent one by one until one fails. *)
Fixpoint send_all (script : list answer) (msgs : list (ascii * string)) : result unit * string :=
  match msgs with
  | [] => (Ok tt, "")
  | m :: rest =>
      match send script m.1 m.2 with
      | (Err e, _, out) => (Err e, out)
      | (Ok _, s, out) => let '(r, out') := send_all s rest in (r, out +:+ out')
      end
  end.

(** Messages are received until the end of the stream or an error. *)
Fixpoint recv_all (fuel : nat) (script : list answer) (stream : string)
    : option (list (ascii * string) * result unit) :=
  match fuel with
  | O => None
  | S f =>
      match recv script stream with
      | (Err e, _, _) => Some ([], Err e)
      | (Ok None, _, _) => Some ([], Ok tt)
      | (Ok (Some m), s, r) => '(l, e) ← recv_all f s r; Some (m :: l, e)
      end
  end.

Lemma send_fits script m :
  fits m -> send script m.1 m.2 = write_all script (frame_of m).
Proof.
  intros H. unfold send. rewrite fits_wrap by done. by rewrite (proj2 (Z.ltb_ge _ _)).
Qed.

(** What reaches the stream: whole frames, then a proper part of the next. *)
Lemma send_all_spec script msgs :
  Forall fits msgs ->
  let '(r, out) := send_all script msgs in
  exists k part, out = str_concat (frame_of <$> take k msgs) +:+ part /\
    (part = "" \/ exists m rest, msgs !! k = Some m /\ frame_of m = part +:+ rest /\ rest <> "") /\
    (r = Ok tt -> k = length msgs /\ part = "") /\ (benign script -> r = Ok tt).
Proof.
  intros Hf. revert script. induction Hf as [|m msgs Hm Hf IH]; intros script; cbn [send_all].
  { exists O, "". split_and!; [done|by left|done|done]. }
  rewrite send_fits by done. pose proof (write_all_spec script (frame_of m)) as W.
  destruct (write_all script (frame_of m)) as [[[[]|e] s] out]; destruct W as [(rest & E & Ho) Hb].
  - assert (rest = "") as -> by (by apply Ho). rewrite app_nil_r in E. subst out. specialize (IH s).
    destruct (send_all s msgs) as [r out']. destruct IH as (k & part & -> & H1 & H2 & H3).
    exists (S k), part. cbn [take fmap list_fmap str_concat length]. split_and!; [by rewrite app_assoc|done| |].
    + intros Hr. destruct (H2 Hr). by subst.
    + intros Hbs. by apply H3, Hb.
  - exists O, out. split_and!; [done| |done|].
    + right. exists m, rest. split_and!; [done|done|]. intros ->. by destruct Ho as [_ Ho]; specialize (Ho eq_refl).
    + intros Hbs. by destruct (Hb Hbs).
Qed.

Lemma frame_length m : (5 <= String.length (frame_of m))%nat.
Proof. unfold frame_of, frame. cbn [String.length]. rewrite str_length_app. cbn. lia. Qed.

Lemma recv_all_total fuel script stream :
  (String.length stream < fuel)%nat -> exists l e, recv_all fuel script stream = Some (l, e).
Proof.
  revert script stream. induction fuel as [|f IH]; intros script stream Hf; [lia|]. cbn [recv_all].
  destruct (recv script stream) as [[[[m|]|e] s] r] eqn:E; [|eauto..].
  apply recv_sound in E as [_ ->]. rewrite str_length_app in Hf. pose proof (frame_length m).
  destruct (IH s r ltac:(lia)) as (l & e & ->). cbn. eauto.
Qed.

(** A proper part of a frame yields no message. *)
Lemma part_silent script part m0 rest :
  fits m0 -> frame_of m0 = part +:+ rest -> rest <> "" -> forall m s r, recv script part <> (Ok (Some m), s, r).
Proof.
  intros H0 E Hne m s r [Hm ->]%recv_sound. rewrite <- app_assoc in E.
  rewrite <- (app_nil_r (frame_of m0)) in E. apply frame_inj in E as [_ E]; [|done..].
  symmetry in E. by apply str_app_nil in E as [_ ->].
Qed.

Lemma recv_all_prefix fuel script msgs part l e :
  Forall fits msgs ->
  (part = "" \/ exists m rest, fits m /\ frame_of m = part +:+ rest /\ rest <> "") ->
  recv_all fuel script (str_concat (frame_of <$> msgs) +:+ part) = Some (l, e) ->
  l `prefix_of` msgs /\ (part = "" -> benign script -> l = msgs /\ e = Ok tt).
Proof.
  intros Hf Hp. revert fuel script l e. induction Hf as [|m msgs Hm Hf IH]; intros fuel script l e;
    (destruct fuel as [|fuel]; [done|]); cbn [recv_all fmap list_fmap str_concat].
  - change ("" +:+ part) with part. destruct (recv script part) as [[[[m|]|e'] s] r] eqn:E.
    + exfalso. destruct Hp as [->|(m0 & rest & H1 & H2 & H3)].
      * apply recv_sound in E as [_ E]. symmetry in E. apply str_app_nil in E as [E _].
        pose proof (frame_length m) as Hl. by rewrite E in Hl; cbn in Hl; lia.
      * by apply (part_silent script part m0 rest H1 H2 H3 m s r).
    + intros [= <- <-]. split; [apply prefix_nil|done].
    + intros [= <- <-]. split; [apply prefix_nil|]. intros -> Hb.
      destruct (recv_end script Hb) as [s' E']. by rewrite E' in E.
  - rewrite <- app_assoc. destruct (recv script _) as [[[[m'|]|e'] s] r] eqn:E.
    + pose proof E as Ers. apply recv_sound in E as [Hm' E]. apply frame_inj in E as [<- <-]; [|done..].
      destruct (recv_all fuel s _) as [[l' e'']|] eqn:El; [|done]. cbn. intros [= <- <-].
      destruct (IH _ _ _ _ El) as [IH1 IH2]. split; [by apply prefix_cons|].
      intros Hpe Hb. destruct (recv_complete script m (str_concat (frame_of <$> msgs) +:+ part) Hb Hm) as (s' & Hb' & E').
      rewrite E' in Ers. injection Ers as <-. by destruct (IH2 Hpe Hb') as [-> ->].
    + intros [= <- <-]. split; [apply prefix_nil|]. intros _ Hb.
      destruct (recv_complete script m (str_concat (frame_of <$> msgs) +:+ part) Hb Hm) as (s' & _ & E').
      by rewrite E' in E.
    + intros [= <- <-]. split; [apply prefix_nil|]. intros _ Hb.
      destruct (recv_complete script m (str_concat (frame_of <$> msgs) +:+ part) Hb Hm) as (s' & _ & E').
      by rewrite E' in E.
Qed.

(** C4: however the kernel splits, interrupts or refuses the reads and writes
    of the two ends, what is received is a prefix of what was sent, message by
    message; when no call fails every message arrives, unchanged and in order,
    and the receiver then sees a clean end. *)
Theorem channel_delivers (ws rs : list answer) (msgs : list (ascii * string)) :
  Forall fits msgs ->
  let '(r, stream) := send_all ws msgs in
  exists l e, recv_all (S (String.length stream)) rs stream = Some (l, e) /\ l `prefix_of` msgs /\
    (r = Ok tt -> benign rs -> l = msgs /\ e = Ok tt) /\ (benign ws -> r = Ok tt).
Proof.
  intros Hf. pose proof (send_all_spec ws msgs Hf) as W. destruct (send_all ws msgs) as [r stream].
  destruct W as (k & part & -> & Hpart & Hr & Hb).
  destruct (recv_all_total (S (String.length (str_concat (frame_of <$> take k msgs) +:+ part))) rs
    (str_concat (frame_of <$> take k msgs) +:+ part) ltac:(lia)) as (l & e & E).
  exists l, e. rewrite E.
  assert (Forall fits (take k msgs)) as Hk by (by apply Forall_take).
  assert (part = "" \/ exists m rest, fits m /\ frame_of m = part +:+ rest /\ rest <> "") as Hp.
  { destruct Hpart as [->|(m & rest & Hm & H)]; [by left|right]. exists m, rest. split; [|done].
    by eapply Forall_lookup_1 in Hm. }
  destruct (recv_all_prefix _ _ _ _ _ _ Hk Hp E) as [Hpre Hall]. split_and!; [done| | |done].
  - etrans; [exact Hpre|]. exists (drop k msgs). by rewrite take_drop.
  - intros Hok Hrs. destruct (Hr Hok) as [-> Hpe]. destruct (Hall Hpe Hrs) as [-> ->].
    by rewrite firstn_all.
Qed.

Lemma channel_delivers_witness :
  let msgs := [(TAG_READY, ""); (TAG_STARTED, ""); (TAG_ERROR, "pivot_root failed")] in
  let ws := [Xfer 2; Intr; Xfer 1; Xfer 3; Xfer 7; Fail 32] in
  let rs := [Xfer 1; Xfer 9; Intr] in
  let '(r, stream) := send_all ws msgs in
  is_ok r = false /\
  exists l e, recv_all (S (String.length stream)) rs stream = Some (l, e) /\ l `prefix_of` msgs /\
    (r = Ok tt -> benign rs -> l = msgs /\ e = Ok tt) /\ (benign ws -> r = Ok tt).
Proof.
  cbv zeta.
  assert (is_ok (send_all [Xfer 2; Intr; Xfer 1; Xfer 3; Xfer 7; Fail 32]
    [(TAG_READY, ""); (TAG_STARTED, ""); (TAG_ERROR, "pivot_root failed")]).1 = false) as Hr
    by (vm_compute; reflexivity).
  pose proof (channel_delivers [Xfer 2; Intr; Xfer 1; Xfer 3; Xfer 7; Fail 32] [Xfer 1; Xfer 9; Intr]
    [(TAG_READY, ""); (TAG_STARTED, ""); (TAG_ERROR, "pivot_root failed")]) as H.
  destruct (send_all _ _) as [r stream]. split; [exact Hr|]. apply H.
  repeat constructor; vm_compute; discriminate.
Defined.

(** ** What the runtime learns from init *)

Lemma lossy_go_valid fuel s :
  (String.length s <= fuel)%nat -> valid_utf8 s = true -> lossy_go fuel s = s.
Proof.
  revert s. induction fuel as [|f IH]; intros s Hl Hv; [by destruct s; cbn in *; [|lia]|].
  destruct s as [|a s]; [done|]. cbn [lossy_go str_is_empty seq_at valid_utf8 String.length] in *.
  destruct (bz a <? 0x80) eqn:E0; [cbn; rewrite IH by (done || lia); by destruct s|].
  destruct s as [|b s]; [done|]. cbn [String.length] in *.
  destruct (in_range 0xC2 0xDF a) eqn:E1.
  { apply andb_prop in Hv as [Hb Hv]. rewrite Hb.
    assert (in_range 0xC2 0xF4 a = true) as ->
      by (unfold in_range in *; bool_prop; apply andb_true_intro; split; apply Z.leb_le; lia).
    cbn [negb andb take_str drop_str]. rewrite IH by (done || lia). by destruct s. }
  destruct s as [|c s]; [done|]. cbn [String.length] in *.
  destruct (in_range 0xE0 0xEF a) eqn:E2.
  { apply andb_prop in Hv as [Hv1 Hv]. apply andb_prop in Hv1 as [Hb Hc]. rewrite Hb, Hc.
    assert (in_range 0xC2 0xF4 a = true) as ->
      by (unfold in_range in *; bool_prop; apply andb_true_intro; split; apply Z.leb_le; lia).
    cbn [negb andb take_str drop_str]. rewrite IH by (done || lia). by destruct s. }
  destruct s as [|d s]; [done|]. cbn [String.length] in *.
  apply andb_prop in Hv as [Hv1 Hv]. apply andb_prop in Hv1 as [Hv1 Hd]. apply andb_prop in Hv1 as [Hv1 Hc].
  apply andb_prop in Hv1 as [Ha Hb]. rewrite Hb, Hc, Hd.
  assert (in_range 0xC2 0xF4 a = true) as ->
    by (unfold in_range in *; bool_prop; apply andb_true_intro; split; apply Z.leb_le; lia).
  cbn [negb andb take_str drop_str]. rewrite IH by (done || lia). by destruct s.
Qed.

Lemma write_all_benign script buf s out :
  benign script -> write_all script buf = (Ok tt, s, out) -> out = buf.
Proof.
  intros Hb E. pose proof (write_all_spec script buf) as W. rewrite E in W.
  destruct W as [(rest & -> & Ho) _]. assert (rest = "") as -> by (by apply Ho). by rewrite app_nil_r.
Qed.

Lemma take_str_all n s : (String.length s <= n)%nat -> take_str n s = s.
Proof. revert s. induction n as [|n IH]; intros [|a s] H; cbn in *; try done; try lia. rewrite IH by lia. done. Qed.

(** A setup failure inside the container surfaces in the runtime as the
    error message init wrote, and the exit of the workload as the very code
    and signal, however the two frames were cut up on the way. *)
Theorem init_reports_arrive (ws rs : list answer) (want : ascii) (msg rest : string) (code signal : Z) :
  benign ws -> benign rs -> want <> TAG_ERROR ->
  valid_utf8 msg = true -> str_len msg <= MAX_PAYLOAD -> in_s 32 code -> in_s 32 signal ->
  (exists s' out, send_error ws msg = (Ok tt, s', out) /\
     exists s'', expect rs want (out +:+ rest) = (Err (Container msg), s'', rest)) /\
  (exists s' out, send_exit ws code signal = (Ok tt, s', out) /\
     exists s'' payload, expect rs TAG_EXIT (out +:+ rest) = (Ok payload, s'', rest) /\
       parse_exit payload = Some (code, signal)).
Proof.
  intros Hws Hrs Hw Hv Hl Hc Hs.
  assert (forall m, fits m -> exists s' out, send ws m.1 m.2 = (Ok tt, s', out) /\
    exists s'', recv rs (out +:+ rest) = (Ok (Some m), s'', rest)) as Hsend.
  { intros m Hm. rewrite send_fits by done. pose proof (write_all_spec ws (frame_of m)) as W.
    destruct (write_all ws (frame_of m)) as [[r s'] out] eqn:E. destruct W as [_ W].
    destruct (W Hws) as [-> _]. apply write_all_benign in E as ->; [|done].
    destruct (recv_complete rs m rest Hrs Hm) as (s'' & _ & E''). eauto 6. }
  split.
  - destruct (Hsend (TAG_ERROR, msg) Hl) as (s' & out & E & s'' & E'). exists s', out.
    unfold send_error. rewrite take_str_all by (unfold str_len, MAX_PAYLOAD in *; lia). split; [exact E|].
    exists s''. unfold expect. rewrite E'. destruct (ascii_dec TAG_ERROR want); [congruence|].
    destruct (ascii_dec TAG_ERROR TAG_ERROR); [|done]. unfold from_utf8_lossy. by rewrite lossy_go_valid.
  - set (p := le32 (wrap_u 32 code) +:+ le32 (wrap_u 32 signal)).
    destruct (Hsend (TAG_EXIT, p) ltac:(vm_compute; discriminate)) as (s' & out & E & s'' & E').
    exists s', out. split; [exact E|]. exists s'', p. unfold expect. rewrite E'. split; [done|].
    pose proof (le32_back (wrap_u 32 code) ltac:(by apply wrap_u_range)) as B1.
    pose proof (le32_back (wrap_u 32 signal) ltac:(by apply wrap_u_range)) as B2.
    unfold p, le32 in *. cbn [of_le String.append parse_exit] in *. rewrite B1, B2.
    assert (forall z, in_s 32 z -> wrap_s 32 (wrap_u 32 z) = z) as Hz; [|by rewrite !Hz].
    intros z Hz. rewrite <- (wrap_s_id 32 z) at 2 by (done || lia).
    unfold wrap_s, wrap_u. by rewrite Z.mod_mod.
Qed.

Lemma init_reports_arrive_witness :
  (exists s' out, send_error [Xfer 3; Intr] "pivot_root failed" = (Ok tt, s', out) /\
     exists s'', expect [Xfer 4] TAG_STARTED (out +:+ "tail") = (Err (Container "pivot_root failed"), s'', "tail")) /\
  (exists s' out, send_exit [Xfer 3; Intr] 7 (-1) = (Ok tt, s', out) /\
     exists s'' payload, expect [Xfer 4] TAG_EXIT (out +:+ "tail") = (Ok payload, s'', "tail") /\
       parse_exit payload = Some (7, -1)).
Proof.
  apply init_reports_arrive;
    [repeat constructor|repeat constructor|discriminate|reflexivity|vm_compute; discriminate
    |unfold in_s; lia|unfold in_s; lia].
Defined.
