(* ===== verification/Netlink.v ===== *)
(** * [src/sys/netlink.rs]: the [NETLINK_ROUTE] client

    A [Vec<u8>] is the list of its bytes, and native byte order is little
    endian, as on both supported architectures.  What the kernel answers is
    scripted: the error of each [send(2)], and a list of what each [recv(2)]
    gives.  An exhausted script is the five seconds of [SO_RCVTIMEO] passing.
    A call gives [None] where the code would panic. *)
From S2P Require Import Prelude RustStr Num Utf8 Error Net Ipc.

Module netlink.

(** ** Constants *)

Definition NLM_F_REQUEST : Z := 0x001.
Definition NLM_F_MULTI : Z := 0x002.
Definition NLM_F_ACK : Z := 0x004.
Definition NLM_F_DUMP : Z := 0x300.
Definition NLM_F_EXCL : Z := 0x200.
Definition NLM_F_CREATE : Z := 0x400.
Definition NLMSG_NOOP : Z := 1.
Definition NLMSG_ERROR : Z := 2.
Definition NLMSG_DONE : Z := 3.
Definition RTM_NEWLINK : Z := 16.
Definition RTM_DELLINK : Z := 17.
Definition RTM_GETLINK : Z := 18.
Definition RTM_NEWADDR : Z := 20.
Definition RTM_NEWROUTE : Z := 24.
Definition IFLA_IFNAME : Z := 3.
Definition IFLA_MTU : Z := 4.
Definition IFLA_MASTER : Z := 10.
Definition IFLA_LINKINFO : Z := 18.
Definition IFLA_NET_NS_PID : Z := 19.
Definition IFLA_STATS64 : Z := 23.
Definition IFLA_INFO_KIND : Z := 1.
Definition IFLA_INFO_DATA : Z := 2.
Definition VETH_INFO_PEER : Z := 1.
Definition IFA_ADDRESS : Z := 1.
Definition IFA_LOCAL : Z := 2.
Definition IFA_BROADCAST : Z := 4.
Definition RTA_DST : Z := 1.
Definition RTA_OIF : Z := 4.
Definition RTA_GATEWAY : Z := 5.
Definition IFF_UP : Z := 0x1.
Definition RT_TABLE_MAIN : Z := 254.
Definition RT_SCOPE_UNIVERSE : Z := 0.
Definition RT_SCOPE_LINK : Z := 253.
Definition RTPROT_BOOT : Z := 3.
Definition RTN_UNICAST : Z := 1.
Definition AF_UNSPEC : Z := 0.
Definition AF_INET : Z := 2.
Definition EINTR : Z := 4.
Definition EAGAIN : Z := 11.

(** ** Bytes *)

Abbreviation u16_bytes := (to_le_bytes 2).
Abbreviation u32_bytes := (to_le_bytes 4).

(** [str::as_bytes], and back. *)
Fixpoint as_bytes (s : string) : list Z :=
  match s with EmptyString => [] | String a s' => bz a :: as_bytes s' end.
Definition to_str (l : list Z) : string := foldr (fun b s => String (byte_of b) s) "" l.

(** [buf[off..off + v.len()].copy_from_slice(v)], with the range in bounds. *)
Definition patch (off : nat) (v buf : list Z) : list Z :=
  take off buf ++ v ++ drop (off + length v) buf.

(** An integer of [n] bytes at [off], in bounds. *)
Definition num_at (n : nat) (buf : list Z) (off : Z) : Z :=
  from_le_bytes (take n (drop (Z.to_nat off) buf)).

(** ** Family headers: the bytes of the [repr(C)] structs, which have no holes *)

Record IfInfoMsg := { ifi_family : Z; ifi_ty : Z; ifi_index : Z; ifi_flags : Z; ifi_change : Z }.
Definition IfInfoMsg_default : IfInfoMsg :=
  {| ifi_family := 0; ifi_ty := 0; ifi_index := 0; ifi_flags := 0; ifi_change := 0 |}.
Definition IfInfoMsg_bytes (v : IfInfoMsg) : list Z :=
  to_le_bytes 1 (ifi_family v) ++ [0] ++ u16_bytes (ifi_ty v) ++ u32_bytes (ifi_index v)
  ++ u32_bytes (ifi_flags v) ++ u32_bytes (ifi_change v).
Definition sizeof_IfInfoMsg : nat := 16.

(** [IfInfoMsg { index: index as i32, ..Default::default() }]. *)
Definition link_msg (index flags change : Z) : IfInfoMsg :=
  {| ifi_family := 0; ifi_ty := 0; ifi_index := as_i32 index; ifi_flags := flags;
     ifi_change := change |}.

Record IfAddrMsg :=
  { ifa_family : Z; ifa_prefixlen : Z; ifa_flags : Z; ifa_scope : Z; ifa_index : Z }.
Definition IfAddrMsg_bytes (v : IfAddrMsg) : list Z :=
  to_le_bytes 1 (ifa_family v) ++ to_le_bytes 1 (ifa_prefixlen v) ++ to_le_bytes 1 (ifa_flags v)
  ++ to_le_bytes 1 (ifa_scope v) ++ u32_bytes (ifa_index v).

Record RtMsg :=
  { rt_family : Z; rt_dst_len : Z; rt_src_len : Z; rt_tos : Z; rt_table : Z; rt_protocol : Z;
    rt_scope : Z; rt_ty : Z; rt_flags : Z }.
Definition RtMsg_bytes (v : RtMsg) : list Z :=
  to_le_bytes 1 (rt_family v) ++ to_le_bytes 1 (rt_dst_len v) ++ to_le_bytes 1 (rt_src_len v)
  ++ to_le_bytes 1 (rt_tos v) ++ to_le_bytes 1 (rt_table v) ++ to_le_bytes 1 (rt_protocol v)
  ++ to_le_bytes 1 (rt_scope v) ++ to_le_bytes 1 (rt_ty v) ++ u32_bytes (rt_flags v).

(** ** [MsgBuilder]: the state of a builder is its buffer *)

Definition nl_align (n : Z) : Z := Z.land (n + 3) (Z.lnot 3).

Definition MsgBuilder : Type := list Z.

(** [while buf.len() % 4 != 0 { buf.push(0) }]: three rounds are enough. *)
Fixpoint pad_go (fuel : nat) (buf : list Z) : list Z :=
  match fuel with
  | O => buf
  | S f => if (length buf `mod` 4 =? 0)%nat then buf else pad_go f (buf ++ [0])
  end.
Definition pad (buf : list Z) : list Z := pad_go 3 buf.

Definition new (ty flags : Z) : MsgBuilder :=
  patch 6 (u16_bytes flags) (patch 4 (u16_bytes ty) (replicate 16 0)).

Definition payload (m : MsgBuilder) (bytes : list Z) : MsgBuilder := pad (m ++ bytes).

Definition attr (m : MsgBuilder) (ty : Z) (data : list Z) : MsgBuilder :=
  let len := 4 + Z.of_nat (length data) in
  pad (m ++ u16_bytes (as_u16 len) ++ u16_bytes ty ++ data).

Definition attr_str (m : MsgBuilder) (ty : Z) (s : string) : MsgBuilder :=
  attr m ty (as_bytes s ++ [0]).

Definition attr_u32 (m : MsgBuilder) (ty v : Z) : MsgBuilder := attr m ty (u32_bytes v).

Definition begin_nested (m : MsgBuilder) (ty : Z) : nat * MsgBuilder :=
  (length m, m ++ u16_bytes 0 ++ u16_bytes ty).

Definition end_nested (m : MsgBuilder) (off : nat) : MsgBuilder :=
  patch off (u16_bytes (as_u16 (Z.of_nat (length m - off)))) m.

Definition finish (m : MsgBuilder) (seq : Z) : list Z :=
  patch 8 (u32_bytes seq) (patch 0 (u32_bytes (as_u32 (Z.of_nat (length m)))) m).

(** ** Attributes *)

Record Attr := { a_ty : Z; a_data : list Z }.

(** The loop of [parse_attrs]; each round consumes at least four bytes. *)
Fixpoint parse_attrs_go (fuel : nat) (buf : list Z) : list Attr :=
  match fuel with
  | O => []
  | S f =>
      if (length buf <? 4)%nat then []
      else
        let len := num_at 2 buf 0 in
        let ty := num_at 2 buf 2 in
        if (len <? 4) || (Z.of_nat (length buf) <? len) then []
        else
          let a := {| a_ty := ty; a_data := drop 4 (take (Z.to_nat len) buf) |} in
          let step := nl_align len in
          if Z.of_nat (length buf) <=? step then [a]
          else a :: parse_attrs_go f (drop (Z.to_nat step) buf)
  end.
Definition parse_attrs (buf : list Z) : list Attr := parse_attrs_go (length buf) buf.

(** ** The socket *)

Record Netlink := { fd : Z; seq : Z }.

(** What a [recv(2)] gives: an error, or a datagram. *)
Inductive rx := RxErr (errno : Z) | RxData (bytes : list Z).

(** The kernel's side: the answers it will give, the requests it got and the
    descriptors that are open. *)
Record Wire := {
  send_answers : list (option Z);
  incoming : list rx;
  sent : list (list Z);
  open_fds : list Z
}.

(** [close_fd]. *)
Definition close_fd (fd : Z) (w : Wire) : Wire :=
  if 0 <=? fd
  then {| send_answers := send_answers w; incoming := incoming w; sent := sent w;
          open_fds := filter (fun f => f <> fd) (open_fds w) |}
  else w.

(** [Netlink::open], given the answers of [socket(2)] and [bind(2)]. *)
Definition open (sock : Z + Z) (bind : option Z) (w : Wire) : result Netlink * Wire :=
  match sock with
  | inl e => (Err (Syscall "socket" e "AF_NETLINK"), w)
  | inr fd =>
      let w := {| send_answers := send_answers w; incoming := incoming w; sent := sent w;
                  open_fds := fd :: open_fds w |} in
      match bind with
      | Some e => (Err (Syscall "bind" e "netlink socket"), close_fd fd w)
      | None => (Ok {| fd := fd; seq := 1 |}, w)
      end
  end.

Definition BUF_LEN : nat := 32 * 1024.

(** How a pass over one datagram ends. *)
Inductive walked := Walked (done : bool) (replies : list (list Z)) | Rejected (e : Error) | Panicked.

Definition rejected (err : Z) : Error :=
  Syscall "netlink" (as_i32 (- err)) "kernel rejected the request".

(** The [while off + 16 <= total] loop of [send_recv]: each round advances by
    at least sixteen bytes.  The four bytes of an error code are read from the
    buffer whatever the length of the message, hence possibly outside it. *)
Fixpoint walk (fuel : nat) (seq : Z) (expect_dump : bool) (buf : list Z) (total off : Z)
    (done : bool) (replies : list (list Z)) : walked :=
  match fuel with
  | O => Walked done replies
  | S f =>
      if total <? off + 16 then Walked done replies
      else
        let len := num_at 4 buf off in
        let ty := num_at 2 buf (off + 4) in
        let flags := num_at 2 buf (off + 6) in
        let mseq := num_at 4 buf (off + 8) in
        if (len <? 16) || (total <? off + len) then Walked done replies
        else
          let off' := off + nl_align len in
          if negb (mseq =? seq) then walk f seq expect_dump buf total off' done replies
          else if ty =? NLMSG_ERROR then
            if Z.of_nat (length buf) <? off + 20 then Panicked
            else
              let err := as_i32 (num_at 4 buf (off + 16)) in
              if negb (err =? 0) then Rejected (rejected err)
              else walk f seq expect_dump buf total off' true replies
          else if ty =? NLMSG_DONE then walk f seq expect_dump buf total off' true replies
          else if ty =? NLMSG_NOOP then walk f seq expect_dump buf total off' done replies
          else
            let body := drop (Z.to_nat (off + 16)) (take (Z.to_nat (off + len)) buf) in
            let done' := if negb expect_dump && (Z.land flags NLM_F_MULTI =? 0) then true else done in
            walk f seq expect_dump buf total off' done' (replies ++ [body])
  end.

(** The receive loop: [buf] is reused, so it keeps what longer datagrams left
    behind.  Gives the outcome and the datagrams not yet read. *)
Fixpoint recv_loop (seq : Z) (expect_dump : bool) (buf : list Z) (replies : list (list Z))
    (script : list rx) : option (result (list (list Z))) * list rx :=
  match script with
  | [] => (Some (Err (Syscall "recv" EAGAIN "netlink reply")), [])
  | RxErr e :: s =>
      if e =? EINTR then recv_loop seq expect_dump buf replies s
      else (Some (Err (Syscall "recv" e "netlink reply")), s)
  | RxData d :: s =>
      let d := take BUF_LEN d in
      let buf := d ++ drop (length d) buf in
      let total := Z.of_nat (length d) in
      match walk (length d) seq expect_dump buf total 0 false replies with
      | Panicked => (None, s)
      | Rejected e => (Some (Err e), s)
      | Walked true rs => (Some (Ok rs), s)
      | Walked false rs => recv_loop seq expect_dump buf rs s
      end
  end.

(** A call on the socket. *)
Definition NlM (A : Type) : Type := Netlink -> Wire -> option (result A) * Netlink * Wire.

Definition send_recv (msg : MsgBuilder) (expect_dump : bool) : NlM (list (list Z)) := fun nl w =>
  let seq' := as_u32 (seq nl + 1) in
  let nl' := {| fd := fd nl; seq := seq' |} in
  let bytes := finish msg seq' in
  match default None (head (send_answers w)) with
  | Some e =>
      (Some (Err (Syscall "send" e "netlink request")), nl',
       {| send_answers := tail (send_answers w); incoming := incoming w; sent := sent w;
          open_fds := open_fds w |})
  | None =>
      let '(r, s) := recv_loop seq' expect_dump (replicate BUF_LEN 0) [] (incoming w) in
      (r, nl',
       {| send_answers := tail (send_answers w); incoming := s; sent := sent w ++ [bytes];
          open_fds := open_fds w |})
  end.

Definition request (msg : MsgBuilder) : NlM unit := fun nl w =>
  let '(r, nl', w') := send_recv msg false nl w in
  (match r with Some (Ok _) => Some (Ok tt) | Some (Err e) => Some (Err e) | None => None end,
   nl', w').

(** ** Links *)

(** [cstr]: a string with a NUL byte is refused. *)
Definition cstr (s : string) : result string :=
  if contains_char "000" s then Err (Config ("string contains a NUL byte: " +:+ debug_str s))
  else Ok s.

Section index.
  (** [if_nametoindex(3)]. *)
Variable if_nametoindex : string -> Z.

Definition link_index (name : string) : result (option Z) :=
  c ← cstr name;
  let idx := if_nametoindex c in
  Ok (if idx =? 0 then None else Some idx).

Definition link_index_required (name : string) : result Z :=
  o ← link_index name;
  ok_or (NotFound ("network interface " +:+ debug_str name)) o.
End index.

Definition CREATE_FLAGS : Z :=
  Z.lor NLM_F_REQUEST (Z.lor NLM_F_CREATE (Z.lor NLM_F_EXCL NLM_F_ACK)).

(** The message of [create_veth]. *)
Definition veth_msg (name peer : string) : MsgBuilder :=
  let m := new RTM_NEWLINK CREATE_FLAGS in
  let m := payload m (IfInfoMsg_bytes IfInfoMsg_default) in
  let m := attr_str m IFLA_IFNAME name in
  let '(li, m) := begin_nested m IFLA_LINKINFO in
  let m := attr_str m IFLA_INFO_KIND "veth" in
  let '(id, m) := begin_nested m IFLA_INFO_DATA in
  let '(pe, m) := begin_nested m VETH_INFO_PEER in
  let m := payload m (IfInfoMsg_bytes IfInfoMsg_default) in
  let m := attr_str m IFLA_IFNAME peer in
  let m := end_nested m pe in
  let m := end_nested m id in
  end_nested m li.

Definition create_veth (name peer : string) : NlM unit := request (veth_msg name peer).

Definition bridge_msg (name : string) : MsgBuilder :=
  let m := new RTM_NEWLINK CREATE_FLAGS in
  let m := payload m (IfInfoMsg_bytes IfInfoMsg_default) in
  let m := attr_str m IFLA_IFNAME name in
  let '(li, m) := begin_nested m IFLA_LINKINFO in
  let m := attr_str m IFLA_INFO_KIND "bridge" in
  end_nested m li.

Definition create_bridge (name : string) : NlM unit := request (bridge_msg name).

Definition ACK_FLAGS : Z := Z.lor NLM_F_REQUEST NLM_F_ACK.

Definition delete_link (index : Z) : NlM unit :=
  request (payload (new RTM_DELLINK ACK_FLAGS) (IfInfoMsg_bytes (link_msg index 0 0))).

Definition set_up (index : Z) : NlM unit :=
  request (payload (new RTM_NEWLINK ACK_FLAGS) (IfInfoMsg_bytes (link_msg index IFF_UP IFF_UP))).

Definition set_down (index : Z) : NlM unit :=
  request (payload (new RTM_NEWLINK ACK_FLAGS) (IfInfoMsg_bytes (link_msg index 0 IFF_UP))).

Definition set_mtu (index mtu : Z) : NlM unit :=
  let m := payload (new RTM_NEWLINK ACK_FLAGS) (IfInfoMsg_bytes (link_msg index 0 0)) in
  request (attr_u32 m IFLA_MTU mtu).

Definition set_master (index master : Z) : NlM unit :=
  let m := payload (new RTM_NEWLINK ACK_FLAGS) (IfInfoMsg_bytes (link_msg index 0 0)) in
  request (attr_u32 m IFLA_MASTER master).

Definition netns_msg (index pid : Z) (new_name : string) : MsgBuilder :=
  let m := payload (new RTM_NEWLINK ACK_FLAGS) (IfInfoMsg_bytes (link_msg index 0 0)) in
  let m := attr_u32 m IFLA_NET_NS_PID (as_u32 pid) in
  attr_str m IFLA_IFNAME new_name.

Definition move_to_netns_pid (index pid : Z) (new_name : string) : NlM unit :=
  request (netns_msg index pid new_name).

(** ** Addresses and routes *)

(** The broadcast address of [add_address]; [prefix] is at most 32, as
    [parse_cidr] ensures (a larger one overflows the shift). *)
Definition broadcast (addr : list Z) (prefix : Z) : list Z :=
  let mask := net.mask_of prefix in
  let base := Z.land (from_be_bytes addr) mask in
  to_be_bytes 4 (Z.lor base (as_u32 (Z.lnot mask))).

Definition address_msg (index : Z) (addr : list Z) (prefix : Z) : MsgBuilder :=
  let m := new RTM_NEWADDR CREATE_FLAGS in
  let m := payload m (IfAddrMsg_bytes
    {| ifa_family := as_u8 AF_INET; ifa_prefixlen := prefix; ifa_flags := 0;
       ifa_scope := RT_SCOPE_UNIVERSE; ifa_index := index |}) in
  let m := attr m IFA_LOCAL addr in
  let m := attr m IFA_ADDRESS addr in
  attr m IFA_BROADCAST (broadcast addr prefix).

Definition add_address (index : Z) (addr : list Z) (prefix : Z) : NlM unit :=
  request (address_msg index addr prefix).

Definition route_hdr (dst_len scope : Z) : RtMsg :=
  {| rt_family := as_u8 AF_INET; rt_dst_len := dst_len; rt_src_len := 0; rt_tos := 0;
     rt_table := RT_TABLE_MAIN; rt_protocol := RTPROT_BOOT; rt_scope := scope;
     rt_ty := RTN_UNICAST; rt_flags := 0 |}.

Definition default_route_msg (gw : list Z) (oif : Z) : MsgBuilder :=
  let m := payload (new RTM_NEWROUTE CREATE_FLAGS) (RtMsg_bytes (route_hdr 0 RT_SCOPE_UNIVERSE)) in
  let m := attr m RTA_GATEWAY gw in
  attr_u32 m RTA_OIF oif.

Definition add_default_route (gw : list Z) (oif : Z) : NlM unit :=
  request (default_route_msg gw oif).

Definition link_route_msg (dst : list Z) (prefix oif : Z) : MsgBuilder :=
  let m := payload (new RTM_NEWROUTE CREATE_FLAGS) (RtMsg_bytes (route_hdr prefix RT_SCOPE_LINK)) in
  let m := attr m RTA_DST dst in
  attr_u32 m RTA_OIF oif.

Definition add_link_route (dst : list Z) (prefix oif : Z) : NlM unit :=
  request (link_route_msg dst prefix oif).

(** ** Statistics *)

Record LinkStats := {
  ls_name : string;
  rx_packets : Z; tx_packets : Z; rx_bytes : Z; tx_bytes : Z;
  rx_errors : Z; tx_errors : Z; rx_dropped : Z; tx_dropped : Z
}.

(** The closure [g] of [LinkStats::from_bytes]. *)
Definition stat_at (d : list Z) (i : nat) : Z :=
  if (length d <? i * 8 + 8)%nat then 0 else num_at 8 d (Z.of_nat (i * 8)).

Definition from_bytes (name : string) (d : list Z) : LinkStats :=
  let g := stat_at d in
  {| ls_name := name; rx_packets := g 0%nat; tx_packets := g 1%nat; rx_bytes := g 2%nat;
     tx_bytes := g 3%nat; rx_errors := g 4%nat; tx_errors := g 5%nat; rx_dropped := g 6%nat;
     tx_dropped := g 7%nat |}.

Definition dump_msg : MsgBuilder :=
  payload (new RTM_GETLINK (Z.lor NLM_F_REQUEST NLM_F_DUMP))
    (IfInfoMsg_bytes {| ifi_family := as_u8 AF_UNSPEC; ifi_ty := 0; ifi_index := 0; ifi_flags := 0;
                        ifi_change := 0 |}).

(** [String::from_utf8_lossy(&d[..d.len().saturating_sub(1)])]. *)
Definition attr_name (d : list Z) : string := ipc.from_utf8_lossy (to_str (take (length d - 1) d)).

Definition find_attr (ty : Z) (attrs : list Attr) : option Attr :=
  snd <$> list_find (fun a => a_ty a = ty) attrs.

(** The [for r in replies] loop of [link_stats]. *)
Fixpoint stats_in (name : string) (replies : list (list Z)) : result LinkStats :=
  match replies with
  | [] => Err (NotFound ("interface " +:+ debug_str name))
  | r :: rs =>
      if (length r <? sizeof_IfInfoMsg)%nat then stats_in name rs
      else
        let attrs := parse_attrs (drop sizeof_IfInfoMsg r) in
        let this_name := default "" ((fun a => attr_name (a_data a)) <$> find_attr IFLA_IFNAME attrs) in
        if negb (bool_decide (this_name = name)) then stats_in name rs
        else match find_attr IFLA_STATS64 attrs with
             | Some s => Ok (from_bytes this_name (a_data s))
             | None => Ok {| ls_name := this_name; rx_packets := 0; tx_packets := 0; rx_bytes := 0;
                             tx_bytes := 0; rx_errors := 0; tx_errors := 0; rx_dropped := 0;
                             tx_dropped := 0 |}
             end
  end.

Definition link_stats (name : string) : NlM LinkStats := fun nl w =>
  let '(r, nl', w') := send_recv dump_msg true nl w in
  (match r with
   | Some (Ok replies) => Some (stats_in name replies)
   | Some (Err e) => Some (Err e)
   | None => None
   end, nl', w').

(** The loops of [list_links]. *)
Definition names_in (replies : list (list Z)) : list string :=
  r ← replies;
  if (length r <? sizeof_IfInfoMsg)%nat then []
  else (fun a => attr_name (a_data a)) <$>
         filter (fun a => a_ty a = IFLA_IFNAME) (parse_attrs (drop sizeof_IfInfoMsg r)).

Definition list_links : NlM (list string) := fun nl w =>
  let '(r, nl', w') := send_recv dump_msg true nl w in
  (match r with
   | Some (Ok replies) => Some (Ok (names_in replies))
   | Some (Err e) => Some (Err e)
   | None => None
   end, nl', w').

(** [Drop for Netlink]. *)
Definition drop_netlink (nl : Netlink) (w : Wire) : Wire := close_fd (fd nl) w.

End netlink.
