(* ===== verification/NetlinkFacts.v ===== *)
(** * Theorems about the netlink client: what a request says to the kernel, and
    that every answer is read, whatever else arrives on the socket *)
From S2P Require Import Prelude RustStr Num Utf8 Error Net Ipc IpcFacts Netlink.
Import netlink.

(** ** Alignment *)

Lemma nl_align_eq n : nl_align n = 4 * ((n + 3) `div` 4).
Proof.
  unfold nl_align. change 3 with (Z.ones 2) at 2. change 4 with (2 ^ 2).
  rewrite <- Z.ldiff_land, Z.ldiff_ones_r by lia.
  rewrite Z.shiftl_mul_pow2, Z.shiftr_div_pow2 by lia. lia.
Qed.

Lemma nl_align_bounds n : n <= nl_align n < n + 4.
Proof. rewrite nl_align_eq. pose proof (Z.div_mod (n + 3) 4). pose proof (Z.mod_pos_bound (n + 3) 4). lia. Qed.

Definition aligned (l : list Z) : Prop := (length l `mod` 4 = 0)%nat.

(** How many bytes are pushed. *)
Definition slack (n : nat) : nat := ((4 - n `mod` 4) `mod` 4)%nat.

Lemma pad_eq l : pad l = l ++ replicate (slack (length l)) 0.
Proof.
  unfold pad, slack. pose proof (Nat.mod_upper_bound (length l) 4 ltac:(lia)) as Hb.
  pose proof (Nat.div_mod_eq (length l) 4) as Hd.
  assert (forall k, ((length l + k) `mod` 4 = (length l `mod` 4 + k) `mod` 4)%nat) as Hk
    by (intros k; by rewrite Nat.Div0.add_mod_idemp_l).
  cbn [pad_go]. rewrite !length_app. cbn [length]. rewrite <- !Nat.add_assoc. cbn [Nat.add].
  rewrite (Hk 1%nat), (Hk 2%nat).
  destruct (length l `mod` 4)%nat as [|[|[|[|k]]]] eqn:E; [| | | |lia]; cbn;
    rewrite ?List.app_nil_r, <- ?List.app_assoc; done.
Qed.

Lemma slack_align n : Z.of_nat (n + slack n) = nl_align (Z.of_nat n).
Proof.
  rewrite nl_align_eq. unfold slack. rewrite Nat2Z.inj_add, !Nat2Z.inj_mod.
  rewrite Nat2Z.inj_sub by (pose proof (Nat.mod_upper_bound n 4); lia).
  rewrite Nat2Z.inj_mod. change (Z.of_nat 4) with 4. Z.to_euclidean_division_equations. lia.
Qed.

Lemma length_pad l : Z.of_nat (length (pad l)) = nl_align (Z.of_nat (length l)).
Proof. rewrite pad_eq, length_app, length_replicate. apply slack_align. Qed.

Lemma pad_aligned l : aligned (pad l).
Proof.
  unfold aligned. apply Nat2Z.inj. rewrite Nat2Z.inj_mod, length_pad, nl_align_eq.
  rewrite Z.mul_comm. apply Z_mod_mult.
Qed.

Lemma aligned_app a b : aligned a -> aligned b -> aligned (a ++ b).
Proof.
  unfold aligned. intros Ha Hb. rewrite length_app, <- Nat.Div0.add_mod_idemp_l, Ha. done.
Qed.

Lemma aligned_concat ls : Forall aligned ls -> aligned (concat ls).
Proof. induction 1; cbn; [done|]. by apply aligned_app. Qed.

Lemma pad_id l : aligned l -> pad l = l.
Proof. unfold aligned. intros H. rewrite pad_eq. unfold slack. rewrite H. apply List.app_nil_r. Qed.

(** Padding an aligned buffer extended by some bytes pads these bytes. *)
Lemma pad_app m l : aligned m -> pad (m ++ l) = m ++ pad l.
Proof.
  unfold aligned. intros Hm. rewrite !pad_eq, <- !List.app_assoc. unfold slack.
  by rewrite length_app, <- Nat.Div0.add_mod_idemp_l, Hm.
Qed.

(** ** Bytes at a place *)

Lemma num_at_mid n buf pre v rest off :
  buf = pre ++ to_le_bytes n v ++ rest -> off = Z.of_nat (length pre) ->
  0 <= v < 256 ^ Z.of_nat n -> num_at n buf off = v.
Proof.
  intros -> -> Hv. unfold num_at. rewrite Nat2Z.id, drop_app_length.
  rewrite take_app_le by (by rewrite length_to_le_bytes).
  rewrite take_ge by (by rewrite length_to_le_bytes).
  rewrite from_to_le_bytes. by apply Z.mod_small.
Qed.

Lemma patch_mid pre old v rest :
  length old = length v -> patch (length pre) v (pre ++ old ++ rest) = pre ++ v ++ rest.
Proof.
  intros Hl. unfold patch. rewrite take_app_length. do 2 f_equal.
  by rewrite <- Hl, <- length_app, List.app_assoc, drop_app_length.
Qed.

Lemma to_str_as_bytes s : to_str (as_bytes s) = s.
Proof.
  induction s as [|a s IH]; cbn; [done|]. f_equal; [|exact IH].
  unfold byte_of, bz. by rewrite N2Z.id, Ascii.ascii_N_embedding.
Qed.

Lemma length_as_bytes s : length (as_bytes s) = String.length s.
Proof. induction s as [|a s IH]; cbn; congruence. Qed.

(** ** Attributes *)

(** An attribute as the kernel's header files lay it out. *)
Definition enc_attr (a : Attr) : list Z :=
  pad (u16_bytes (4 + Z.of_nat (length (a_data a))) ++ u16_bytes (a_ty a) ++ a_data a).

Definition attr_ok (a : Attr) : Prop :=
  4 + Z.of_nat (length (a_data a)) < 65536 /\ in_u 16 (a_ty a).

Definition enc_attrs (l : list Attr) : list Z := concat (enc_attr <$> l).

Lemma length_enc_attr a : Z.of_nat (length (enc_attr a)) = nl_align (4 + Z.of_nat (length (a_data a))).
Proof.
  unfold enc_attr. rewrite length_pad, !length_app, !length_to_le_bytes. f_equal. lia.
Qed.

Lemma enc_attr_aligned a : aligned (enc_attr a).
Proof. apply pad_aligned. Qed.

Lemma enc_attrs_aligned l : aligned (enc_attrs l).
Proof. apply aligned_concat. apply Forall_fmap. apply Forall_true. intros a. apply enc_attr_aligned. Qed.

Lemma attr_enc m ty data :
  aligned m -> 4 + Z.of_nat (length data) < 65536 ->
  attr m ty data = m ++ enc_attr {| a_ty := ty; a_data := data |}.
Proof.
  intros Hm Hl. unfold attr, enc_attr. rewrite pad_app by done. cbn [a_ty a_data].
  rewrite (wrap_u_id 16); [done|]. unfold in_u. lia.
Qed.

(** Closing a nested attribute makes its contents its data. *)
Lemma nested_enc m ty c :
  aligned c -> 4 + Z.of_nat (length c) < 65536 ->
  end_nested (m ++ (u16_bytes 0 ++ u16_bytes ty) ++ c) (length m)
  = m ++ enc_attr {| a_ty := ty; a_data := c |}.
Proof.
  intros Hc Hl. unfold end_nested, enc_attr. cbn [a_ty a_data].
  rewrite <- (List.app_assoc (u16_bytes 0)), patch_mid by (by rewrite !length_to_le_bytes).
  rewrite !length_app, !length_to_le_bytes, (wrap_u_id 16) by (unfold in_u; lia).
  rewrite pad_id by (rewrite List.app_assoc; by apply aligned_app).
  do 3 f_equal. lia.
Qed.

Lemma enc_attr_split a rest :
  enc_attr a ++ rest
  = u16_bytes (4 + Z.of_nat (length (a_data a))) ++ u16_bytes (a_ty a) ++ a_data a
    ++ replicate (slack (4 + length (a_data a))) 0 ++ rest.
Proof.
  unfold enc_attr. rewrite pad_eq, <- !List.app_assoc, !length_app, !length_to_le_bytes. done.
Qed.

Lemma length_enc_attrs_cons a l :
  (length (enc_attrs (a :: l)) = length (enc_attr a) + length (enc_attrs l))%nat.
Proof. unfold enc_attrs. cbn. by rewrite length_app. Qed.

Lemma enc_attrs_nil_length l : (length (enc_attrs l) = 0)%nat -> l = [].
Proof.
  destruct l as [|a l]; [done|]. rewrite length_enc_attrs_cons.
  pose proof (length_enc_attr a). pose proof (nl_align_bounds (4 + Z.of_nat (length (a_data a)))). lia.
Qed.

Lemma parse_attrs_go_enc fuel l :
  Forall attr_ok l -> (length (enc_attrs l) <= fuel)%nat -> parse_attrs_go fuel (enc_attrs l) = l.
Proof.
  intros Hl. revert fuel. induction Hl as [|a l [Ha Ht] _ IH]; intros fuel Hf.
  { by destruct fuel. }
  rewrite length_enc_attrs_cons in Hf. set (n := length (a_data a)) in *.
  pose proof (length_enc_attr a) as He. fold n in He.
  pose proof (nl_align_bounds (4 + Z.of_nat n)) as Hb.
  destruct fuel as [|fuel]; [lia|]. cbn [parse_attrs_go].
  rewrite length_enc_attrs_cons.
  change (enc_attrs (a :: l)) with (enc_attr a ++ enc_attrs l).
  rewrite (proj2 (Nat.ltb_ge _ 4)) by lia.
  rewrite (num_at_mid 2 _ [] (4 + Z.of_nat n) _ 0 (enc_attr_split a _)) by (done || simpl; lia).
  rewrite (num_at_mid 2 _ (u16_bytes (4 + Z.of_nat n)) (a_ty a)
             (a_data a ++ replicate (slack (4 + n)) 0 ++ enc_attrs l) 2);
    [|by rewrite enc_attr_split, <- ?List.app_assoc|done|unfold in_u in Ht; simpl; lia].
  rewrite (proj2 (Z.ltb_ge _ 4)), (proj2 (Z.ltb_ge _ (4 + Z.of_nat n))) by lia. cbn [orb].
  assert (drop 4 (take (Z.to_nat (4 + Z.of_nat n)) (enc_attr a ++ enc_attrs l)) = a_data a) as ->.
  { rewrite enc_attr_split. replace (Z.to_nat (4 + Z.of_nat n)) with (4 + n)%nat by lia.
    change (take n (a_data a ++ replicate (slack (4 + n)) 0 ++ enc_attrs l) = a_data a).
    apply take_app_length. }
  assert (drop (Z.to_nat (nl_align (4 + Z.of_nat n))) (enc_attr a ++ enc_attrs l) = enc_attrs l) as ->.
  { rewrite <- He, Nat2Z.id. apply drop_app_length. }
  assert ({| a_ty := a_ty a; a_data := a_data a |} = a) as -> by (by destruct a).
  case_match; bool_prop.
  - rewrite (enc_attrs_nil_length l) by lia. done.
  - f_equal. apply IH. lia.
Qed.

(** A stream of attributes parses back, padding and all. *)
Lemma parse_attrs_enc l : Forall attr_ok l -> parse_attrs (enc_attrs l) = l.
Proof. intros H. by apply parse_attrs_go_enc. Qed.

(** ** Requests *)

(** What a request says: the four fields of its [nlmsghdr] (the port number is
    zero, for the kernel to fill in), its family header and its attributes. *)
Definition carries (b : list Z) (ty flags seq : Z) (hdr : list Z) (attrs : list Attr) : Prop :=
  num_at 4 b 0 = Z.of_nat (length b) /\ num_at 2 b 4 = ty /\ num_at 2 b 6 = flags /\
  num_at 4 b 8 = seq /\ num_at 4 b 12 = 0 /\ aligned b /\
  take (length hdr) (drop 16 b) = hdr /\ parse_attrs (drop (16 + length hdr) b) = attrs.

Lemma new_eq ty flags :
  new ty flags = u32_bytes 0 ++ u16_bytes ty ++ u16_bytes flags ++ u32_bytes 0 ++ u32_bytes 0.
Proof. done. Qed.

Lemma new_aligned ty flags : aligned (new ty flags).
Proof. done. Qed.

Lemma payload_enc m hdr : aligned m -> aligned hdr -> payload m hdr = m ++ hdr.
Proof. intros Hm Hh. unfold payload. by rewrite pad_app, pad_id. Qed.

Lemma finish_eq ty flags rest seq :
  finish (new ty flags ++ rest) seq
  = u32_bytes (as_u32 (16 + Z.of_nat (length rest))) ++ u16_bytes ty ++ u16_bytes flags
    ++ u32_bytes seq ++ u32_bytes 0 ++ rest.
Proof.
  unfold finish. rewrite length_app, Nat2Z.inj_add. reflexivity.
Qed.

(** Every request built from a header and attributes says just that. *)
Lemma carries_build ty flags seq hdr attrs :
  in_u 16 ty -> in_u 16 flags -> in_u 32 seq -> aligned hdr -> Forall attr_ok attrs ->
  16 + Z.of_nat (length hdr + length (enc_attrs attrs)) < 2 ^ 32 ->
  carries (finish (new ty flags ++ hdr ++ enc_attrs attrs) seq) ty flags seq hdr attrs.
Proof.
  intros Ht Hf Hs Hh Ha Hl. rewrite finish_eq.
  rewrite (wrap_u_id 32) by (unfold in_u; rewrite length_app; lia).
  set (len := 16 + _). unfold carries, in_u in *.
  assert (in_u 32 len) by (unfold len, in_u; rewrite length_app; lia). unfold in_u in *.
  rewrite !length_app, !length_to_le_bytes. split_and!.
  - transitivity len; [by apply (num_at_mid 4 _ [] len _ 0 eq_refl)|].
    unfold len. rewrite length_app. lia.
  - by apply (num_at_mid 2 _ (u32_bytes len) ty _ 4 eq_refl).
  - by apply (num_at_mid 2 _ (u32_bytes len ++ u16_bytes ty) flags
      (u32_bytes seq ++ u32_bytes 0 ++ hdr ++ enc_attrs attrs)).
  - by apply (num_at_mid 4 _ (u32_bytes len ++ u16_bytes ty ++ u16_bytes flags) seq
      (u32_bytes 0 ++ hdr ++ enc_attrs attrs)).
  - by apply (num_at_mid 4 _ (u32_bytes len ++ u16_bytes ty ++ u16_bytes flags ++ u32_bytes seq) 0
      (hdr ++ enc_attrs attrs)).
  - apply (aligned_app (u32_bytes len ++ u16_bytes ty ++ u16_bytes flags ++ u32_bytes seq ++ u32_bytes 0));
      [done|]. apply aligned_app; [done|]. apply enc_attrs_aligned.
  - change (take (length hdr) (hdr ++ enc_attrs attrs) = hdr). apply take_app_length.
  - change (parse_attrs (drop (length hdr) (hdr ++ enc_attrs attrs)) = attrs).
    rewrite drop_app_length. by apply parse_attrs_enc.
Qed.

(** *** The messages of the client *)

Lemma nested_head_aligned ty : aligned (u16_bytes 0 ++ u16_bytes ty).
Proof. done. Qed.

Lemma IfInfoMsg_aligned v : aligned (IfInfoMsg_bytes v).
Proof. done. Qed.

Lemma payload_aligned m hdr : aligned (payload m hdr).
Proof. apply pad_aligned. Qed.

Lemma attr_aligned m ty d : aligned (attr m ty d).
Proof. apply pad_aligned. Qed.

Lemma attr_str_aligned m ty s : aligned (attr_str m ty s).
Proof. apply pad_aligned. Qed.

#[export] Hint Resolve aligned_app enc_attr_aligned enc_attrs_aligned new_aligned
  nested_head_aligned IfInfoMsg_aligned payload_aligned attr_aligned attr_str_aligned : myrun.

Definition named (ty : Z) (s : string) : Attr := {| a_ty := ty; a_data := as_bytes s ++ [0] |}.
Definition group (ty : Z) (data : list Z) : Attr := {| a_ty := ty; a_data := data |}.
Definition u32_attr (ty v : Z) : Attr := {| a_ty := ty; a_data := u32_bytes v |}.

Lemma length_named ty s : Z.of_nat (length (a_data (named ty s))) = Z.of_nat (String.length s) + 1.
Proof. cbn. rewrite length_app, length_as_bytes. cbn. lia. Qed.

Lemma attr_str_enc m ty s :
  aligned m -> str_len s < 65000 -> attr_str m ty s = m ++ enc_attr (named ty s).
Proof.
  intros Hm Hs. apply attr_enc; [done|]. pose proof (length_named ty s) as H.
  unfold named, str_len in *. cbn [a_data] in H. lia.
Qed.

Lemma nested_step m ty c m' :
  m' = (m ++ u16_bytes 0 ++ u16_bytes ty) ++ c ->
  aligned c -> 4 + Z.of_nat (length c) < 65536 ->
  end_nested m' (length m) = m ++ enc_attr (group ty c).
Proof. intros -> Hc Hl. rewrite <- nested_enc by done. by rewrite <- !List.app_assoc. Qed.

Lemma named_ok ty s : in_u 16 ty -> str_len s < 65000 -> attr_ok (named ty s).
Proof. intros Ht Hs. split; [|done]. rewrite length_named. unfold str_len in *. lia. Qed.

Lemma group_ok ty c : in_u 16 ty -> 4 + Z.of_nat (length c) < 65536 -> attr_ok (group ty c).
Proof. done. Qed.

Lemma enc_attrs_one a : enc_attrs [a] = enc_attr a.
Proof. apply List.app_nil_r. Qed.

Lemma enc_attrs_two a b : enc_attrs [a; b] = enc_attr a ++ enc_attr b.
Proof. unfold enc_attrs. cbn. by rewrite List.app_nil_r. Qed.

Lemma length_enc_le a : (length (enc_attr a) <= length (a_data a) + 7)%nat.
Proof. pose proof (length_enc_attr a). pose proof (nl_align_bounds (4 + Z.of_nat (length (a_data a)))). lia. Qed.

(** The tree of attributes of [create_veth], from the inside. *)
Definition zero_link : list Z := IfInfoMsg_bytes IfInfoMsg_default.
Definition veth_peer (peer : string) : list Z := zero_link ++ enc_attrs [named IFLA_IFNAME peer].
Definition veth_data (peer : string) : list Z := enc_attrs [group VETH_INFO_PEER (veth_peer peer)].
Definition veth_info (peer : string) : list Z :=
  enc_attrs [named IFLA_INFO_KIND "veth"; group IFLA_INFO_DATA (veth_data peer)].

Lemma length_named_enc ty s : (length (enc_attr (named ty s)) <= String.length s + 8)%nat.
Proof. pose proof (length_enc_le (named ty s)). pose proof (length_named ty s). lia. Qed.

Lemma length_veth_peer peer : (length (veth_peer peer) <= String.length peer + 24)%nat.
Proof.
  unfold veth_peer. rewrite length_app, enc_attrs_one. pose proof (length_named_enc IFLA_IFNAME peer).
  change (length zero_link) with 16%nat. lia.
Qed.

Lemma length_veth_data peer : (length (veth_data peer) <= String.length peer + 31)%nat.
Proof.
  unfold veth_data. rewrite enc_attrs_one.
  pose proof (length_enc_le (group VETH_INFO_PEER (veth_peer peer))) as H. cbn [group a_data] in H.
  pose proof (length_veth_peer peer). lia.
Qed.

Lemma length_veth_info peer : (length (veth_info peer) <= String.length peer + 50)%nat.
Proof.
  unfold veth_info. rewrite enc_attrs_two, length_app.
  pose proof (length_named_enc IFLA_INFO_KIND "veth") as H1. cbn [String.length] in H1.
  pose proof (length_enc_le (group IFLA_INFO_DATA (veth_data peer))) as H. cbn [group a_data] in H.
  pose proof (length_veth_data peer). lia.
Qed.

Lemma veth_msg_eq name peer :
  str_len name < 65000 -> str_len peer < 65000 ->
  veth_msg name peer
  = new RTM_NEWLINK CREATE_FLAGS ++ zero_link
    ++ enc_attrs [named IFLA_IFNAME name; group IFLA_LINKINFO (veth_info peer)].
Proof.
  intros Hn Hp. unfold str_len in *. pose proof (length_veth_peer peer). pose proof (length_veth_data peer).
  pose proof (length_veth_info peer).
  unfold veth_msg, begin_nested. rewrite !payload_enc by auto with myrun.
  rewrite !attr_str_enc by first [by auto with myrun | unfold str_len; cbn; lia].
  set (m1 := (new _ _ ++ _) ++ enc_attr (named _ name)).
  set (m2 := (m1 ++ _) ++ enc_attr (named _ "veth")).
  set (m3 := m2 ++ _ ++ _).
  rewrite (nested_step m3 VETH_INFO_PEER (veth_peer peer)); [| |unfold veth_peer, zero_link; auto with myrun|lia].
  2: { unfold veth_peer. rewrite enc_attrs_one, <- !List.app_assoc. done. }
  rewrite (nested_step m2 IFLA_INFO_DATA (veth_data peer)); [| |unfold veth_data; auto with myrun|lia].
  2: { unfold veth_data. by rewrite enc_attrs_one. }
  rewrite (nested_step m1 IFLA_LINKINFO (veth_info peer)); [| |unfold veth_info; auto with myrun|lia].
  2: { unfold m2, veth_info. rewrite enc_attrs_two, <- !List.app_assoc. done. }
  unfold m1. rewrite enc_attrs_two, <- !List.app_assoc. done.
Qed.

Lemma attr_u32_enc m ty v : aligned m -> attr_u32 m ty v = m ++ enc_attr (u32_attr ty v).
Proof. intros Hm. unfold attr_u32. rewrite attr_enc; [done|done|]. by rewrite length_to_le_bytes. Qed.

Lemma bridge_msg_eq name :
  str_len name < 65000 ->
  bridge_msg name
  = new RTM_NEWLINK CREATE_FLAGS ++ zero_link
    ++ enc_attrs [named IFLA_IFNAME name; group IFLA_LINKINFO (enc_attrs [named IFLA_INFO_KIND "bridge"])].
Proof.
  intros Hn. unfold bridge_msg, begin_nested. rewrite !payload_enc by auto with myrun.
  rewrite !attr_str_enc by first [by auto with myrun | unfold str_len; cbn; lia].
  set (m1 := (new _ _ ++ _) ++ enc_attr (named _ name)).
  rewrite (nested_step m1 IFLA_LINKINFO (enc_attrs [named IFLA_INFO_KIND "bridge"]));
    [|by rewrite enc_attrs_one|auto with myrun|done].
  unfold m1. rewrite enc_attrs_two, <- !List.app_assoc. done.
Qed.

(** A call sends one request, which says the given things. *)
Definition sends {A} (op : NlM A) (ty flags : Z) (hdr : list Z) (attrs : list Attr) : Prop :=
  forall nl w, default None (head (send_answers w)) = None ->
  exists b, sent (op nl w).2 = sent w ++ [b] /\ seq (op nl w).1.2 = as_u32 (seq nl + 1) /\
    carries b ty flags (as_u32 (seq nl + 1)) hdr attrs.

Lemma send_recv_sent m dump nl w :
  default None (head (send_answers w)) = None ->
  sent (send_recv m dump nl w).2 = sent w ++ [finish m (as_u32 (seq nl + 1))] /\
  seq (send_recv m dump nl w).1.2 = as_u32 (seq nl + 1).
Proof. intros H. unfold send_recv. rewrite H. by destruct (recv_loop _ _ _ _ _). Qed.

Lemma request_sends m ty flags hdr attrs :
  m = new ty flags ++ hdr ++ enc_attrs attrs ->
  in_u 16 ty -> in_u 16 flags -> aligned hdr -> Forall attr_ok attrs ->
  16 + Z.of_nat (length hdr + length (enc_attrs attrs)) < 2 ^ 32 ->
  sends (request m) ty flags hdr attrs.
Proof.
  intros -> Ht Hf Hh Ha Hl nl w Hw. unfold request.
  destruct (send_recv_sent (new ty flags ++ hdr ++ enc_attrs attrs) false nl w Hw) as [Hs Hq].
  destruct (send_recv _ false nl w) as [[r nl'] w']. cbn in *. eexists. split_and!; [done..|].
  apply carries_build; try done. by apply wrap_u_range.
Qed.

Lemma mask_value prefix : 0 <= prefix <= 32 -> net.mask_of prefix = 2 ^ 32 - 2 ^ (32 - prefix).
Proof.
  intros Hp. assert (net.mask_of prefix = Z.land (2 ^ 32 - 1) (net.mask_of prefix)) as ->.
  { change (2 ^ 32 - 1) with (Z.ones 32). rewrite Z.land_comm, Z.land_ones by lia.
    unfold net.mask_of. destruct (prefix =? 0); [done|]. unfold wrap_u. by rewrite Z.mod_mod by lia. }
  rewrite net.land_mask by (done || unfold in_u; lia).
  replace (2 ^ 32 - 1) with ((2 ^ prefix - 1) * 2 ^ (32 - prefix) + (2 ^ (32 - prefix) - 1)) at 2.
  - assert (0 < 2 ^ (32 - prefix)) by (apply Z.pow_pos_nonneg; lia).
    rewrite Z.add_comm, Z_mod_plus_full, Z.mod_small by lia. lia.
  - replace 32 with (prefix + (32 - prefix)) at 3 by lia. rewrite Z.pow_add_r by lia. lia.
Qed.

(** The broadcast address is the last of the subnet. *)
Lemma broadcast_last addr prefix :
  net.is_addr addr -> 0 <= prefix <= 32 ->
  broadcast addr prefix = net.octets_of (net.net_base addr prefix + 2 ^ (32 - prefix) - 1).
Proof.
  intros Ha Hp. unfold broadcast, net.octets_of, net.net_base. f_equal.
  change (from_be_bytes addr) with (net.u32_of addr).
  pose proof (net.u32_of_range addr Ha) as Hr. rewrite net.land_mask, mask_value by done.
  set (h := 32 - prefix). assert (0 <= h <= 32) by lia.
  assert (0 < 2 ^ h) by (apply Z.pow_pos_nonneg; lia).
  assert (2 ^ h <= 2 ^ 32) by (apply Z.pow_le_mono_r; lia).
  assert (as_u32 (Z.lnot (2 ^ 32 - 2 ^ h)) = Z.ones h) as ->.
  { unfold wrap_u, Z.lnot. rewrite Z.ones_equiv.
    symmetry. apply (Z.mod_unique_pos _ _ (-1)); lia. }
  set (x := net.u32_of addr).
  assert (Z.land (x - x `mod` 2 ^ h) (Z.ones h) = 0) as Hl.
  { rewrite Z.land_ones by lia. replace (x - x `mod` 2 ^ h) with ((x `div` 2 ^ h) * 2 ^ h)
      by (pose proof (Z.div_mod x (2 ^ h)); lia). apply Z_mod_mult. }
  rewrite <- Z.lxor_lor, <- Z.add_nocarry_lxor, Z.ones_equiv by done. lia.
Qed.

(** The attributes of the other requests. *)
Lemma u32_attr_ok ty v : in_u 16 ty -> attr_ok (u32_attr ty v).
Proof. intros Ht. split; [|done]. cbn [u32_attr a_data]. by rewrite length_to_le_bytes. Qed.

Lemma addr_attr m ty a :
  aligned m -> net.is_addr a -> attr m ty a = m ++ enc_attr (group ty a).
Proof. intros Hm [Hl _]. apply attr_enc; [done|]. by rewrite Hl. Qed.

Lemma addr_ok ty a : in_u 16 ty -> net.is_addr a -> attr_ok (group ty a).
Proof. intros Ht [Hl _]. split; [|done]. cbn [group a_data]. by rewrite Hl. Qed.

Lemma length_enc_attrs_le l n :
  Forall (fun a => (length (a_data a) <= n)%nat) l -> (length (enc_attrs l) <= length l * (n + 7))%nat.
Proof.
  induction 1 as [|a l Ha _ IH]; [done|]. rewrite length_enc_attrs_cons. cbn [length].
  pose proof (length_enc_le a). lia.
Qed.

Lemma netns_msg_eq index pid name :
  str_len name < 65000 ->
  netns_msg index pid name
  = new RTM_NEWLINK ACK_FLAGS ++ IfInfoMsg_bytes (link_msg index 0 0)
    ++ enc_attrs [u32_attr IFLA_NET_NS_PID (as_u32 pid); named IFLA_IFNAME name].
Proof.
  intros Hn. unfold netns_msg. rewrite attr_str_enc by (done || apply attr_aligned).
  rewrite attr_u32_enc, payload_enc by auto with myrun. by rewrite enc_attrs_two, <- !List.app_assoc.
Qed.

Definition addr_hdr (index prefix : Z) : list Z :=
  IfAddrMsg_bytes {| ifa_family := as_u8 AF_INET; ifa_prefixlen := prefix; ifa_flags := 0;
                     ifa_scope := RT_SCOPE_UNIVERSE; ifa_index := index |}.

Lemma address_msg_eq index addr prefix :
  net.is_addr addr -> 0 <= prefix <= 32 ->
  address_msg index addr prefix
  = new RTM_NEWADDR CREATE_FLAGS ++ addr_hdr index prefix
    ++ enc_attrs [group IFA_LOCAL addr; group IFA_ADDRESS addr;
        group IFA_BROADCAST (net.octets_of (net.net_base addr prefix + 2 ^ (32 - prefix) - 1))].
Proof.
  intros Ha Hp. unfold address_msg. rewrite broadcast_last by done. fold (addr_hdr index prefix).
  rewrite !addr_attr by (auto with myrun; apply net.octets_addr). rewrite payload_enc by done.
  unfold enc_attrs. cbn [fmap list_fmap concat]. by rewrite List.app_nil_r, <- !List.app_assoc.
Qed.

Lemma route_msg_eq ty hdr a oif :
  net.is_addr a -> aligned hdr ->
  attr_u32 (attr (payload (new RTM_NEWROUTE CREATE_FLAGS) hdr) ty a) RTA_OIF oif
  = new RTM_NEWROUTE CREATE_FLAGS ++ hdr ++ enc_attrs [group ty a; u32_attr RTA_OIF oif].
Proof.
  intros Ha Hh. rewrite attr_u32_enc, addr_attr, payload_enc by auto with myrun.
  by rewrite enc_attrs_two, <- !List.app_assoc.
Qed.

(** Splits the attributes of a message. *)
Ltac attrs_ok :=
  repeat apply Forall_cons_2; try apply Forall_nil_2;
  try first [by apply named_ok | by apply u32_attr_ok | by apply addr_ok].

Lemma veth_request name peer :
  str_len name < 65000 -> str_len peer < 65000 ->
  sends (create_veth name peer) RTM_NEWLINK CREATE_FLAGS zero_link
    [named IFLA_IFNAME name; group IFLA_LINKINFO (veth_info peer)].
Proof.
  intros Hn Hp. pose proof (length_veth_info peer). pose proof (length_named_enc IFLA_IFNAME name).
  pose proof (length_enc_le (group IFLA_LINKINFO (veth_info peer))) as He. cbn [group a_data] in He.
  apply request_sends; [by apply veth_msg_eq|done..| |]; unfold str_len in *.
  - attrs_ok. apply group_ok; [done|]. lia.
  - rewrite enc_attrs_two, length_app. change (length zero_link) with 16%nat. lia.
Qed.

Lemma veth_info_nested peer :
  str_len peer < 65000 ->
  parse_attrs (veth_info peer)
  = [named IFLA_INFO_KIND "veth"; group IFLA_INFO_DATA (veth_data peer)] /\
  parse_attrs (veth_data peer) = [group VETH_INFO_PEER (veth_peer peer)] /\
  take 16 (veth_peer peer) = zero_link /\
  parse_attrs (drop 16 (veth_peer peer)) = [named IFLA_IFNAME peer].
Proof.
  intros Hp. pose proof (length_veth_peer peer). pose proof (length_veth_data peer).
  unfold str_len in *. split_and!.
  - apply parse_attrs_enc. attrs_ok. apply group_ok; [done|]. lia.
  - apply parse_attrs_enc. attrs_ok. apply group_ok; [done|]. lia.
  - apply (take_app_length zero_link).
  - change (parse_attrs (enc_attrs [named IFLA_IFNAME peer]) = [named IFLA_IFNAME peer]).
    apply parse_attrs_enc. attrs_ok.
Qed.

Lemma bridge_request name :
  str_len name < 65000 ->
  sends (create_bridge name) RTM_NEWLINK CREATE_FLAGS zero_link
    [named IFLA_IFNAME name; group IFLA_LINKINFO (enc_attrs [named IFLA_INFO_KIND "bridge"])].
Proof.
  intros Hn. pose proof (length_named_enc IFLA_IFNAME name).
  apply request_sends; [by apply bridge_msg_eq|done..| |]; unfold str_len in *.
  - attrs_ok. done.
  - rewrite enc_attrs_two, length_app. change (length zero_link) with 16%nat.
    change (length (enc_attr (group _ _))) with 16%nat. lia.
Qed.

Lemma netns_request index pid name :
  str_len name < 65000 ->
  sends (move_to_netns_pid index pid name) RTM_NEWLINK ACK_FLAGS
    (IfInfoMsg_bytes (link_msg index 0 0))
    [u32_attr IFLA_NET_NS_PID (as_u32 pid); named IFLA_IFNAME name].
Proof.
  intros Hn. pose proof (length_named_enc IFLA_IFNAME name).
  apply request_sends; [by apply netns_msg_eq|done..|attrs_ok|]. unfold str_len in *.
  rewrite enc_attrs_two, length_app. change (length (enc_attr (u32_attr _ _))) with 8%nat.
  change (length (IfInfoMsg_bytes _)) with 16%nat. lia.
Qed.

Lemma short_attrs (l : list Attr) (hdr : list Z) :
  (length l <= 3)%nat -> (length hdr <= 16)%nat -> Forall (fun a => length (a_data a) = 4%nat) l ->
  16 + Z.of_nat (length hdr + length (enc_attrs l)) < 2 ^ 32.
Proof.
  intros Hl Hh HF. pose proof (length_enc_attrs_le l 4) as H.
  assert (length (enc_attrs l) <= length l * (4 + 7))%nat; [|nia].
  apply H. apply (Forall_impl _ _ _ HF). intros a ->. done.
Qed.

Lemma address_request index a prefix :
  net.is_addr a -> 0 <= prefix <= 32 ->
  sends (add_address index a prefix) RTM_NEWADDR CREATE_FLAGS (addr_hdr index prefix)
    [group IFA_LOCAL a; group IFA_ADDRESS a;
     group IFA_BROADCAST (net.octets_of (net.net_base a prefix + 2 ^ (32 - prefix) - 1))].
Proof.
  intros Ha Hx. apply request_sends; [by apply address_msg_eq|done..| |].
  - attrs_ok. by apply addr_ok, net.octets_addr.
  - apply short_attrs; [done|by apply Nat.leb_le|]. destruct Ha. by repeat constructor.
Qed.

Lemma route_request ty hdr a oif :
  in_u 16 ty -> net.is_addr a -> aligned hdr -> (length hdr <= 16)%nat ->
  sends (request (attr_u32 (attr (payload (new RTM_NEWROUTE CREATE_FLAGS) hdr) ty a) RTA_OIF oif))
    RTM_NEWROUTE CREATE_FLAGS hdr [group ty a; u32_attr RTA_OIF oif].
Proof.
  intros Ht Ha Hh Hl. apply request_sends; [by apply route_msg_eq|done..| |].
  - attrs_ok.
  - apply short_attrs; [by apply Nat.leb_le|done|]. destruct Ha. by repeat constructor.
Qed.

(** C25: the requests say what the calls mean.  [create_veth] asks for a new
    link of kind [veth] with both names, the peer's in the doubly nested peer
    attribute behind its own link header; [create_bridge] for one of kind
    [bridge]; [move_to_netns_pid] gives the process and the new name;
    [add_address] the address and the last address of its subnet as broadcast
    address; the routes their gateway or destination and the outgoing
    interface.  Lengths and alignment are right at every level, and each
    request has a fresh sequence number. *)
Theorem requests_decode name peer index pid a prefix oif :
  str_len name < 65000 -> str_len peer < 65000 -> net.is_addr a -> 0 <= prefix <= 32 ->
  (sends (create_veth name peer) RTM_NEWLINK CREATE_FLAGS zero_link
     [named IFLA_IFNAME name; group IFLA_LINKINFO (veth_info peer)] /\
   parse_attrs (veth_info peer)
   = [named IFLA_INFO_KIND "veth"; group IFLA_INFO_DATA (veth_data peer)] /\
   parse_attrs (veth_data peer) = [group VETH_INFO_PEER (veth_peer peer)] /\
   take 16 (veth_peer peer) = zero_link /\
   parse_attrs (drop 16 (veth_peer peer)) = [named IFLA_IFNAME peer]) /\
  (exists info, sends (create_bridge name) RTM_NEWLINK CREATE_FLAGS zero_link
     [named IFLA_IFNAME name; group IFLA_LINKINFO info] /\
   parse_attrs info = [named IFLA_INFO_KIND "bridge"]) /\
  sends (move_to_netns_pid index pid name) RTM_NEWLINK ACK_FLAGS
    (IfInfoMsg_bytes (link_msg index 0 0))
    [u32_attr IFLA_NET_NS_PID (as_u32 pid); named IFLA_IFNAME name] /\
  sends (add_address index a prefix) RTM_NEWADDR CREATE_FLAGS (addr_hdr index prefix)
    [group IFA_LOCAL a; group IFA_ADDRESS a;
     group IFA_BROADCAST (net.octets_of (net.net_base a prefix + 2 ^ (32 - prefix) - 1))] /\
  sends (add_default_route a oif) RTM_NEWROUTE CREATE_FLAGS
    (RtMsg_bytes (route_hdr 0 RT_SCOPE_UNIVERSE)) [group RTA_GATEWAY a; u32_attr RTA_OIF oif] /\
  sends (add_link_route a prefix oif) RTM_NEWROUTE CREATE_FLAGS
    (RtMsg_bytes (route_hdr prefix RT_SCOPE_LINK)) [group RTA_DST a; u32_attr RTA_OIF oif].
Proof.
  intros Hn Hp Ha Hx. split; [split|split_and!].
  - by apply veth_request.
  - by apply veth_info_nested.
  - eexists. split; [by apply bridge_request|]. apply parse_attrs_enc. attrs_ok.
  - by apply netns_request.
  - by apply address_request.
  - unfold add_default_route, default_route_msg. apply route_request; [done..|by apply Nat.leb_le].
  - unfold add_link_route, link_route_msg. apply route_request; [done..|by apply Nat.leb_le].
Qed.

Lemma requests_decode_witness :
  exists b,
    sent (create_veth "myv01" "myp01" {| fd := 3; seq := 1 |}
      {| send_answers := []; incoming := []; sent := []; open_fds := [3] |}).2 = [b] /\
    carries b RTM_NEWLINK CREATE_FLAGS 2 zero_link
      [named IFLA_IFNAME "myv01"; group IFLA_LINKINFO (veth_info "myp01")].
Proof.
  destruct (requests_decode "myv01" "myp01" 7 42 [10; 87; 0; 5] 24 3) as [[H _] _];
    [done|done|by apply (bool_decide_eq_true_1 (net.is_addr _)); vm_compute|done|].
  destruct (H {| fd := 3; seq := 1 |}
    {| send_answers := []; incoming := []; sent := []; open_fds := [3] |} eq_refl) as (b & Hb & _ & Hc).
  exists b. split; [exact Hb|exact Hc].
Defined.

(** ** Answers *)

(** A message of the kernel. *)
Record nlmsg := { m_ty : Z; m_flags : Z; m_seq : Z; m_pid : Z; m_body : list Z }.

Definition msg_len (m : nlmsg) : Z := 16 + Z.of_nat (length (m_body m)).

Definition msg_ok (m : nlmsg) : Prop :=
  in_u 16 (m_ty m) /\ in_u 16 (m_flags m) /\ in_u 32 (m_seq m) /\ msg_len m < 2 ^ 32 /\
  (m_ty m = NLMSG_ERROR -> (4 <= length (m_body m))%nat).

Definition msg_head (m : nlmsg) : list Z :=
  u32_bytes (msg_len m) ++ u16_bytes (m_ty m) ++ u16_bytes (m_flags m) ++ u32_bytes (m_seq m)
  ++ u32_bytes (m_pid m).

Definition enc_msg (m : nlmsg) : list Z := pad (msg_head m ++ m_body m).
Definition enc_msgs (ms : list nlmsg) : list Z := concat (enc_msg <$> ms).

(** What an error message reports; zero is an acknowledgement. *)
Definition err_of (m : nlmsg) : Z := as_i32 (from_le_bytes (take 4 (m_body m))).

(** What is made of messages: done or not, and the replies so far. *)
Fixpoint handle (seq : Z) (dump : bool) (ms : list nlmsg) (done : bool) (replies : list (list Z))
    : result (bool * list (list Z)) :=
  match ms with
  | [] => Ok (done, replies)
  | m :: ms =>
      if negb (m_seq m =? seq) then handle seq dump ms done replies
      else if m_ty m =? NLMSG_ERROR then
        if err_of m =? 0 then handle seq dump ms true replies else Err (rejected (err_of m))
      else if m_ty m =? NLMSG_DONE then handle seq dump ms true replies
      else if m_ty m =? NLMSG_NOOP then handle seq dump ms done replies
      else handle seq dump ms
             (if negb dump && (Z.land (m_flags m) NLM_F_MULTI =? 0) then true else done)
             (replies ++ [m_body m])
  end.

Definition walked_of (r : result (bool * list (list Z))) : walked :=
  match r with Ok (d, rs) => Walked d rs | Err e => Rejected e end.

Lemma length_head m : length (msg_head m) = 16%nat.
Proof. done. Qed.

Lemma length_enc_msg m : Z.of_nat (length (enc_msg m)) = nl_align (msg_len m).
Proof. unfold enc_msg, msg_len. rewrite length_pad, length_app, length_head. f_equal. lia. Qed.

Lemma enc_msg_split m rest :
  exists fill, enc_msg m ++ rest = msg_head m ++ m_body m ++ fill ++ rest.
Proof. unfold enc_msg. rewrite pad_eq, <- !List.app_assoc. eauto. Qed.

(** The fields of a message in the middle of a buffer. *)
Lemma fields_at pre m rest buf :
  msg_ok m -> buf = pre ++ enc_msg m ++ rest ->
  let off := Z.of_nat (length pre) in
  num_at 4 buf off = msg_len m /\ num_at 2 buf (off + 4) = m_ty m /\
  num_at 2 buf (off + 6) = m_flags m /\ num_at 4 buf (off + 8) = m_seq m.
Proof.
  intros (Ht & Hf & Hs & Hl & _) -> off. destruct (enc_msg_split m rest) as [fill ->].
  unfold msg_head. rewrite <- !List.app_assoc. set (tl := u32_bytes (m_pid m) ++ _).
  split_and!.
  - apply (num_at_mid 4 _ pre (msg_len m) _ _ eq_refl); [done|].
    change (256 ^ Z.of_nat 4) with (2 ^ 32). unfold msg_len in *. lia.
  - by apply (num_at_mid 2 _ (pre ++ u32_bytes (msg_len m)) (m_ty m)
      (u16_bytes (m_flags m) ++ u32_bytes (m_seq m) ++ tl));
      [rewrite <- !List.app_assoc|rewrite !length_app, !length_to_le_bytes; lia|].
  - by apply (num_at_mid 2 _ (pre ++ u32_bytes (msg_len m) ++ u16_bytes (m_ty m)) (m_flags m)
      (u32_bytes (m_seq m) ++ tl));
      [rewrite <- !List.app_assoc|rewrite !length_app, !length_to_le_bytes; lia|].
  - by apply (num_at_mid 4 _ (pre ++ u32_bytes (msg_len m) ++ u16_bytes (m_ty m)
      ++ u16_bytes (m_flags m)) (m_seq m) tl);
      [rewrite <- !List.app_assoc|rewrite !length_app, !length_to_le_bytes; lia|].
Qed.

Lemma body_at pre m rest buf :
  buf = pre ++ enc_msg m ++ rest ->
  let off := Z.of_nat (length pre) in
  drop (Z.to_nat (off + 16)) (take (Z.to_nat (off + msg_len m)) buf) = m_body m /\
  ((4 <= length (m_body m))%nat ->
   as_i32 (num_at 4 buf (off + 16)) = err_of m /\ off + 20 <= Z.of_nat (length buf)).
Proof.
  intros -> off. destruct (enc_msg_split m rest) as [fill ->].
  assert (Z.to_nat (off + 16) = length (pre ++ msg_head m)) as E16
    by (rewrite length_app, length_head; lia).
  assert (Z.to_nat (off + msg_len m) = length (pre ++ msg_head m ++ m_body m)) as El
    by (rewrite !length_app, length_head; unfold msg_len; lia).
  split.
  - rewrite E16, El.
    replace (pre ++ msg_head m ++ m_body m ++ fill ++ rest)
      with ((pre ++ msg_head m ++ m_body m) ++ fill ++ rest) by (by rewrite <- !List.app_assoc).
    by rewrite take_app_length, List.app_assoc, drop_app_length.
  - intros H4. split.
    + unfold num_at, err_of. rewrite E16, List.app_assoc, drop_app_length.
      by rewrite take_app_le.
    + rewrite !length_app, length_head. lia.
Qed.

Lemma length_enc_msgs_cons m ms :
  (length (enc_msgs (m :: ms)) = length (enc_msg m) + length (enc_msgs ms))%nat.
Proof. unfold enc_msgs. cbn. by rewrite length_app. Qed.

Lemma enc_msg_long m : 16 <= Z.of_nat (length (enc_msg m)).
Proof. rewrite length_enc_msg. pose proof (nl_align_bounds (msg_len m)). unfold msg_len in *. lia. Qed.

(** The loop over a datagram does with the bytes what [handle] does with the
    messages. *)
Lemma walk_handle seq dump ms : forall fuel pre rest done replies,
  Forall msg_ok ms -> (length ms <= fuel)%nat ->
  walk fuel seq dump (pre ++ enc_msgs ms ++ rest)
    (Z.of_nat (length pre + length (enc_msgs ms))) (Z.of_nat (length pre)) done replies
  = walked_of (handle seq dump ms done replies).
Proof.
  induction ms as [|m ms IH]; intros fuel pre rest done replies Hok Hf.
  { destruct fuel; [done|]. cbn [walk handle]. rewrite (proj2 (Z.ltb_lt _ _)); [done|].
    unfold enc_msgs. cbn. lia. }
  apply Forall_cons in Hok as [Hm Hok]. destruct fuel as [|fuel]; [cbn in Hf; lia|].
  cbn [length] in Hf. apply le_S_n in Hf.
  rewrite length_enc_msgs_cons. change (enc_msgs (m :: ms)) with (enc_msg m ++ enc_msgs ms).
  rewrite <- List.app_assoc. set (buf := pre ++ _).
  pose proof (fields_at pre m (enc_msgs ms ++ rest) buf Hm eq_refl) as (El & Et & Ef & Es).
  pose proof (body_at pre m (enc_msgs ms ++ rest) buf eq_refl) as [Eb Ee].
  pose proof (enc_msg_long m) as Hlong. pose proof (length_enc_msg m) as Hlen.
  pose proof (nl_align_bounds (msg_len m)) as Hal.
  assert (16 <= msg_len m) as Hml by (unfold msg_len; lia).
  cbn [walk handle]. rewrite El, Et, Ef, Es.
  rewrite (proj2 (Z.ltb_ge _ _)) by lia.
  rewrite (proj2 (Z.ltb_ge (msg_len m) 16)), (proj2 (Z.ltb_ge _ (_ + msg_len m))) by lia. cbn [orb].
  (* the next message *)
  specialize (IH fuel (pre ++ enc_msg m) rest).
  assert (forall d r, walk fuel seq dump buf (Z.of_nat (length pre + (length (enc_msg m) + length (enc_msgs ms))))
            (Z.of_nat (length pre) + nl_align (msg_len m)) d r
          = walked_of (handle seq dump ms d r)) as Hnext.
  { intros d r. rewrite <- (IH d r) by done. unfold buf.
    rewrite !length_app, <- !List.app_assoc. f_equal; lia. }
  destruct (negb (m_seq m =? seq)); [apply Hnext|].
  destruct (m_ty m =? NLMSG_ERROR) eqn:E; bool_prop.
  - destruct Hm as (_ & _ & _ & _ & H4). destruct (Ee (H4 E)) as [-> Hbuf].
    rewrite (proj2 (Z.ltb_ge _ _)) by lia. destruct (err_of m =? 0); [apply Hnext|done].
  - destruct (m_ty m =? NLMSG_DONE); [apply Hnext|].
    destruct (m_ty m =? NLMSG_NOOP); [apply Hnext|]. rewrite Eb. apply Hnext.
Qed.

(** What arrives on the socket. *)
Inductive event := Interrupted | Datagram (ms : list nlmsg).

Definition enc_event (e : event) : rx :=
  match e with Interrupted => RxErr EINTR | Datagram ms => RxData (enc_msgs ms) end.

Definition msgs_of (e : event) : list nlmsg :=
  match e with Interrupted => [] | Datagram ms => ms end.

(** A datagram of whole messages that fits the buffer. *)
Definition event_ok (e : event) : Prop :=
  Forall msg_ok (msgs_of e) /\ (length (enc_msgs (msgs_of e)) <= BUF_LEN)%nat.

Fixpoint converse (seq : Z) (dump : bool) (evs : list event) (replies : list (list Z))
    : result (list (list Z)) :=
  match evs with
  | [] => Err (Syscall "recv" EAGAIN "netlink reply")
  | Interrupted :: evs => converse seq dump evs replies
  | Datagram ms :: evs =>
      match handle seq dump ms false replies with
      | Err e => Err e
      | Ok (true, rs) => Ok rs
      | Ok (false, rs) => converse seq dump evs rs
      end
  end.

Lemma length_msgs_le ms : (length ms <= length (enc_msgs ms))%nat.
Proof.
  induction ms as [|m ms IH]; [done|]. rewrite length_enc_msgs_cons. cbn [length].
  pose proof (enc_msg_long m). lia.
Qed.

Lemma recv_converse seq dump evs : forall buf replies,
  Forall event_ok evs ->
  (recv_loop seq dump buf replies (enc_event <$> evs)).1 = Some (converse seq dump evs replies).
Proof.
  induction evs as [|e evs IH]; intros buf replies Hok; [done|].
  apply Forall_cons in Hok as [[Hm Hl] Hok]. destruct e as [|ms]; cbn [msgs_of] in *.
  - cbn. by apply IH.
  - cbn [fmap list_fmap enc_event recv_loop converse]. rewrite (take_ge (enc_msgs ms)) by done.
    pose proof (walk_handle seq dump ms (length (enc_msgs ms)) [] (drop (length (enc_msgs ms)) buf)
      false replies Hm (length_msgs_le ms)) as Hw.
    cbn [length Nat.add app] in Hw. change (Z.of_nat 0) with 0 in Hw. rewrite Hw.
    destruct (handle seq dump ms false replies) as [[[|] rs]|e]; [done| |done]. by apply IH.
Qed.

(** *** What answers a request *)

(** The messages that bear the request's number. *)
Definition answers (seq : Z) (evs : list event) : list nlmsg :=
  filter (fun m => m_seq m = seq) (evs ≫= msgs_of).

(** A message with contents. *)
Definition is_reply (m : nlmsg) : Prop := m_ty m ∉ [NLMSG_NOOP; NLMSG_ERROR; NLMSG_DONE].

(** Messages with other numbers change nothing. *)
Lemma handle_filter seq dump ms : forall d r,
  handle seq dump ms d r = handle seq dump (filter (fun m => m_seq m = seq) ms) d r.
Proof.
  induction ms as [|m ms IH]; intros d r; [done|]. rewrite filter_cons.
  destruct (decide (m_seq m = seq)) as [E|E]; cbn [handle].
  - by rewrite !IH.
  - by rewrite (proj2 (Z.eqb_neq _ _) E), IH.
Qed.

Lemma handle_replies seq ms : forall rest d r,
  Forall is_reply ms -> Forall (fun m => m_seq m = seq) ms ->
  handle seq true (ms ++ rest) d r = handle seq true rest d (r ++ (m_body <$> ms)).
Proof.
  induction ms as [|m ms IH]; intros rest d r Hr Hs; [cbn; by rewrite List.app_nil_r|].
  apply Forall_cons in Hr as [Hm Hr], Hs as [Es Hs]. unfold is_reply in Hm.
  rewrite !not_elem_of_cons in Hm. destruct Hm as (Hn & He & Hd & _).
  cbn [handle app fmap list_fmap]. rewrite Es, Z.eqb_refl. cbn [negb].
  rewrite !(proj2 (Z.eqb_neq _ _)) by done. cbn [negb andb].
  rewrite IH by done. by rewrite <- List.app_assoc.
Qed.

Lemma answers_seq seq evs : Forall (fun m => m_seq m = seq) (answers seq evs).
Proof. apply Forall_forall. by intros m [? _]%list_elem_of_filter. Qed.

Lemma answers_cons seq e evs :
  answers seq (e :: evs) = filter (fun m => m_seq m = seq) (msgs_of e) ++ answers seq evs.
Proof. unfold answers. cbn. by rewrite filter_app. Qed.

(** A list that ends in [d] is cut within the part before, or after [d]. *)
Lemma snoc_cut {A} (l b c : list A) d :
  b ++ c = l ++ [d] -> (c = [] /\ b = l ++ [d]) \/ exists l2, l = b ++ l2 /\ c = l2 ++ [d].
Proof.
  intros E. destruct c as [|x c _] using rev_ind; [left; by rewrite List.app_nil_r in E|].
  right. rewrite List.app_assoc in E. apply app_inj_tail in E as [<- ->]. eauto.
Qed.

Lemma converse_dump seq evs : forall replies bodies d,
  answers seq evs = bodies ++ [d] -> Forall is_reply bodies -> m_ty d = NLMSG_DONE ->
  converse seq true evs replies = Ok (replies ++ (m_body <$> bodies)).
Proof.
  induction evs as [|e evs IH]; intros replies bodies d Ha Hb Hd.
  { cbn in Ha. by destruct bodies. }
  pose proof (answers_seq seq (e :: evs)) as Hs. rewrite Ha in Hs. rewrite answers_cons in Ha.
  destruct e as [|ms]; cbn [msgs_of converse] in *; [by eapply IH|].
  rewrite handle_filter. destruct (snoc_cut _ _ _ _ Ha) as [[_ ->]|(l2 & -> & E2)].
  - apply Forall_app in Hs as [Hs Hs2]. rewrite handle_replies by done. inv Hs2.
    cbn [handle]. rewrite Z.eqb_refl, Hd. done.
  - apply Forall_app in Hs as [Hs _]. apply Forall_app in Hs as [Hs _].
    apply Forall_app in Hb as [Hb Hb2].
    rewrite <- (List.app_nil_r (filter _ ms)) at 1. rewrite handle_replies by done. cbn [handle].
    rewrite (IH _ l2 d) by done. by rewrite fmap_app, List.app_assoc.
Qed.

Lemma converse_ack seq evs : forall a,
  answers seq evs = [a] -> m_ty a = NLMSG_ERROR ->
  converse seq false evs [] = if err_of a =? 0 then Ok [] else Err (rejected (err_of a)).
Proof.
  induction evs as [|e evs IH]; intros a Ha Ht; [done|].
  pose proof (answers_seq seq (e :: evs)) as Hs. rewrite Ha in Hs. inv Hs.
  rewrite answers_cons in Ha. destruct e as [|ms]; cbn [msgs_of converse] in *; [by apply IH|].
  rewrite handle_filter. destruct (filter _ ms) as [|b l] eqn:E; cbn [handle]; [by apply IH|].
  cbn in Ha. injection Ha as -> [-> Hn]%app_nil. rewrite Z.eqb_refl, Ht. cbn.
  by destruct (err_of a =? 0).
Qed.

Lemma converse_silence seq dump evs replies :
  answers seq evs = [] -> converse seq dump evs replies = Err (Syscall "recv" EAGAIN "netlink reply").
Proof.
  induction evs as [|e evs IH]; intros Ha; [done|]. rewrite answers_cons in Ha.
  apply app_nil in Ha as [Hf Ha]. destruct e as [|ms]; cbn [msgs_of converse] in *; [by apply IH|].
  rewrite handle_filter, Hf. by apply IH.
Qed.

Lemma send_recv_converse m dump nl w evs :
  default None (head (send_answers w)) = None ->
  Forall event_ok evs -> incoming w = enc_event <$> evs ->
  (send_recv m dump nl w).1.1 = Some (converse (as_u32 (seq nl + 1)) dump evs []).
Proof.
  intros Hs Hok Hi. unfold send_recv. rewrite Hs, Hi.
  rewrite <- (recv_converse _ _ _ (replicate BUF_LEN 0) []) by done.
  by destruct (recv_loop _ _ _ _ _).
Qed.

(** C24: however the kernel cuts its messages into datagrams, and whatever
    interruptions and messages for other requests come between, a dump gives
    the contents of exactly the messages that answer it, in order, up to the
    end marker; another request succeeds when it is acknowledged and fails
    with the kernel's error number when it is refused; and when nothing
    answers, the call ends with the time-out instead of waiting for ever.
    Nothing makes the client panic. *)
Theorem answers_are_read evs m nl w :
  Forall event_ok evs -> incoming w = enc_event <$> evs ->
  default None (head (send_answers w)) = None ->
  let s := as_u32 (seq nl + 1) in
  (forall bodies d, answers s evs = bodies ++ [d] -> Forall is_reply bodies -> m_ty d = NLMSG_DONE ->
     (send_recv m true nl w).1.1 = Some (Ok (m_body <$> bodies))) /\
  (forall a e, answers s evs = [a] -> m_ty a = NLMSG_ERROR -> err_of a = - e -> in_s 32 e ->
     (request m nl w).1.1
     = Some (if e =? 0 then Ok tt else Err (Syscall "netlink" e "kernel rejected the request"))) /\
  (answers s evs = [] ->
     (request m nl w).1.1 = Some (Err (Syscall "recv" EAGAIN "netlink reply"))).
Proof.
  intros Hok Hi Hs s. split_and!.
  - intros bodies d Ha Hb Hd. rewrite (send_recv_converse _ _ _ _ evs) by done.
    by rewrite (converse_dump _ _ _ bodies d).
  - intros a e Ha Ht He Hr. pose proof (send_recv_converse m false nl w evs Hs Hok Hi) as H.
    rewrite (converse_ack _ _ a) in H by done. unfold request.
    destruct (send_recv m false nl w) as [[r nl'] w']. cbn in *. subst r. rewrite He.
    unfold rejected. rewrite Z.opp_involutive, (wrap_s_id 32) by done.
    destruct (Z.eqb_spec e 0), (Z.eqb_spec (- e) 0); done || lia.
  - intros Ha. pose proof (send_recv_converse m false nl w evs Hs Hok Hi) as H.
    rewrite converse_silence in H by done. unfold request.
    destruct (send_recv m false nl w) as [[r nl'] w']. cbn in *. by subst r.
Qed.

Definition sample_msg (ty seq : Z) (body : list Z) : nlmsg :=
  {| m_ty := ty; m_flags := NLM_F_MULTI; m_seq := seq; m_pid := 0; m_body := body |}.

Definition sample_events : list event :=
  [Interrupted; Datagram [sample_msg 16 1 [9; 9]; sample_msg 16 2 [1; 2; 3]];
   Datagram [sample_msg 16 2 [4]; sample_msg 3 2 [0; 0; 0; 0]]].

#[export] Instance msg_ok_dec m : Decision (msg_ok m).
Proof. unfold msg_ok, in_u. apply _. Defined.

#[export] Instance event_ok_dec e : Decision (event_ok e).
Proof. unfold event_ok. apply _. Defined.

Lemma answers_are_read_witness :
  (send_recv dump_msg true {| fd := 3; seq := 1 |}
    {| send_answers := []; incoming := enc_event <$> sample_events; sent := []; open_fds := [3] |}).1.1
  = Some (Ok [[1; 2; 3]; [4]]).
Proof.
  destruct (answers_are_read sample_events dump_msg {| fd := 3; seq := 1 |}
    {| send_answers := []; incoming := enc_event <$> sample_events; sent := []; open_fds := [3] |})
    as (H & _); [|reflexivity|reflexivity|].
  - apply (bool_decide_eq_true_1 (Forall event_ok sample_events)). vm_compute. reflexivity.
  - apply (H [sample_msg 16 2 [1; 2; 3]; sample_msg 16 2 [4]] (sample_msg 3 2 [0; 0; 0; 0]));
      [vm_compute; reflexivity| |reflexivity].
    unfold is_reply. apply (bool_decide_eq_true_1 (Forall _ _)). vm_compute. reflexivity.
Defined.

(** ** Statistics *)

Lemma stat_at_nth cs i :
  Forall (in_u 64) cs -> stat_at (concat (to_le_bytes 8 <$> cs)) i = nth i cs 0.
Proof.
  intros Hc. unfold stat_at.
  assert (length (concat (to_le_bytes 8 <$> cs)) = 8 * length cs)%nat as ->.
  { clear Hc. induction cs as [|c cs IH]; [done|]. cbn [fmap list_fmap concat].
    rewrite length_app, IH, length_to_le_bytes. cbn [length]. lia. }
  destruct (Nat.ltb_spec (8 * length cs) (i * 8 + 8)); [rewrite nth_overflow by lia; done|].
  revert i H. induction Hc as [|c cs Hr _ IH]; intros i Hi; [cbn in Hi; lia|]. cbn [length] in Hi.
  destruct i as [|i]; [by apply (num_at_mid 8 _ [] c _ _ eq_refl)|].
  cbn [nth]. rewrite <- IH by lia. unfold num_at. f_equal. f_equal.
  cbn [fmap list_fmap concat]. rewrite !Nat2Z.id.
  replace (S i * 8)%nat with (length (to_le_bytes 8 c) + i * 8)%nat by (rewrite length_to_le_bytes; lia).
  by rewrite drop_app_add.
Qed.

(** An interface as the kernel describes it: the link header, the name and
    perhaps counters among other attributes. *)
Record iface := {
  if_hdr : list Z; if_pre : list Attr; if_name : string; if_post : list Attr;
  if_counters : option (list Z)
}.

Definition counters_attr (cs : list Z) : Attr :=
  {| a_ty := IFLA_STATS64; a_data := concat (to_le_bytes 8 <$> cs) |}.

Definition iface_attrs (i : iface) : list Attr :=
  if_pre i ++ named IFLA_IFNAME (if_name i) :: if_post i ++ (counters_attr <$> option_list (if_counters i)).

Definition iface_body (i : iface) : list Z := if_hdr i ++ enc_attrs (iface_attrs i).

Definition other (a : Attr) : Prop := a_ty a <> IFLA_IFNAME /\ a_ty a <> IFLA_STATS64.

Record iface_ok (i : iface) : Prop := {
  hdr_ok : length (if_hdr i) = 16%nat;
  attrs_fit : Forall attr_ok (iface_attrs i);
  pre_other : Forall other (if_pre i);
  post_other : Forall other (if_post i);
  name_utf8 : valid_utf8 (if_name i) = true;
  counters_u64 : Forall (in_u 64) (default [] (if_counters i))
}.

(** What is reported for it. *)
Definition stats_of (i : iface) : LinkStats :=
  let c k := nth k (default [] (if_counters i)) 0 in
  {| ls_name := if_name i; rx_packets := c 0%nat; tx_packets := c 1%nat; rx_bytes := c 2%nat;
     tx_bytes := c 3%nat; rx_errors := c 4%nat; tx_errors := c 5%nat; rx_dropped := c 6%nat;
     tx_dropped := c 7%nat |}.

Lemma find_attr_skip ty l r : Forall (fun a => a_ty a <> ty) l -> find_attr ty (l ++ r) = find_attr ty r.
Proof.
  intros HF. unfold find_attr. induction HF as [|a l Ha _ IH]; [done|]. cbn [app list_find].
  rewrite decide_False by done. rewrite <- IH. by destruct (list_find _ (l ++ r)) as [[]|].
Qed.

Lemma find_attr_hit a r : find_attr (a_ty a) (a :: r) = Some a.
Proof. unfold find_attr. cbn. by rewrite decide_True. Qed.

Lemma attr_name_named ty s : valid_utf8 s = true -> attr_name (a_data (named ty s)) = s.
Proof.
  intros Hv. unfold attr_name, named. cbn [a_data]. rewrite length_app. cbn [length].
  replace (length (as_bytes s) + 1 - 1)%nat with (length (as_bytes s)) by lia.
  rewrite take_app_length, to_str_as_bytes. unfold ipc.from_utf8_lossy. by rewrite lossy_go_valid.
Qed.

Lemma iface_name i : iface_ok i -> find_attr IFLA_IFNAME (iface_attrs i) = Some (named IFLA_IFNAME (if_name i)).
Proof.
  intros H. unfold iface_attrs. rewrite find_attr_skip; [apply (find_attr_hit (named _ _))|].
  apply (Forall_impl _ _ _ (pre_other _ H)). by intros a [].
Qed.

Lemma iface_stats i :
  iface_ok i -> find_attr IFLA_STATS64 (iface_attrs i) = counters_attr <$> if_counters i.
Proof.
  intros H. unfold iface_attrs. rewrite find_attr_skip.
  2: { apply (Forall_impl _ _ _ (pre_other _ H)). by intros a []. }
  etransitivity; [apply (find_attr_skip _ [named _ _]); by repeat constructor|].
  rewrite find_attr_skip.
  2: { apply (Forall_impl _ _ _ (post_other _ H)). by intros a []. }
  destruct (if_counters i); [|done]. apply (find_attr_hit (counters_attr l)).
Qed.

Lemma iface_parse i :
  iface_ok i -> (length (iface_body i) <? sizeof_IfInfoMsg)%nat = false /\
  parse_attrs (drop sizeof_IfInfoMsg (iface_body i)) = iface_attrs i.
Proof.
  intros H. unfold iface_body, sizeof_IfInfoMsg. split.
  - apply Nat.ltb_ge. rewrite length_app, (hdr_ok _ H). lia.
  - rewrite <- (hdr_ok _ H), drop_app_length. apply parse_attrs_enc, (attrs_fit _ H).
Qed.

Lemma stats_in_find name ifs :
  Forall iface_ok ifs ->
  stats_in name (iface_body <$> ifs)
  = match list_find (fun i => if_name i = name) ifs with
    | Some (_, i) => Ok (stats_of i)
    | None => Err (NotFound ("interface " +:+ debug_str name))
    end.
Proof.
  induction 1 as [|i ifs Hi _ IH]; [done|]. cbn [fmap list_fmap stats_in list_find].
  destruct (iface_parse i Hi) as [-> ->]. rewrite iface_name, iface_stats by done.
  cbn [fmap option_fmap option_map from_option id]. rewrite attr_name_named by apply (name_utf8 _ Hi).
  destruct (decide (if_name i = name)) as [<-|Hn];
    [rewrite bool_decide_true by done|rewrite bool_decide_false by done]; cbn [negb].
  - pose proof (counters_u64 _ Hi) as Hc. unfold stats_of.
    destruct (if_counters i) as [cs|]; cbn [fmap option_fmap option_map from_option id] in *; [|done].
    unfold from_bytes, counters_attr. cbn [a_data]. by rewrite !stat_at_nth.
  - rewrite IH. by destruct (list_find _ ifs) as [[]|].
Qed.

Lemma names_in_all ifs : Forall iface_ok ifs -> names_in (iface_body <$> ifs) = if_name <$> ifs.
Proof.
  induction 1 as [|i ifs Hi _ IH]; [done|]. unfold names_in in *. cbn [fmap list_fmap mbind list_bind].
  destruct (iface_parse i Hi) as [-> ->]. rewrite IH. clear IH.
  assert (filter (fun a => a_ty a = IFLA_IFNAME) (iface_attrs i) = [named IFLA_IFNAME (if_name i)]) as ->.
  { assert (forall l, Forall other l -> filter (fun a => a_ty a = IFLA_IFNAME) l = []) as Hf.
    { intros l Hl. induction Hl as [|a l [Ha _] _ IHl]; [done|]. by rewrite filter_cons_False. }
    unfold iface_attrs. rewrite filter_app, filter_cons_True, filter_app by done.
    rewrite !Hf by apply Hi. by destruct (if_counters i). }
  cbn [fmap list_fmap app]. by rewrite attr_name_named by apply (name_utf8 _ Hi).
Qed.

(** When the kernel answers a dump by describing the interfaces, however
    it cuts the description into datagrams and whatever else is on the socket,
    [list_links] gives their names in order, and [link_stats] the counters of
    the first interface with that name (zero for those the kernel does not
    report), or a not-found error when there is none. *)
Theorem link_stats_correct evs ifs d nl w name :
  Forall event_ok evs -> incoming w = enc_event <$> evs ->
  default None (head (send_answers w)) = None ->
  answers (as_u32 (seq nl + 1)) evs
    = ((fun i => {| m_ty := RTM_NEWLINK; m_flags := NLM_F_MULTI; m_seq := as_u32 (seq nl + 1);
                    m_pid := 0; m_body := iface_body i |}) <$> ifs) ++ [d] ->
  m_ty d = NLMSG_DONE -> Forall iface_ok ifs ->
  (list_links nl w).1.1 = Some (Ok (if_name <$> ifs)) /\
  (link_stats name nl w).1.1
  = Some match list_find (fun i => if_name i = name) ifs with
         | Some (_, i) => Ok (stats_of i)
         | None => Err (NotFound ("interface " +:+ debug_str name))
         end.
Proof.
  intros Hok Hi Hs Ha Hd Hifs.
  assert ((send_recv dump_msg true nl w).1.1 = Some (Ok (iface_body <$> ifs))) as H.
  { rewrite (send_recv_converse _ _ _ _ evs) by done. erewrite converse_dump by
      (done || apply Forall_fmap, Forall_true; intros; unfold is_reply; cbn; set_solver by lia).
    cbn [app]. by rewrite <- list_fmap_compose. }
  unfold list_links, link_stats. destruct (send_recv dump_msg true nl w) as [[r nl'] w'].
  cbn in H |- *. subst r. by rewrite names_in_all, stats_in_find.
Qed.

Definition sample_iface (name : string) (cs : option (list Z)) : iface :=
  {| if_hdr := replicate 16 0; if_pre := []; if_name := name; if_post := [u32_attr IFLA_MTU 1500];
     if_counters := cs |}.

Definition sample_ifaces : list iface :=
  [sample_iface "lo" None; sample_iface "eth0" (Some [5; 6; 700; 800; 0; 0; 1])].

Definition sample_dump : list event :=
  [Datagram [sample_msg 16 2 (iface_body (sample_iface "lo" None))];
   Interrupted;
   Datagram [sample_msg 2 9 [0; 0; 0; 0];
             sample_msg 16 2 (iface_body (sample_iface "eth0" (Some [5; 6; 700; 800; 0; 0; 1])));
             sample_msg 3 2 [0; 0; 0; 0]]].

#[export] Instance attr_ok_dec a : Decision (attr_ok a).
Proof. unfold attr_ok, in_u. apply _. Defined.

Lemma sample_ifaces_ok : Forall iface_ok sample_ifaces.
Proof.
  assert (forall n cs, Forall attr_ok (iface_attrs (sample_iface n cs)) -> valid_utf8 n = true ->
    Forall (in_u 64) (default [] cs) -> iface_ok (sample_iface n cs)) as H.
  { intros n cs Ha Hv Hc. split; [done|exact Ha|constructor|by repeat constructor|exact Hv|exact Hc]. }
  apply Forall_cons_2; [|apply Forall_cons_2; [|apply Forall_nil_2]]; apply H;
    try (apply (bool_decide_eq_true_1 (Forall attr_ok _)); vm_compute; reflexivity); try done.
  repeat constructor; by vm_compute.
Qed.

Lemma link_stats_correct_witness :
  let w := {| send_answers := []; incoming := enc_event <$> sample_dump; sent := []; open_fds := [3] |} in
  let nl := {| fd := 3; seq := 1 |} in
  (list_links nl w).1.1 = Some (Ok ["lo"; "eth0"]) /\
  (link_stats "eth0" nl w).1.1
  = Some (Ok {| ls_name := "eth0"; rx_packets := 5; tx_packets := 6; rx_bytes := 700; tx_bytes := 800;
                rx_errors := 0; tx_errors := 0; rx_dropped := 1; tx_dropped := 0 |}).
Proof.
  apply (link_stats_correct sample_dump sample_ifaces (sample_msg 3 2 [0; 0; 0; 0])
    {| fd := 3; seq := 1 |}
    {| send_answers := []; incoming := enc_event <$> sample_dump; sent := []; open_fds := [3] |} "eth0").
  - apply (bool_decide_eq_true_1 (Forall event_ok sample_dump)). vm_compute. reflexivity.
  - reflexivity.
  - reflexivity.
  - vm_compute. reflexivity.
  - reflexivity.
  - exact sample_ifaces_ok.
Defined.

(** An error message too short for its code is answered from what an earlier
    datagram left in the buffer. *)
Example short_error_reads_stale_bytes :
  (request (new 16 5) {| fd := 3; seq := 1 |}
     {| send_answers := [];
        incoming := [RxData (enc_msg (sample_msg 16 1 [7; 0; 0; 0]));
                     RxData (enc_msg (sample_msg 2 2 []))];
        sent := []; open_fds := [3] |}).1.1
  = Some (Err (Syscall "netlink" (-7) "kernel rejected the request")).
Proof. vm_compute. reflexivity. Qed.

(** The layout tests of the source. *)
Example alignment : nl_align <$> [0; 1; 4; 5] = [0; 4; 4; 8].
Proof. reflexivity. Qed.

Example builder_layout :
  finish (attr_str (payload (new RTM_NEWLINK ACK_FLAGS) zero_link) IFLA_IFNAME "veth0") 42
  = [44; 0; 0; 0; 16; 0; 5; 0; 42; 0; 0; 0; 0; 0; 0; 0] ++ replicate 16 0
    ++ [10; 0; 3; 0; 118; 101; 116; 104; 48; 0; 0; 0].
Proof. vm_compute. reflexivity. Qed.

(** A socket that could not be bound is closed, and so is one that is dropped:
    no descriptor leaks. *)
Lemma close_fd_closes f w x : 0 <= f -> x ∈ open_fds (close_fd f w) <-> x <> f /\ x ∈ open_fds w.
Proof.
  intros Hf. unfold close_fd. rewrite (proj2 (Z.leb_le 0 f) Hf). cbn. by rewrite list_elem_of_filter.
Qed.

Lemma open_no_leak sock bind w :
  (forall f, sock = inr f -> 0 <= f /\ f ∉ open_fds w) ->
  let '(r, w') := open sock bind w in
  forall x, x ∈ open_fds (match r with Ok nl => drop_netlink nl w' | Err _ => w' end) <-> x ∈ open_fds w.
Proof.
  intros Hf. unfold open, drop_netlink. destruct sock as [e|f]; [done|].
  destruct (Hf f eq_refl) as [Hp Hn].
  destruct bind as [e|]; intros x; cbn [fd]; rewrite close_fd_closes by done; cbn; set_solver.
Qed.
