(* ===== verification/Spawn.v ===== *)
(** * Starting and watching processes: [src/sys/process.rs]

    The system calls behind [clone_child], [wait_pid], [sealed_self_exe] and
    the sync channel are the class [Spawner]; [Ipc.v] has the bytes of the
    channel and [Process.v] the loop around [waitpid].  Descriptors are closed
    by their owners and are not part of the host's state. *)
From S2P Require Import Prelude RustStr Num Utf8 Error Process Fs Host KernFs Ipc.

(** What the child runs: [ExecPlan]. *)
Record Plan := MkPlan { argv : list string; envp : list string }.

Class Spawner (H : Type) := {
  (** [util::now_ms] and [Instant::now], in milliseconds. *)
  now_ms : H -> Z;
  instant_ms : H -> Z;
  (** What [/proc/<pid>/stat] reads as. *)
  proc_stat : Z -> H -> option string;
  (** [process::wait_pid]; the flag is [WNOHANG]. *)
  wait_child : Z -> bool -> HM H (option (Z * process.ExitStatus));
  (** [sealed_self_exe]: whether the copy is sealed. *)
  seal_self : HM H bool;
  (** [Channel::pair]; the parent's end is the one used below. *)
  channel_pair : HM H unit;
  (** [move_fd_high] and [open_path] of a directory. *)
  dup_high : HM H unit;
  open_dir : string -> HM H unit;
  (** [clone3(2)] and [clone(2)] in the parent: an [errno] or the pid.  The
      first can place the child into a control group. *)
  sys_clone3 : Z -> option string -> Plan -> H -> (Z + Z) * H;
  sys_clone : Z -> Plan -> H -> (Z + Z) * H;
  (** [Channel::send_tag] and [Channel::recv] on the parent's end. *)
  ch_send : ascii -> HM H unit;
  ch_recv : HM H (option (ascii * string))
}.

Module spawn.

Definition CLONE_PIDFD : Z := 0x00001000.
Definition CLONE_INTO_CGROUP : Z := 0x200000000.
Definition SIGCHLD : Z := 17.
Definition EINVAL : Z := 22.
Definition ENOSYS : Z := 38.

(** [cstr]. *)
Definition cstr (s : string) : result string :=
  if contains_char "000" s then Err (Config ("string contains a NUL byte: " +:+ debug_str s)) else Ok s.

(** [ExecPlan::new]. *)
Definition exec_plan (argv envp : list string) : result Plan :=
  a ← try_map cstr argv;
  e ← try_map cstr envp;
  Ok (MkPlan a e).

Record CloneRequest := MkRequest {
  flags : Z;
  (** The directory behind the descriptor. *)
  cgroup_fd : option string;
  exit_signal : Z;
  pdeathsig : option Z;
  plan : Plan
}.

Section ops.
Context {H : Type} `{Spawner H}.

Definition flags_ctx (f : Z) : string := "flags 0x" +:+ show_u 16 f.

(** The parent's half of a clone: the child runs the plan or exits. *)
Definition cloned (call : H -> (Z + Z) * H) (failed : Z -> HM H Z) : HM H Z := fun h =>
  match call h with
  | (inl e, h') => failed e h'
  | (inr pid, h') => (Ok pid, h')
  end.

Definition clone_child_legacy (req : CloneRequest) : HM H Z :=
  _ ← dup_high;
  _ ← dup_high;
  let flags := Z.lor (Z.lor (flags req) CLONE_PIDFD) (Z.land (exit_signal req) 0xff) in
  cloned (sys_clone flags (plan req)) (fun e => host.fail (Syscall "clone" e (flags_ctx flags))).

Definition clone_child (req : CloneRequest) : HM H Z :=
  _ ← dup_high;
  _ ← dup_high;
  let flags := Z.lor (flags req) CLONE_PIDFD in
  let flags := match cgroup_fd req with Some _ => Z.lor flags CLONE_INTO_CGROUP | None => flags end in
  cloned (sys_clone3 flags (cgroup_fd req) (plan req)) (fun e =>
    if (e =? ENOSYS) || (e =? EINVAL) then clone_child_legacy req
    else host.fail (Syscall "clone3" e (flags_ctx flags))).

(** [Channel::expect]. *)
Definition expect (want : ascii) : HM H string :=
  m ← ch_recv;
  host.lift
    match m with
    | None => Err (Container ("container init exited before sending " +:+ ipc.tag_name want))
    | Some (tag, payload) =>
        if ascii_dec tag want then Ok payload
        else if ascii_dec tag ipc.TAG_ERROR then Err (Container (ipc.from_utf8_lossy payload))
        else Err (Container ("expected " +:+ ipc.tag_name want +:+ " from container init, got "
                             +:+ ipc.tag_name tag))
    end.

(** [read_proc_stat]; the text of its error is not looked at by any caller. *)
Definition start_time (pid : Z) (h : H) : option Z :=
  text ← proc_stat pid h;
  match process.parse_proc_stat text with Some (Ok s) => Some (process.start_time s) | _ => None end.

(** [process_alive(pid, start)]. *)
Definition alive (pid : Z) (start : option Z) (h : H) : bool := process.process_alive (proc_stat pid h) start.

End ops.
End spawn.
