(* ===== verification/Security.v ===== *)
(** * Hardening: [src/runtime/security.rs]

    The steps init takes before the workload starts, with what they use of
    [src/sys/caps.rs], [src/sys/seccomp.rs] and [src/sys/mod.rs].  The thread
    they act on is the class [Confined]: capability sets ([CapKernel]), the
    [no_new_privs] bit, the stack of filters and the ids, with the documented
    behaviour of the calls that change them. *)
From S2P Require Import Prelude RustStr Num Error Seccomp Caps Config Host.

Definition EPERM : Z := 1.
Definition EACCES : Z := 13.

Definition CAP_SETGID : Z := 6.
Definition CAP_SETUID : Z := 7.
Definition CAP_SYS_ADMIN : Z := 21.

(** [struct CapUserData]: the halves of the three sets. *)
Record CapUserData := MkCapData { cd_effective : Z; cd_permitted : Z; cd_inheritable : Z }.

(** ** The calling thread *)

Class Thread_ops (K : Type) := {
  nnp : K -> bool;
  (** Installed programs, the last one first. *)
  filters : K -> list (list seccomp.SockFilter);
  uid : K -> Z; gid : K -> Z; groups : K -> list Z;
  (** What [/proc/<pid>/status] of the thread reads as. *)
  proc_status : K -> option string;
  (** An [errno] or the two elements of [data]. *)
  sys_capget : K -> Z + CapUserData * CapUserData;
  sys_capbset_read : Z -> K -> Z;
  sys_set_nnp : K -> option Z * K;
  sys_seccomp : list seccomp.SockFilter -> K -> option Z * K;
  sys_setgroups : list Z -> K -> option Z * K;
  sys_setgid : Z -> K -> option Z * K;
  sys_setuid : Z -> K -> option Z * K;
  sys_getrlimit_nofile : K -> option (Z * Z)
}.

Module security.

Section ops.
Context (arch : seccomp.Arch) {K : Type} `{!caps.CapKernel K, !Thread_ops K}.

(** [chk(rc, call, ctx)]. *)
Definition chk (call ctx : string) (m : K -> option Z * K) : HM K unit := fun k =>
  match m k with
  | (None, k') => (Ok tt, k')
  | (Some e, k') => (Err (Syscall call e ctx), k')
  end.

(** *** [src/sys/caps.rs] *)

Definition join (lo hi : Z) : Z := Z.lor (Z.shiftl hi 32) lo.

Definition get_caps : HM K (Z * Z * Z) := fun k =>
  match sys_capget k with
  | inl e => (Err (Syscall "capget" e ""), k)
  | inr (d0, d1) =>
      (Ok (join (cd_effective d0) (cd_effective d1),
           join (cd_permitted d0) (cd_permitted d1),
           join (cd_inheritable d0) (cd_inheritable d1)), k)
  end.

Definition assert_dropped (expected_mask : Z) : HM K unit :=
  '(eff, perm, inh) ← get_caps;
  if negb (Z.land eff (caps.not64 expected_mask) =? 0)
     || negb (Z.land perm (caps.not64 expected_mask) =? 0) || negb (inh =? 0)
  then host.fail (Container ("capability drop incomplete: effective=0x" +:+ show_u 16 eff
         +:+ " permitted=0x" +:+ show_u 16 perm +:+ " inheritable=0x" +:+ show_u 16 inh
         +:+ " expected<=0x" +:+ show_u 16 expected_mask))
  else mret tt.

Definition in_bounding_set (cap : Z) (k : K) : bool := sys_capbset_read cap k =? 1.

(** [caps::switch_user]. *)
Definition caps_switch_user (u g : Z) : HM K unit :=
  _ ← chk "setgroups" "clearing supplementary groups" (sys_setgroups []);
  _ ← chk "setgid" ("gid " +:+ show_dec g) (sys_setgid g);
  _ ← chk "setuid" ("uid " +:+ show_dec u) (sys_setuid u);
  mret tt.

Definition nofile_limit (k : K) : option (Z * Z) := sys_getrlimit_nofile k.

(** *** [src/sys/mod.rs] *)

Definition set_no_new_privs : HM K unit := chk "prctl" "PR_SET_NO_NEW_PRIVS" sys_set_nnp.
Definition get_no_new_privs (k : K) : bool := nnp k.

(** *** [src/sys/seccomp.rs] *)

(** [install]: the number of instructions; [fprog.len] is 16 bits wide and
    the kernel reads that many of them. *)
Definition install (mode : seccomp.SeccompMode) : HM K Z :=
  if bool_decide (mode = seccomp.Unconfined) then mret 0
  else
    prog ← host.lift (seccomp.build_filter arch mode);
    let fprog := take (Z.to_nat (as_u16 (Z.of_nat (length prog)))) prog in
    _ ← chk "seccomp" ("mode " +:+ seccomp.as_str mode) (sys_seccomp fprog);
    mret (Z.of_nat (length prog)).

(** The loop over the lines. *)
Fixpoint mode_line (l : list string) : option Z :=
  match l with
  | [] => None
  | line :: l' =>
      match strip_prefix "Seccomp:" line with
      | Some rest => parse_u 32 (trim rest)
      | None => mode_line l'
      end
  end.

Definition seccomp_mode_of (k : K) : option Z := text ← proc_status k; mode_line (lines text).

(** *** [src/runtime/security.rs] *)

Definition precheck (sec : SecurityConfig.t) : result unit :=
  if SecurityConfig.privileged sec then Ok tt
  else
    _ ← SecurityConfig.cap_mask sec;
    if negb (SecurityConfig.no_new_privs sec)
       && negb (bool_decide (SecurityConfig.seccomp sec = seccomp.Unconfined))
    then Err (Config ("--no-new-privs=false cannot be combined with seccomp; the kernel "
           +:+ "requires PR_SET_NO_NEW_PRIVS or CAP_SYS_ADMIN to install a filter"))
    else Ok tt.

Definition apply (sec : SecurityConfig.t) : HM K unit :=
  _ ← host.lift (precheck sec);
  if SecurityConfig.privileged sec then mret tt
  else
    keep ← host.lift (SecurityConfig.cap_mask sec);
    _ ← caps.apply keep;
    _ ← (if SecurityConfig.no_new_privs sec then set_no_new_privs else mret tt);
    _ ← install (SecurityConfig.seccomp sec);
    mret tt.

Definition switch_user (sec : SecurityConfig.t) : HM K unit :=
  match SecurityConfig.user sec with
  | Some (u, g) => _ ← caps_switch_user u g; mret tt
  | None => mret tt
  end.

(** The text of an error in a list of problems is its [Display]. *)
Definition verify (sec : SecurityConfig.t) (k : K) : list string :=
  if SecurityConfig.privileged sec then []
  else match SecurityConfig.cap_mask sec with
       | Err e => ["capability set is invalid: " +:+ error_str e]
       | Ok keep =>
           (match (assert_dropped keep k).1 with Err e => [error_str e] | Ok _ => [] end)
           ++ (if negb (Z.land keep (caps.bit64 21) =? 0) then ["CAP_SYS_ADMIN is retained"] else [])
           ++ (if SecurityConfig.no_new_privs sec && negb (get_no_new_privs k)
               then ["no_new_privs was requested but is not set"] else [])
           ++ (if negb (bool_decide (SecurityConfig.seccomp sec = seccomp.Unconfined))
                  && (default 0 (seccomp_mode_of k) =? 0)
               then ["seccomp was requested but no filter is active"] else [])
       end.

End ops.

(** [u64::count_ones]. *)
Definition count_ones (m : Z) : Z :=
  Z.of_nat (length (filter (fun b => Z.testbit m b = true) (seqZ 0 64))).

Definition bool_str (b : bool) : string := if b then "true" else "false".

Definition summary (sec : SecurityConfig.t) : string :=
  if SecurityConfig.privileged sec then "privileged (no confinement)"
  else
    let keep := match SecurityConfig.cap_mask sec with Ok k => k | Err _ => 0 end in
    let n := count_ones keep in
    show_dec n +:+ " capabilit" +:+ (if n =? 1 then "y" else "ies")
    +:+ ", no_new_privs=" +:+ bool_str (SecurityConfig.no_new_privs sec)
    +:+ ", seccomp=" +:+ seccomp.as_str (SecurityConfig.seccomp sec)
    +:+ match SecurityConfig.user sec with
        | Some (u, g) => ", user=" +:+ show_dec u +:+ ":" +:+ show_dec g
        | None => ""
        end.

End security.
