(* ===== verification/SecurityFacts.v ===== *)
(** * What the hardening of [Security.v] leaves

    The laws of the calls, from [prctl(2)], [seccomp(2)], [setgroups(2)],
    [setgid(2)], [setuid(2)], [capabilities(7)] and [proc(5)]; that the steps
    leave the workload confined as asked, in an order in which none of them
    takes away what a later one needs; and that [verify] checks what it says. *)
From S2P Require Import Prelude RustStr Num Error Seccomp Caps Config Host Security.

(** The five capability sets are the same. *)
Definition same_caps {K : Type} `{!caps.CapKernel K} (k k' : K) : Prop :=
  caps.ambient k' = caps.ambient k /\ caps.bounding k' = caps.bounding k /\
  caps.effective k' = caps.effective k /\ caps.permitted k' = caps.permitted k /\
  caps.inheritable k' = caps.inheritable k.

(** [a] has no bit that [b] lacks. *)
Definition within (a b : Z) : Prop := forall i, Z.testbit a i = true -> Z.testbit b i = true.

#[export] Instance within_preorder : PreOrder within.
Proof. split; [by intros a i|]. intros a b c H1 H2 i ?. auto. Qed.

Definition tab : string := String "009" "".

(** A thread outside any user namespace of its own. *)
Class ThreadLaws (K : Type) `{!caps.CapKernel K, !Thread_ops K} : Prop := {
  capget_reports k d0 d1 : sys_capget k = inr (d0, d1) ->
    security.join (cd_effective d0) (cd_effective d1) = caps.effective k /\
    security.join (cd_permitted d0) (cd_permitted d1) = caps.permitted k /\
    security.join (cd_inheritable d0) (cd_inheritable d1) = caps.inheritable k;
  set_nnp_ok k k' : sys_set_nnp k = (None, k') ->
    nnp k' = true /\ same_caps k k' /\ filters k' = filters k;
  seccomp_ok prog k k' : sys_seccomp prog k = (None, k') ->
    filters k' = prog :: filters k /\ nnp k' = nnp k /\ same_caps k k';
  (** [EACCES]: neither [no_new_privs] nor [CAP_SYS_ADMIN]. *)
  seccomp_access prog k k' : sys_seccomp prog k = (Some EACCES, k') ->
    nnp k = false /\ Z.testbit (caps.effective k) CAP_SYS_ADMIN = false;
  setgroups_ok l k k' : sys_setgroups l k = (None, k') ->
    groups k' = l /\ gid k' = gid k /\ uid k' = uid k /\
    same_caps k k' /\ nnp k' = nnp k /\ filters k' = filters k;
  setgroups_access l k k' : sys_setgroups l k = (Some EPERM, k') ->
    Z.testbit (caps.effective k) CAP_SETGID = false;
  setgid_ok g k k' : sys_setgid g k = (None, k') ->
    gid k' = g /\ groups k' = groups k /\ uid k' = uid k /\
    same_caps k k' /\ nnp k' = nnp k /\ filters k' = filters k;
  setgid_access g k k' : sys_setgid g k = (Some EPERM, k') ->
    Z.testbit (caps.effective k) CAP_SETGID = false;
  setuid_ok u k k' : sys_setuid u k = (None, k') ->
    uid k' = u /\ gid k' = gid k /\ groups k' = groups k /\
    nnp k' = nnp k /\ filters k' = filters k /\
    within (caps.effective k') (caps.permitted k) /\
    within (caps.permitted k') (caps.permitted k) /\
    caps.inheritable k' = caps.inheritable k /\ caps.bounding k' = caps.bounding k;
  (** Leaving user id 0 for good empties the sets. *)
  setuid_clears u k k' : sys_setuid u k = (None, k') -> uid k = 0 -> u <> 0 ->
    Z.testbit (caps.effective k) CAP_SETUID = true ->
    caps.effective k' = 0 /\ caps.permitted k' = 0;
  setuid_access u k k' : sys_setuid u k = (Some EPERM, k') ->
    Z.testbit (caps.effective k) CAP_SETUID = false;
  (** [Seccomp:] is 0 without a filter and 2 with one. *)
  status_reports k text : proc_status k = Some text ->
    exists pre post,
      lines text = pre ++ ("Seccomp:" +:+ tab +:+ (match filters k with [] => "0" | _ => "2" end)) :: post /\
      Forall (fun l => strip_prefix "Seccomp:" l = None) pre
}.

(** ** The keep set *)

Lemma in_u_lor w a b : 0 <= w -> in_u w a -> in_u w b -> in_u w (Z.lor a b).
Proof.
  unfold in_u. intros Hw Ha Hb.
  assert (Z.lor a b = Z.lor a b `mod` 2 ^ w) as ->.
  { rewrite <- Z.land_ones, Z.land_lor_distr_l, !Z.land_ones by done.
    by rewrite !Z.mod_small by done. }
  apply Z.mod_pos_bound. lia.
Qed.

Lemma in_u_bit64 m v : in_u 64 m -> in_u 64 (Z.lor m (caps.bit64 v)).
Proof.
  intros Hm. apply in_u_lor; [done..|]. unfold caps.bit64, in_u. rewrite Z.shiftl_1_l.
  pose proof (Z.mod_pos_bound v 64).
  split; [apply Z.pow_nonneg; lia|]. apply Z.pow_lt_mono_r; lia.
Qed.

Lemma in_u_land w a b : 0 <= w -> in_u w a -> in_u w (Z.land a b).
Proof.
  unfold in_u. intros Hw Ha.
  assert (Z.land a b = Z.land a b `mod` 2 ^ w) as ->.
  { rewrite <- Z.land_ones, <- Z.land_assoc, (Z.land_comm b), Z.land_assoc, Z.land_ones by done.
    by rewrite Z.mod_small by done. }
  apply Z.mod_pos_bound. lia.
Qed.

Lemma or_caps_range l m m' : in_u 64 m -> caps.or_caps l m = Ok m' -> in_u 64 m'.
Proof.
  revert m. induction l as [|c l IH]; intros m Hm H; cbn in H; [by simplify_eq|].
  apply bind_ok in H as (v & _ & H). eapply IH; [|exact H]. by apply in_u_bit64.
Qed.

Lemma drop_caps_range l m m' : in_u 64 m -> caps.drop_caps l m = Ok m' -> in_u 64 m'.
Proof.
  revert m. induction l as [|c l IH]; intros m Hm H; cbn in H; [by simplify_eq|].
  apply bind_ok in H as (v & _ & H). eapply IH; [|exact H]. by apply in_u_land.
Qed.

Lemma or_table_range m : in_u 64 m -> in_u 64 (caps.or_table m).
Proof.
  unfold caps.or_table. generalize caps.CAP_TABLE. intros l. revert m.
  induction l as [|kv l IH]; intros m Hm; cbn; [done|]. by apply IH, in_u_bit64.
Qed.

Lemma add_caps_range l m m' : in_u 64 m -> caps.add_caps l m = Ok m' -> in_u 64 m'.
Proof.
  revert m. induction l as [|c l IH]; intros m Hm H; cbn [caps.add_caps] in H; [by simplify_eq|].
  destruct (eq_ignore_ascii_case c "all").
  - eapply IH; [|exact H]. by apply or_table_range.
  - apply bind_ok in H as (v & _ & H). eapply IH; [|exact H]. by apply in_u_bit64.
Qed.

Lemma keep_set_range base add drop m : caps.resolve_keep_set base add drop = Ok m -> in_u 64 m.
Proof.
  unfold caps.resolve_keep_set. intros (m0 & H0 & H)%bind_ok. eapply add_caps_range; [|exact H].
  assert (in_u 64 0) by (split; lia). case_match; [by simplify_eq|].
  apply bind_ok in H0 as (m1 & Hm1 & Hm2). eapply drop_caps_range, Hm2. by eapply or_caps_range.
Qed.

Lemma cap_mask_range sec keep : SecurityConfig.cap_mask sec = Ok keep -> in_u 64 keep.
Proof.
  unfold SecurityConfig.cap_mask. destruct (SecurityConfig.privileged sec).
  { intros [= <-]. apply or_table_range. split; lia. }
  intros (m & Hm & H)%bind_ok. apply keep_set_range in Hm.
  destruct (SecurityConfig.user sec); [|by simplify_eq].
  apply bind_ok in H as (u & _ & H). apply bind_ok in H as (g & _ & H). simplify_eq.
  by apply in_u_bit64, in_u_bit64.
Qed.

(** A configuration that switches the user keeps what the switch needs. *)
Lemma user_keeps sec keep : SecurityConfig.cap_mask sec = Ok keep ->
  SecurityConfig.privileged sec = false -> SecurityConfig.user sec <> None ->
  Z.testbit keep CAP_SETGID = true /\ Z.testbit keep CAP_SETUID = true.
Proof.
  unfold SecurityConfig.cap_mask. intros H Hp Hu. rewrite Hp in H.
  apply bind_ok in H as (m & _ & H). destruct (SecurityConfig.user sec); [|done].
  change (caps.parse_cap "SETUID") with (Ok 7 : result Z) in H.
  change (caps.parse_cap "SETGID") with (Ok 6 : result Z) in H.
  injection H as <-. rewrite !Z.lor_spec.
  change (Z.testbit (caps.bit64 6) CAP_SETGID) with true.
  change (Z.testbit (caps.bit64 7) CAP_SETUID) with true.
  by rewrite !orb_true_r.
Qed.

(** ** The steps *)

Section steps.
Context (arch : seccomp.Arch) {K : Type} `{CK : !caps.CapKernel K, TO : !Thread_ops K, TL : !ThreadLaws K}.
Context (exec : list seccomp.SockFilter -> seccomp.seccomp_data -> nat -> Z -> option Z)
  `{CM : !seccomp.CbpfMachine exec}.

Implicit Types (sec : SecurityConfig.t) (k : K).

Lemma chk_ok call ctx (m : K -> option Z * K) k k' :
  security.chk call ctx m k = (Ok tt, k') -> m k = (None, k').
Proof. unfold security.chk. destruct (m k) as [[e|] ?]; [done|]. by intros [= ->]. Qed.

Lemma chk_err call ctx (m : K -> option Z * K) k e k' :
  security.chk call ctx m k = (Err e, k') ->
  exists n, m k = (Some n, k') /\ e = Syscall call n ctx.
Proof. unfold security.chk. destruct (m k) as [[n|] ?]; [|done]. intros [= <- <-]. eauto. Qed.

Lemma same_caps_refl k : same_caps k k.
Proof. by split_and!. Qed.

Lemma same_caps_trans k1 k2 k3 : same_caps k1 k2 -> same_caps k2 k3 -> same_caps k1 k3.
Proof. intros (?&?&?&?&?) (?&?&?&?&?). split_and!; congruence. Qed.

(** The whole program is handed over: the length fits its field. *)
Lemma whole_program mode prog : seccomp.build_filter arch mode = Ok prog ->
  take (Z.to_nat (as_u16 (Z.of_nat (length prog)))) prog = prog.
Proof.
  intros H. destruct (seccomp.build_filter_ok arch mode) as (p & Hp & Hlen).
  rewrite Hp in H. injection H as ->. rewrite wrap_u_id by (unfold in_u; lia).
  rewrite Nat2Z.id. by apply take_ge.
Qed.

(** What a mode asks of the filters. *)
Definition filtered (mode : seccomp.SeccompMode) k : Prop :=
  mode <> seccomp.Unconfined ->
  exists prog rest, filters k = prog :: rest /\
    forall d, exec prog d 0 0 = Some (seccomp.verdict arch mode d).

Lemma install_spec mode k n k' : security.install arch mode k = (Ok n, k') ->
  filtered mode k' /\ nnp k' = nnp k /\ same_caps k k'.
Proof.
  unfold security.install. case_bool_decide as Hm.
  { intros [= _ <-]. split; [by intros ?|]. split; [done|apply same_caps_refl]. }
  intros (prog & k1 & Hp & H)%hm_bind_inv. injection Hp as Hp <-.
  rewrite (whole_program _ _ Hp) in H. apply hm_bind_inv in H as ([] & k2 & Hc & H).
  injection H as _ <-. apply chk_ok in Hc. apply seccomp_ok in Hc as (Hf & Hn & Hs).
  split; [|done]. intros _. exists prog, (filters k). split; [done|]. intros d.
  by apply seccomp.build_filter_verdict.
Qed.

(** What a successful [apply] leaves. *)
Definition hardened sec (keep last : Z) k : Prop :=
  caps.effective k = keep /\ caps.permitted k = keep /\ caps.inheritable k = 0 /\
  (forall b, 0 <= b <= last -> Z.testbit (caps.bounding k) b = true -> Z.testbit keep b = true) /\
  (SecurityConfig.no_new_privs sec = true -> nnp k = true) /\
  filtered (SecurityConfig.seccomp sec) k.

Lemma apply_hardens sec keep k k' :
  SecurityConfig.privileged sec = false -> SecurityConfig.cap_mask sec = Ok keep ->
  caps.last_cap k < 64 -> security.apply arch sec k = (Ok tt, k') ->
  hardened sec keep (caps.last_cap k) k'.
Proof.
  intros Hp Hk Hl. unfold security.apply. rewrite Hp, Hk.
  intros ([] & k1 & Hpre & H)%hm_bind_inv. injection Hpre as _ <-.
  apply hm_bind_inv in H as (keep' & k1 & Hke & H). injection Hke as <- <-.
  apply hm_bind_inv in H as ([] & k1 & Hc & H).
  apply hm_bind_inv in H as ([] & k2 & Hn & H).
  apply hm_bind_inv in H as (n & k3 & Hi & H). injection H as <-.
  destruct (caps.apply_sets _ _ _ (cap_mask_range _ _ Hk) Hl Hc) as (He & Hpe & Hin & Hb & _).
  apply install_spec in Hi as (Hf & Hnn & (E1 & E2 & E3 & E4 & E5)).
  assert (same_caps k1 k2 /\ (SecurityConfig.no_new_privs sec = true -> nnp k2 = true))
    as [(F1 & F2 & F3 & F4 & F5) Hnp].
  { destruct (SecurityConfig.no_new_privs sec).
    - apply chk_ok, set_nnp_ok in Hn as (? & ? & _). done.
    - injection Hn as <-. split; [apply same_caps_refl|done]. }
  split_and!; [congruence..| |intros ?; rewrite Hnn; auto|done].
  intros b Hr Hbb. apply Hb; [done|]. congruence.
Qed.

(** ** The user *)

Lemma switch_spec u g k k' : security.caps_switch_user u g k = (Ok tt, k') ->
  uid k' = u /\ gid k' = g /\ groups k' = [] /\ nnp k' = nnp k /\ filters k' = filters k /\
  within (caps.effective k') (caps.permitted k) /\ within (caps.permitted k') (caps.permitted k) /\
  caps.inheritable k' = caps.inheritable k /\ caps.bounding k' = caps.bounding k /\
  (uid k = 0 -> u <> 0 -> Z.testbit (caps.effective k) CAP_SETUID = true ->
   caps.effective k' = 0 /\ caps.permitted k' = 0).
Proof.
  unfold security.caps_switch_user.
  intros ([] & k1 & H1 & H)%hm_bind_inv. apply hm_bind_inv in H as ([] & k2 & H2 & H).
  apply hm_bind_inv in H as ([] & k3 & H3 & H). injection H as <-.
  apply chk_ok in H1, H2, H3.
  pose proof (setuid_clears _ _ _ H3) as Hc. apply setgroups_ok in H1 as (? & ? & ? & (?&?&?&?&?) & ? & ?).
  apply setgid_ok in H2 as (? & ? & ? & (?&?&?&?&?) & ? & ?).
  apply setuid_ok in H3 as (? & ? & ? & ? & ? & ? & ? & ? & ?).
  assert (caps.permitted k2 = caps.permitted k) as Ep by congruence.
  rewrite Ep in *. split_and!; try congruence; try done. intros Hu Hn Hs. apply Hc; congruence.
Qed.

(** With the two capabilities in the effective set the switch is not refused. *)
Lemma switch_not_refused u g k c x k' :
  Z.testbit (caps.effective k) CAP_SETGID = true -> Z.testbit (caps.effective k) CAP_SETUID = true ->
  security.caps_switch_user u g k <> (Err (Syscall c EPERM x), k').
Proof.
  intros Hg Hu. unfold security.caps_switch_user. rewrite hm_bind_eq.
  destruct (security.chk "setgroups" _ _ k) as [[[]|e] k1] eqn:E1.
  2: { apply chk_err in E1 as (n & E1 & ->). intros [= _ -> _ ->].
       apply setgroups_access in E1. congruence. }
  apply chk_ok, setgroups_ok in E1 as (_ & _ & _ & (_ & _ & S1 & _) & _).
  rewrite hm_bind_eq. destruct (security.chk "setgid" _ _ k1) as [[[]|e] k2] eqn:E2.
  2: { apply chk_err in E2 as (n & E2 & ->). intros [= _ -> _ ->].
       apply setgid_access in E2. congruence. }
  apply chk_ok, setgid_ok in E2 as (_ & _ & _ & (_ & _ & S2 & _) & _).
  rewrite hm_bind_eq. destruct (security.chk "setuid" _ _ k2) as [[[]|e] k3] eqn:E3; [done|].
  apply chk_err in E3 as (n & E3 & ->). intros [= _ -> _ ->].
  apply setuid_access in E3. congruence.
Qed.

(** Only [install] calls [seccomp(2)]. *)
Lemma caps_apply_calls keep k n c k' : caps.apply keep k <> (Err (Syscall "seccomp" n c), k').
Proof.
  assert (forall k1, match caps.drop_bounding keep (seqZ 0 (caps.last_cap k + 1)) k1 with
            | (Ok _, k2) => caps.set_caps keep keep 0 k2
            | (Err err, k2) => (Err err, k2) end <> (Err (Syscall "seccomp" n c), k')) as Hrest.
  { intros k1. generalize (seqZ 0 (caps.last_cap k + 1)). intros l. revert k1.
    induction l as [|x l IH]; intros k1; cbn [caps.drop_bounding].
    - unfold caps.set_caps. by repeat case_match.
    - destruct (negb _); [apply IH|]. destruct (caps.capbset_drop x k1) as [[e|] k2]; [|apply IH].
      destruct (e =? caps.EINVAL); [apply IH|done]. }
  unfold caps.apply. destruct (caps.ambient_clear_all k) as [[e|] k1]; [|apply Hrest].
  case_match; [done|apply Hrest].
Qed.

Lemma install_not_refused mode k c k' : mode = seccomp.Unconfined \/ nnp k = true ->
  security.install arch mode k <> (Err (Syscall "seccomp" EACCES c), k').
Proof.
  intros Hn. unfold security.install. case_bool_decide as Hm; [done|].
  destruct Hn as [?|Hn]; [done|]. destruct (seccomp.build_filter_ok arch mode) as (p & Hp & _).
  rewrite hm_bind_eq, Hp. cbn [host.lift]. rewrite hm_bind_eq.
  match goal with |- context [security.chk ?a ?b ?m k] => destruct (security.chk a b m k) as [[[]|e] k2] eqn:E end;
    [done|].
  apply chk_err in E as (n & E & ->). intros [= -> _ ->]. apply seccomp_access in E as [E _]. congruence.
Qed.

(** The workload is as confined as [sec] asks. *)
Definition confined sec (keep last : Z) k : Prop :=
  within (caps.effective k) keep /\ within (caps.permitted k) keep /\ caps.inheritable k = 0 /\
  (forall b, 0 <= b <= last -> Z.testbit (caps.bounding k) b = true -> Z.testbit keep b = true) /\
  (SecurityConfig.no_new_privs sec = true -> nnp k = true) /\
  filtered (SecurityConfig.seccomp sec) k.

(** C9: when the hardening steps and the switch of the user succeed, the
    workload holds no capability outside the keep set and can regain none
    through an exec, has [no_new_privs] when it was asked for, and every
    system call gets the verdict of the mode's deny list; with [--user] it
    runs as that user and group without supplementary groups, and leaving
    root costs it every capability. *)
Theorem workload_confined sec keep k k1 k2 :
  SecurityConfig.privileged sec = false -> SecurityConfig.cap_mask sec = Ok keep ->
  caps.last_cap k < 64 ->
  security.apply arch sec k = (Ok tt, k1) -> security.switch_user sec k1 = (Ok tt, k2) ->
  confined sec keep (caps.last_cap k) k2 /\
  (forall u g, SecurityConfig.user sec = Some (u, g) ->
     uid k2 = u /\ gid k2 = g /\ groups k2 = [] /\
     (uid k1 = 0 -> u <> 0 -> caps.effective k2 = 0 /\ caps.permitted k2 = 0)).
Proof.
  intros Hp Hk Hl Ha Hs. destruct (apply_hardens _ _ _ _ Hp Hk Hl Ha) as (He & Hpe & Hi & Hb & Hn & Hf).
  pose proof (user_keeps _ _ Hk Hp) as Hu. unfold security.switch_user in Hs.
  destruct (SecurityConfig.user sec) as [[u g]|].
  - apply hm_bind_inv in Hs as ([] & k3 & Hs & H3). injection H3 as <-.
    destruct (switch_spec _ _ _ _ Hs) as (? & ? & ? & En & Ef & W1 & W2 & Ei & Eb & Hc).
    rewrite Hpe in W1, W2. split.
    + unfold confined, filtered. rewrite Ei, Eb, En, Ef. by split_and!.
    + intros ? ? [= <- <-]. split_and!; [done..|]. intros. apply Hc; [done..|].
      rewrite He. by apply Hu.
  - injection Hs as <-. split; [|done]. unfold confined. rewrite He, Hpe. by split_and!.
Qed.

Lemma precheck_calls sec keep call n c : SecurityConfig.cap_mask sec = Ok keep ->
  security.precheck sec <> Err (Syscall call n c).
Proof. intros Hk. unfold security.precheck. rewrite Hk. case_match; [done|]. cbn. by case_match. Qed.

Lemma precheck_allows sec : security.precheck sec = Ok tt ->
  SecurityConfig.privileged sec = false ->
  SecurityConfig.seccomp sec = seccomp.Unconfined \/ SecurityConfig.no_new_privs sec = true.
Proof.
  unfold security.precheck. intros H Hp. rewrite Hp in H. apply bind_ok in H as (keep & _ & H).
  destruct (SecurityConfig.no_new_privs sec); [by right|]. left.
  by destruct (SecurityConfig.seccomp sec).
Qed.

(** C21: the order of the steps never takes away what a later one needs: the
    filter is not refused for want of [no_new_privs] or [CAP_SYS_ADMIN], and
    after a successful [apply] the switch to [--user] is not refused for want
    of a capability, whatever was dropped. *)
Theorem hardening_not_refused sec keep k :
  SecurityConfig.privileged sec = false -> SecurityConfig.cap_mask sec = Ok keep ->
  caps.last_cap k < 64 ->
  (forall c k', security.apply arch sec k <> (Err (Syscall "seccomp" EACCES c), k')) /\
  (forall k1 c x k2, security.apply arch sec k = (Ok tt, k1) ->
     security.switch_user sec k1 <> (Err (Syscall c EPERM x), k2)).
Proof.
  intros Hp Hk Hl. split.
  - intros c k' H. unfold security.apply in H. rewrite hm_bind_eq, Hp, Hk in H.
    destruct (security.precheck sec) as [[]|e] eqn:Hc; cbn [host.lift] in H;
      [|injection H as -> _; by eapply precheck_calls in Hc].
    rewrite hm_bind_eq in H. cbn [host.lift] in H. rewrite hm_bind_eq in H.
    destruct (caps.apply keep k) as [[[]|e] k1] eqn:E1;
      [|injection H as -> ->; by apply caps_apply_calls in E1].
    assert (SecurityConfig.seccomp sec = seccomp.Unconfined \/ SecurityConfig.no_new_privs sec = true)
      as Hor by (by eapply precheck_allows).
    rewrite hm_bind_eq in H.
    destruct (SecurityConfig.no_new_privs sec).
    + destruct (security.set_no_new_privs k1) as [[[]|e] k2] eqn:E2;
        [|apply chk_err in E2 as (n & _ & ->); by injection H as ? ? ?].
      apply chk_ok, set_nnp_ok in E2 as (Hn & _). rewrite hm_bind_eq in H.
      destruct (security.install _ _ k2) as [[n|e] k3] eqn:E3; [done|]. injection H as -> ->.
      eapply install_not_refused, E3. by right.
    + unfold mret at 1, HM_ret at 1 in H. rewrite hm_bind_eq in H. destruct Hor as [Hu|]; [|done].
      unfold security.install in H. by rewrite bool_decide_eq_true_2 in H by done.
  - intros k1 c x k2 Ha Hs. destruct (apply_hardens _ _ _ _ Hp Hk Hl Ha) as (He & _).
    unfold security.switch_user in Hs. pose proof (user_keeps _ _ Hk Hp) as Hu.
    destruct (SecurityConfig.user sec) as [[u g]|]; [|done].
    destruct Hu as [H1 H2]; [done|]. rewrite <- He in H1, H2. rewrite hm_bind_eq in Hs.
    destruct (security.caps_switch_user u g k1) as [[[]|e] k3] eqn:E; [done|].
    injection Hs as -> ->. by eapply switch_not_refused.
Qed.

(** ** [verify] *)

Lemma in_u_testbit w a i : 0 <= w -> in_u w a -> Z.testbit a i = true -> 0 <= i < w.
Proof.
  intros Hw Ha Hi. destruct (Z.neg_nonneg_cases i); [by rewrite Z.testbit_neg_r in Hi|].
  split; [done|]. destruct (Z.lt_ge_cases i w); [done|].
  rewrite <- (Z.mod_small a (2 ^ w)), Z.mod_pow2_bits_high in Hi by done || lia. done.
Qed.

Lemma land_not64 a m : in_u 64 a -> Z.land a (caps.not64 m) = 0 <-> within a m.
Proof.
  intros Ha. unfold caps.not64.
  assert (forall i, Z.testbit a i = true -> Z.testbit (Z.lxor m (Z.ones 64)) i = negb (Z.testbit m i)) as Hn.
  { intros i Hi%(in_u_testbit 64); [|done..]. rewrite Z.lxor_spec, Z.ones_spec_low by lia.
    apply xorb_true_r. }
  split.
  - intros H i Hi. apply (f_equal (fun z => Z.testbit z i)) in H.
    rewrite Z.land_spec, Z.testbit_0_l, Hi, Hn in H by done. by destruct (Z.testbit m i).
  - intros H. apply Z.bits_inj_0. intros i. rewrite Z.land_spec.
    destruct (Z.testbit a i) eqn:E; [|done]. by rewrite Hn, (H i E).
Qed.

Lemma mode_line_found pre l post r : strip_prefix "Seccomp:" l = Some r ->
  Forall (fun l => strip_prefix "Seccomp:" l = None) pre ->
  security.mode_line (pre ++ l :: post) = parse_u 32 (trim r).
Proof. intros Hl Hp. induction Hp as [|x pre Hx Hp IH]; cbn [app security.mode_line]; [by rewrite Hl|by rewrite Hx]. Qed.

Lemma mode_of_filters k text : proc_status k = Some text ->
  security.seccomp_mode_of k = Some (match filters k with [] => 0 | _ => 2 end).
Proof.
  intros H. unfold security.seccomp_mode_of. rewrite H.
  apply status_reports in H as (pre & post & Hl & Hp). cbn [mbind option_bind].
  rewrite Hl. erewrite mode_line_found; [|apply strip_prefix_app|done].
  by destruct (filters k).
Qed.

Lemma assert_dropped_iff m k d : sys_capget k = inr d ->
  in_u 64 (caps.effective k) -> in_u 64 (caps.permitted k) ->
  (security.assert_dropped m k).1 = Ok tt <->
  within (caps.effective k) m /\ within (caps.permitted k) m /\ caps.inheritable k = 0.
Proof.
  intros Hd He Hp. destruct d as [d0 d1]. destruct (capget_reports _ _ _ Hd) as (E1 & E2 & E3).
  unfold security.assert_dropped, security.get_caps. rewrite hm_bind_eq, Hd, E1, E2, E3.
  rewrite <- !land_not64 by done.
  destruct (Z.eqb_spec (Z.land (caps.effective k) (caps.not64 m)) 0),
    (Z.eqb_spec (Z.land (caps.permitted k) (caps.not64 m)) 0),
    (Z.eqb_spec (caps.inheritable k) 0); cbn; naive_solver.
Qed.

(** [verify] finds no problem exactly when the thread is as asked, as far
    as [verify] looks: both capability sets within the keep set and nothing
    inheritable, no [CAP_SYS_ADMIN], [no_new_privs] and a filter when asked
    for. *)
Theorem verify_exact sec keep k d text :
  SecurityConfig.privileged sec = false -> SecurityConfig.cap_mask sec = Ok keep ->
  sys_capget k = inr d -> in_u 64 (caps.effective k) -> in_u 64 (caps.permitted k) ->
  proc_status k = Some text ->
  security.verify sec k = [] <->
  within (caps.effective k) keep /\ within (caps.permitted k) keep /\ caps.inheritable k = 0 /\
  Z.testbit keep CAP_SYS_ADMIN = false /\
  (SecurityConfig.no_new_privs sec = true -> nnp k = true) /\
  (SecurityConfig.seccomp sec <> seccomp.Unconfined -> filters k <> []).
Proof.
  intros Hp Hk Hd He Hpe Ht. pose proof (assert_dropped_iff keep k d Hd He Hpe) as Ha.
  unfold security.verify, security.get_no_new_privs.
  rewrite Hp, Hk, (mode_of_filters _ _ Ht), (caps.land_bit64 keep 21) by done.
  rewrite negb_involutive. cbn [default]. change CAP_SYS_ADMIN with 21.
  assert ((security.assert_dropped keep k).1 = Ok tt \/
          exists e, (security.assert_dropped keep k).1 = Err e) as Hor
    by (destruct (security.assert_dropped keep k).1 as [[]|e]; eauto).
  destruct (security.assert_dropped keep k).1 as [[]|e].
  2: { destruct Hor as [|[? _]]; [done|]. naive_solver. }
  destruct (Z.testbit keep 21), (SecurityConfig.no_new_privs sec), (nnp k), (filters k),
    (decide (SecurityConfig.seccomp sec = seccomp.Unconfined));
    rewrite ?bool_decide_eq_true_2, ?bool_decide_eq_false_2 by done; cbn; naive_solver.
Qed.

End steps.

(** ** A thread *)

(** The sets of [caps.Thread] with the rest of the thread; the calls check
    the capabilities the manual pages ask for. *)
Record Task := MkTask {
  t_caps : caps.Thread; t_nnp : bool; t_filters : list (list seccomp.SockFilter);
  t_uid : Z; t_gid : Z; t_groups : list Z
}.

Definition on_caps (t : Task) (r : option Z * caps.Thread) : option Z * Task :=
  (r.1, MkTask r.2 (t_nnp t) (t_filters t) (t_uid t) (t_gid t) (t_groups t)).

#[local] Existing Instance caps.thread_kernel.
#[local] Existing Instance seccomp.bpf_machine.

Lemma on_caps_inv t r o t' : on_caps t r = (o, t') ->
  exists c, r = (o, c) /\ t' = MkTask c (t_nnp t) (t_filters t) (t_uid t) (t_gid t) (t_groups t).
Proof. destruct r as [o' c]. intros [= <- <-]. by exists c. Qed.

#[export, refine] Instance task_caps : caps.CapKernel Task := {
  cap_last_cap t := caps.cap_last_cap (t_caps t);
  ambient t := caps.ambient (t_caps t); bounding t := caps.bounding (t_caps t);
  effective t := caps.effective (t_caps t); permitted t := caps.permitted (t_caps t);
  inheritable t := caps.inheritable (t_caps t);
  ambient_clear_all t := on_caps t (caps.ambient_clear_all (t_caps t));
  capbset_drop c t := on_caps t (caps.capbset_drop c (t_caps t));
  capset e p i t := on_caps t (caps.capset e p i (t_caps t))
}.
Proof.
  - intros k k' H. apply on_caps_inv in H as (c & H & ->). exact (caps.ambient_clear_ok _ _ H).
  - intros k e k' H. apply on_caps_inv in H as (c & H & ->). exact (caps.ambient_clear_err _ _ _ H).
  - intros x k k' H. apply on_caps_inv in H as (c & H & ->). exact (caps.capbset_drop_ok _ _ _ H).
  - intros x k e k' H. apply on_caps_inv in H as (c & H & ->). exact (caps.capbset_drop_err _ _ _ _ H).
  - intros x k k' H. apply on_caps_inv in H as (c & H & ->). exact (caps.capbset_drop_unknown _ _ _ H).
  - intros e p i k k' H. apply on_caps_inv in H as (c & H & ->). exact (caps.capset_ok _ _ _ _ _ H).
Defined.

Definition low (x : Z) : Z := as_u32 x.
Definition high (x : Z) : Z := as_u32 (Z.shiftr x 32).

Definition holds (c : Z) (t : Task) : bool := Z.testbit (caps.effective t) c.

(** The sets after [setuid]: emptied on leaving user id 0. *)
Definition setuid_caps (u : Z) (t : Task) : caps.Thread :=
  let c := t_caps t in
  if (t_uid t =? 0) && negb (u =? 0)
  then {| caps.t_amb := 0; caps.t_bnd := caps.t_bnd c; caps.t_eff := 0; caps.t_perm := 0;
          caps.t_inh := caps.t_inh c |}
  else {| caps.t_amb := caps.t_amb c; caps.t_bnd := caps.t_bnd c;
          caps.t_eff := Z.land (caps.t_eff c) (caps.t_perm c); caps.t_perm := caps.t_perm c;
          caps.t_inh := caps.t_inh c |}.

Definition status_lines (t : Task) : list string :=
  ["Name:" +:+ tab +:+ "init"]
  ++ ("Seccomp:" +:+ tab +:+ (match t_filters t with [] => "0" | _ => "2" end)) :: ["SigQ:" +:+ tab +:+ "0/127"].

#[export] Instance task_ops : Thread_ops Task := {
  nnp := t_nnp; filters := t_filters; uid := t_uid; gid := t_gid; groups := t_groups;
  proc_status t := Some (unlines (status_lines t));
  sys_capget t :=
    let e := caps.effective t in let p := caps.permitted t in let i := caps.inheritable t in
    if bool_decide (0 <= e < 2 ^ 64 /\ 0 <= p < 2 ^ 64 /\ 0 <= i < 2 ^ 64)
    then inr (MkCapData (low e) (low p) (low i), MkCapData (high e) (high p) (high i))
    else inl EPERM;
  sys_capbset_read c t := if Z.testbit (caps.bounding t) c then 1 else 0;
  sys_set_nnp t := (None, MkTask (t_caps t) true (t_filters t) (t_uid t) (t_gid t) (t_groups t));
  sys_seccomp p t :=
    if t_nnp t || holds CAP_SYS_ADMIN t
    then (None, MkTask (t_caps t) (t_nnp t) (p :: t_filters t) (t_uid t) (t_gid t) (t_groups t))
    else (Some EACCES, t);
  sys_setgroups l t :=
    if holds CAP_SETGID t
    then (None, MkTask (t_caps t) (t_nnp t) (t_filters t) (t_uid t) (t_gid t) l)
    else (Some EPERM, t);
  sys_setgid g t :=
    if holds CAP_SETGID t
    then (None, MkTask (t_caps t) (t_nnp t) (t_filters t) (t_uid t) g (t_groups t))
    else (Some EPERM, t);
  sys_setuid u t :=
    if holds CAP_SETUID t
    then (None, MkTask (setuid_caps u t) (t_nnp t) (t_filters t) u (t_gid t) (t_groups t))
    else (Some EPERM, t);
  sys_getrlimit_nofile _ := Some (1024, 4096)
}.

Lemma within_0 a : within 0 a.
Proof. intros i. by rewrite Z.testbit_0_l. Qed.

Lemma within_land a b : within (Z.land a b) b.
Proof. intros i. rewrite Z.land_spec. by intros [_ ?]%andb_prop. Qed.

#[export] Instance task_laws : ThreadLaws Task.
Proof.
  split; cbn [sys_capget sys_set_nnp sys_seccomp sys_setgroups sys_setgid sys_setuid proc_status task_ops].
  - intros k d0 d1. case_bool_decide as Hr; [|done]. intros [= <- <-].
    unfold security.join, low, high. cbn [cd_effective cd_permitted cd_inheritable].
    by rewrite !caps.join_halves by (unfold in_u; tauto).
  - by intros k k' [= <-].
  - intros p k k'. destruct (_ || _); [|done]. by intros [= <-].
  - intros p k k'. destruct (t_nnp k) eqn:E; [done|]. unfold holds. cbn [orb nnp task_ops].
    destruct (Z.testbit _ _) eqn:E2; [done|]. done.
  - intros l k k'. destruct (holds _ _); [|done]. by intros [= <-].
  - intros l k k'. unfold holds. by destruct (Z.testbit _ _).
  - intros g k k'. destruct (holds _ _); [|done]. by intros [= <-].
  - intros g k k'. unfold holds. by destruct (Z.testbit _ _).
  - intros u k k'. destruct (holds _ _); [|done]. intros [= <-]. unfold setuid_caps.
    destruct (_ && _); split_and!; try done; try apply within_0; apply within_land.
  - intros u k k'. destruct (holds _ _); [|done]. intros [= <-] Hu Hn _. unfold setuid_caps.
    cbn [uid task_ops] in Hu. rewrite Hu, (proj2 (Z.eqb_neq u 0) Hn). done.
  - intros u k k'. unfold holds. by destruct (Z.testbit _ _).
  - intros k text H. apply (inj Some) in H as <-. rewrite lines_unlines.
    + eexists _, _. split; [reflexivity|]. by repeat constructor.
    + unfold status_lines. destruct (t_filters k); by repeat constructor.
Qed.

(** Root in the initial user namespace. *)
Definition root_task : Task := MkTask caps.root_thread false [] 0 0 [0; 27].

(** [--cap-drop all --user 1000:1000]. *)
Definition drop_all_sec : SecurityConfig.t :=
  SecurityConfig.Mk true [] ["all"] seccomp.Default [] [] (Some (1000, 1000)) false.

Definition dropped_task : Task := (security.apply seccomp.X86_64 drop_all_sec root_task).2.
Definition user_task : Task := (security.switch_user drop_all_sec dropped_task).2.

Lemma workload_confined_witness :
  confined seccomp.X86_64 seccomp.bpf_exec drop_all_sec 192 (caps.last_cap root_task) user_task /\
  (forall u g, SecurityConfig.user drop_all_sec = Some (u, g) ->
     uid user_task = u /\ gid user_task = g /\ groups user_task = [] /\
     (uid dropped_task = 0 -> u <> 0 -> caps.effective user_task = 0 /\ caps.permitted user_task = 0)).
Proof.
  apply (workload_confined seccomp.X86_64 seccomp.bpf_exec drop_all_sec 192 root_task dropped_task);
    vm_compute; reflexivity.
Defined.

Lemma hardening_not_refused_witness :
  (forall c k', security.apply seccomp.X86_64 drop_all_sec root_task
     <> (Err (Syscall "seccomp" EACCES c), k')) /\
  (forall k1 c x k2, security.apply seccomp.X86_64 drop_all_sec root_task = (Ok tt, k1) ->
     security.switch_user drop_all_sec k1 <> (Err (Syscall c EPERM x), k2)).
Proof.
  apply (hardening_not_refused seccomp.X86_64 seccomp.bpf_exec drop_all_sec 192 root_task);
    vm_compute; reflexivity.
Defined.

Lemma verify_exact_witness :
  security.verify drop_all_sec dropped_task = [] <->
  within (caps.effective dropped_task) 192 /\ within (caps.permitted dropped_task) 192 /\
  caps.inheritable dropped_task = 0 /\ Z.testbit 192 CAP_SYS_ADMIN = false /\
  (SecurityConfig.no_new_privs drop_all_sec = true -> nnp dropped_task = true) /\
  (SecurityConfig.seccomp drop_all_sec <> seccomp.Unconfined -> filters dropped_task <> []).
Proof.
  eapply (verify_exact drop_all_sec 192 dropped_task);
    first [vm_compute; reflexivity | vm_compute; split; congruence].
Defined.

(** The bounding set is not looked at: the capabilities an exec could regain
    go unnoticed. *)
Example verify_overlooks_bounding :
  let t := MkTask {| caps.t_amb := 0; caps.t_bnd := 2 ^ 41 - 1; caps.t_eff := 192;
                     caps.t_perm := 192; caps.t_inh := 0 |} true [[]] 0 0 [] in
  security.verify drop_all_sec t = [] /\ security.in_bounding_set CAP_SYS_ADMIN t = true.
Proof. vm_compute. done. Qed.

(** A retained [CAP_SYS_ADMIN] is reported also when it was asked for. *)
Example verify_reports_requested_cap :
  let sec := SecurityConfig.Mk true ["SYS_ADMIN"] [] seccomp.Default [] [] None false in
  security.verify sec (security.apply seccomp.X86_64 sec root_task).2 = ["CAP_SYS_ADMIN is retained"].
Proof. vm_compute. done. Qed.

(** The tests of the module. *)
Example summary_default :
  security.summary SecurityConfig.default = "12 capabilities, no_new_privs=true, seccomp=default".
Proof. vm_compute. done. Qed.
