(* ===== verification/Filesystem.v ===== *)
(** * The root of a container: [src/runtime/filesystem.rs]

    With the calls it makes through [src/sys/mount.rs] and [makedev] of
    [src/sys/ffi.rs].  The kernel is the class [MountKernel]: a call is a
    value, answered with nothing or an [errno]. *)
From S2P Require Import Prelude RustStr Num Error Fault Fs Host Config Mount.

Definition MS_RDONLY : Z := 1.
Definition MS_NOSUID : Z := 2.
Definition MS_NODEV : Z := 4.
Definition MS_NOEXEC : Z := 8.
Definition MS_REMOUNT : Z := 32.
Definition MS_BIND : Z := 4096.
Definition MS_REC : Z := 16384.
Definition MS_PRIVATE : Z := Z.shiftl 1 18.
Definition MS_STRICTATIME : Z := Z.shiftl 1 24.
Definition MNT_DETACH : Z := 2.
(** [0o020000]. *)
Definition S_IFCHR : Z := 0x2000.
Definition EEXIST : Z := 17.
(** [0o755] and [0o1777]; [0o666] is 438. *)
Definition MODE_755 : Z := 493.
Definition MODE_1777 : Z := 1023.

(** [makedev]. *)
Definition makedev (major minor : Z) : Z :=
  Z.lor (Z.lor (Z.lor (Z.land minor 0xff) (wrap_u 64 (Z.shiftl (Z.land major 0xfff) 8)))
               (wrap_u 64 (Z.shiftl (Z.ldiff minor 0xff) 12)))
        (wrap_u 64 (Z.shiftl (Z.ldiff major 0xfff) 32)).

(** The system calls. *)
Inductive Call :=
| CMount (source : option string) (target : string) (fstype : option string) (flags : Z) (data : option string)
| CUmount (target : string) (flags : Z)
| CPivotRoot (new_root put_old : string)
| CChdir (path : string)
| CMkdir (path : string) (mode : Z)
| CSymlink (target linkpath : string)
| CMknod (path : string) (mode dev : Z)
| CTouch (path : string)
| CUnlink (path : string).

#[export] Instance Call_eq_dec : EqDecision Call.
Proof. solve_decision. Defined.

Class MountKernel (H : Type) := {
  sys_do : Call -> H -> option Z * H;
  (** [Path::exists]. *)
  path_exists : string -> H -> bool;
  (** [metadata(p)]: the text of the error or whether it is a directory. *)
  stat_dir : string -> H -> string + bool;
  (** [symlink_metadata(p)]. *)
  lstat_dir : string -> H -> option bool
}.

(** ** [src/sys/mount.rs] *)
Module mnt.
Section ops.
Context {H : Type} `{MountKernel H}.

Definition cstr (s : string) : result string :=
  if contains_char "000" s then Err (Error.Config ("string contains a NUL byte: " +:+ debug_str s)) else Ok s.

Definition cstr_opt (s : option string) : result unit :=
  match s with Some s => _ ← cstr s; Ok tt | None => Ok tt end.

(** [chk(rc, call, ctx)]. *)
Definition call (c : Call) (name ctx : string) : HM H unit := fun h =>
  match sys_do c h with
  | (None, h') => (Ok tt, h')
  | (Some e, h') => (Err (Syscall name e ctx), h')
  end.

(** The same, where [EEXIST] counts as success. *)
Definition call_exist (c : Call) (name ctx : string) : HM H unit := fun h =>
  match sys_do c h with
  | (None, h') => (Ok tt, h')
  | (Some e, h') => if e =? EEXIST then (Ok tt, h') else (Err (Syscall name e ctx), h')
  end.

Definition mount (source : option string) (target : string) (fstype : option string) (flags : Z)
    (data : option string) : HM H unit :=
  _ ← host.lift (cstr_opt source);
  _ ← host.lift (cstr target);
  _ ← host.lift (cstr_opt fstype);
  _ ← host.lift (cstr_opt data);
  call (CMount source target fstype flags data) "mount"
    ("source=" +:+ debug_str (default "-" source) +:+ " target=" +:+ target
     +:+ " fstype=" +:+ debug_str (default "-" fstype) +:+ " flags=0x" +:+ show_u 16 flags
     +:+ " data=" +:+ debug_str (default "-" data)).

Definition umount (target : string) (flags : Z) : HM H unit :=
  _ ← host.lift (cstr target); call (CUmount target flags) "umount2" target.

Definition make_rprivate (path : string) : HM H unit :=
  mount None path None (Z.lor MS_REC MS_PRIVATE) None.

Definition bind (source target : string) (recursive : bool) : HM H unit :=
  let flags := if recursive then Z.lor MS_BIND MS_REC else MS_BIND in
  mount (Some source) target None flags None.

Definition remount_ro (target : string) (extra_flags : Z) : HM H unit :=
  mount None target None (Z.lor (Z.lor (Z.lor MS_REMOUNT MS_BIND) MS_RDONLY) extra_flags) None.

Definition pivot_root (new_root put_old : string) : HM H unit :=
  _ ← host.lift (cstr new_root);
  _ ← host.lift (cstr put_old);
  call (CPivotRoot new_root put_old) "pivot_root" ("new_root=" +:+ new_root +:+ " put_old=" +:+ put_old).

Definition chdir (path : string) : HM H unit :=
  _ ← host.lift (cstr path); call (CChdir path) "chdir" path.

Definition mkdir (path : string) (mode : Z) : HM H unit :=
  _ ← host.lift (cstr path); call_exist (CMkdir path mode) "mkdir" path.

(** [Path::components]: empty parts and inner dots are dropped. *)
Fixpoint normal_parts (l : list string) : list string :=
  match l with
  | [] => []
  | p :: l' => if str_is_empty p || bool_decide (p = ".") then normal_parts l' else p :: normal_parts l'
  end.

Definition components (p : string) : list string :=
  if starts_with "/" p then "/" :: normal_parts (split_on "/" p)
  else match split_on "/" p with
       | "." :: l => "." :: normal_parts l
       | l => normal_parts l
       end.

(** The loop of [mkdir_p] over the components. *)
Fixpoint mkdir_parts (cur : string) (l : list string) (mode : Z) : HM H unit :=
  match l with
  | [] => mret tt
  | comp :: l' =>
      let cur := path.join cur comp in
      _ ← (if str_is_empty cur || bool_decide (cur = "/") then mret tt else mkdir cur mode);
      mkdir_parts cur l' mode
  end.

Definition mkdir_p (p : string) (mode : Z) : HM H unit := mkdir_parts "" (components p) mode.

(** [Path::parent], as its components. *)
Definition parent_parts (p : string) : option (list string) :=
  match components p with
  | [] => None
  | ["/"] => None
  | l => Some (removelast l)
  end.

Definition symlink (target linkpath : string) : HM H unit :=
  _ ← host.lift (cstr target);
  _ ← host.lift (cstr linkpath);
  call_exist (CSymlink target linkpath) "symlink" (linkpath +:+ " -> " +:+ target).

Definition mknod_char (path : string) (mode major minor : Z) : HM H unit :=
  _ ← host.lift (cstr path);
  call_exist (CMknod path (Z.lor S_IFCHR mode) (makedev major minor)) "mknod"
    (path +:+ " c " +:+ show_dec major +:+ ":" +:+ show_dec minor).

Definition touch (path : string) : HM H unit :=
  _ ← host.lift (cstr path); call_exist (CTouch path) "open" path.

(** [std::fs::remove_file]; only [make_devices] calls it, and drops the result. *)
Definition remove_file (path : string) : HM H unit :=
  call (CUnlink path) "unlink" path.

(** [path.exists()] and the two kinds of metadata. *)
Definition exists_ (p : string) : HM H bool := fun h => (Ok (path_exists p h), h).
Definition metadata (p : string) : HM H (string + bool) := fun h => (Ok (stat_dir p h), h).
Definition symlink_metadata (p : string) : HM H (option bool) := fun h => (Ok (lstat_dir p h), h).

End ops.
End mnt.

(** ** [src/runtime/filesystem.rs] *)
Module filesystem.

Definition DEVICES : list (string * Z * Z * Z) :=
  [ ("null", 1, 3, 438); ("zero", 1, 5, 438); ("full", 1, 7, 438);
    ("random", 1, 8, 438); ("urandom", 1, 9, 438); ("tty", 5, 0, 438) ].

Definition DEV_SYMLINKS : list (string * string) :=
  [ ("/proc/self/fd", "fd"); ("/proc/self/fd/0", "stdin"); ("/proc/self/fd/1", "stdout");
    ("/proc/self/fd/2", "stderr"); ("/proc/kcore", "core") ].

(** [trim_start_matches('/')]. *)
Fixpoint trim_slashes (s : string) : string :=
  match s with
  | String a s' => if ascii_dec a "/" then trim_slashes s' else s
  | EmptyString => ""
  end.

Definition join (root rel : string) : string := path.join root (trim_slashes rel).

Section ops.
Context (MYRUN_FAULT : option string) {H : Type} `{MountKernel H}.

Definition check (point : string) : HM H unit := host.lift (fault.check MYRUN_FAULT point).

(** One round of the loop over [DEVICES]. *)
Definition make_device (dev_dir : string) (d : string * Z * Z * Z) : HM H unit :=
  let '(name, major, minor, mode) := d in
  let target := path.join dev_dir name in
  r ← host.try (mnt.mknod_char target mode major minor);
  match r with
  | Ok _ => mret tt
  | Err e =>
      let hostdev := path.join "/dev" name in
      found ← mnt.exists_ hostdev;
      if negb (found : bool) then mret tt
      else
        _ ← mnt.touch target;
        host.map_err (fun e2 => Container ("could not provide /dev/" +:+ name +:+ ": mknod said "
                                +:+ error_str e +:+ ", bind said " +:+ error_str e2))
          (mnt.bind hostdev target false)
  end.

(** One round of the loop over [DEV_SYMLINKS]. *)
Definition make_link (dev_dir : string) (l : string * string) : HM H unit :=
  let '(target, name) := l in
  let link := path.join dev_dir name in
  found ← mnt.exists_ link;
  if found : bool then mret tt else host.ignore (mnt.symlink target link).

Definition make_devices (dev_dir : string) : HM H unit :=
  _ ← host.for_each (make_device dev_dir) DEVICES;
  let ptmx := path.join dev_dir "ptmx" in
  _ ← host.ignore (mnt.remove_file ptmx);
  _ ← host.ignore (mnt.symlink "pts/ptmx" ptmx);
  host.for_each (make_link dev_dir) DEV_SYMLINKS.

(** One round of [mount_volumes]. *)
Definition mount_volume (root : string) (spec : MountSpec.t) : HM H unit :=
  let target := join root (MountSpec.destination spec) in
  _ ← (if bool_decide (MountSpec.fstype spec = "tmpfs") then
         _ ← mnt.mkdir_p target MODE_755;
         mnt.mount (Some "tmpfs") target (Some "tmpfs") (Z.lor MS_NOSUID MS_NODEV) None
       else
         let source := MountSpec.source spec in
         meta ← mnt.metadata source;
         dir ← host.lift (match meta with
                          | inl e => Err (Error.Config ("bind mount source " +:+ source +:+ ": " +:+ e))
                          | inr d => Ok d
                          end);
         _ ← (if dir : bool then mnt.mkdir_p target MODE_755
              else
                _ ← match mnt.parent_parts target with
                    | Some l => mnt.mkdir_parts "" l MODE_755
                    | None => mret tt
                    end;
                mnt.touch target);
         mnt.bind source target true);
  if MountSpec.readonly spec then mnt.remount_ro target MS_REC else mret tt.

Definition mount_volumes (root : string) (mounts : list MountSpec.t) : HM H unit :=
  host.for_each (mount_volume root) mounts.

Definition NSD : Z := Z.lor (Z.lor MS_NOSUID MS_NOEXEC) MS_NODEV.

Definition mount_proc (root : string) : HM H unit :=
  let proc_dir := join root "proc" in
  _ ← mnt.mkdir_p proc_dir MODE_755;
  mnt.mount (Some "proc") proc_dir (Some "proc") NSD None.

Definition mount_sys (root : string) : HM H unit :=
  let sys_dir := join root "sys" in
  _ ← mnt.mkdir_p sys_dir MODE_755;
  let sys_flags := Z.lor NSD MS_RDONLY in
  r ← host.try (mnt.mount (Some "sysfs") sys_dir (Some "sysfs") sys_flags None);
  match r with
  | Ok _ => mret tt
  | Err _ => _ ← mnt.bind "/sys" sys_dir true; mnt.remount_ro sys_dir MS_REC
  end.

(** [/dev] with [pts], [shm] and [mqueue]. *)
Definition mount_dev (dev_dir : string) : HM H unit :=
  _ ← mnt.mkdir_p dev_dir MODE_755;
  _ ← mnt.mount (Some "tmpfs") dev_dir (Some "tmpfs") (Z.lor MS_NOSUID MS_STRICTATIME)
        (Some "mode=755,size=65536k");
  let pts := path.join dev_dir "pts" in
  _ ← mnt.mkdir_p pts MODE_755;
  _ ← host.ignore (mnt.mount (Some "devpts") pts (Some "devpts") (Z.lor MS_NOSUID MS_NOEXEC)
        (Some "gid=5,mode=620,ptmxmode=666"));
  let shm := path.join dev_dir "shm" in
  _ ← mnt.mkdir_p shm MODE_755;
  _ ← mnt.mount (Some "shm") shm (Some "tmpfs") NSD (Some "mode=1777,size=65536k");
  let mqueue := path.join dev_dir "mqueue" in
  _ ← mnt.mkdir_p mqueue MODE_755;
  host.ignore (mnt.mount (Some "mqueue") mqueue (Some "mqueue") NSD None).

Definition mount_tmp (root : string) : HM H unit :=
  let tmp := join root "tmp" in
  _ ← mnt.mkdir_p tmp MODE_1777;
  mnt.mount (Some "tmpfs") tmp (Some "tmpfs") (Z.lor MS_NOSUID MS_NODEV) (Some "mode=1777,size=131072k").

Definition mount_standard (root : string) (cfg : ContainerConfig.t) : HM H unit :=
  _ ← mount_proc root;
  _ ← mount_sys root;
  let dev_dir := join root "dev" in
  _ ← mount_dev dev_dir;
  _ ← mount_tmp root;
  _ ← make_devices dev_dir;
  mount_volumes root (ContainerConfig.mounts cfg).

(** One round of [mask_paths]. *)
Definition mask_path (p : string) : HM H unit :=
  meta ← mnt.symlink_metadata p;
  match meta with
  | None => mret tt
  | Some dir =>
      host.ignore
        (if dir : bool then
           mnt.mount (Some "tmpfs") p (Some "tmpfs")
             (Z.lor (Z.lor (Z.lor MS_RDONLY MS_NOSUID) MS_NODEV) MS_NOEXEC) (Some "size=0k")
         else mnt.bind "/dev/null" p false)
  end.

Definition mask_paths (paths : list string) : HM H unit := host.for_each mask_path paths.

(** One round of [readonly_paths]. *)
Definition readonly_path (p : string) : HM H unit :=
  found ← mnt.exists_ p;
  if negb found then mret tt
  else
    r ← host.try (mnt.bind p p true);
    match r with
    | Err _ => mret tt
    | Ok _ => host.ignore (mnt.remount_ro p MS_REC)
    end.

Definition readonly_paths (paths : list string) : HM H unit := host.for_each readonly_path paths.

(** Step 5. *)
Definition pivot (root : string) : HM H unit :=
  _ ← mnt.chdir root;
  _ ← mnt.pivot_root "." ".";
  _ ← mnt.umount "." MNT_DETACH;
  mnt.chdir "/".

Definition setup (cfg : ContainerConfig.t) : HM H unit :=
  let root := ContainerConfig.rootfs cfg in
  let sec := ContainerConfig.security cfg in
  _ ← mnt.make_rprivate "/";
  _ ← mnt.bind root root true;
  _ ← mount_standard root cfg;
  _ ← (if ContainerConfig.read_only cfg then mnt.remount_ro root 0 else mret tt);
  _ ← check "before_pivot_root";
  _ ← pivot root;
  _ ← check "after_pivot_root";
  if negb (SecurityConfig.privileged sec) then
    _ ← mask_paths (SecurityConfig.masked_paths sec);
    readonly_paths (SecurityConfig.readonly_paths sec)
  else mret tt.

Definition enter_cwd (cwd : string) : HM H unit :=
  host.map_err (fun e => Container ("working directory " +:+ cwd
                          +:+ " does not exist in the container: " +:+ error_str e))
    (mnt.chdir cwd).

End ops.

(** [host_root_is_detached], of the entries of the mount table. *)
Definition root_entries (l : list MountEntry.t) : Z :=
  Z.of_nat (length (filter (fun m => MountEntry.mount_point m = "/") l)).

Definition host_root_is_detached (entries : result (list MountEntry.t)) : bool :=
  match entries with Ok l => root_entries l =? 1 | Err _ => false end.

End filesystem.
