(* ===== verification/FilesystemFacts.v ===== *)
(** * What building the root of a container does to the host

    A kernel that keeps a log of the calls and their answers, a small logic
    for what programs add to it, and the theorems about [filesystem.setup]:
    the order of the steps, that everything before the pivot stays beneath the
    new root, that volumes are mounted and sealed and that paths are masked.
    They hold for every kernel, whatever it answers. *)
From S2P Require Import Prelude RustStr Num Error Fault Fs Host Config Filesystem.

(** A call and its answer. *)
Definition Ev : Type := Call * option Z.
Definition Logged (H : Type) : Type := list Ev * H.

#[export] Instance logged_kernel {H} `{!MountKernel H} : MountKernel (Logged H) := {
  sys_do c lh := let '(r, h') := sys_do c (snd lh) in (r, (fst lh ++ [(c, r)], h'));
  path_exists p lh := path_exists p (snd lh);
  stat_dir p lh := stat_dir p (snd lh);
  lstat_dir p lh := lstat_dir p (snd lh)
}.

(** ** What a program adds to the log *)

Section logic.
Context {H : Type} `{MK : !MountKernel H}.

(** The host after the calls of a log. *)
Definition replay (h : H) (evs : list Ev) : H := foldl (fun h e => snd (sys_do (fst e) h)) h evs.

Lemma replay_app h e1 e2 : replay h (e1 ++ e2) = replay (replay h e1) e2.
Proof. apply foldl_app. Qed.

(** [htraces m S]: [S] holds of the host [m] starts on, of its answer and of
    the calls it made; the host is changed by these calls only. *)
Definition htraces {A} (m : HM (Logged H) A) (S : H -> result A -> list Ev -> Prop) : Prop :=
  forall lh, exists evs, snd (m lh) = (fst lh ++ evs, replay (snd lh) evs) /\ S (snd lh) (fst (m lh)) evs.

(** [traces m S]: [S] holds of the answer of [m] and of the calls it made. *)
Definition traces {A} (m : HM (Logged H) A) (S : result A -> list Ev -> Prop) : Prop :=
  htraces m (fun _ => S).

(** Every call of [m] satisfies [P]. *)
Definition alls {A} (P : Ev -> Prop) (m : HM (Logged H) A) : Prop := traces m (fun _ evs => Forall P evs).

(** When [m] succeeds, its calls are as [Q] says. *)
Definition oks {A} (m : HM (Logged H) A) (Q : A -> list Ev -> Prop) : Prop :=
  traces m (fun r evs => forall a, r = Ok a -> Q a evs).

(** The same with the host [m] starts on. *)
Definition hoks {A} (m : HM (Logged H) A) (Q : H -> A -> list Ev -> Prop) : Prop :=
  htraces m (fun h r evs => forall a, r = Ok a -> Q h a evs).

Lemma traces_conseq {A} (m : HM (Logged H) A) (S S' : _ -> _ -> Prop) :
  traces m S -> (forall r evs, S r evs -> S' r evs) -> traces m S'.
Proof. intros Hm Hi lh. destruct (Hm lh) as (evs & ? & ?). eauto. Qed.

Lemma traces_bind {A B} (m : HM (Logged H) A) (f : A -> HM (Logged H) B) S1 S2 :
  traces m S1 -> (forall a, traces (f a) (S2 a)) ->
  traces (m ≫= f) (fun r evs =>
    (exists e, r = Err e /\ S1 (Err e) evs) \/
    (exists a e1 e2, evs = e1 ++ e2 /\ S1 (Ok a) e1 /\ S2 a r e2)).
Proof.
  intros Hm Hf lh. destruct (Hm lh) as (e1 & E1 & H1). rewrite hm_bind_eq.
  destruct (m lh) as [[a|e] lh1]; cbn [fst snd] in *.
  - destruct (Hf a lh1) as (e2 & E2 & H2). exists (e1 ++ e2).
    subst lh1. cbn [fst snd] in *. rewrite E2, replay_app, (assoc_L (++)). split; [done|]. right. by exists a, e1, e2.
  - exists e1. split; [done|]. left. eauto.
Qed.

Lemma hoks_bind {A B} (m : HM (Logged H) A) (f : A -> HM (Logged H) B) Q1 Q2 :
  hoks m Q1 -> (forall a, hoks (f a) (Q2 a)) ->
  hoks (m ≫= f) (fun h b evs => exists a e1 e2, evs = e1 ++ e2 /\ Q1 h a e1 /\ Q2 a (replay h e1) b e2).
Proof.
  intros Hm Hf lh. destruct (Hm lh) as (e1 & E1 & H1). rewrite hm_bind_eq.
  destruct (m lh) as [[a|e] lh1]; cbn [fst snd] in *.
  - destruct (Hf a lh1) as (e2 & E2 & H2). exists (e1 ++ e2).
    subst lh1. cbn [fst snd] in *. rewrite E2, replay_app, (assoc_L (++)). split; [done|]. intros b Hb.
    exists a, e1, e2. auto.
  - exists e1. split; [done|]. done.
Qed.

Lemma hoks_of {A} (m : HM (Logged H) A) Q : oks m Q -> hoks m (fun _ => Q).
Proof. done. Qed.

Lemma hoks_conseq {A} (m : HM (Logged H) A) (Q Q' : _ -> _ -> _ -> Prop) :
  hoks m Q -> (forall h a evs, Q h a evs -> Q' h a evs) -> hoks m Q'.
Proof. intros Hm Hi lh. destruct (Hm lh) as (evs & E & Hq). exists evs. split; [done|]. auto. Qed.

Lemma traces_here {A} (m : HM (Logged H) A) (S : _ -> _ -> Prop) :
  (forall lh, snd (m lh) = lh /\ S (fst (m lh)) []) -> traces m S.
Proof. intros Hm [l h]. exists []. destruct (Hm (l, h)) as [-> ?]. cbn. by rewrite List.app_nil_r. Qed.

(** *** [alls] *)

Section alls.
Context (P : Ev -> Prop).

Lemma alls_ret {A} (a : A) : alls P (mret a).
Proof. by apply traces_here. Qed.
Lemma alls_fail {A} e : alls P (host.fail (A := A) e).
Proof. by apply traces_here. Qed.
Lemma alls_lift {A} (r : result A) : alls P (host.lift r).
Proof. by apply traces_here. Qed.

Lemma alls_bind {A B} (m : HM (Logged H) A) (f : A -> HM (Logged H) B) :
  alls P m -> (forall a, alls P (f a)) -> alls P (m ≫= f).
Proof.
  intros Hm Hf.
  eapply traces_conseq; [exact (traces_bind _ _ _ (fun _ _ evs => Forall P evs) Hm Hf)|]. cbn.
  intros r evs [(e & _ & ?)|(a & e1 & e2 & -> & ? & ?)]; [done|]. by apply Forall_app.
Qed.

Lemma alls_ignore {A} (m : HM (Logged H) A) : alls P m -> alls P (host.ignore m).
Proof. intros Hm lh. specialize (Hm lh). unfold host.ignore. by destruct (m lh). Qed.
Lemma alls_try {A} (m : HM (Logged H) A) : alls P m -> alls P (host.try m).
Proof. intros Hm lh. specialize (Hm lh). unfold host.try. by destruct (m lh). Qed.
Lemma alls_map_err {A} f (m : HM (Logged H) A) : alls P m -> alls P (host.map_err f m).
Proof. intros Hm lh. specialize (Hm lh). unfold host.map_err. by destruct (m lh). Qed.

Lemma alls_for_each {A} (f : A -> HM (Logged H) unit) l :
  (forall x, x ∈ l -> alls P (f x)) -> alls P (host.for_each f l).
Proof.
  induction l as [|x l IH]; intros Hf; cbn [host.for_each]; [apply alls_ret|].
  apply alls_bind; [apply Hf; constructor|]. intros _. apply IH. intros y Hy. apply Hf. by constructor.
Qed.
End alls.

(** *** [oks] *)

Lemma oks_conseq {A} (m : HM (Logged H) A) (Q Q' : _ -> _ -> Prop) :
  oks m Q -> (forall a evs, Q a evs -> Q' a evs) -> oks m Q'.
Proof. intros Hm Hi. eapply traces_conseq; [exact Hm|]. cbn. intros r evs Hr a Ha. by apply Hi, Hr. Qed.

Lemma oks_ret {A} (a : A) : oks (mret a) (fun b evs => b = a /\ evs = []).
Proof. apply traces_here. split; [done|]. by intros b [= <-]. Qed.

Lemma oks_lift {A} (r : result A) : oks (host.lift r) (fun a evs => r = Ok a /\ evs = []).
Proof. apply traces_here. split; [done|]. cbn. auto. Qed.

Lemma oks_bind {A B} (m : HM (Logged H) A) (f : A -> HM (Logged H) B) Q1 Q2 :
  oks m Q1 -> (forall a, oks (f a) (Q2 a)) ->
  oks (m ≫= f) (fun b evs => exists a e1 e2, evs = e1 ++ e2 /\ Q1 a e1 /\ Q2 a b e2).
Proof.
  intros Hm Hf. eapply traces_conseq.
  { exact (traces_bind _ _ _ (fun a r evs => forall b, r = Ok b -> Q2 a b evs) Hm Hf). } cbn.
  intros r evs [(e & -> & _)|(a & e1 & e2 & -> & H1 & H2)] b Hb; [done|].
  exists a, e1, e2. auto.
Qed.

Lemma oks_any {A} (m : HM (Logged H) A) : alls (fun _ => True) m -> oks m (fun _ _ => True).
Proof. intros Hm. eapply traces_conseq; [exact Hm|]. done. Qed.

(** From the rules to a run. *)
Lemma alls_run {A} P (m : HM (Logged H) A) h r log h' :
  alls P m -> m ([], h) = (r, (log, h')) -> Forall P log.
Proof. intros Hm E. destruct (Hm ([], h)) as (evs & Hl & He). rewrite E in Hl. by injection Hl as -> _. Qed.

Lemma hoks_run {A} (m : HM (Logged H) A) Q h a log h' :
  hoks m Q -> m ([], h) = (Ok a, (log, h')) -> h' = replay h log /\ Q h a log.
Proof.
  intros Hm E. destruct (Hm ([], h)) as (evs & Hl & He). rewrite E in Hl, He. injection Hl as -> ->. auto.
Qed.

End logic.

(** ** The calls of [mnt] *)

Section calls.
Context {H : Type} `{MK : !MountKernel H}.

Lemma call_logged c n x l (h : H) : exists rc,
  snd (mnt.call (H := Logged H) c n x (l, h)) = (l ++ [(c, rc)], replay h [(c, rc)]) /\
  (rc = None -> fst (mnt.call (H := Logged H) c n x (l, h)) = Ok tt) /\
  (rc <> None -> exists e, fst (mnt.call (H := Logged H) c n x (l, h)) = Err e).
Proof.
  unfold mnt.call. cbn. destruct (sys_do c h) as [[e|] h'] eqn:E; cbn; eexists; (split; [reflexivity|]); split; try done; eauto.
Qed.

Lemma alls_call P c n x : (forall rc, P (c, rc)) -> alls (H := H) P (mnt.call c n x).
Proof.
  intros Hc [l h]. destruct (call_logged c n x l h) as (rc & E & _). exists [(c, rc)]. split; [done|]. by repeat constructor.
Qed.

Lemma alls_call_exist P c n x : (forall rc, P (c, rc)) -> alls (H := H) P (mnt.call_exist c n x).
Proof.
  intros Hc [l h]. exists [(c, fst (sys_do c h))]. split; [|by repeat constructor].
  unfold mnt.call_exist. cbn. destruct (sys_do c h) as [[e|] h']; cbn; [by case_match|done].
Qed.

Lemma oks_call c n x : oks (H := H) (mnt.call c n x) (fun _ evs => evs = [(c, None)]).
Proof.
  intros [l h]. destruct (call_logged c n x l h) as (rc & E & H1 & H2). exists [(c, rc)]. split; [done|].
  intros a Ha. destruct rc as [e|]; [|done]. destruct H2 as [e' H2]; [done|]. cbn in Ha. congruence.
Qed.

Lemma alls_query {A} P (f : Logged H -> A) : alls P (fun lh => (Ok (f lh), lh)).
Proof. by apply traces_here. Qed.

End calls.

(** Goes through a program and leaves its calls and branches on data. *)
Ltac alls_step :=
  match goal with
  | |- alls _ (@mret _ _ _ _) => apply alls_ret
  | |- alls _ (host.fail _) => apply alls_fail
  | |- alls _ (host.lift _) => apply alls_lift
  | |- alls _ (@mbind _ _ _ _ _ _) => apply alls_bind; [|intros ?]
  | |- alls _ (host.ignore _) => apply alls_ignore
  | |- alls _ (host.try _) => apply alls_try
  | |- alls _ (host.map_err _ _) => apply alls_map_err
  | |- alls _ (host.for_each _ _) => apply alls_for_each; intros ? ?
  | |- alls _ (mnt.call _ _ _) => apply alls_call
  | |- alls _ (mnt.call_exist _ _ _) => apply alls_call_exist
  | |- alls _ (mnt.exists_ _) => apply alls_query
  | |- alls _ (mnt.metadata _) => apply alls_query
  | |- alls _ (mnt.symlink_metadata _) => apply alls_query
  | |- alls _ (if ?b then _ else _) => destruct b
  | |- alls _ (match ?x with _ => _ end) => destruct x eqn:?
  end.

Section calls2.
Context {H : Type} `{MK : !MountKernel H}.

Lemma alls_mount P s t f fl d : (forall rc, P (CMount s t f fl d, rc)) ->
  alls (H := H) P (mnt.mount s t f fl d).
Proof. intros Hc. unfold mnt.mount. by repeat alls_step. Qed.

Lemma alls_mkdir_parts P cur l mode :
  (forall k rc, (k < length l)%nat -> P (CMkdir (foldl path.join cur (take (S k) l)) mode, rc)) ->
  alls (H := H) P (mnt.mkdir_parts cur l mode).
Proof.
  revert cur. induction l as [|c l IH]; intros cur Hc; cbn [mnt.mkdir_parts]; [apply alls_ret|].
  apply alls_bind.
  - destruct (_ || _); [apply alls_ret|]. unfold mnt.mkdir. repeat alls_step. intros rc.
    apply (Hc O). cbn. lia.
  - intros _. apply IH. intros k rc Hk. apply (Hc (S k)). cbn. lia.
Qed.

Lemma alls_symlink P t l : (forall rc, P (CSymlink t l, rc)) -> alls (H := H) P (mnt.symlink t l).
Proof. intros Hc. unfold mnt.symlink. by repeat alls_step. Qed.

Lemma alls_touch P p : (forall rc, P (CTouch p, rc)) -> alls (H := H) P (mnt.touch p).
Proof. intros Hc. unfold mnt.touch. by repeat alls_step. Qed.

Lemma alls_mknod P p mode ma mi :
  (forall rc, P (CMknod p (Z.lor S_IFCHR mode) (makedev ma mi), rc)) ->
  alls (H := H) P (mnt.mknod_char p mode ma mi).
Proof. intros Hc. unfold mnt.mknod_char. by repeat alls_step. Qed.

Lemma oks_mount s t f fl d :
  oks (H := H) (mnt.mount s t f fl d) (fun _ evs => evs = [(CMount s t f fl d, None)]).
Proof.
  unfold mnt.mount.
  eapply oks_conseq.
  { repeat (apply oks_bind; [apply oks_lift|intros ?]). apply oks_call. }
  cbn. naive_solver.
Qed.

Lemma oks_chdir p : oks (H := H) (mnt.chdir p) (fun _ evs => evs = [(CChdir p, None)]).
Proof.
  unfold mnt.chdir. eapply oks_conseq; [apply oks_bind; [apply oks_lift|intros ?; apply oks_call]|].
  cbn. naive_solver.
Qed.
End calls2.

(** ** Paths beneath the root *)

(** [p] is [root] or lies below it, without leaving it on the way. *)
Definition beneath (root p : string) : Prop :=
  exists rest, mnt.components p = mnt.components root ++ rest /\ ".." ∉ rest.

(** A directory on the way to the root. *)
Definition above (root p : string) : Prop := mnt.components p `prefix_of` mnt.components root.

Definition part_ok (c : string) : Prop := c <> "" /\ c <> "." /\ contains_char "/" c = false.

Lemma contains_app c a b : contains_char c (a +:+ b) = contains_char c a || contains_char c b.
Proof. induction a as [|x a IH]; cbn; [done|]. destruct (ascii_dec x c); [done|]. exact IH. Qed.

Lemma split_on_sep c a b : split_on c (a +:+ String c b) = split_on c a ++ split_on c b.
Proof.
  induction a as [|x a IH]; cbn.
  - by destruct (ascii_dec c c).
  - destruct (ascii_dec x c); [by rewrite IH|]. change ((a +:+ String c b)) with (String.append a (String c b)) in IH.
    rewrite IH. pose proof (split_on_nonempty c a). by destruct (split_on c a).
Qed.

Lemma normal_parts_app l1 l2 : mnt.normal_parts (l1 ++ l2) = mnt.normal_parts l1 ++ mnt.normal_parts l2.
Proof. induction l1 as [|x l1 IH]; cbn; [done|]. case_match; [done|]. cbn. by rewrite IH. Qed.

Lemma normal_parts_id l : Forall part_ok l -> mnt.normal_parts l = l.
Proof.
  induction 1 as [|x l (H1 & H2 & _) _ IH]; cbn; [done|]. rewrite bool_decide_eq_false_2 by done.
  destruct x; [done|]. cbn. by rewrite IH.
Qed.

Lemma split_parts_plain c s : Forall (fun p => contains_char c p = false) (split_on c s).
Proof.
  induction s as [|a s IH]; cbn; [by repeat constructor|]. destruct (ascii_dec a c) as [->|Hn]; [by constructor|].
  pose proof (split_on_nonempty c s). destruct (split_on c s) as [|p l]; [done|].
  inversion IH; subst. constructor; [|done]. cbn. by destruct (ascii_dec a c).
Qed.

Lemma normal_parts_ok s : Forall part_ok (mnt.normal_parts (split_on "/" s)).
Proof.
  pose proof (split_parts_plain "/" s) as Hs. induction Hs as [|p l Hp Hl IH]; cbn; [constructor|].
  destruct (str_is_empty p || bool_decide (p = ".")) eqn:E; [done|].
  apply orb_false_iff in E as [E1 E2%bool_decide_eq_false]. constructor; [|done].
  split_and!; [by intros ->|done|done].
Qed.

Lemma trim_slashes_parts s :
  mnt.normal_parts (split_on "/" (filesystem.trim_slashes s)) = mnt.normal_parts (split_on "/" s).
Proof.
  induction s as [|a s IH]; [done|]. cbn [filesystem.trim_slashes]. destruct (ascii_dec a "/") as [->|]; [|done].
  rewrite IH. cbn [split_on]. by destruct (ascii_dec "/" "/").
Qed.

Lemma trim_slashes_rel s : starts_with "/" (filesystem.trim_slashes s) = false.
Proof.
  induction s as [|a s IH]; [done|]. cbn [filesystem.trim_slashes].
  destruct (ascii_dec a "/") as [->|Hn]; [done|]. unfold starts_with. cbn [strip_prefix].
  by destruct (ascii_dec "/" a) as [<-|].
Qed.

Lemma ends_with_split c s : ends_with (String c "") s = true -> exists s', s = s' +:+ String c "".
Proof.
  unfold ends_with, strip_suffix. destruct (strip_prefix _ _) as [r|] eqn:E; [|done]. intros _.
  apply strip_prefix_Some in E. exists (String.rev r).
  rewrite <- (rev_involutive s), E. exact (rev_app_last r (String c "")).
Qed.

Definition absolute (p : string) : Prop := starts_with "/" p = true.

Lemma absolute_cons p : absolute p <-> exists s, p = String "/" s.
Proof.
  unfold absolute, starts_with. split.
  - destruct (strip_prefix "/" p) eqn:E; [|done]. apply strip_prefix_Some in E. eauto.
  - by intros [s ->].
Qed.

Lemma components_absolute p : absolute p -> mnt.components p = "/" :: mnt.normal_parts (split_on "/" p).
Proof. intros H. unfold mnt.components. by rewrite H. Qed.

(** Joining a relative path appends its parts. *)
Lemma components_join d n : absolute d -> starts_with "/" n = false ->
  absolute (path.join d n) /\
  mnt.components (path.join d n) = mnt.components d ++ mnt.normal_parts (split_on "/" n).
Proof.
  intros Hd Hn. assert (exists x, absolute (d +:+ x) /\ path.join d n = d +:+ x /\
      mnt.normal_parts (split_on "/" (d +:+ x))
      = mnt.normal_parts (split_on "/" d) ++ mnt.normal_parts (split_on "/" n)) as (x & Ha & -> & Ex).
  { apply absolute_cons in Hd as [s ->]. unfold path.join. rewrite Hn. cbn [str_is_empty].
    destruct (ends_with "/" (String "/" s)) eqn:E.
    - apply ends_with_split in E as [s' E]. exists n. split; [apply absolute_cons; by exists (s +:+ n)|]. split; [done|].
      rewrite E, <- app_assoc. change (String "/" "" +:+ n) with (String "/" n). rewrite !split_on_sep, !normal_parts_app. cbn [split_on].
      change (mnt.normal_parts [""]) with (@nil string). by rewrite List.app_nil_r.
    - exists ("/" +:+ n). split; [apply absolute_cons; by exists (s +:+ "/" +:+ n)|]. split; [done|].
      change ("/" +:+ n) with (String "/" n). by rewrite split_on_sep, normal_parts_app. }
  split; [done|]. rewrite !components_absolute by done. by rewrite Ex.
Qed.

Lemma components_fs_join root rel : absolute root ->
  absolute (filesystem.join root rel) /\
  mnt.components (filesystem.join root rel) = mnt.components root ++ mnt.normal_parts (split_on "/" rel).
Proof.
  intros Hr. unfold filesystem.join. rewrite <- trim_slashes_parts.
  apply components_join; [done|apply trim_slashes_rel].
Qed.

(** No [..] on the way. *)
Definition no_dotdot (rel : string) : Prop := ".." ∉ split_on "/" rel.

Lemma normal_parts_dotdot rel : no_dotdot rel -> ".." ∉ mnt.normal_parts (split_on "/" rel).
Proof.
  unfold no_dotdot. generalize (split_on "/" rel). intros l. induction l as [|x l IH]; cbn; [done|].
  rewrite not_elem_of_cons. intros [H1 H2]. case_match; [auto|]. apply not_elem_of_cons. auto.
Qed.

Lemma beneath_join root rel : absolute root -> no_dotdot rel -> beneath root (filesystem.join root rel).
Proof.
  intros Hr Hn. destruct (components_fs_join root rel Hr) as [_ E]. exists (mnt.normal_parts (split_on "/" rel)).
  split; [done|]. by apply normal_parts_dotdot.
Qed.

Lemma beneath_refl root : beneath root root.
Proof. exists []. split; [by rewrite List.app_nil_r|apply not_elem_of_nil]. Qed.

(** A name in a directory beneath the root. *)
Lemma beneath_name root d n : absolute d -> beneath root d -> part_ok n -> n <> ".." ->
  beneath root (path.join d n).
Proof.
  intros Ha (rest & E & Hr) (N1 & N2 & N3) N4. exists (rest ++ [n]).
  destruct (components_join d n Ha) as [_ ->]; [by apply path.starts_slash|].
  rewrite split_on_no by done. cbn. rewrite bool_decide_eq_false_2 by done.
  destruct (str_is_empty n) eqn:En; [by destruct n|]. cbn. rewrite E, (assoc_L (++)).
  split; [done|]. rewrite elem_of_app, list_elem_of_singleton. naive_solver.
Qed.

(** The directories [mkdir_p] makes. *)
Lemma components_parts l : Forall part_ok l ->
  absolute (foldl path.join "/" l) /\ mnt.components (foldl path.join "/" l) = "/" :: l.
Proof.
  induction l as [|x l IH] using rev_ind; intros Hl; [done|].
  apply Forall_app in Hl as [Hl (N1 & N2 & N3)%Forall_singleton]. destruct (IH Hl) as [Ha E].
  rewrite foldl_app. cbn [foldl].
  destruct (components_join (foldl path.join "/" l) x Ha) as [Ha' E']; [by apply path.starts_slash|].
  split; [done|]. rewrite E', E, split_on_no, normal_parts_id by (done || by repeat constructor). done.
Qed.

Lemma made_components p k : absolute p -> (k < length (mnt.components p))%nat ->
  mnt.components (foldl path.join "" (take (S k) (mnt.components p))) = take (S k) (mnt.components p).
Proof.
  intros Ha Hk. rewrite (components_absolute p Ha). cbn [take foldl].
  change (path.join "" "/") with "/". apply components_parts, Forall_take, normal_parts_ok.
Qed.

Lemma made_inside root p q k : beneath root p -> mnt.components q = take k (mnt.components p) ->
  beneath root q \/ above root q.
Proof.
  intros (rest & E & Hr) Eq. rewrite E, take_app in Eq.
  destruct (le_lt_dec k (length (mnt.components root))) as [Hk|Hk].
  - right. unfold above. rewrite Eq. replace (k - _)%nat with O by lia. cbn. rewrite List.app_nil_r.
    exists (drop k (mnt.components root)). by rewrite take_drop.
  - left. exists (take (k - length (mnt.components root)) rest). rewrite take_ge in Eq by lia.
    split; [done|]. intros Hin. apply Hr. eapply elem_of_subseteq; [|exact Hin]. apply subseteq_take.
Qed.

(** What a call before the pivot may touch. *)
Definition inside (root : string) (e : Ev) : Prop :=
  match e.1 with
  | CMount _ t _ _ _ => beneath root t
  | CMkdir p _ => beneath root p \/ above root p
  | CSymlink _ p | CMknod p _ _ | CTouch p | CUnlink p => beneath root p
  | _ => False
  end.

Section inside.
Context {H : Type} `{MK : !MountKernel H} (root : string).
Hypothesis Hroot : absolute root.

Lemma inside_mkdir_parts p l mode : absolute p -> beneath root p ->
  l `prefix_of` mnt.components p -> alls (H := H) (inside root) (mnt.mkdir_parts "" l mode).
Proof.
  intros Ha Hb [r Hl]. apply alls_mkdir_parts. intros k rc Hk. unfold inside. cbn [fst].
  assert (take (S k) l = take (S k) (mnt.components p)) as -> by (rewrite Hl, take_app_le by lia; done).
  eapply made_inside; [done|]. apply made_components; [done|]. rewrite Hl, length_app. lia.
Qed.

Lemma inside_mkdir_p p mode : absolute p -> beneath root p ->
  alls (H := H) (inside root) (mnt.mkdir_p p mode).
Proof. intros Ha Hb. by apply (inside_mkdir_parts p). Qed.

Lemma inside_mount s t f fl d : beneath root t -> alls (H := H) (inside root) (mnt.mount s t f fl d).
Proof. intros. by apply alls_mount. Qed.

Lemma parent_parts_prefix p l : mnt.parent_parts p = Some l -> l `prefix_of` mnt.components p.
Proof.
  unfold mnt.parent_parts. intros E.
  assert (mnt.components p = removelast (mnt.components p) ++ [List.last (mnt.components p) ""]) as Ep.
  { apply app_removelast_last. by destruct (mnt.components p). }
  assert (l = removelast (mnt.components p)) as ->.
  { destruct (mnt.components p) as [|a [|b t]]; repeat (case_match; try done); by simplify_eq. }
  rewrite Ep at 2. apply prefix_app_r. done.
Qed.

Lemma inside_volume spec : no_dotdot (MountSpec.destination spec) ->
  alls (H := H) (inside root) (filesystem.mount_volume root spec).
Proof.
  intros Hd. pose proof (beneath_join root _ Hroot Hd) as Hb.
  destruct (components_fs_join root (MountSpec.destination spec) Hroot) as [Ha _].
  unfold filesystem.mount_volume. repeat alls_step;
    try (unfold mnt.bind, mnt.remount_ro; by apply inside_mount);
    try (by apply inside_mkdir_p); try (by apply alls_touch).
  eapply inside_mkdir_parts; [done..|]. by apply parent_parts_prefix.
Qed.

End inside.

Section standard.
Context {H : Type} `{MK : !MountKernel H} (root : string).
Hypothesis Hroot : absolute root.

(** A directory of the new root and the names in it. *)
Lemma inside_dir rel : no_dotdot rel ->
  absolute (filesystem.join root rel) /\ beneath root (filesystem.join root rel) /\
  (forall n, part_ok n -> n <> ".." ->
     absolute (path.join (filesystem.join root rel) n) /\
     beneath root (path.join (filesystem.join root rel) n)).
Proof.
  intros Hn. destruct (components_fs_join root rel Hroot) as [Ha _].
  pose proof (beneath_join root rel Hroot Hn) as Hb. split_and!; [done..|]. intros n Hp Hd.
  split; [|by apply beneath_name]. apply components_join; [done|]. apply path.starts_slash, Hp.
Qed.

Ltac inside_tac :=
  repeat alls_step; unfold mnt.bind, mnt.remount_ro;
  first [ by apply inside_mkdir_p | by apply inside_mount | by apply alls_touch | by apply alls_mknod
        | by apply alls_symlink | done ].

Lemma inside_devices dev : absolute dev -> beneath root dev ->
  alls (H := H) (inside root) (filesystem.make_devices dev).
Proof.
  intros Ha Hb.
  assert (forall n, part_ok n -> n <> ".." -> beneath root (path.join dev n)) as Hn
    by (intros; by apply beneath_name).
  assert (Forall (fun d => part_ok d /\ d <> "..") ((fun d => d.1.1.1) <$> filesystem.DEVICES)) as HD
    by (by repeat constructor).
  assert (Forall (fun d => part_ok d /\ d <> "..") (filesystem.DEV_SYMLINKS.*2)) as HS
    by (by repeat constructor).
  rewrite Forall_fmap, Forall_forall in HD. rewrite Forall_fmap, Forall_forall in HS. unfold filesystem.make_devices.
  apply alls_bind; [apply alls_for_each; intros [[[n ma] mi] mode] Hin|intros _; apply alls_bind; [|intros _;
    apply alls_bind; [|intros _; apply alls_for_each; intros [t n] Hin]]].
  - destruct (HD _ Hin) as [? ?]. assert (beneath root (path.join dev n)) by (by apply Hn).
    unfold filesystem.make_device. inside_tac.
  - unfold mnt.remove_file. repeat alls_step. intros rc. apply Hn; by repeat constructor.
  - repeat alls_step. apply alls_symlink. intros rc. apply Hn; by repeat constructor.
  - destruct (HS _ Hin) as [? ?]. assert (beneath root (path.join dev n)) by (by apply Hn).
    unfold filesystem.make_link. inside_tac.
Qed.

Lemma inside_standard cfg :
  Forall (fun s => no_dotdot (MountSpec.destination s)) (ContainerConfig.mounts cfg) ->
  alls (H := H) (inside root) (filesystem.mount_standard root cfg).
Proof.
  intros Hm.
  assert (forall rel, no_dotdot rel -> absolute (filesystem.join root rel) /\
            beneath root (filesystem.join root rel)) as Hj
    by (intros rel Hr; destruct (inside_dir rel Hr) as (? & ? & _); done).
  assert (forall rel, bool_decide (".." ∈ split_on "/" rel) = false -> no_dotdot rel) as Hd
    by (intros rel; apply bool_decide_eq_false).
  destruct (Hj "proc") as [? ?]; [by apply Hd|]. destruct (Hj "sys") as [? ?]; [by apply Hd|].
  destruct (Hj "tmp") as [? ?]; [by apply Hd|].
  destruct (inside_dir "dev") as (? & ? & Hn); [by apply Hd|].
  destruct (Hn "pts") as [? ?]; [by repeat constructor..|].
  destruct (Hn "shm") as [? ?]; [by repeat constructor..|].
  destruct (Hn "mqueue") as [? ?]; [by repeat constructor..|].
  unfold filesystem.mount_standard, filesystem.mount_proc, filesystem.mount_sys, filesystem.mount_dev,
    filesystem.mount_tmp, filesystem.mount_volumes.
  rewrite Forall_forall in Hm.
  repeat alls_step;
    first [ by apply inside_mkdir_p | by apply inside_mount | by apply inside_devices
          | unfold mnt.bind, mnt.remount_ro; by apply inside_mount | idtac ].
  apply inside_volume; [done|]. by apply Hm.
Qed.

End standard.

(** ** The order of the steps *)

Definition private_call : Call := CMount None "/" None (Z.lor MS_REC MS_PRIVATE) None.
Definition bind_call (p : string) : Call := CMount (Some p) p None (Z.lor MS_BIND MS_REC) None.
Definition ro_call (p : string) (extra : Z) : Call :=
  CMount None p None (Z.lor (Z.lor (Z.lor MS_REMOUNT MS_BIND) MS_RDONLY) extra) None.
Definition mask_call (p : string) (dir : bool) : Call :=
  if dir then CMount (Some "tmpfs") p (Some "tmpfs")
                (Z.lor (Z.lor (Z.lor MS_RDONLY MS_NOSUID) MS_NODEV) MS_NOEXEC) (Some "size=0k")
  else CMount (Some "/dev/null") p None MS_BIND None.

(** The mount of a volume, and the remount that seals it. *)
Definition volume_call (root : string) (spec : MountSpec.t) : Call :=
  let target := filesystem.join root (MountSpec.destination spec) in
  if bool_decide (MountSpec.fstype spec = "tmpfs")
  then CMount (Some "tmpfs") target (Some "tmpfs") (Z.lor MS_NOSUID MS_NODEV) None
  else CMount (Some (MountSpec.source spec)) target None (Z.lor MS_BIND MS_REC) None.

Definition volume_done (root : string) (spec : MountSpec.t) (evs : list Ev) : Prop :=
  exists dirs, evs = dirs ++ (volume_call root spec, None) ::
    (if MountSpec.readonly spec
     then [(ro_call (filesystem.join root (MountSpec.destination spec)) MS_REC, None)] else []).

Definition pivot_events (root : string) : list Ev :=
  [(CChdir root, None); (CPivotRoot "." ".", None); (CUmount "." MNT_DETACH, None); (CChdir "/", None)].

Section setup.
Context (MYRUN_FAULT : option string) {H : Type} `{MK : !MountKernel H}.

(** Calls inside the root, then nothing or the change of directory with which
    the pivot begins. *)
Definition front (root : string) (evs : list Ev) : Prop :=
  exists pre post, evs = pre ++ post /\ Forall (inside root) pre /\
    (post = [] \/ exists rc rest, post = (CChdir root, rc) :: rest).

Lemma front_bind {A B} root (m : HM (Logged H) A) (f : A -> HM (Logged H) B) :
  alls (inside root) m -> (forall a, traces (f a) (fun _ evs => front root evs)) ->
  traces (m ≫= f) (fun _ evs => front root evs).
Proof.
  intros Hm Hf. eapply traces_conseq.
  { exact (traces_bind _ _ _ (fun _ _ evs => front root evs) Hm Hf). }
  intros r evs [(e & _ & He)|(a & e1 & e2 & -> & H1 & pre & post & -> & Hp & Hs)].
  - exists evs, []. split_and!; [by rewrite List.app_nil_r|done|by left].
  - exists (e1 ++ pre), post. split_and!; [by rewrite (assoc_L (++))|by apply Forall_app|done].
Qed.

Lemma chdir_first root : traces (H := H) (mnt.chdir root)
  (fun r evs => (evs = [] /\ exists e, r = Err e) \/ exists rc, evs = [(CChdir root, rc)]).
Proof.
  intros [l h]. unfold mnt.chdir. rewrite hm_bind_eq. unfold host.lift. destruct (mnt.cstr root) as [s|e].
  - destruct (call_logged (CChdir root) "chdir" root l h) as (rc & E & _). exists [(CChdir root, rc)]. split; [exact E|eauto].
  - exists []. cbn. rewrite List.app_nil_r. eauto 6.
Qed.

(** A program that begins by changing into the root. *)
Lemma front_pivot {B} root (f : unit -> HM (Logged H) B) :
  (forall a, alls (fun _ => True) (f a)) -> traces (mnt.chdir root ≫= f) (fun _ evs => front root evs).
Proof.
  intros Hf. eapply traces_conseq.
  { exact (traces_bind _ _ _ (fun _ _ _ => True) (chdir_first root) (fun a lh =>
      let '(ex_intro _ evs (conj E _)) := Hf a lh in ex_intro _ evs (conj E I))). }
  cbn. intros r evs [(e & _ & [[-> _]|[rc ->]])|(a & e1 & e2 & -> & [[-> [? ?]]|[rc ->]] & _)];
    [| |done|]; exists []; eexists; (split; [reflexivity|]); (split; [constructor|]); eauto.
Qed.

Lemma bind_assoc {A B C} (m : HM (Logged H) A) (f : A -> HM (Logged H) B) (g : B -> HM (Logged H) C) lh :
  ((m ≫= f) ≫= g) lh = (m ≫= (fun a => f a ≫= g)) lh.
Proof. rewrite !hm_bind_eq. by destruct (m lh) as [[]]. Qed.

Lemma traces_ext {A} (m m' : HM (Logged H) A) S : (forall lh, m lh = m' lh) -> traces m S -> traces m' S.
Proof. intros E Hm lh. rewrite <- E. apply Hm. Qed.

Ltac any_tac :=
  unfold filesystem.check, filesystem.mask_paths, filesystem.readonly_paths, filesystem.mask_path,
    filesystem.readonly_path, mnt.bind, mnt.remount_ro, mnt.mount, mnt.umount, mnt.pivot_root, mnt.chdir;
  repeat alls_step; done.

Lemma call_first c n x : traces (H := H) (mnt.call c n x)
  (fun r evs => exists rc, evs = [(c, rc)] /\ (rc = None -> r = Ok tt) /\ (rc <> None -> exists e, r = Err e)).
Proof.
  intros [l h]. destruct (call_logged c n x l h) as (rc & E & Hn & He). exists [(c, rc)]. split; [exact E|]. eauto.
Qed.

Lemma private_first : traces (H := H) (mnt.make_rprivate "/")
  (fun r evs => exists rc, evs = [(private_call, rc)] /\ (rc <> None -> exists e, r = Err e)).
Proof.
  eapply traces_conseq; [eapply traces_ext; [intros lh; reflexivity|apply call_first]|].
  cbn. intros r evs (rc & -> & _ & He). eauto.
Qed.

Lemma setup_front cfg :
  let root := ContainerConfig.rootfs cfg in
  absolute root ->
  Forall (fun s => no_dotdot (MountSpec.destination s)) (ContainerConfig.mounts cfg) ->
  traces (H := H) (filesystem.setup MYRUN_FAULT cfg) (fun r log =>
    exists rc rest, log = (private_call, rc) :: rest /\ (rc <> None -> rest = [] /\ r <> Ok tt) /\
                    front root rest).
Proof.
  intros root Ha Hd. unfold filesystem.setup. fold root.
  eapply traces_conseq.
  { eapply (traces_bind _ _ (fun r evs => exists rc, evs = [(private_call, rc)] /\ (rc <> None -> exists e, r = Err e))
      (fun _ _ evs => front root evs)).
    - apply private_first.
    - intros _. apply front_bind; [unfold mnt.bind; apply inside_mount, beneath_refl|intros _].
      apply front_bind; [by apply inside_standard|intros _].
      apply front_bind; [repeat alls_step; apply inside_mount, beneath_refl|intros _].
      apply front_bind; [unfold filesystem.check; repeat alls_step|intros _].
      unfold filesystem.pivot.
      eapply traces_ext; [intros lh; symmetry; apply bind_assoc|]. apply front_pivot. intros _.
      repeat alls_step; any_tac. }
  cbn. intros r evs [(e & -> & rc & -> & Hrc)|(a & e1 & e2 & -> & (rc & -> & Hrc) & Hf)].
  - exists rc, []. split_and!; [done|done|]. exists [], []. split_and!; [done|constructor|by left].
  - exists rc, e2. split_and!; [done| |done]. intros [e ?]%Hrc. done.
Qed.

(** *** A run that succeeds *)

Lemma oks_alls {A} P (m : HM (Logged H) A) : alls P m -> oks m (fun _ evs => Forall P evs).
Proof. intros Hm. eapply traces_conseq; [exact Hm|]. auto. Qed.

Lemma any_mkdir_parts cur l mode : alls (H := H) (fun _ => True) (mnt.mkdir_parts cur l mode).
Proof. by apply alls_mkdir_parts. Qed.

Lemma oks_volume root spec :
  oks (H := H) (filesystem.mount_volume root spec) (fun _ evs => volume_done root spec evs).
Proof.
  unfold filesystem.mount_volume. set (target := filesystem.join root (MountSpec.destination spec)).
  eapply oks_conseq.
  { apply (oks_bind _ _ (fun _ evs => exists dirs, evs = dirs ++ [(volume_call root spec, None)])
      (fun _ _ evs => evs = if MountSpec.readonly spec then [(ro_call target MS_REC, None)] else [])).
    - unfold volume_call. fold target. case_bool_decide.
      + eapply oks_conseq; [apply oks_bind; [apply oks_any, any_mkdir_parts|intros ?; apply oks_mount]|].
        cbn. naive_solver.
      + eapply oks_conseq; [apply oks_bind; [apply oks_any, alls_query|intros meta]|].
        { apply oks_bind; [apply oks_lift|intros dir]. apply oks_bind; [|intros ?; apply oks_mount].
          apply (oks_any (if dir then _ else _)). destruct dir; [apply any_mkdir_parts|].
          apply alls_bind; [|intros _; by apply alls_touch]. case_match; [apply any_mkdir_parts|apply alls_ret]. }
        cbn. intros _ evs (meta & e1 & e2 & -> & _ & dir & e3 & e4 & -> & _ & u & e5 & e6 & -> & _ & ->).
        exists (e1 ++ e3 ++ e5). by rewrite !(assoc_L (++)).
    - intros _. destruct (MountSpec.readonly spec); [apply oks_mount|].
      eapply oks_conseq; [apply oks_ret|]. naive_solver. }
  cbn. intros _ evs (u & e1 & e2 & -> & [dirs ->] & ->). exists dirs. fold target.
  by rewrite <- (assoc_L (++)).
Qed.

(** The volumes, one after the other. *)
Definition volumes_done (root : string) (mounts : list MountSpec.t) (evs : list Ev) : Prop :=
  exists parts, evs = concat parts /\ Forall2 (volume_done root) mounts parts.

Lemma oks_volumes root mounts :
  oks (H := H) (filesystem.mount_volumes root mounts) (fun _ evs => volumes_done root mounts evs).
Proof.
  unfold filesystem.mount_volumes. induction mounts as [|m l IH]; cbn [host.for_each].
  - eapply oks_conseq; [apply oks_ret|]. intros _ evs [_ ->]. by exists [].
  - eapply oks_conseq; [apply oks_bind; [apply oks_volume|intros ?; apply IH]|]. cbn.
    intros _ evs (_ & e1 & e2 & -> & H1 & parts & -> & H2). exists (e1 :: parts). by split; [|constructor].
Qed.

Lemma oks_pivot root : oks (H := H) (filesystem.pivot root) (fun _ evs => evs = pivot_events root).
Proof.
  unfold filesystem.pivot. eapply oks_conseq.
  { apply oks_bind; [apply oks_chdir|intros ?]. apply oks_bind.
    - apply oks_bind; [apply oks_lift|intros ?]. apply oks_bind; [apply oks_lift|intros ?]. apply oks_call.
    - intros ?. apply oks_bind; [|intros ?; apply oks_chdir].
      apply oks_bind; [apply oks_lift|intros ?]. apply oks_call. }
  cbn. naive_solver.
Qed.

Ltac any_mount_tac :=
  apply oks_any;
  unfold filesystem.mount_proc, filesystem.mount_sys, filesystem.mount_dev, filesystem.mount_tmp,
    filesystem.make_devices, filesystem.make_device, filesystem.make_link, mnt.remove_file, mnt.mkdir_p, mnt.bind,
    mnt.remount_ro;
  repeat alls_step;
  first [apply any_mkdir_parts | by apply alls_mount | by apply alls_symlink | by apply alls_touch
        | by apply alls_mknod | done].

Lemma oks_standard root cfg : oks (H := H) (filesystem.mount_standard root cfg)
  (fun _ evs => exists mid vols, evs = mid ++ vols /\ volumes_done root (ContainerConfig.mounts cfg) vols).
Proof.
  unfold filesystem.mount_standard. eapply oks_conseq.
  { do 5 (apply oks_bind; [any_mount_tac|intros ?]). apply oks_volumes. }
  cbn. intros _ evs (_ & e1 & r1 & -> & _ & _ & e2 & r2 & -> & _ & _ & e3 & r3 & -> & _ & _ & e4 & r4 & ->
    & _ & _ & e5 & r5 & -> & _ & Hv).
  exists (e1 ++ e2 ++ e3 ++ e4 ++ e5), r5. split; [|done]. by rewrite !(assoc_L (++)).
Qed.

(** *** Masking *)

Lemma mount_called s t f fl d : mnt.cstr_opt s = Ok tt -> contains_char "000" t = false ->
  mnt.cstr_opt f = Ok tt -> mnt.cstr_opt d = Ok tt ->
  traces (H := H) (mnt.mount s t f fl d) (fun r evs => exists rc, evs = [(CMount s t f fl d, rc)] /\
    (rc = None -> r = Ok tt) /\ (rc <> None -> exists e, r = Err e)).
Proof.
  intros Hs Ht Hf Hd. unfold mnt.mount, mnt.cstr. rewrite Hs, Ht, Hf, Hd.
  eapply traces_conseq; [eapply traces_ext; [intros lh; reflexivity|apply call_first]|].
  cbn. intros r evs (rc & -> & H1 & H2). eauto.
Qed.

(** Tried on the host as it is at that moment: a masked path that exists is
    covered by an empty read-only [tmpfs] or by [/dev/null]. *)
Definition mask_round (p : string) (h : H) (evs : list Ev) : Prop :=
  match lstat_dir p h with
  | Some dir => if contains_char "000" p then evs = [] else exists rc, evs = [(mask_call p dir, rc)]
  | None => evs = []
  end.

(** A read-only path that exists is bound onto itself and, when that worked,
    remounted read-only. *)
Definition seal_round (p : string) (h : H) (evs : list Ev) : Prop :=
  if path_exists p h && negb (contains_char "000" p)
  then exists rc rest, evs = (bind_call p, rc) :: rest /\
    match rc with None => exists rc', rest = [(ro_call p MS_REC, rc')] | Some _ => rest = [] end
  else evs = [].

(** One round for each path, in order, each on the host the ones before left. *)
Fixpoint rounds (one : string -> H -> list Ev -> Prop) (ps : list string) (h : H) (evs : list Ev) : Prop :=
  match ps with
  | [] => evs = []
  | p :: ps' => exists e1 e2, evs = e1 ++ e2 /\ one p h e1 /\ rounds one ps' (replay h e1) e2
  end.

Lemma hoks_rounds (f : string -> HM (Logged H) unit) one ps :
  (forall p, hoks (f p) (fun h _ evs => one p h evs)) ->
  hoks (host.for_each f ps) (fun h _ evs => rounds one ps h evs).
Proof.
  intros Hf. induction ps as [|p ps IH]; cbn [host.for_each].
  - eapply hoks_conseq; [apply hoks_of, oks_ret|]. by intros h a evs [_ ->].
  - eapply hoks_conseq; [apply hoks_bind; [apply Hf|intros ?; apply IH]|]. cbn.
    intros h _ evs (_ & e1 & e2 & -> & H1 & H2). eauto.
Qed.

Lemma mount_nul s t f fl d lh : contains_char "000" t = true ->
  exists e, mnt.mount (H := Logged H) s t f fl d lh = (Err e, lh).
Proof.
  intros Ht. unfold mnt.mount, mnt.cstr. rewrite Ht. rewrite hm_bind_eq. unfold host.lift.
  destruct (mnt.cstr_opt s) as [u|e]; [|eauto]. rewrite hm_bind_eq. eauto.
Qed.

Lemma mask_tried p : hoks (H := H) (filesystem.mask_path p) (fun h _ evs => mask_round p h evs).
Proof.
  intros [l h]. unfold filesystem.mask_path, mask_round. rewrite hm_bind_eq.
  cbn [mnt.symlink_metadata lstat_dir logged_kernel fst snd]. destruct (lstat_dir p h) as [dir|].
  2: { exists []. cbn. by rewrite List.app_nil_r. }
  unfold host.ignore. destruct (contains_char "000" p) eqn:Hn.
  - exists []. cbn [fst snd]. rewrite List.app_nil_r. unfold mnt.bind.
    destruct dir; [destruct (mount_nul (Some "tmpfs") p (Some "tmpfs")
      (Z.lor (Z.lor (Z.lor MS_RDONLY MS_NOSUID) MS_NODEV) MS_NOEXEC) (Some "size=0k") (l, h) Hn) as [e ->]
      |destruct (mount_nul (Some "/dev/null") p None MS_BIND None (l, h) Hn) as [e ->]]; by split.
  - assert (forall s f fl d, mnt.cstr_opt s = Ok tt -> mnt.cstr_opt f = Ok tt -> mnt.cstr_opt d = Ok tt ->
      CMount s p f fl d = mask_call p dir -> exists evs,
      snd (let '(_, h') := mnt.mount (H := Logged H) s p f fl d (l, h) in (Ok tt, h')) = (l ++ evs, replay h evs) /\
      exists rc, evs = [(mask_call p dir, rc)]) as Hm.
    { intros s f fl d H1 H2 H3 <-. destruct (mount_called s p f fl d H1 Hn H2 H3 (l, h)) as (evs & E & rc & -> & _).
      exists [(CMount s p f fl d, rc)]. split; [|by exists rc].
      revert E. destruct (mnt.mount (H := Logged H) s p f fl d (l, h)) as [r lh]. intros E. exact E. }
    destruct dir; [destruct (Hm (Some "tmpfs") (Some "tmpfs")
      (Z.lor (Z.lor (Z.lor MS_RDONLY MS_NOSUID) MS_NODEV) MS_NOEXEC) (Some "size=0k")) as (evs & E & Hr); [done..|]
      |destruct (Hm (Some "/dev/null") None MS_BIND None) as (evs & E & Hr); [done..|]];
      exists evs; (split; [exact E|]); done.
Qed.

Lemma seal_tried p : hoks (H := H) (filesystem.readonly_path p) (fun h _ evs => seal_round p h evs).
Proof.
  intros [l h]. unfold filesystem.readonly_path, seal_round. rewrite hm_bind_eq.
  cbn [mnt.exists_ path_exists logged_kernel fst snd]. destruct (path_exists p h); cbn [negb andb].
  2: { exists []. cbn. by rewrite List.app_nil_r. }
  rewrite hm_bind_eq. unfold host.try, mnt.bind. destruct (contains_char "000" p) eqn:Hn; cbn [negb].
  - destruct (mount_nul (Some p) p None (Z.lor MS_BIND MS_REC) None (l, h) Hn) as [e ->].
    exists []. cbn. by rewrite List.app_nil_r.
  - assert (mnt.cstr_opt (Some p) = Ok tt) as Hp by (cbn; unfold mnt.cstr; by rewrite Hn).
    destruct (mount_called (Some p) p None (Z.lor MS_BIND MS_REC) None Hp Hn eq_refl eq_refl (l, h))
      as (evs & E & rc & -> & H1 & H2).
    destruct (mnt.mount (H := Logged H) _ _ _ _ _ (l, h)) as [r lh1]. cbn [fst snd] in *. subst lh1. destruct rc as [e0|].
    + destruct H2 as [e ->]; [done|]. eexists. split; [reflexivity|]. intros _ _. by exists (Some e0), [].
    + rewrite H1 by done. unfold host.ignore, mnt.remount_ro.
      destruct (mount_called None p None (Z.lor (Z.lor (Z.lor MS_REMOUNT MS_BIND) MS_RDONLY) MS_REC) None
        eq_refl Hn eq_refl eq_refl (l ++ [(bind_call p, None)], replay h [(bind_call p, None)])) as (evs' & E' & rc' & -> & _).
      exists [(bind_call p, None); (ro_call p MS_REC, rc')]. unfold bind_call in *.
      destruct (mnt.mount (H := Logged H) None _ _ _ _ _) as [r2 lh2]. cbn [fst snd] in *. subst lh2.
      rewrite <- (assoc_L (++)). split; [done|]. intros _ _. exists None, [(ro_call p MS_REC, rc')]. split; [reflexivity|]. by exists rc'.
Qed.

(** What a successful set-up did, in order, from a host [h]. *)
Definition built (cfg : ContainerConfig.t) (h : H) (log : list Ev) : Prop :=
  let root := ContainerConfig.rootfs cfg in
  let sec := ContainerConfig.security cfg in
  exists mid vols masks seals,
    let before := [(private_call, None); (bind_call root, None)] ++ mid ++ vols
          ++ (if ContainerConfig.read_only cfg then [(ro_call root 0, None)] else [])
          ++ pivot_events root in
    log = before ++ masks ++ seals /\
    volumes_done root (ContainerConfig.mounts cfg) vols /\
    (if SecurityConfig.privileged sec then masks = [] /\ seals = []
     else rounds mask_round (SecurityConfig.masked_paths sec) (replay h before) masks /\
          rounds seal_round (SecurityConfig.readonly_paths sec) (replay h (before ++ masks)) seals).

Lemma hoks_setup cfg : hoks (H := H) (filesystem.setup MYRUN_FAULT cfg) (fun h _ log => built cfg h log).
Proof.
  unfold filesystem.setup. eapply hoks_conseq.
  { apply hoks_bind; [apply hoks_of, oks_mount|intros ?]. apply hoks_bind; [apply hoks_of, oks_mount|intros ?].
    apply hoks_bind; [apply hoks_of, oks_standard|intros ?].
    apply (hoks_bind _ _ (fun _ _ evs => evs = if ContainerConfig.read_only cfg
             then [(ro_call (ContainerConfig.rootfs cfg) 0, None)] else [])); [|intros ?].
    { destruct (ContainerConfig.read_only cfg); [apply hoks_of, oks_mount|].
      eapply hoks_conseq; [apply hoks_of, oks_ret|]. by intros ? ? ? [_ ->]. }
    apply hoks_bind; [apply hoks_of, oks_lift|intros ?]. apply hoks_bind; [apply hoks_of, oks_pivot|intros ?].
    apply hoks_bind; [apply hoks_of, oks_lift|intros ?].
    apply (hoks_conseq _ (fun h _ evs => exists masks seals, evs = masks ++ seals /\
      (if SecurityConfig.privileged (ContainerConfig.security cfg) then masks = [] /\ seals = []
       else rounds mask_round (SecurityConfig.masked_paths (ContainerConfig.security cfg)) h masks /\
            rounds seal_round (SecurityConfig.readonly_paths (ContainerConfig.security cfg)) (replay h masks) seals)));
      [|intros ? ? ? Hs; exact Hs].
    destruct (SecurityConfig.privileged _) eqn:Ep; cbn [negb].
    - eapply hoks_conseq; [apply hoks_of, oks_ret|]. intros ? ? ? [_ ->]. by exists [], [].
    - eapply hoks_conseq; [apply hoks_bind; [apply hoks_rounds, mask_tried|intros ?; apply hoks_rounds, seal_tried]|].
      cbn. intros h _ evs (_ & e1 & e2 & -> & H1 & H2). eauto. }
  cbn beta. intros h _ evs (_ & ? & ? & -> & -> & _ & ? & ? & -> & -> & _ & ? & ? & -> & (mid & vols & -> & Hv) & _ & ? & ?
    & -> & -> & _ & ? & ? & -> & (_ & ->) & _ & ? & ? & -> & -> & _ & ? & ? & -> & (_ & ->) & masks & seals & -> & Hs).
  exists mid, vols, masks, seals. cbn zeta. split_and!; [|done|].
  - cbn [app]. by rewrite <- !(assoc_L (++)).
  - rewrite <- !replay_app in Hs. cbn [app] in *. rewrite <- !(assoc_L (++)) in *. done.
Qed.

(** C18: before the root is pivoted nothing outside it is touched.  The first
    call makes every mount private, and nothing follows when it fails; until
    the change into the new root every mount, node, link and file is beneath
    it (or a directory on the way to it), in every run, for volumes whose
    destinations do not climb with [..]. *)
Theorem setup_stays_inside cfg h r log h' :
  absolute (ContainerConfig.rootfs cfg) ->
  Forall (fun s => no_dotdot (MountSpec.destination s)) (ContainerConfig.mounts cfg) ->
  filesystem.setup (H := Logged H) MYRUN_FAULT cfg ([], h) = (r, (log, h')) ->
  exists rc rest, log = (private_call, rc) :: rest /\ (rc <> None -> rest = [] /\ r <> Ok tt) /\
    front (ContainerConfig.rootfs cfg) rest.
Proof.
  intros Ha Hd E. destruct (setup_front cfg Ha Hd ([], h)) as (evs & El & He).
  rewrite E in El, He. injection El as -> _. done.
Qed.

(** C19: a set-up that succeeds did, in this order: made mounts private, bound
    the root onto itself, mounted each volume and sealed the read-only ones,
    sealed the root when asked to, pivoted into it and detached the old one;
    after that, unless the container is privileged, it tried to cover each
    masked path that existed at that moment (a directory with an empty
    read-only [tmpfs], anything else with [/dev/null]), and then to bind each
    read-only path that existed onto itself and to remount it read-only, and
    nothing else.  A mask or a seal the kernel refuses is passed over. *)
Theorem setup_sequence cfg h log h' :
  filesystem.setup (H := Logged H) MYRUN_FAULT cfg ([], h) = (Ok tt, (log, h')) ->
  h' = replay h log /\ built cfg h log.
Proof. apply (hoks_run _ (fun h _ log => built cfg h log)), hoks_setup. Qed.

End setup.

(** ** A kernel with a mount table *)

Record Mnt := MkMnt { m_point : string; m_flags : Z; m_shared : bool }.

(** [t_refused] is what the kernel refuses; [t_nodes] are the files, with
    whether they are directories. *)
Record Table := MkTable {
  t_mnts : list Mnt; t_cwd : string; t_nodes : list (string * bool); t_refused : list Call
}.

Definition has (flags f : Z) : bool := negb (Z.land flags f =? 0).

(** [q] relative to a directory above it. *)
Definition below (p q : string) : option string :=
  if bool_decide (p = "/") then strip_prefix "/" q else strip_prefix (p +:+ "/") q.

(** The flags of the mount a path is on: per-mount flags are inherited by a
    bind, [mount(2)]. *)
Definition flags_at (p : string) (l : list Mnt) : Z :=
  foldl (fun f m => if bool_decide (m_point m = p) || bool_decide (is_Some (below (m_point m) p))
                    then m_flags m else f) 0 l.

Definition copies (src t : string) (l : list Mnt) : list Mnt :=
  omap (fun m => match below src (m_point m) with
                 | Some r => Some (MkMnt (t +:+ "/" +:+ r) (m_flags m) false)
                 | None => None end) l.

Definition per_mount (flags : Z) : Z := Z.land flags 15.

(** A remount replaces the flags of the one mount, [MS_REC] or not. *)
Definition do_mount (s : option string) (t : string) (flags : Z) (l : list Mnt) : option (list Mnt) :=
  if has flags MS_REMOUNT then
    Some ((fun m => if bool_decide (m_point m = t) then MkMnt t (per_mount flags) (m_shared m) else m) <$> l)
  else if has flags MS_BIND then
    src ← s;
    Some (l ++ MkMnt t (flags_at src l) false :: (if has flags MS_REC then copies src t l else []))
  else if has flags MS_PRIVATE then Some ((fun m => MkMnt (m_point m) (m_flags m) false) <$> l)
  else Some (l ++ [MkMnt t (per_mount flags) false]).

(** The mounts seen from the new root. *)
Definition rebase (root : string) (l : list Mnt) : list Mnt :=
  omap (fun m => if bool_decide (m_point m = root) then Some (MkMnt "/" (m_flags m) (m_shared m))
                 else match below root (m_point m) with
                      | Some r => Some (MkMnt ("/" +:+ r) (m_flags m) (m_shared m))
                      | None => None end) l.

Definition node (p : string) (l : list (string * bool)) : option bool :=
  (list_to_map l : gmap string bool) !! p.

#[export] Instance table_kernel : MountKernel Table := {
  sys_do c t :=
    if bool_decide (c ∈ t_refused t) then (Some 1, t)
    else match c with
         | CMount s p _ flags _ =>
             match do_mount s p flags (t_mnts t) with
             | Some l => (None, MkTable l (t_cwd t) (t_nodes t) (t_refused t))
             | None => (Some 22, t)
             end
         | CChdir p => (None, MkTable (t_mnts t) p (t_nodes t) (t_refused t))
         | CUmount _ _ => (None, MkTable (rebase (t_cwd t) (t_mnts t)) "/" (t_nodes t) (t_refused t))
         | _ => (None, t)
         end;
  path_exists p t := bool_decide (p ∈ (t_nodes t).*1);
  stat_dir p t := match node p (t_nodes t) with Some d => inr d | None => inl "no such file" end;
  lstat_dir p t := node p (t_nodes t)
}.

Definition host_table (refused : list Call) : Table :=
  MkTable [MkMnt "/" 0 true; MkMnt "/sys" 0 true; MkMnt "/data/sub" 0 true] "/"
    [("/data", true); ("/proc/kcore", false); ("/proc/acpi", true); ("/proc/sys", true)] refused.

Definition fs_cfg (mounts : list MountSpec.t) (ro : bool) : ContainerConfig.t :=
  ContainerConfig.Mk "c" None "/c/root" ["sh"] [] "/" "c" ro mounts Resources.default NetworkConfig.default
    SecurityConfig.default Namespaces.default false false [].

Definition fs_run (mounts : list MountSpec.t) (ro : bool) (refused : list Call) : result unit * Logged Table :=
  filesystem.setup (H := Logged Table) None (fs_cfg mounts ro) ([], host_table refused).

(** The mounts of the container at a path, with their flags. *)
Definition mounts_at (p : string) (x : result unit * Logged Table) : list Z :=
  m_flags <$> filter (fun m => m_point m = p) (t_mnts x.2.2).

Definition ro_volume : MountSpec.t := MountSpec.Mk "/data" "/mnt" "bind" true.

Lemma setup_stays_inside_witness :
  exists rc rest, (fs_run [ro_volume] true []).2.1 = (private_call, rc) :: rest /\
    (rc <> None -> rest = [] /\ (fs_run [ro_volume] true []).1 <> Ok tt) /\ front "/c/root" rest.
Proof.
  apply (setup_stays_inside None (fs_cfg [ro_volume] true) (host_table []) _ _ (fs_run [ro_volume] true []).2.2).
  - vm_compute. reflexivity.
  - constructor; [|constructor]. apply (bool_decide_eq_false_1 (".." ∈ split_on "/" "/mnt")). vm_compute. reflexivity.
  - vm_compute. reflexivity.
Defined.

Lemma setup_sequence_witness : (fs_run [ro_volume] true []).2.2 = replay (host_table []) (fs_run [ro_volume] true []).2.1 /\
  built (H := Table) (fs_cfg [ro_volume] true) (host_table []) (fs_run [ro_volume] true []).2.1.
Proof.
  apply (setup_sequence None (fs_cfg [ro_volume] true) (host_table []) _ (fs_run [ro_volume] true []).2.2).
  vm_compute. reflexivity.
Defined.

(** The container's own mounts are as asked: the volume and the root are
    read-only, [/tmp] is not. *)
Example setup_result :
  (fs_run [ro_volume] true []).1 = Ok tt /\
  mounts_at "/" (fs_run [ro_volume] true []) = [MS_RDONLY] /\
  mounts_at "/mnt" (fs_run [ro_volume] true []) = [MS_RDONLY] /\
  mounts_at "/tmp" (fs_run [ro_volume] true []) = [Z.lor MS_NOSUID MS_NODEV].
Proof. vm_compute. done. Qed.

(** A remount does not reach the mounts below: what is mounted under the
    source of a read-only volume stays writable, and so does everything below
    [/sys] when [sysfs] cannot be mounted. *)
Example ro_volume_leaves_submount : mounts_at "/mnt/sub" (fs_run [ro_volume] true []) = [0].
Proof. vm_compute. done. Qed.

(** The flags of a mount are lost when it is sealed: a read-only [tmpfs]
    volume allows device files and set-user-id programs. *)
Example ro_tmpfs_loses_nosuid :
  mounts_at "/mnt" (fs_run [MountSpec.Mk "tmpfs" "/mnt" "tmpfs" false] false []) = [Z.lor MS_NOSUID MS_NODEV] /\
  mounts_at "/mnt" (fs_run [MountSpec.Mk "tmpfs" "/mnt" "tmpfs" true] false []) = [MS_RDONLY].
Proof. vm_compute. done. Qed.

(** A mask the kernel refuses is left out, and the set-up succeeds. *)
Example masking_fails_open :
  let refused := [mask_call "/proc/kcore" false] in
  (fs_run [] false refused).1 = Ok tt /\ mounts_at "/proc/kcore" (fs_run [] false refused) = [] /\
  length (mounts_at "/proc/kcore" (fs_run [] false [])) = 1%nat.
Proof. vm_compute. done. Qed.

(** A destination with [..] makes directories, and a mount, outside the root. *)
Example volume_escapes_root :
  let r := fs_run [MountSpec.Mk "/data" "/../../etc" "bind" false] false [] in
  r.1 = Ok tt /\ (CMkdir "/c/root/../../etc" MODE_755, None) ∈ r.2.1 /\ ~ beneath "/c/root" "/c/root/../../etc".
Proof.
  split; [vm_compute; done|]. split.
  - apply (bool_decide_eq_true_1 (_ ∈ _)). vm_compute. done.
  - intros (rest & E & Hr). vm_compute in E. simplify_eq. apply Hr. constructor.
Qed.
