(* ===== verification/Loop.v ===== *)
(** * Computations on the host that may wait

    Loops that poll until something happens get fuel.  [Pending] is a loop
    whose fuel is used up and [Panicked] a panic of the program; both end what
    is in progress. *)
From S2P Require Import Prelude RustStr Error Fs Host.

Inductive outcome (A : Type) := Answer (r : result A) | Panicked | Pending.
Arguments Answer {A} _.
Arguments Panicked {A}.
Arguments Pending {A}.

Definition LP (H A : Type) : Type := H -> outcome A * H.

#[export] Instance LP_ret {H} : MRet (LP H) := fun A a h => (Answer (Ok a), h).
#[export] Instance LP_bind {H} : MBind (LP H) := fun A B f m h =>
  match m h with
  | (Answer (Ok a), h') => f a h'
  | (Answer (Err e), h') => (Answer (Err e), h')
  | (Panicked, h') => (Panicked, h')
  | (Pending, h') => (Pending, h')
  end.

Section ops.
Context {H : Type}.

(** A computation that does not wait. *)
Definition now {A} (m : HM H A) : LP H A := fun h => let '(r, h') := m h in (Answer r, h').
Definition panic {A} : LP H A := fun h => (Panicked, h).
Definition pending {A} : LP H A := fun h => (Pending, h).

Lemma lp_bind_eq {A B} (m : LP H A) (f : A -> LP H B) h :
  (m ≫= f) h = match m h with
               | (Answer (Ok a), h') => f a h'
               | (Answer (Err e), h') => (Answer (Err e), h')
               | (Panicked, h') => (Panicked, h')
               | (Pending, h') => (Pending, h')
               end.
Proof. done. Qed.

Lemma now_bind_eq {A B} (m : HM H A) (f : A -> LP H B) h :
  (now m ≫= f) h = match m h with
                   | (Ok a, h') => f a h'
                   | (Err e, h') => (Answer (Err e), h')
                   end.
Proof. rewrite lp_bind_eq. unfold now. by destruct (m h) as [[a|e] h']. Qed.

(** *** Whether an answer comes *)

(** [ends P m]: from a host with [P], [m] answers. *)
Definition ends {A} (P : H -> Prop) (m : LP H A) : Prop := forall h, P h -> exists r, fst (m h) = Answer r.

Lemma ends_now {A} P (m : HM H A) : ends P (now m).
Proof. intros h _. unfold now. destruct (m h) as [r h']. by exists r. Qed.

Lemma ends_ret {A} P (a : A) : ends P (mret a).
Proof. intros h _. by exists (Ok a). Qed.

Lemma ends_bind {A B} P Q (m : LP H A) (f : A -> LP H B) :
  ends P m -> (forall h, P h -> Q (snd (m h))) -> (forall a, ends Q (f a)) -> ends P (m ≫= f).
Proof.
  intros Hm HQ Hf h Hh. rewrite lp_bind_eq. destruct (Hm h Hh) as [r Hr]. specialize (HQ h Hh).
  destruct (m h) as [o h1]. cbn in Hr, HQ. subst o. destruct r as [a|e]; [by apply Hf|by exists (Err e)].
Qed.

(** *** What is kept *)

Definition lpres {A} (R : H -> H -> Prop) (m : LP H A) : Prop := forall h, R h (snd (m h)).

Context (R : H -> H -> Prop) `{!PreOrder R}.

Lemma lpres_now {A} (m : HM H A) : pres R m -> lpres R (now m).
Proof. intros Hm h. specialize (Hm h). unfold now. by destruct (m h). Qed.

Lemma lpres_ret {A} (a : A) : lpres R (mret a).
Proof. intros h. cbn. reflexivity. Qed.

Lemma lpres_bind {A B} (m : LP H A) (f : A -> LP H B) :
  lpres R m -> (forall a, lpres R (f a)) -> lpres R (m ≫= f).
Proof.
  intros Hm Hf h. rewrite lp_bind_eq. specialize (Hm h).
  destruct (m h) as [[[a|e]| |] h1]; try done. cbn [snd] in *. etrans; [exact Hm|apply Hf].
Qed.
End ops.
