(* ===== verification/Init.v ===== *)
(** * The container's init process: [src/runtime/init.rs]

    Reading what the runtime left for it, the set-up inside the namespaces
    (with [filesystem], [network] and [security]), the workload and PID 1's
    loop, with [src/sys/signal.rs].  The system calls that are new here are
    the class [InitHost].  A loop that waits for the kernel has fuel. *)

From S2P Require Import Prelude RustStr Num Utf8 Error Json Fault Config Seccomp Caps Process State Fs Host KernFs.
From S2P Require Import Ipam Store Network Ipc Loop Security Filesystem.

Import json.

Class InitHost (H : Type) := {
  (** [Channel::send] and [Channel::recv] on init's end, [Ipc.v]. *)
  ic_send : ascii -> string -> HM H unit;
  ic_recv : HM H (option (ascii * string));
  sys_sethostname : string -> H -> option Z * H;
  (** [sigprocmask(SIG_BLOCK)] and [signalfd(2)] of a set. *)
  sys_sigblock : list Z -> H -> option Z * H;
  sys_signalfd : list Z -> H -> option Z * H;
  (** [metadata(p)]: whether it is a file, and its mode. *)
  file_mode : string -> H -> option (bool * Z);
  (** [fork(2)] in the parent: an [errno] or the pid. *)
  sys_fork : H -> (Z + Z) * H;
  (** [wait_pid(-1, WNOHANG)]. *)
  sys_wait : HM H (option (Z * process.ExitStatus));
  (** [poll(2)] of the signal descriptor, with a timeout. *)
  sys_poll : Z -> H -> (Z + Z) * H;
  (** [read(2)] of the signal descriptor: an [errno], or the number in a full
      record. *)
  sys_read_signal : H -> (Z + option Z) * H;
  (** The names in [/proc]. *)
  proc_names : H -> option (list string)
}.

(** ** [src/sys/signal.rs] *)
Module signal.

Definition SIGHUP : Z := 1.
Definition SIGINT : Z := 2.
Definition SIGQUIT : Z := 3.
Definition SIGUSR1 : Z := 10.
Definition SIGUSR2 : Z := 12.
Definition SIGPIPE : Z := 13.
Definition SIGCHLD : Z := 17.
Definition SIGWINCH : Z := 28.
Definition EAGAIN : Z := 11.

Definition FORWARDED : list Z :=
  [SIGTERM; SIGINT; SIGQUIT; SIGHUP; SIGUSR1; SIGUSR2; SIGWINCH; SIGPIPE].

Section ops.
Context {H : Type} `{InitHost H}.

Definition chk (call ctx : string) (m : H -> option Z * H) : HM H unit := fun h =>
  match m h with
  | (None, h') => (Ok tt, h')
  | (Some e, h') => (Err (Syscall call e ctx), h')
  end.

Definition block (signals : list Z) : HM H unit := chk "sigprocmask" "SIG_BLOCK" (sys_sigblock signals).

(** [SignalFd::new]. *)
Definition signalfd (signals : list Z) : HM H unit :=
  _ ← chk "sigprocmask" "SIG_BLOCK for signalfd" (sys_sigblock signals);
  chk "signalfd" "" (sys_signalfd signals).

Definition next_signal : HM H (option Z) := fun h =>
  match sys_read_signal h with
  | (inl e, h') =>
      if (e =? EAGAIN) || (e =? process.EINTR) then (Ok None, h')
      else (Err (Syscall "read" e "signalfd"), h')
  | (inr o, h') => (Ok o, h')
  end.

(** [poll_fds] of one descriptor. *)
Fixpoint poll_fds (fuel : nat) (timeout_ms : Z) : LP H Z := fun h =>
  match fuel with
  | O => (Pending, h)
  | S f =>
      match sys_poll timeout_ms h with
      | (inl e, h') =>
          if e =? process.EINTR then poll_fds f timeout_ms h'
          else (Answer (Err (Syscall "poll" e "1 fds")), h')
      | (inr n, h') => (Answer (Ok n), h')
      end
  end.

End ops.
End signal.

(** ** [src/runtime/init.rs] *)
Module init.

(** [match m { Ok(x) => .., Err(e) => .. }]. *)
Definition lp_try {H A : Type} (m : LP H A) : LP H (result A) := fun h =>
  match m h with
  | (Answer r, h') => (Answer (Ok r), h')
  | (Panicked, h') => (Panicked, h')
  | (Pending, h') => (Pending, h')
  end.

(** The fields [read_network_state] takes from the document. *)
Definition network_state_of (j : Json) : NetworkState.t :=
  let s k := get_str j k in
  NetworkState.Mk (default "none" (s "mode")) None None (s "container_veth") (s "ip")
    (as_u8 (default 24 (v ← get j "prefix"; as_u64 v))) (s "gateway") [].

(** What init leaves to the kernel in the child: the program, its arguments
    and its environment. *)
Record Workload := MkWorkload { exe : string; argv : list string; envp : list string }.

(** How a child ends its own part: it becomes the workload or exits. *)
Inductive ChildEnd := Exec (w : Workload) | Exit (code : Z).

Section child.
Context {K : Type} `{!caps.CapKernel K, !Thread_ops K}.
(** [execve(2)]: whether it takes place. *)
Context (execve : Workload -> K -> bool).

(** The child between [fork] and [execve]; resetting the dispositions and the
    mask of signals cannot fail it. *)
Definition workload_child (user : option (Z * Z)) (w : Workload) (k : K) : ChildEnd * K :=
  let run k := if execve w k then (Exec w, k) else (Exit 127, k) in
  match user with
  | Some (u, g) =>
      match security.caps_switch_user u g k with
      | (Ok _, k') => run k'
      | (Err _, k') => (Exit 126, k')
      end
  | None => run k
  end.
End child.

Section ops.
Context (arch : seccomp.Arch) (MYRUN_FAULT : option string).
Context {H : Type} `{HasWorld H} `{Links H} `{MountKernel H} `{!caps.CapKernel H} `{Thread_ops H}
  `{InitHost H} `{Processes H}.

Definition check (point : string) : HM H unit := host.lift (fault.check MYRUN_FAULT point).

Definition send_tag (tag : ascii) : HM H unit := ic_send tag "".

Definition send_error (msg : string) : HM H unit :=
  ic_send ipc.TAG_ERROR (ipc.take_str (Nat.min (String.length msg) (Z.to_nat ipc.MAX_PAYLOAD)) msg).

Definition send_exit (code signal : Z) : HM H unit :=
  ic_send ipc.TAG_EXIT (ipc.le32 (wrap_u 32 code) +:+ ipc.le32 (wrap_u 32 signal)).

(** [Channel::expect]. *)
Definition expect (want : ascii) : HM H string :=
  m ← ic_recv;
  host.lift
    match m with
    | None => Err (Container ("container init exited before sending " +:+ ipc.tag_name want))
    | Some (tag, payload) =>
        if ascii_dec tag want then Ok payload
        else if ascii_dec tag ipc.TAG_ERROR then Err (Container (ipc.from_utf8_lossy payload))
        else Err (Container ("expected " +:+ ipc.tag_name want +:+ " from container init, got "
                             +:+ ipc.tag_name tag))
    end.

Definition read_config (state_dir : string) : HM H ContainerConfig.t :=
  text ← on_files (ufs.read_to_string (path.join state_dir "config.json"));
  host.lift (j ← parse text; ContainerConfig.from_json j).

Definition read_network_state (state_dir : string) : HM H NetworkState.t :=
  r ← host.try (on_files (ufs.read_to_string (path.join state_dir "netstate.json")));
  mret match r with
       | Ok text => match parse text with Ok j => network_state_of j | Err _ => NetworkState.default end
       | Err _ => NetworkState.default
       end.

(** [sethostname_str]. *)
Definition sethostname_str (name : string) : HM H unit :=
  _ ← host.lift (mnt.cstr name);
  signal.chk "sethostname" name (sys_sethostname name).

Definition setup (cfg : ContainerConfig.t) (netstate : NetworkState.t) : HM H unit :=
  _ ← (if Namespaces.uts (ContainerConfig.namespaces cfg)
       then sethostname_str (ContainerConfig.hostname cfg) else mret tt);
  _ ← filesystem.setup MYRUN_FAULT cfg;
  _ ← (if Namespaces.net (ContainerConfig.namespaces cfg)
       then host.map_err (fun e => Container ("configuring container network: " +:+ error_str e))
              (network.configure_inside netstate)
       else mret tt);
  _ ← network.write_resolver_files cfg netstate;
  _ ← filesystem.enter_cwd (ContainerConfig.cwd cfg);
  security.apply arch (ContainerConfig.security cfg).

(** [is_executable]. *)
Definition is_executable (p : string) (h : H) : bool :=
  match file_mode p h with
  | Some (is_file, mode) => is_file && negb (Z.land mode 73 =? 0)
  | None => false
  end.

(** The search along [PATH]. *)
Fixpoint search_path (cmd : string) (dirs : list string) (h : H) : option string :=
  match dirs with
  | [] => None
  | dir :: l =>
      if str_is_empty dir then search_path cmd l h
      else
        let candidate := path.join dir cmd in
        if is_executable candidate h then Some candidate else search_path cmd l h
  end.

Definition resolve_exe (cmd : string) (path_env : option string) : HM H string := fun h =>
  if contains_char "/" cmd then
    (if is_executable cmd h then Ok cmd
     else Err (NotFound (cmd +:+ " is not an executable file in the container")), h)
  else
    let path := default DEFAULT_PATH path_env in
    (match search_path cmd (split_on ":" path) h with
     | Some p => Ok p
     | None => Err (NotFound ("executable " +:+ debug_str cmd
                              +:+ " not found in the container's PATH (" +:+ path +:+ ")"))
     end, h).

Definition c_string (what s : string) : result string :=
  if contains_char "000" s then Err (Error.Config (what +:+ " contains a NUL byte")) else Ok s.

(** [spawn_workload] in the parent; an empty command is an index out of range. *)
Definition workload_of (cfg : ContainerConfig.t) : LP H Workload :=
  match ContainerConfig.command cfg with
  | [] => panic
  | cmd :: _ =>
      now (exe ← resolve_exe cmd (ContainerConfig.env_value (ContainerConfig.env cfg) "PATH");
           host.lift (exe ← c_string "command path" exe;
                      argv ← try_map (c_string "argument") (ContainerConfig.command cfg);
                      envp ← try_map (c_string "environment") (ContainerConfig.env cfg);
                      Ok (MkWorkload exe argv envp)))
  end.

Definition fork_process : HM H Z := fun h =>
  match sys_fork h with
  | (inl e, h') => (Err (Syscall "fork" e ""), h')
  | (inr pid, h') => (Ok pid, h')
  end.

Definition spawn_workload (cfg : ContainerConfig.t) : LP H Z :=
  _ ← workload_of cfg;
  now fork_process.

(** [process::reap_all]. *)
Fixpoint reap_all (fuel : nat) : LP H (list (Z * process.ExitStatus)) := fun h =>
  match fuel with
  | O => (Pending, h)
  | S f =>
      match sys_wait h with
      | (Ok (Some x), h') =>
          match reap_all f h' with
          | (Answer (Ok l), h'') => (Answer (Ok (x :: l)), h'')
          | r => r
          end
      | (_, h') => (Answer (Ok []), h')
      end
  end.

(** The status of the workload among the reaped children; a later one
    replaces an earlier one. *)
Definition status_in (workload : Z) (l : list (Z * process.ExitStatus)) : option process.ExitStatus :=
  foldl (fun r x => if x.1 =? workload then Some x.2 else r) None l.

(** The inner loop: forwarding what the descriptor has. *)
Fixpoint forward (fuel : nat) (workload : Z) : LP H unit := fun h =>
  match fuel with
  | O => (Pending, h)
  | S f =>
      match signal.next_signal h with
      | (Ok (Some ssi_signo), h1) =>
          let signo := wrap_s 32 ssi_signo in
          if signo =? signal.SIGCHLD then forward f workload h1
          else let '(_, h2) := kill_pid workload signo h1 in forward f workload h2
      | (_, h1) => (Answer (Ok tt), h1)
      end
  end.

(** [supervise]; [n] bounds the inner loops. *)
Fixpoint supervise (n fuel : nat) (workload : Z) : LP H process.ExitStatus :=
  match fuel with
  | O => pending
  | S f =>
      l ← reap_all n;
      match status_in workload l with
      | Some status => mret status
      | None =>
          r ← lp_try (signal.poll_fds n 200);
          match r with
          | Ok 0 => supervise n f workload
          | Ok _ => _ ← forward n workload; supervise n f workload
          | Err _ => _ ← now (sleep 50); supervise n f workload
          end
      end
  end.

(** [list_pids_in_proc("/proc").unwrap_or_default()], without init itself. *)
Definition other_pids (h : H) : list Z :=
  filter (fun p => p <> 1) (sort Z.leb (omap (parse_i 32) (default [] (proc_names h)))).

Definition others : HM H (list Z) := fun h => (Ok (other_pids h), h).

Definition signal_all (sig : Z) (pids : list Z) : HM H unit :=
  host.for_each (fun p => host.ignore (kill_pid p sig)) pids.

(** The grace period: whether everything is gone. *)
Fixpoint grace (n rounds : nat) : LP H bool :=
  match rounds with
  | O => mret false
  | S r =>
      _ ← now (sleep 25);
      _ ← reap_all n;
      left ← now others;
      if (length left =? 0)%nat then mret true else grace n r
  end.

Definition shutdown_remaining (n : nat) : LP H unit :=
  pids ← now others;
  match pids with
  | [] => mret tt
  | _ =>
      _ ← now (signal_all SIGTERM pids);
      gone ← grace n 20;
      if gone : bool then mret tt
      else
        _ ← now (signal_all SIGKILL pids);
        _ ← reap_all n;
        mret tt
  end.

(** Everything before the fork. *)
Definition prepare (state_dir : string) : HM H ContainerConfig.t :=
  cfg ← read_config state_dir;
  _ ← send_tag ipc.TAG_READY;
  _ ← check "before_go_signal";
  _ ← expect ipc.TAG_GO;
  _ ← check "after_go_signal";
  netstate ← read_network_state state_dir;
  _ ← setup cfg netstate;
  _ ← signal.block signal.FORWARDED;
  _ ← signal.signalfd signal.FORWARDED;
  _ ← check "before_exec";
  mret cfg.

Definition run (n fuel : nat) (state_dir : string) : LP H process.ExitStatus :=
  cfg ← now (prepare state_dir);
  child ← spawn_workload cfg;
  _ ← now (send_tag ipc.TAG_STARTED);
  status ← supervise n fuel child;
  _ ← shutdown_remaining n;
  mret status.

(** [main]: the code init exits with. *)
Definition main (n fuel : nat) (state_dir : string) : LP H Z := fun h =>
  match run n fuel state_dir h with
  | (Answer (Ok status), h1) =>
      let '(_, h2) := send_exit (default (-1) (process.code status)) (default 0 (process.signal status)) h1 in
      (Answer (Ok (process.exit_code status)), h2)
  | (Answer (Err e), h1) =>
      let '(_, h2) := send_error (error_str e) h1 in (Answer (Ok (exit_code e)), h2)
  | (Panicked, h1) => (Panicked, h1)
  | (Pending, h1) => (Pending, h1)
  end.

End ops.
End init.
