(* ===== verification/Supervisor.v ===== *)
(** * [src/runtime/supervisor.rs]: launching, waiting, tearing down, collecting

    [launch] works on the container's state, the host and the rollback stack;
    its early returns drop the stack.  The other functions work on the host
    and give back the state they changed in place.  Lines for the log are left
    out. *)
From S2P Require Import Prelude RustStr Num Utf8 Error Json Rollback Fault Util Process Net Caps Seccomp Config State Fs Host KernFs NatRules Ipam Store Cgroup Network Ipc Spawn.
Import json.

Module supervisor.

(** [struct Running]. *)
Record Running := MkRunning { child : Z; cg : option cgroup.Cgroup }.

(** [init_environment]. *)
Definition init_environment (MYRUN_LOG MYRUN_FAULT : option string) : list string :=
  ("PATH=" +:+ DEFAULT_PATH) ::
  omap (fun kv : string * option string =>
          v ← snd kv; if str_is_empty v then None else Some (fst kv +:+ "=" +:+ v))
    [("MYRUN_LOG", MYRUN_LOG); ("MYRUN_FAULT", MYRUN_FAULT)].

(** The document of [write_netstate]. *)
Definition netstate_json (n : NetworkState.t) : Json :=
  set (set (set (set (set obj
    "mode" (JStr (NetworkState.mode n)))
    "ip" (opt_json JStr (NetworkState.ip n)))
    "gateway" (opt_json JStr (NetworkState.gateway n)))
    "container_veth" (opt_json JStr (NetworkState.container_veth n)))
    "prefix" (JInt (NetworkState.prefix n)).

Section ops.
Context {H : Type} `{HasWorld H} `{Iptables H} `{Links H} `{KernFs H} `{Processes H} `{Spawner H}.
(** The environment, the runtime root and the process id. *)
Context (MYRUN_FAULT MYRUN_ALLOW_MISSING_CONTROLLERS MYRUN_LOG : option string) (root : string) (self : Z).

Abbreviation ST := ContainerState.t.
Abbreviation Rb := (@network.Rb H).

Definition clock : HM H Z := fun h => (Ok (now_ms h), h).

Definition check (point : string) : HM H unit := host.lift (fault.check MYRUN_FAULT point).

(** ** [create] *)

Definition create (st : ST) : HM H ST :=
  _ ← check "before_state_create";
  _ ← on_files (Store.create root self st);
  _ ← check "after_state_create";
  now ← clock;
  st ← host.lift (ContainerState.transition now st Status.Created);
  _ ← on_files (Store.save root self st);
  mret st.

Definition netstate_path (id : string) : string := path.join (Store.dir root id) "netstate.json".

Definition write_netstate (st : ST) : HM H unit :=
  on_files (ufs.write_atomic self (netstate_path (ContainerState.id st))
              (to_string_pretty (netstate_json (ContainerState.network st)))).

(** ** [launch] *)

(** The variables of [launch]: the state, the host, the undo actions. *)
Abbreviation LM := (HM (ST * (H * Rb))).

Definition on_net {A : Type} (m : HM (H * Rb) A) : LM A := fun s =>
  let '(r, x) := m (snd s) in (r, (fst s, x)).
Definition on_host {A : Type} (m : HM H A) : LM A := on_net (network.act m).
Definition undo (name : string) (u : HM H unit) : LM unit := on_net (network.push name u).
Definition the_state : LM ST := fun s => (Ok (fst s), s).
Definition the_host : LM H := fun s => (Ok (fst (snd s)), s).
Definition update (f : ST -> ST) : LM unit := fun s => (Ok tt, (f (fst s), snd s)).

(** The undo actions. *)
Definition undo_cgroup (p : string) : HM H unit := c ← cgroup.attach p; cgroup.remove c.

Definition undo_process (pid : Z) : HM H unit :=
  _ ← host.ignore (kill_pid pid SIGKILL);
  host.ignore (wait_child pid false).

Definition undo_network (id : string) (n : NetworkState.t) : HM H unit := network.teardown root self id n.

(** Step 1. *)
Definition make_cgroup (id : string) (res : Resources.t) : LM (option cgroup.Cgroup) :=
  r ← host.try (on_host (cgroup.create MYRUN_FAULT MYRUN_ALLOW_MISSING_CONTROLLERS id res));
  match r with
  | Ok c =>
      _ ← undo "cgroup" (undo_cgroup (cgroup.path c));
      _ ← update (fun st => ContainerState.set_cgroup st (Some (cgroup.path c)));
      mret (Some c)
  | Err e =>
      if Resources.is_empty res && (exit_code e =? exit.UNSUPPORTED) then mret None
      else host.fail e
  end.

(** [cg.open_fd().ok()]: the group the child is cloned into. *)
Definition clone_target (c : option cgroup.Cgroup) : HM H (option string) :=
  match c with
  | Some c => r ← host.try (open_dir (cgroup.path c)); mret (match r with Ok _ => Some (cgroup.path c) | Err _ => None end)
  | None => mret None
  end.

(** Steps 2 and 3, up to the registration of the child. *)
Definition start_child (id : string) (ns : Namespaces.t) (c : option cgroup.Cgroup) : LM (Z * bool) :=
  _ ← on_host seal_self;
  _ ← on_host channel_pair;
  plan ← host.lift (spawn.exec_plan ["myrun-init"; "__init"; Store.dir root id]
                      (init_environment MYRUN_LOG MYRUN_FAULT));
  target ← on_host (clone_target c);
  _ ← on_host (check "before_clone");
  pid ← on_host (spawn.clone_child
          (spawn.MkRequest (Namespaces.clone_flags ns) target spawn.SIGCHLD (Some SIGKILL) plan));
  _ ← on_host (check "after_clone");
  _ ← undo "container process" (undo_process pid);
  mret (pid, match target with Some _ => true | None => false end).

(** The fallback for a child that was not cloned into its group. *)
Definition place_child (c : option cgroup.Cgroup) (placed_by_clone : bool) (pid : Z) : HM H unit :=
  match c with
  | Some c => if placed_by_clone then mret tt else cgroup.add_pid c pid
  | None => mret tt
  end.

(** Everything up to the message that lets init go on. *)
Definition prepare (cfg : ContainerConfig.t) : LM Running :=
  st ← the_state;
  let id := ContainerState.id st in
  c ← make_cgroup id (ContainerConfig.resources cfg);
  '(pid, placed) ← start_child id (ContainerConfig.namespaces cfg) c;
  _ ← on_host (place_child c placed pid);
  h ← the_host;
  _ ← update (fun st => ContainerState.set_init st pid (default 0 (spawn.start_time pid h)));
  _ ← on_host (spawn.expect ipc.TAG_READY);
  n ← on_net (network.setup_host MYRUN_FAULT root self cfg pid);
  _ ← update (fun st => ContainerState.set_network st n);
  _ ← undo "container network" (undo_network id n);
  st ← the_state;
  _ ← on_host (write_netstate st);
  mret (MkRunning pid c).

(** Steps 7 and 8 and what follows. *)
Definition let_go (run : Running) : LM Running :=
  _ ← on_host (ch_send ipc.TAG_GO);
  _ ← on_host (spawn.expect ipc.TAG_STARTED);
  st ← the_state;
  h ← the_host;
  st ← host.lift (ContainerState.transition (now_ms h) st Status.Running);
  _ ← update (fun _ => ContainerState.set_error st None);
  st ← the_state;
  _ ← on_host (on_files (Store.save root self st));
  _ ← on_host (check "after_start");
  mret run.

Definition commit : LM unit := fun s =>
  (Ok tt, (fst s, (fst (snd s), rollback.commit (snd (snd s))))).

Definition launch_body (cfg : ContainerConfig.t) : LM Running :=
  run ← prepare cfg;
  run ← let_go run;
  _ ← commit;
  mret run.

Definition not_created (st : ST) : Error :=
  InvalidState ("container " +:+ util.short_id (ContainerState.id st) +:+ " is "
                +:+ Status.as_str (ContainerState.status st) +:+ ", not created; cannot start it").

Definition launch (st : ST) (h : H) : result Running * ST * H :=
  if negb (bool_decide (ContainerState.status st = Status.Created)) then (Err (not_created st), st, h)
  else
    let '(r, (st', (h', rb))) := launch_body (ContainerState.config st) (st, (h, rollback.new)) in
    (r, st', rollback.drop rb h').

(** ** [wait_for_exit] *)

(** The fields of the frame [TAG_EXIT]. *)
Definition exit_of (payload : string) : option process.ExitStatus :=
  '(code, signal) ← ipc.parse_exit payload;
  Some (process.MkExit (if 0 <=? code then Some code else None) (if 0 <? signal then Some signal else None)).

(** The loop over the frames init sends; [None] when the fuel is used up. *)
Fixpoint drain (fuel : nat) (st : ST) (from_init : option process.ExitStatus) (h : H)
    : option (ST * option process.ExitStatus * H) :=
  match fuel with
  | O => None
  | S n =>
      match ch_recv h with
      | (Ok (Some (tag, payload)), h') =>
          if ascii_dec tag ipc.TAG_EXIT then
            drain n st (match exit_of payload with Some e => Some e | None => from_init end) h'
          else if ascii_dec tag ipc.TAG_ERROR then
            drain n (ContainerState.set_error st (Some (ipc.from_utf8_lossy payload))) from_init h'
          else drain n st from_init h'
      | (Ok None, h') | (Err _, h') => Some (st, from_init, h')
      end
  end.

Definition final_status (from_init : option process.ExitStatus) (waited : option (Z * process.ExitStatus))
    : process.ExitStatus :=
  default (process.MkExit (Some (-1)) None) (or_else from_init (snd <$> waited)).

Definition mark_oom (st : ST) (c : cgroup.Cgroup) : HM H ST :=
  killed ← cgroup.was_oom_killed c;
  mret (if killed : bool then ContainerState.set_oom st true else st).

(** [record_exit] and the transition, whose failure is ignored. *)
Definition record_stop (now : Z) (st : ST) (e : process.ExitStatus) : ST :=
  let st := ContainerState.record_exit now st e in
  match ContainerState.transition now st Status.Stopped with Ok st' => st' | Err _ => st end.

(** What follows the loop. *)
Definition settle (st : ST) (run : Running) (from_init : option process.ExitStatus) (h : H)
    : result process.ExitStatus * ST * H :=
  match wait_child (child run) false h with
  | (Err e, h') => (Err e, st, h')
  | (Ok waited, h') =>
      let status := final_status from_init waited in
      let '(r, h'') := match cg run with Some c => mark_oom st c h' | None => (Ok st, h') end in
      let st := match r with Ok st' => st' | Err _ => st end in
      let st := record_stop (now_ms h'') st status in
      match on_files (Store.save root self st) h'' with
      | (Ok _, h3) => (Ok status, st, h3)
      | (Err e, h3) => (Err e, st, h3)
      end
  end.

Definition wait_for_exit (fuel : nat) (st : ST) (run : Running) (h : H)
    : option (result process.ExitStatus * ST * H) :=
  match drain fuel st None h with
  | Some (st', from_init, h') => Some (settle st' run from_init h')
  | None => None
  end.

(** ** [teardown] *)

Definition alive_now (st : ST) (h : H) : bool := ContainerState.init_is_alive (fun pid => proc_stat pid h) st.

Definition is_alive (st : ST) : HM H bool := fun h => (Ok (alive_now st h), h).

Definition kill_if_alive (st : ST) : HM H unit :=
  alive ← is_alive st;
  if (0 <? ContainerState.init_pid st) && (alive : bool) then
    _ ← host.ignore (kill_pid (ContainerState.init_pid st) SIGKILL);
    host.ignore (wait_child (ContainerState.init_pid st) true)
  else mret tt.

Definition release_cgroup (st : ST) : HM H ST :=
  match ContainerState.cgroup_path st with
  | None => mret st
  | Some p =>
      a ← host.try (cgroup.attach p);
      match a with
      | Err _ => mret st
      | Ok c =>
          st ← mark_oom st c;
          _ ← host.ignore (cgroup.kill_all c);
          _ ← host.ignore (cgroup.remove c);
          mret st
      end
  end.

Definition mark_stopped (now : Z) (st : ST) : ST :=
  if Status.is_live (ContainerState.status st) then
    let st := ContainerState.set_status st Status.Stopped in
    if ContainerState.finished_at st =? 0 then ContainerState.set_finished st now else st
  else st.

Definition teardown (st : ST) : HM H ST :=
  _ ← host.ignore (check "before_teardown");
  _ ← kill_if_alive st;
  st ← release_cgroup st;
  _ ← network.teardown root self (ContainerState.id st) (ContainerState.network st);
  now ← clock;
  let st := mark_stopped now st in
  _ ← host.ignore (on_files (Store.save root self st));
  mret st.

(** ** [gc] *)

(** [store.reconcile(&mut st)]. *)
Definition reconcile (st : ST) : HM H (bool * ST) := fun h =>
  let '(r, st', w) := Store.reconcile root self (now_ms h) (fun pid => proc_stat pid h) st (world h) in
  (b ← r; Ok (b, st'), set_world w h).

Fixpoint gc_states (l : list ST) (report live : list string) : HM H (list string * list string) :=
  match l with
  | [] => mret (report, live)
  | st :: rest =>
      '(corrected, st) ← reconcile st;
      '(report, st) ← (if corrected : bool then
                        st' ← teardown st;
                        mret (report ++ [util.short_id (ContainerState.id st)
                                         +:+ ": marked stopped (init process was gone)"], st')
                      else mret (report, st));
      gc_states rest report
        (if Status.is_live (ContainerState.status st) then live ++ [ContainerState.id st] else live)
  end.

Definition delete_veth (v : string) : HM H unit :=
  _ ← netlink Open;
  idx ← network.link_index_required v;
  netlink (DeleteLink idx).

Fixpoint gc_veths (l report : list string) : HM H (list string) :=
  match l with
  | [] => mret report
  | v :: rest =>
      r ← host.try (delete_veth v);
      gc_veths rest (match r with Ok _ => report ++ ["deleted orphaned interface " +:+ v] | Err _ => report end)
  end.

(** The part of [gc] for a host without live containers. *)
Definition gc_shared (report : list string) : HM H (list string) :=
  r ← host.try (network.remove_bridge_if_unused DEFAULT_BRIDGE);
  let report := match r with
                | Ok true => report ++ ["removed unused bridge " +:+ DEFAULT_BRIDGE]
                | _ => report
                end in
  base_rules ← nat.rule_count "base";
  if 0 <? base_rules then
    _ ← nat.teardown_base;
    mret (report ++ ["removed " +:+ show_dec base_rules +:+ " shared iptables rule(s)"])
  else mret report.

Definition gc : HM H (list string) :=
  l ← on_files (Store.list root);
  '(report, live) ← gc_states l [] [];
  n ← cgroup.gc_empty live;
  let report := if 0 <? n then report ++ ["removed " +:+ show_dec n +:+ " orphaned cgroup(s)"] else report in
  m ← host.try (on_files (ipam.gc root self live));
  let report := match m with
                | Ok m => if 0 <? m then report ++ ["released " +:+ show_dec m +:+ " stale IP lease(s)"] else report
                | Err _ => report
                end in
  v ← host.try (network.orphaned_veths live);
  report ← match v with Ok veths => gc_veths veths report | Err _ => mret report end;
  if bool_decide (live = []) then gc_shared report else mret report.

(** [load_reconciled]. *)
Definition load_reconciled (id : string) : HM H ST :=
  st ← on_files (Store.load root id);
  '(_, st) ← reconcile st;
  mret st.

End ops.
End supervisor.
