(* ===== verification/InitFacts.v ===== *)
(** * What init does

    PID 1's loop passes on every signal and reports the status the workload
    had; the workload is forked by a thread that is already confined; what the
    runtime wrote about the network is what init reads; programs are found
    along [PATH] the way [execvp] finds them. *)
From S2P Require Import Prelude RustStr Num Utf8 Error Json JsonFacts JsonUtf8 Fault Config ConfigFacts Seccomp.
From S2P Require Import Caps Process State StateFacts Fs FsFacts Host KernFs Ipam Store Network Ipc Loop Security.
From S2P Require Import SecurityFacts Filesystem FilesystemFacts Init Supervisor.
Import json.

(** ** What PID 1 sees and does *)

Inductive WEv :=
| WRead (signo : Z)
| WKill (pid sig : Z)
| WReap (pid : Z) (st : process.ExitStatus).

(** A host that keeps a log of the signals read, the signals sent and the
    children reaped. *)
Definition Watched (H : Type) : Type := list WEv * H.

Section watched.
Context {H : Type} `{IH : InitHost H} `{PR : Processes H}.

(** An operation of the host below, with what it adds to the log. *)
Definition lower {A} (ev : A -> list WEv) (m : H -> A * H) (lh : Watched H) : A * Watched H :=
  let '(a, h') := m (snd lh) in (a, (fst lh ++ ev a, h')).

#[export] Instance watched_init : InitHost (Watched H) := {
  ic_send t p := lower (fun _ => []) (ic_send t p);
  ic_recv := lower (fun _ => []) ic_recv;
  sys_sethostname s := lower (fun _ => []) (sys_sethostname s);
  sys_sigblock l := lower (fun _ => []) (sys_sigblock l);
  sys_signalfd l := lower (fun _ => []) (sys_signalfd l);
  file_mode p lh := file_mode p (snd lh);
  sys_fork := lower (fun _ => []) sys_fork;
  sys_wait := lower (fun r => match r with Ok (Some (p, st)) => [WReap p st] | _ => [] end) sys_wait;
  sys_poll t := lower (fun _ => []) (sys_poll t);
  sys_read_signal := lower (fun r => match r with inr (Some n) => [WRead n] | _ => [] end) sys_read_signal;
  proc_names lh := proc_names (snd lh)
}.

#[export] Instance watched_processes : Processes (Watched H) := {
  sys_kill p s := lower (fun _ => [WKill p s]) (sys_kill p s);
  sleep_ms t lh := (fst lh, sleep_ms t (snd lh))
}.

(** [adds m S]: [S] holds of the outcome of [m] and of what it logged. *)
Definition adds {A} (m : LP (Watched H) A) (S : outcome A -> list WEv -> Prop) : Prop :=
  forall lh, exists evs, fst (snd (m lh)) = fst lh ++ evs /\ S (fst (m lh)) evs.

Lemma adds_conseq {A} (m : LP (Watched H) A) (S S' : _ -> _ -> Prop) :
  adds m S -> (forall o evs, S o evs -> S' o evs) -> adds m S'.
Proof. intros Hm Hi lh. destruct (Hm lh) as (evs & ? & ?). eauto. Qed.

Lemma log_bind {A B} (m : LP (Watched H) A) (f : A -> LP (Watched H) B) S1 S2 S3 :
  adds m S1 -> (forall a, adds (f a) (S2 a)) ->
  (forall a e1 e2 o, S1 (Answer (Ok a)) e1 -> S2 a o e2 -> S3 o (e1 ++ e2)) ->
  (forall e evs, S1 (Answer (Err e)) evs -> S3 (Answer (Err e)) evs) ->
  (forall evs, S1 Panicked evs -> S3 Panicked evs) -> (forall evs, S1 Pending evs -> S3 Pending evs) ->
  adds (m ≫= f) S3.
Proof.
  intros Hm Hf H1 H2 H3 H4 lh. destruct (Hm lh) as (e1 & E1 & HS). rewrite lp_bind_eq.
  destruct (m lh) as [[[a|e]| |] lh1]; cbn [fst snd] in *;
    [|exists e1; split; [done|by auto]..].
  destruct (Hf a lh1) as (e2 & E2 & HS2). exists (e1 ++ e2). rewrite E2, E1, (assoc_L (++)). eauto.
Qed.

(** The signals that are to reach the workload, and those that were sent. *)
Definition wanted (workload : Z) (e : WEv) : option (Z * Z) :=
  match e with
  | WRead n => let s := as_i32 n in if s =? signal.SIGCHLD then None else Some (workload, s)
  | _ => None
  end.
Definition sent_to (e : WEv) : option (Z * Z) := match e with WKill p s => Some (p, s) | _ => None end.
Definition reaped (e : WEv) : option (Z * process.ExitStatus) :=
  match e with WReap p st => Some (p, st) | _ => None end.

(** Every signal read was passed on, in order. *)
Definition relayed (w : Z) (evs : list WEv) : Prop := omap sent_to evs = omap (wanted w) evs.

Lemma relayed_app w e1 e2 : relayed w e1 -> relayed w e2 -> relayed w (e1 ++ e2).
Proof. unfold relayed. rewrite !omap_app. by intros -> ->. Qed.

Lemma reap_adds n : adds (init.reap_all n) (fun o evs =>
  omap sent_to evs = [] /\ (forall w, omap (wanted w) evs = []) /\
  match o with Answer (Ok l) => omap reaped evs = l | Pending => True | _ => False end).
Proof.
  induction n as [|n IHn]; intros lh; cbn [init.reap_all].
  - exists []. by rewrite List.app_nil_r.
  - cbn [sys_wait watched_init]. unfold lower. destruct (sys_wait (snd lh)) as [[[[p st]|]|e] h'].
    + destruct (IHn (fst lh ++ [WReap p st], h')) as (evs & E & H1 & H2 & H3). revert E H3.
      destruct (init.reap_all n _) as [[[l|e]| |] lh']; cbn [fst snd]; intros E H3; try done;
        exists (WReap p st :: evs); rewrite E, <- (assoc_L (++)); cbn; auto.
      split; [done|]. split_and!; auto. by rewrite H3.
    + exists []. by rewrite List.app_nil_r.
    + exists []. by rewrite List.app_nil_r.
Qed.

Lemma poll_adds n t : adds (signal.poll_fds n t) (fun o evs => evs = [] /\ o <> Panicked).
Proof.
  induction n as [|n IHn]; intros lh; cbn [signal.poll_fds].
  - exists []. by rewrite List.app_nil_r.
  - cbn [sys_poll watched_init]. unfold lower. destruct (sys_poll t (snd lh)) as [[e|k] h']; [case_match|].
    + destruct (IHn (fst lh ++ [], h')) as (evs & E & -> & Ho). exists []. rewrite E. cbn [fst].
      split; [by rewrite !List.app_nil_r|done].
    + exists []. by rewrite List.app_nil_r.
    + exists []. by rewrite List.app_nil_r.
Qed.

Lemma forward_adds n w : adds (init.forward n w) (fun o evs =>
  relayed w evs /\ omap reaped evs = [] /\ (o = Answer (Ok tt) \/ o = Pending)).
Proof.
  induction n as [|n IHn]; intros lh; cbn [init.forward].
  - exists []. split; [by rewrite List.app_nil_r|]. split_and!; [done|done|by right].
  - unfold signal.next_signal. cbn [sys_read_signal watched_init]. unfold lower.
    destruct (sys_read_signal (snd lh)) as [[e|[s|]] h1].
    + exists []. destruct (_ || _); cbn [fst snd]; (split; [by rewrite List.app_nil_r|]);
        (split_and!; [done|done|by left]).
    + destruct (as_i32 s =? signal.SIGCHLD) eqn:Es.
      * destruct (IHn (fst lh ++ [WRead s], h1)) as (evs & E & Hr & Hp & Ho). exists (WRead s :: evs).
        split; [rewrite E; cbn [fst]; by rewrite <- (assoc_L (++))|]. split_and!; [|done|done].
        unfold relayed in *. cbn. by rewrite Es, Hr.
      * unfold kill_pid. cbn [sys_kill watched_processes]. unfold lower. cbn [fst snd].
        destruct (sys_kill w (as_i32 s) h1) as [[e|] h2];
          (destruct (IHn ((fst lh ++ [WRead s]) ++ [WKill w (as_i32 s)], h2)) as (evs & E & Hr & Hp & Ho);
           exists (WRead s :: WKill w (as_i32 s) :: evs);
           split; [rewrite E; cbn [fst]; by rewrite <- !(assoc_L (++))|];
           split_and!; [unfold relayed in *; cbn; by rewrite Es, Hr|done|done]).
    + exists []. cbn [fst snd]. split; [by rewrite List.app_nil_r|]. split_and!; [done|done|by left].
Qed.

Lemma status_in_app w l1 l2 : init.status_in w l1 = None ->
  init.status_in w (l1 ++ l2) = init.status_in w l2.
Proof. unfold init.status_in. rewrite foldl_app. by intros ->. Qed.

(** What the loop has done, with every outcome. *)
Definition supervised (w : Z) (o : outcome process.ExitStatus) (evs : list WEv) : Prop :=
  relayed w evs /\
  match o with
  | Answer (Ok st) => init.status_in w (omap reaped evs) = Some st
  | Pending => True
  | _ => False
  end.

Lemma relayed_nil w evs : omap sent_to evs = [] -> (forall w, omap (wanted w) evs = []) -> relayed w evs.
Proof. unfold relayed. by intros -> ->. Qed.

Lemma supervised_after w o e1 e2 : relayed w e1 -> init.status_in w (omap reaped e1) = None ->
  supervised w o e2 -> supervised w o (e1 ++ e2).
Proof.
  intros Hr Hs [H1 H2]. split; [by apply relayed_app|]. destruct o as [[st|]| |]; try done.
  by rewrite omap_app, status_in_app.
Qed.

Lemma try_adds {A} (m : LP (Watched H) A) S : adds m S ->
  adds (init.lp_try m) (fun o evs => match o with
    | Answer (Ok r) => S (Answer r) evs | Answer (Err _) => False
    | Panicked => S Panicked evs | Pending => S Pending evs end).
Proof. intros Hm lh. specialize (Hm lh). unfold init.lp_try. by destruct (m lh) as [[]]. Qed.

Lemma sleep_adds t : adds (now (sleep t)) (fun o evs => evs = [] /\ o = Answer (Ok tt)).
Proof. intros lh. exists []. by rewrite List.app_nil_r. Qed.

Lemma supervise_adds n fuel w : adds (init.supervise n fuel w) (supervised w).
Proof.
  induction fuel as [|f IHf]; cbn [init.supervise].
  { intros lh. exists []. rewrite List.app_nil_r. by split. }
  eapply (log_bind _ _ _ (fun l o evs => match init.status_in w l with
            | Some st => o = Answer (Ok st) /\ evs = [] | None => supervised w o evs end));
    [apply reap_adds|..].
  - intros l. destruct (init.status_in w l) as [st|].
    { intros lh. exists []. by rewrite List.app_nil_r. }
    eapply (log_bind _ _ _ (fun _ o evs => supervised w o evs)); [apply try_adds, poll_adds|..].
    + intros [k|e].
      * assert (adds (_ ← init.forward n w; init.supervise n f w) (supervised w)) as Hfw.
        { eapply (log_bind _ _ _ (fun _ o evs => supervised w o evs)); [apply forward_adds|intros _; apply IHf|..].
          - intros _ e1 e2 o (Hr & Hp & _) Ho. apply supervised_after; [done|by rewrite Hp|done].
          - intros e evs (_ & _ & [?|?]); done.
          - intros evs (_ & _ & [?|?]); done.
          - intros evs (Hr & _ & _). by split. }
        destruct k; [apply IHf|exact Hfw..].
      * eapply (log_bind _ _ _ (fun _ o evs => supervised w o evs)); [apply sleep_adds|intros _; apply IHf|..];
          [intros _ e1 e2 o [-> _] Ho; exact Ho|by intros ? ? [_ ?]|by intros ? [_ ?]|by intros ? [_ ?]].
    + intros r e1 e2 o [-> _] Ho. exact Ho.
    + done.
    + by intros evs [_ ?].
    + intros evs [-> _]. by split.
  - cbn. intros l e1 e2 o (H1 & H2 & <-) Ho. destruct (init.status_in w (omap reaped e1)) as [st|] eqn:Es.
    + destruct Ho as [-> ->]. rewrite List.app_nil_r. split; [by apply relayed_nil|done].
    + apply supervised_after; [by apply relayed_nil|done|done].
  - by intros e evs (_ & _ & ?).
  - by intros evs (_ & _ & ?).
  - intros evs (H1 & H2 & _). split; [by apply relayed_nil|done].
Qed.

(** C20: in every run of PID 1's loop, the signals sent are exactly those that
    were read (but for [SIGCHLD]), each to the workload and in order; the loop
    neither fails nor panics, and when it ends, its answer is the status the
    workload was reaped with. *)
Theorem supervise_faithful n fuel w h o log h' :
  init.supervise n fuel w (([], h) : Watched H) = (o, (log, h')) -> supervised w o log.
Proof.
  intros E. destruct (supervise_adds n fuel w ([], h)) as (evs & El & Hs). rewrite E in El, Hs.
  cbn in El, Hs. by subst.
Qed.

End watched.

(** ** The workload starts confined *)

(** The operations of a host with another [fork]. *)
Definition with_fork {H : Type} (fork : H -> (Z + Z) * H) (I : InitHost H) : InitHost H := {|
  ic_send := ic_send; ic_recv := ic_recv; sys_sethostname := sys_sethostname;
  sys_sigblock := sys_sigblock; sys_signalfd := sys_signalfd; file_mode := file_mode;
  sys_fork := fork; sys_wait := sys_wait; sys_poll := sys_poll;
  sys_read_signal := sys_read_signal; proc_names := proc_names
|}.

(** Masks of signals are no part of a thread's privileges. *)
Class SignalLaws (H : Type) `{!caps.CapKernel H, !Thread_ops H, !InitHost H} : Prop := {
  sigblock_keeps l h o h' : sys_sigblock l h = (o, h') ->
    same_caps h h' /\ nnp h' = nnp h /\ filters h' = filters h;
  signalfd_keeps l h o h' : sys_signalfd l h = (o, h') ->
    same_caps h h' /\ nnp h' = nnp h /\ filters h' = filters h
}.

Section fork.
Context (arch : seccomp.Arch) (fault : option string) {H : Type} `{HW : HasWorld H} `{LK : Links H}
  `{MK : MountKernel H} `{CK : !caps.CapKernel H} `{TO : !Thread_ops H} `{TL : !ThreadLaws H}
  `{IH : !InitHost H} `{SL : !SignalLaws H} `{PR : Processes H}.
Context (exec : list seccomp.SockFilter -> seccomp.seccomp_data -> nat -> Z -> option Z)
  `{CM : !seccomp.CbpfMachine exec}.
(** The capabilities of the kernel are its own. *)
Context (last : Z) (Hlast : forall h : H, caps.last_cap h = last) (Hlast64 : last < 64).

(** The thread is as the configuration asks. *)
Definition ready (cfg : ContainerConfig.t) (h : H) : Prop :=
  let sec := ContainerConfig.security cfg in
  SecurityConfig.privileged sec = false ->
  exists keep, SecurityConfig.cap_mask sec = Ok keep /\ hardened arch exec sec keep last h.

Lemma sig_chk_ok call ctx (m : H -> option Z * H) h h' :
  signal.chk call ctx m h = (Ok tt, h') -> m h = (None, h').
Proof. unfold signal.chk. destruct (m h) as [[e|] ?]; [done|]. by intros [= ->]. Qed.

Lemma hardened_same sec keep h h' : same_caps h h' -> nnp h' = nnp h -> filters h' = filters h ->
  hardened arch exec sec keep last h -> hardened arch exec sec keep last h'.
Proof.
  intros (_ & Eb & Ee & Ep & Ei) En Ef. unfold hardened, filtered. by rewrite Eb, Ee, Ep, Ei, En, Ef.
Qed.

Lemma apply_ready sec h h' : security.apply arch sec h = (Ok tt, h') ->
  SecurityConfig.privileged sec = false ->
  exists keep, SecurityConfig.cap_mask sec = Ok keep /\ hardened arch exec sec keep last h'.
Proof.
  intros Ha Hp. destruct (SecurityConfig.cap_mask sec) as [keep|e] eqn:Ek.
  - exists keep. split; [done|]. rewrite <- (Hlast h). apply apply_hardens; [done..| |done].
    by rewrite Hlast.
  - exfalso. unfold security.apply, security.precheck in Ha. rewrite hm_bind_eq, Hp, Ek in Ha. done.
Qed.

Lemma prepare_ready dir h cfg h' : init.prepare arch fault dir h = (Ok cfg, h') ->
  fst (init.read_config dir h) = Ok cfg /\ ready cfg h'.
Proof.
  unfold init.prepare. intros (c & h1 & Er & E)%hm_bind_inv.
  enough (c = cfg /\ ready c h') as [<- ?] by (by rewrite Er). unfold ready. cbv zeta.
  do 5 apply hm_bind_inv in E as (? & ? & _ & E).
  apply hm_bind_inv in E as ([] & h2 & Hs & E). apply hm_bind_inv in E as ([] & h3 & Hb & E).
  apply hm_bind_inv in E as ([] & h4 & Hf & E). apply hm_bind_inv in E as ([] & h5 & Hc & E).
  injection Hc as _ <-. injection E as -> ->. split; [done|]. intros Hp. unfold init.setup in Hs.
  do 5 apply hm_bind_inv in Hs as (? & ? & _ & Hs).
  destruct (apply_ready _ _ _ Hs Hp) as (keep & Hk & Hh). exists keep. split; [done|].
  apply sig_chk_ok, sigblock_keeps in Hb as (S1 & N1 & F1).
  apply hm_bind_inv in Hf as ([] & h6 & Hf1 & Hf2).
  apply sig_chk_ok, sigblock_keeps in Hf1 as (S2 & N2 & F2).
  apply sig_chk_ok, signalfd_keeps in Hf2 as (S3 & N3 & F3).
  eapply hardened_same; [exact S3|done..|]. eapply hardened_same; [exact S2|done..|].
  by eapply hardened_same.
Qed.

Lemma workload_of_host cfg h : snd (init.workload_of cfg h) = h.
Proof.
  unfold init.workload_of. destruct (ContainerConfig.command cfg) as [|cmd l]; [done|]. unfold now.
  rewrite hm_bind_eq. unfold init.resolve_exe. destruct (contains_char "/" cmd); cbn -[hm_bind_eq].
  - destruct (init.is_executable cmd h); done.
  - destruct (init.search_path _ _ h); done.
Qed.

(** C17: the process of the workload is only forked by a thread that is
    confined as the configuration asks: init runs the same whatever [fork]
    would do in a thread that is not. *)
Theorem workload_forked_confined n fuel dir f1 f2 h :
  (forall cfg k, fst (init.read_config dir h) = Ok cfg -> ready cfg k -> f1 k = f2 k) ->
  @init.run arch fault H _ _ _ _ _ (with_fork f1 IH) _ n fuel dir h
  = @init.run arch fault H _ _ _ _ _ (with_fork f2 IH) _ n fuel dir h.
Proof.
  intros Hf. unfold init.run. rewrite !now_bind_eq.
  change (@init.prepare arch fault H _ _ _ _ _ (with_fork f1 IH) dir h) with (init.prepare arch fault dir h).
  change (@init.prepare arch fault H _ _ _ _ _ (with_fork f2 IH) dir h) with (init.prepare arch fault dir h).
  destruct (init.prepare arch fault dir h) as [[cfg|e] h1] eqn:Ep; [|done].
  apply prepare_ready in Ep as [Er Ep]. rewrite !lp_bind_eq.
  assert (@init.spawn_workload H (with_fork f1 IH) cfg h1 = @init.spawn_workload H (with_fork f2 IH) cfg h1) as ->;
    [|reflexivity].
  unfold init.spawn_workload. rewrite !lp_bind_eq.
  change (@init.workload_of H (with_fork f1 IH) cfg h1) with (init.workload_of cfg h1).
  change (@init.workload_of H (with_fork f2 IH) cfg h1) with (init.workload_of cfg h1).
  pose proof (workload_of_host cfg h1) as Eh.
  destruct (init.workload_of cfg h1) as [[[w|e]| |] h2]; try done. cbn in Eh. subst h2.
  unfold now, init.fork_process. cbn [sys_fork with_fork]. by rewrite (Hf cfg h1 Er Ep).
Qed.

End fork.

(** ** The child *)

Section child.
Context (arch : seccomp.Arch) {K : Type} `{CK : !caps.CapKernel K, TO : !Thread_ops K, TL : !ThreadLaws K}.
Context (exec : list seccomp.SockFilter -> seccomp.seccomp_data -> nat -> Z -> option Z)
  `{CM : !seccomp.CbpfMachine exec}.
Context (execve : init.Workload -> K -> bool).

(** A child of a confined thread that gets as far as [execve] runs the
    configured program as the configured user, as confined as its parent; and
    it is not stopped by a want of privilege. *)
Theorem child_execs_confined sec keep last w w' k k' :
  SecurityConfig.privileged sec = false -> SecurityConfig.cap_mask sec = Ok keep ->
  hardened arch exec sec keep last k ->
  init.workload_child execve (SecurityConfig.user sec) w k = (init.Exec w', k') ->
  w' = w /\ confined arch exec sec keep last k' /\
  (forall u g, SecurityConfig.user sec = Some (u, g) -> uid k' = u /\ gid k' = g /\ groups k' = []).
Proof.
  intros Hp Hk (He & Hpe & Hi & Hb & Hn & Hf). unfold init.workload_child.
  destruct (SecurityConfig.user sec) as [[u g]|].
  - destruct (security.caps_switch_user u g k) as [[[]|e] k1] eqn:E; [|done].
    destruct (execve w k1); [|done]. intros [= <- <-].
    destruct (switch_spec _ _ _ _ E) as (? & ? & ? & En & Ef & W1 & W2 & Ei & Eb & _).
    rewrite Hpe in W1, W2. split_and!; [done| |naive_solver].
    unfold confined, filtered. rewrite Ei, Eb, En, Ef. by split_and!.
  - destruct (execve w k); [|done]. intros [= <- <-]. split_and!; [done| |done].
    unfold confined. rewrite He, Hpe. by split_and!.
Qed.
End child.

(** ** What the runtime wrote *)

(** The part of the network's state that init needs. *)
Definition for_init (n : NetworkState.t) : NetworkState.t :=
  NetworkState.Mk (NetworkState.mode n) None None (NetworkState.container_veth n) (NetworkState.ip n)
    (NetworkState.prefix n) (NetworkState.gateway n) [].

Lemma netstate_norm n : norm (supervisor.netstate_json n) = supervisor.netstate_json n.
Proof. unfold supervisor.netstate_json. rewrite !norm_set by done. by rewrite !norm_opt_str. Qed.

Lemma netstate_ok n : network_state.wf n -> json_ok (supervisor.netstate_json n) = true.
Proof.
  intros (H1 & H2 & H3 & H4 & H5 & H6 & H7 & H8). unfold supervisor.netstate_json.
  json_ok_fields; try done; auto using json_ok_opt_str.
  apply json_ok_int. unfold in_u, in_s in *. lia.
Qed.

Lemma network_state_back n : network_state.wf n ->
  init.network_state_of (supervisor.netstate_json n) = for_init n.
Proof.
  intros (H1 & H2 & H3 & H4 & H5 & H6 & H7 & H8).
  unfold init.network_state_of, supervisor.netstate_json, get_str. json_get. rewrite !opt_str_back.
  cbn [mbind option_bind as_str as_u64 default]. pose proof H6 as [? _].
  rewrite (proj2 (Z.leb_le 0 _)) by done. cbn [default]. by rewrite wrap_u_id.
Qed.

Section files.
Context {H : Type} `{HW : HasWorld H}.

(** What the runtime writes about the network before it lets init go is
    what init reads: mode, interface, address, prefix and gateway. *)
Theorem netstate_read_back dir n h w' :
  network_state.wf n -> next_fault (world h) = (FNone, w') ->
  files (fs (world h)) !! path.join dir "netstate.json"
  = Some (to_string_pretty (supervisor.netstate_json n)) ->
  fst (init.read_network_state dir h) = Ok (for_init n).
Proof.
  intros Hn Hw Hf. pose proof (next_fault_same _ _ _ Hw) as (Hfs & _). unfold init.read_network_state. rewrite hm_bind_eq. unfold host.try, on_files.
  unfold ufs.read_to_string, io_err, fs_read_to_string. rewrite Hw, Hfs, Hf.
  unfold to_string_pretty. rewrite write_utf8 by (by apply netstate_ok). cbn [fst].
  rewrite parse_write by (by apply netstate_ok). rewrite netstate_norm. by rewrite network_state_back.
Qed.
End files.

(** ** Programs *)

Section programs.
Context {H : Type} `{IH : InitHost H}.

Lemma search_path_first cmd dirs (h : H) p : init.search_path cmd dirs h = Some p <->
  exists pre dir post, dirs = pre ++ dir :: post /\ dir <> "" /\ p = path.join dir cmd /\
    init.is_executable p h = true /\
    Forall (fun d => d = "" \/ init.is_executable (path.join d cmd) h = false) pre.
Proof.
  induction dirs as [|d l IHl]; cbn [init.search_path].
  { split; [done|]. by intros ([] & ? & ? & ? & _). }
  destruct (str_is_empty d) eqn:Ed.
  { assert (d = "") as -> by (by destruct d). rewrite IHl. split.
    - intros (pre & dir & post & -> & ? & ? & ? & ?). exists ("" :: pre), dir, post.
      split_and!; try done. constructor; auto.
    - intros ([|x pre] & dir & post & [= <- ->] & ? & ? & ? & Hp); [done|]. apply Forall_cons in Hp as [_ Hp].
      exists pre, dir, post. done. }
  assert (d <> "") by (by intros ->). destruct (init.is_executable (path.join d cmd) h) eqn:Ex.
  - split.
    + intros [= <-]. by exists [], d, l.
    + intros ([|x pre] & dir & post & [= <- ->] & ? & -> & ? & Hp); [done|].
      apply Forall_cons in Hp as [[?|?] _]; congruence.
  - rewrite IHl. split.
    + intros (pre & dir & post & -> & ? & ? & ? & ?). exists (d :: pre), dir, post.
      split_and!; try done. constructor; auto.
    + intros ([|x pre] & dir & post & [= <- ->] & ? & -> & ? & Hp); [congruence|]. apply Forall_cons in Hp as [_ Hp].
      exists pre, dir, post. done.
Qed.

(** A command without a slash is the first executable file of that name along
    [PATH], empty entries left out; there is an error only when there is none. *)
Theorem resolve_exe_first cmd env (h : H) : contains_char "/" cmd = false ->
  match fst (init.resolve_exe cmd env h) with
  | Ok p => exists pre dir post, split_on ":" (default DEFAULT_PATH env) = pre ++ dir :: post /\ dir <> "" /\
      p = path.join dir cmd /\ init.is_executable p h = true /\
      Forall (fun d => d = "" \/ init.is_executable (path.join d cmd) h = false) pre
  | Err e => exit_code e = exit.NOT_FOUND /\
      forall dir, dir ∈ split_on ":" (default DEFAULT_PATH env) -> dir <> "" ->
        init.is_executable (path.join dir cmd) h = false
  end.
Proof.
  intros Hc. unfold init.resolve_exe. rewrite Hc. cbn [fst].
  destruct (init.search_path _ _ h) as [p|] eqn:E; [by apply search_path_first|]. split; [done|].
  generalize dependent (split_on ":" (default DEFAULT_PATH env)). intros l.
  induction l as [|d l IHl]; intros E dir Hd Hn; [by apply elem_of_nil in Hd|]. cbn [init.search_path] in E.
  apply elem_of_cons in Hd as [->|Hd].
  - destruct (str_is_empty d) eqn:Ed; [by destruct d|]. by destruct (init.is_executable _ h).
  - apply IHl; [|done..]. destruct (str_is_empty d); [done|]. by destruct (init.is_executable _ h).
Qed.
End programs.

(** ** Ending the namespace *)

Section shutdown.
Context {H : Type} `{IH : InitHost H} `{PR : Processes H}.

Lemma other_pids_spec (h : H) p : p ∈ init.other_pids h -> p <> 1.
Proof. unfold init.other_pids. by intros [? _]%list_elem_of_filter. Qed.

(** Only the others get a signal, and only these two. *)
Definition ending (e : WEv) : Prop :=
  forall p s, sent_to e = Some (p, s) -> p <> 1 /\ (s = SIGTERM \/ s = SIGKILL).

Lemma signal_all_adds sig pids : Forall (fun p => p <> 1) pids -> sig = SIGTERM \/ sig = SIGKILL ->
  adds (H := H) (now (init.signal_all sig pids)) (fun o evs => Forall ending evs /\ o = Answer (Ok tt)).
Proof.
  intros Hp Hs lh. unfold now, init.signal_all. revert lh.
  induction Hp as [|p l Hp Hl IHl]; intros lh; cbn [host.for_each].
  { exists []. rewrite List.app_nil_r. by split. }
  rewrite hm_bind_eq. unfold host.ignore, kill_pid. cbn [sys_kill watched_processes]. unfold lower.
  destruct (sys_kill p sig (snd lh)) as [[e|] h'];
    (destruct (IHl (fst lh ++ [WKill p sig], h')) as (evs & E & He & Ho);
     destruct (host.for_each _ l _) as [r lh']; cbn [fst snd] in *;
     exists (WKill p sig :: evs); split; [by rewrite E, <- (assoc_L (++))|]; split; [|done];
     constructor; [|done]; intros ? ? [= <- <-]; done).
Qed.

Lemma reap_ending n : adds (H := H) (init.reap_all n) (fun o evs =>
  Forall ending evs /\ (o = Pending \/ exists l, o = Answer (Ok l))).
Proof.
  eapply adds_conseq; [apply reap_adds|]. cbn. intros o evs (Hs & _ & Ho). split.
  - apply Forall_forall. intros e He p s E. assert ((p, s) ∈ omap sent_to evs) as Hin
      by (apply list_elem_of_omap; eauto). rewrite Hs in Hin. by apply elem_of_nil in Hin.
  - destruct o as [[l|]| |]; [right; eauto|done|done|by left].
Qed.

Definition settled {A} (o : outcome A) (evs : list WEv) : Prop :=
  Forall ending evs /\ (o = Pending \/ exists a, o = Answer (Ok a)).

Lemma settled_bind {A B} (m : LP (Watched H) A) (f : A -> LP (Watched H) B) :
  adds m settled -> (forall a, adds (f a) settled) -> adds (m ≫= f) settled.
Proof.
  intros Hm Hf. eapply (log_bind _ _ _ (fun _ => settled)); [exact Hm|exact Hf|..].
  - intros a e1 e2 o [H1 _] [H2 Ho]. split; [by apply Forall_app|done].
  - intros e evs [_ [?|[? ?]]]; done.
  - intros evs [_ [?|[? ?]]]; done.
  - intros evs [He _]. split; [done|by left].
Qed.

Lemma settled_here {A} (m : LP (Watched H) A) :
  (forall lh, fst (snd (m lh)) = fst lh /\ exists a, fst (m lh) = Answer (Ok a)) -> adds m settled.
Proof.
  intros Hm lh. destruct (Hm lh) as [E Ha]. exists []. rewrite E, List.app_nil_r. split; [done|].
  split; [constructor|by right].
Qed.

Lemma grace_settled n rounds : adds (H := H) (init.grace n rounds) settled.
Proof.
  induction rounds as [|r IHr]; cbn [init.grace]; [apply settled_here; eauto|].
  apply settled_bind; [apply settled_here; intros; cbn; eauto|intros _].
  apply settled_bind; [apply reap_ending|intros _].
  apply settled_bind; [apply settled_here; intros; cbn; eauto|intros left].
  destruct (length left =? 0)%nat; [apply settled_here; eauto|done].
Qed.

(** The processes that are left get [SIGTERM] and then [SIGKILL], init itself
    never does; the loop has at most twenty rounds and nothing fails it. *)
Theorem shutdown_spares_init n h o log h' :
  init.shutdown_remaining n (([], h) : Watched H) = (o, (log, h')) ->
  Forall ending log /\ (o = Pending \/ o = Answer (Ok tt)).
Proof.
  intros E. assert (adds (init.shutdown_remaining n) settled) as Ha.
  { unfold init.shutdown_remaining. intros lh. rewrite now_bind_eq. cbn [init.others].
    assert (Forall (fun p => p <> 1) (init.other_pids lh)) as Hp
      by (apply Forall_forall, other_pids_spec).
    revert lh Hp. intros lh Hp. destruct (init.other_pids lh) as [|p l].
    { exists []. rewrite List.app_nil_r. split; [done|]. split; [constructor|right; eauto]. }
    assert (forall m : LP (Watched H) unit, adds m (fun o evs => Forall ending evs /\ o = Answer (Ok tt)) -> adds m settled) as Hw.
    { intros m Hm. eapply adds_conseq; [exact Hm|]. intros ? ? [? ->]. split; [done|right; eauto]. }
    apply settled_bind.
    - apply Hw, signal_all_adds; [done|by left].
    - intros _. apply settled_bind; [apply grace_settled|intros gone].
      destruct gone; [apply settled_here; eauto|].
      apply settled_bind; [apply Hw, signal_all_adds; [done|by right]|intros _].
      apply settled_bind; [apply reap_ending|intros _]. apply settled_here; eauto. }
  destruct (Ha ([], h)) as (evs & El & He & Ho). rewrite E in El, Ho. cbn in El, Ho. subst.
  split; [done|]. destruct Ho as [->|[[] ->]]; auto.
Qed.
End shutdown.

(** ** A container *)

(** A thread, a mount table and files; signals that come in and children that
    end after them. *)
Record Box := MkBox {
  b_task : Task; b_table : Table; b_world : World;
  b_signals : list Z; b_children : list (Z * process.ExitStatus); b_pids : list string;
  b_sent : list (ascii * string)
}.

Definition set_task (t : Task) (b : Box) : Box :=
  MkBox t (b_table b) (b_world b) (b_signals b) (b_children b) (b_pids b) (b_sent b).
Definition on_task {A} (m : Task -> A * Task) (b : Box) : A * Box :=
  let '(a, t) := m (b_task b) in (a, set_task t b).

Lemma on_task_inv {A} (m : Task -> A * Task) b a b' : on_task m b = (a, b') ->
  exists t, m (b_task b) = (a, t) /\ b_task b' = t.
Proof. unfold on_task. destruct (m (b_task b)) as [a' t]. intros [= <- <-]. by exists t. Qed.

#[export, refine] Instance box_caps : caps.CapKernel Box := {
  cap_last_cap b := caps.cap_last_cap (b_task b);
  ambient b := caps.ambient (b_task b); bounding b := caps.bounding (b_task b);
  effective b := caps.effective (b_task b); permitted b := caps.permitted (b_task b);
  inheritable b := caps.inheritable (b_task b);
  ambient_clear_all := on_task caps.ambient_clear_all;
  capbset_drop c := on_task (caps.capbset_drop c);
  capset e p i := on_task (caps.capset e p i)
}.
Proof.
  - intros k k' H. apply on_task_inv in H as (c & H & ->). exact (caps.ambient_clear_ok _ _ H).
  - intros k e k' H. apply on_task_inv in H as (c & H & ->). exact (caps.ambient_clear_err _ _ _ H).
  - intros x k k' H. apply on_task_inv in H as (c & H & ->). exact (caps.capbset_drop_ok _ _ _ H).
  - intros x k e k' H. apply on_task_inv in H as (c & H & ->). exact (caps.capbset_drop_err _ _ _ _ H).
  - intros x k k' H. apply on_task_inv in H as (c & H & ->). exact (caps.capbset_drop_unknown _ _ _ H).
  - intros e p i k k' H. apply on_task_inv in H as (c & H & ->). exact (caps.capset_ok _ _ _ _ _ H).
Defined.

#[export] Instance box_thread : Thread_ops Box := {
  nnp b := nnp (b_task b); filters b := filters (b_task b); uid b := uid (b_task b);
  gid b := gid (b_task b); groups b := groups (b_task b); proc_status b := proc_status (b_task b);
  sys_capget b := sys_capget (b_task b); sys_capbset_read c b := sys_capbset_read c (b_task b);
  sys_set_nnp := on_task sys_set_nnp; sys_seccomp p := on_task (sys_seccomp p);
  sys_setgroups l := on_task (sys_setgroups l); sys_setgid g := on_task (sys_setgid g);
  sys_setuid u := on_task (sys_setuid u); sys_getrlimit_nofile b := sys_getrlimit_nofile (b_task b)
}.

#[export] Instance box_thread_laws : ThreadLaws Box.
Proof.
  split; unfold same_caps; cbn [box_thread sys_capget nnp filters uid gid groups proc_status caps.effective
    caps.permitted caps.inheritable caps.ambient caps.bounding box_caps sys_set_nnp sys_seccomp sys_setgroups
    sys_setgid sys_setuid].
  - intros k. apply (capget_reports (b_task k)).
  - intros k k' H. apply on_task_inv in H as (c & H & ->). exact (set_nnp_ok _ _ H).
  - intros p k k' H. apply on_task_inv in H as (c & H & ->). exact (seccomp_ok _ _ _ H).
  - intros p k k' H. apply on_task_inv in H as (c & H & _). exact (seccomp_access _ _ _ H).
  - intros l k k' H. apply on_task_inv in H as (c & H & ->). exact (setgroups_ok _ _ _ H).
  - intros l k k' H. apply on_task_inv in H as (c & H & _). exact (setgroups_access _ _ _ H).
  - intros g k k' H. apply on_task_inv in H as (c & H & ->). exact (setgid_ok _ _ _ H).
  - intros g k k' H. apply on_task_inv in H as (c & H & _). exact (setgid_access _ _ _ H).
  - intros u k k' H. apply on_task_inv in H as (c & H & ->). exact (setuid_ok _ _ _ H).
  - intros u k k' H. apply on_task_inv in H as (c & H & ->). exact (setuid_clears _ _ _ H).
  - intros u k k' H. apply on_task_inv in H as (c & H & _). exact (setuid_access _ _ _ H).
  - intros k. apply (status_reports (b_task k)).
Qed.

#[export] Instance box_world : HasWorld Box := {
  world := b_world;
  set_world w b := MkBox (b_task b) (b_table b) w (b_signals b) (b_children b) (b_pids b) (b_sent b)
}.

(** No interface but the loopback one, which nobody asks for here. *)
#[export] Instance box_links : Links Box := fun q => host.fail (Unsupported "netlink").

#[export] Instance box_mounts : MountKernel Box := {
  sys_do c b := let '(r, t) := sys_do c (b_table b) in
    (r, MkBox (b_task b) t (b_world b) (b_signals b) (b_children b) (b_pids b) (b_sent b));
  path_exists p b := path_exists p (b_table b);
  stat_dir p b := stat_dir p (b_table b);
  lstat_dir p b := lstat_dir p (b_table b)
}.

#[export] Instance box_init : InitHost Box := {
  ic_send t p b := (Ok tt, MkBox (b_task b) (b_table b) (b_world b) (b_signals b) (b_children b) (b_pids b)
                             (b_sent b ++ [(t, p)]));
  ic_recv b := (Ok (Some (ipc.TAG_GO, "")), b);
  sys_sethostname _ b := (None, b);
  sys_sigblock _ b := (None, b);
  sys_signalfd _ b := (None, b);
  file_mode p b := if bool_decide (p = "/bin/sh") then Some (true, 493) else None;
  sys_fork b := (inr 7, b);
  sys_wait b :=
    match b_signals b, b_children b with
    | [], x :: l => (Ok (Some x), MkBox (b_task b) (b_table b) (b_world b) [] l (b_pids b) (b_sent b))
    | _, _ => (Ok None, b)
    end;
  sys_poll _ b := (inr (match b_signals b with [] => 0 | _ => 1 end), b);
  sys_read_signal b :=
    match b_signals b with
    | [] => (inl signal.EAGAIN, b)
    | s :: l => (inr (Some s), MkBox (b_task b) (b_table b) (b_world b) l (b_children b) (b_pids b) (b_sent b))
    end;
  proc_names b := Some (b_pids b)
}.

#[export] Instance box_signal_laws : SignalLaws Box.
Proof.
  split; cbn [sys_sigblock sys_signalfd box_init]; intros l h o h' [= <- <-];
    (split; [by split_and!|done]).
Qed.

#[export] Instance box_processes : Processes Box := {
  sys_kill _ _ b := (None, b);
  sleep_ms _ b := MkBox (b_task b) (b_table b) (b_world b) (b_signals b) (b_children b) ["1"] (b_sent b)
}.

Definition box_sec : SecurityConfig.t :=
  SecurityConfig.Mk true [] ["all"] seccomp.Default ["/proc/kcore"] [] (Some (1000, 1000)) false.

Definition box_cfg : ContainerConfig.t :=
  ContainerConfig.Mk "c" None "/c/root" ["sh"; "-c"; "true"] ["TERM=xterm"; "PATH=/usr/bin::/bin"] "/" "c" true [ro_volume]
    Resources.default NetworkConfig.default box_sec
    (Namespaces.Mk true true true true false true) false false [].

Definition box_net : NetworkState.t :=
  NetworkState.Mk "bridge" (Some "myrun0") (Some "mrv0") (Some "eth0") (Some "10.87.0.4") 24 (Some "10.87.0.1") [].

Definition box_files : Fs :=
  MkFs {[ "/s/c/config.json" := to_string_pretty (ContainerConfig.to_json box_cfg);
          "/s/c/netstate.json" := to_string_pretty (supervisor.netstate_json box_net) ]} {[ "/s/c"; "/etc" ]}.

Definition box : Box :=
  MkBox root_task (host_table []) (MkWorld box_files [] [] (fun _ => "failed"))
    [15; 17; 28] [(8, process.MkExit (Some 0) None); (7, process.MkExit (Some 3) None)] ["1"; "9"] [].

Definition box_watched : outcome process.ExitStatus * Watched Box :=
  init.supervise 9 9 7 ([], box).

Lemma supervise_faithful_witness : supervised 7 box_watched.1 box_watched.2.1.
Proof.
  apply (supervise_faithful 9 9 7 box box_watched.1 box_watched.2.1 box_watched.2.2).
  vm_compute. reflexivity.
Defined.

(** What that says of this run. *)
Example supervised_run :
  box_watched.1 = Answer (Ok (process.MkExit (Some 3) None)) /\
  omap sent_to box_watched.2.1 = [(7, 15); (7, 28)].
Proof. vm_compute. done. Qed.

(** [fork] as it is, and one that refuses a thread that is not confined. *)
Definition any_fork (b : Box) : (Z + Z) * Box := (inr 7, b).
Definition careful_fork (b : Box) : (Z + Z) * Box :=
  if nnp b && (caps.effective b =? 192) && negb (bool_decide (filters b = [])) then (inr 7, b) else (inl 1, b).

Lemma box_config : fst (init.read_config "/s/c" box) = Ok box_cfg.
Proof. vm_compute. reflexivity. Qed.

Lemma forks_agree (cfg : ContainerConfig.t) (k : Box) :
  fst (init.read_config "/s/c" box) = Ok cfg -> ready seccomp.X86_64 seccomp.bpf_exec 40 cfg k ->
  any_fork k = careful_fork k.
Proof.
  rewrite box_config. intros [= <-] Hr. destruct Hr as (keep & Hk & He & _ & _ & _ & Hn & Hf); [done|].
  assert (keep = 192) as -> by (vm_compute in Hk; congruence). unfold careful_fork, any_fork.
  rewrite Hn, He by done. destruct Hf as (prog & rest & -> & _); [done|]. done.
Qed.

Lemma box_last (b : Box) : caps.last_cap b = 40.
Proof. reflexivity. Qed.

#[local] Existing Instance seccomp.bpf_machine.

Lemma workload_forked_confined_witness :
  @init.run seccomp.X86_64 None Box _ _ _ _ _ (with_fork any_fork box_init) _ 9 9 "/s/c" box
  = @init.run seccomp.X86_64 None Box _ _ _ _ _ (with_fork careful_fork box_init) _ 9 9 "/s/c" box.
Proof.
  exact (workload_forked_confined seccomp.X86_64 None seccomp.bpf_exec 40 box_last eq_refl
           9 9 "/s/c" any_fork careful_fork box forks_agree).
Defined.

Lemma netstate_read_back_witness : fst (init.read_network_state "/s/c" box) = Ok (for_init box_net).
Proof.
  eapply (netstate_read_back "/s/c" box_net box (world box)).
  - by repeat constructor.
  - reflexivity.
  - vm_compute. reflexivity.
Defined.

(** The whole life of init: ready, started and the exit of the workload, whose
    code is init's own. *)
Example init_life :
  let '(o, b) := init.main seccomp.X86_64 None 9 9 "/s/c" box in
  o = Answer (Ok 3) /\
  b_sent b = [(ipc.TAG_READY, ""); (ipc.TAG_STARTED, "");
              (ipc.TAG_EXIT, ipc.le32 3 +:+ ipc.le32 0)] /\
  caps.effective b = 192.
Proof. vm_compute. done. Qed.

(** A file that cannot be read counts as no network at all: init would set up
    only the loopback interface of a container with an address. *)
Example read_fault_drops_network :
  let faulty := MkBox (b_task box) (b_table box) (MkWorld box_files [FErr 24 0] [] (fun _ => "failed"))
                  [] [] [] [] in
  fst (init.read_network_state "/s/c" faulty) = Ok NetworkState.default.
Proof. vm_compute. done. Qed.

(** [SIGCHLD] is not among the signals the descriptor reports: the test for it
    is never met, and an exit is noticed when the poll times out. *)
Example sigchld_is_not_watched : signal.SIGCHLD ∉ signal.FORWARDED.
Proof. apply (bool_decide_eq_false_1 (_ ∈ _)). vm_compute. done. Qed.

(** [kill(2)]: [CAP_KILL], or the same user. *)
Definition may_signal (b : Task) (target_uid : Z) : bool :=
  Z.testbit (caps.effective b) 5 || (uid b =? target_uid).

(** With [--cap-drop all --user 1000:1000] init may not signal the workload it
    is to forward signals to. *)
Example forwarding_refused :
  may_signal dropped_task (uid user_task) = false /\ uid user_task = 1000 /\ uid dropped_task = 0.
Proof. vm_compute. done. Qed.
