(* ===== verification/Shim.v ===== *)
(** * [src/runtime/shim.rs]: the process that owns a detached container

    The shim runs [run] and tells the caller of [spawn] over a pipe how the
    launch went.  The class [Shims] has the calls of both sides on the pipe and
    the fork. *)
From S2P Require Import Prelude RustStr Num Utf8 Error Json Util Process Net Caps Seccomp Config State Fs Host KernFs NatRules Ipam Store Cgroup Network Ipc Spawn Supervisor Loop.

Class Shims (H : Type) := {
  (** [pipe2] and [fork] of the caller; the child becomes the shim of the
      container in this directory. *)
  notify_pipe : HM H unit;
  fork_shim : string -> HM H Z;
  (** [read(2)] of at most so many bytes: an [errno] or the bytes, none at the
      end. *)
  pipe_read : nat -> H -> (Z + string) * H;
  (** [write(2)] of the shim: what it returns. *)
  pipe_write : string -> H -> Z * H;
  pipe_close : H -> H;
  (** [redirect_output]: the log opened for stdout and stderr. *)
  redirect : string -> HM H unit
}.

Module shim.

Definition NOTIFY_OK : ascii := "+".
Definition NOTIFY_ERR : ascii := "-".
Definition EINTR : Z := 4.

(** [struct Spawned]. *)
Record Spawned := MkSpawned { shim_pid : Z; container_pid : Z }.

Section ops.
Context {H : Type} `{HasWorld H} `{Iptables H} `{Links H} `{KernFs H} `{Processes H} `{Spawner H} `{Shims H}.
Context (MYRUN_FAULT MYRUN_ALLOW_MISSING_CONTROLLERS MYRUN_LOG : option string) (root : string) (self : Z).

Abbreviation ST := ContainerState.t.

(** ** The shim *)

(** The loop of [notify]; a write that moves on takes at least a byte. *)
Fixpoint write_go (fuel : nat) (buf : string) (h : H) : H :=
  match fuel with
  | O => h
  | S k =>
      if str_is_empty buf then h
      else
        let '(n, h') := pipe_write buf h in
        if n <=? 0 then h' else write_go k (ipc.drop_str (Z.to_nat n) buf) h'
  end.

Definition notify (fd : Z) (status : ascii) (msg : string) (h : H) : H :=
  if fd <? 0 then h
  else
    let buf := String status msg in
    pipe_close (write_go (String.length buf) buf h).

(** What the shim records when the launch failed. *)
Definition failed_state (now : Z) (e : Error) (st : ST) : ST :=
  ContainerState.set_finished (ContainerState.set_status (ContainerState.set_error st (Some (error_str e)))
    Status.Stopped) now.

(** The part of [run] up to the running container. *)
Definition start (fd : Z) (id : string) : HM H (ST * supervisor.Running) := fun h =>
  match on_files (Store.load root id) h with
  | (Err e, h) => (Err e, h)
  | (Ok st, h) =>
      match redirect (Store.log_path root id) h with
      | (Err e, h) => (Err e, h)
      | (Ok _, h) =>
          match supervisor.launch MYRUN_FAULT MYRUN_ALLOW_MISSING_CONTROLLERS MYRUN_LOG root self st h with
          | (Err e, st, h) => (Err e, snd (on_files (Store.save root self (failed_state (now_ms h) e st)) h))
          | (Ok r, st, h) =>
              let st := ContainerState.set_shim st self in
              match on_files (Store.save root self st) h with
              | (Err e, h) => (Err e, h)
              | (Ok _, h) =>
                  (Ok (st, r), notify fd NOTIFY_OK (ContainerState.id st +:+ " " +:+ show_dec (supervisor.child r)) h)
              end
          end
      end
  end.

(** Waiting for the container and releasing what it owned. *)
Definition finish (fuel : nat) (st : ST) (r : supervisor.Running) : LP H Z := fun h =>
  match supervisor.wait_for_exit root self fuel st r h with
  | None => (Pending, h)
  | Some (Err e, _, h) => (Answer (Err e), h)
  | Some (Ok status, st, h) =>
      let '(t, h) := supervisor.teardown MYRUN_FAULT root self st h in
      let h := if ContainerConfig.auto_remove (ContainerState.config st)
               then snd (on_files (Store.remove root (ContainerState.id st)) h) else h in
      (Answer (Ok (process.exit_code status)), h)
  end.

Definition run (fuel : nat) (state_dir : string) (fd : Z) : LP H Z :=
  id ← now (host.lift (ok_or (Usage "shim needs a container state directory") (path.file_name state_dir)));
  _ ← now (on_files (ensure_root root));
  '(st, r) ← now (start fd id);
  finish fuel st r.

(** [main]: the status the shim exits with; [None] while it waits. *)
Definition main (fuel : nat) (state_dir : string) (fd : Z) (h : H) : option Z * H :=
  match run fuel state_dir fd h with
  | (Answer (Ok c), h') => (Some c, h')
  | (Answer (Err e), h') => (Some (exit_code e), notify fd NOTIFY_ERR (error_str e) h')
  | (Panicked, h') | (Pending, h') => (None, h')
  end.

(** ** The caller *)

(** The loop of [spawn] around [read]; [buf] has [cap] bytes. *)
Fixpoint read_go (fuel cap : nat) (got : string) : LP H string := fun h =>
  match fuel with
  | O => (Pending, h)
  | S k =>
      match pipe_read (cap - String.length got) h with
      | (inl e, h') =>
          if e =? EINTR then read_go k cap got h'
          else (Answer (Err (Io ("reading shim status: " +:+ io_str (world h') (Os e)))), h')
      | (inr "", h') => (Answer (Ok got), h')
      | (inr c, h') =>
          let got := got +:+ c in
          if Nat.eqb (String.length got) cap then (Answer (Ok got), h') else read_go k cap got h'
      end
  end.

Definition reap (pid : Z) : HM H unit := host.ignore (wait_child pid true).

(** What the bytes from the shim mean. *)
Definition verdict (pid : Z) (got : string) : HM H Spawned :=
  match got with
  | "" =>
      _ ← reap pid;
      host.fail (Container "the container shim exited without reporting a status; check the container log for details")
  | String status msg =>
      let msg := ipc.from_utf8_lossy msg in
      if ascii_dec status NOTIFY_ERR then _ ← reap pid; host.fail (Container msg)
      else mret (MkSpawned pid (default 0 (s ← split_whitespace msg !! 1%nat; parse_i 32 s)))
  end.

Definition spawn (fuel : nat) (st : ST) : LP H Spawned :=
  _ ← now notify_pipe;
  pid ← now (fork_shim (Store.dir root (ContainerState.id st)));
  got ← read_go fuel 4096 "";
  now (verdict pid got).

End ops.
End shim.
