(* ===== verification/Lifecycle.v ===== *)
(** * [src/runtime/lifecycle.rs]: the verbs of the command line

    The loops that poll the state file have fuel; the lock of a container is
    taken where the source takes it, and what other processes do happens while
    this one sleeps.  The fuel of [start] is for reading the shim's verdict. *)
From S2P Require Import Prelude RustStr Num Utf8 Error Json Util Process Net Caps Seccomp Config State Fs Host KernFs NatRules Ipam Store Cgroup Network Ipc Spawn Supervisor Loop Shim.

Module lifecycle.

(** [Instant + Duration::from_secs], in milliseconds: the seconds of an
    [Instant] are an [i64], and the addition panics beyond. *)
Definition instant_add (now secs : Z) : option Z :=
  if now / 1000 + secs <? 2 ^ 63 then Some (now + 1000 * secs) else None.

Section ops.
Context {H : Type} `{HasWorld H} `{Iptables H} `{Links H} `{KernFs H} `{Processes H} `{Spawner H} `{Shims H}.
Context (MYRUN_FAULT : option string) (root : string) (self : Z).

Abbreviation ST := ContainerState.t.

Definition lock (id : string) : HM H unit := on_files (Store.lock root id).
Definition load (id : string) : HM H ST := on_files (Store.load root id).
Definition save (st : ST) : HM H unit := on_files (Store.save root self st).
Definition transition (st : ST) (next : Status.t) : HM H ST :=
  now ← supervisor.clock; host.lift (ContainerState.transition now st next).
Definition load_reconciled (id : string) : HM H ST := supervisor.load_reconciled root self id.

Definition cgroup_of (st : ST) : HM H (option cgroup.Cgroup) :=
  match ContainerState.cgroup_path st with
  | None => mret None
  | Some p => a ← host.try (cgroup.attach p); mret (ok a)
  end.

(** The status recorded in a state. *)
Definition recorded (st : ST) : process.ExitStatus :=
  process.MkExit (ContainerState.exit_code st) (ContainerState.exit_signal st).

(** "container .. is .." *)
Definition is_msg (id : string) (st : ST) : string :=
  "container " +:+ util.short_id id +:+ " is " +:+ Status.as_str (ContainerState.status st).

(** ** [start] *)

Definition may_start (id : string) (st : ST) : result unit :=
  match ContainerState.status st with
  | Status.Created => Ok tt
  | Status.Running | Status.Paused =>
      Err (InvalidState ("container " +:+ util.short_id id +:+ " is already running"))
  | _ => Err (InvalidState (is_msg id st +:+ " and cannot be started again; create a new one"))
  end.

Definition start (fuel : nat) (id : string) : LP H ST :=
  _ ← now (lock id);
  st ← now (load_reconciled id);
  _ ← now (host.lift (may_start id st));
  spawned ← shim.spawn root fuel st;
  st ← now (load id);
  let st := ContainerState.set_shim st (shim.shim_pid spawned) in
  _ ← now (save st);
  mret st.

(** ** [kill] *)

(** A frozen container is thawed first. *)
Definition wake (st : ST) : HM H ST :=
  if bool_decide (ContainerState.status st = Status.Paused) then
    c ← cgroup_of st;
    _ ← match c with Some c => host.ignore (cgroup.thaw c) | None => mret tt end;
    transition st Status.Running
  else mret st.

Definition signal_init (id : string) (st : ST) (signal : Z) : HM H unit :=
  _ ← host.map_err (fun e => Container ("signalling container " +:+ util.short_id id +:+ ": " +:+ error_str e))
        (kill_pid (ContainerState.init_pid st) signal);
  save st.

Definition kill (id : string) (signal : Z) (all : bool) : HM H unit :=
  _ ← lock id;
  st ← load_reconciled id;
  if negb (Status.is_live (ContainerState.status st)) then host.fail (InvalidState (is_msg id st))
  else
    st ← wake st;
    c ← (if all && (signal =? SIGKILL) then cgroup_of st else mret None);
    match c with
    | Some c => _ ← cgroup.kill_all c; save st
    | None => signal_init id st signal
    end.

(** ** [stop] *)

(** The first block: [None] when there is nothing to stop. *)
Definition stop_request (id : string) : HM H (option process.ExitStatus) :=
  _ ← lock id;
  st ← load_reconciled id;
  if negb (Status.is_live (ContainerState.status st)) then mret (Some (recorded st))
  else
    st ← wake st;
    st ← transition st Status.Stopping;
    _ ← save st;
    _ ← host.ignore (kill_pid (ContainerState.init_pid st) SIGTERM);
    mret None.

(** The loop after the shim was found alive: [n] rounds are left. *)
Fixpoint await_shim (n : nat) (id : string) : HM H (option process.ExitStatus) :=
  match n with
  | O => mret None
  | S k =>
      cur ← load id;
      if bool_decide (ContainerState.status cur = Status.Stopped) && bool_decide (is_Some (ContainerState.exit_code cur))
      then mret (Some (recorded cur))
      else _ ← sleep 20; await_shim k id
  end.

Definition teardown (st : ST) : HM H ST := supervisor.teardown MYRUN_FAULT root self st.

Definition shim_alive (st : ST) : HM H bool := fun h =>
  (Ok ((0 <? ContainerState.shim_pid st) && spawn.alive (ContainerState.shim_pid st) None h), h).

Definition finalize_stopped (id : string) : HM H process.ExitStatus :=
  _ ← lock id;
  st ← load id;
  alive ← supervisor.is_alive st;
  if alive : bool then
    host.fail (Container ("container " +:+ util.short_id id +:+ " is still alive after being killed"))
  else
    shim ← shim_alive st;
    if shim : bool then
      r ← await_shim 100 id;
      match r with
      | Some e => mret e
      | None => cur ← load id; cur ← teardown cur; mret (recorded cur)
      end
    else st ← teardown st; mret (recorded st).

(** The loop up to the deadline: [true] when init is gone. *)
Definition before (deadline : Z) : HM H bool := fun h => (Ok (instant_ms h <? deadline), h).

Fixpoint await_exit (fuel : nat) (deadline : Z) (id : string) : LP H bool :=
  match fuel with
  | O => pending
  | S k =>
      early ← now (before deadline);
      if negb early then mret false
      else
        st ← now (load id);
        alive ← now (supervisor.is_alive st);
        if negb alive then mret true
        else _ ← now (sleep 50); await_exit k deadline id
  end.

Definition kill_hard (id : string) : HM H unit :=
  _ ← lock id;
  st ← load id;
  c ← cgroup_of st;
  match c with
  | Some c => cgroup.kill_all c
  | None => host.ignore (kill_pid (ContainerState.init_pid st) SIGKILL)
  end.

(** The loop after the kill: [n] rounds are left. *)
Fixpoint await_death (n : nat) (id : string) : HM H unit :=
  match n with
  | O => mret tt
  | S k =>
      st ← load id;
      alive ← supervisor.is_alive st;
      if negb alive then mret tt else _ ← sleep 20; await_death k id
  end.

Definition deadline_in (secs : Z) : LP H Z := fun h =>
  match instant_add (instant_ms h) secs with Some d => (Answer (Ok d), h) | None => (Panicked, h) end.

Definition stop (fuel : nat) (id : string) (timeout_secs : Z) : LP H process.ExitStatus :=
  r ← now (stop_request id);
  match r with
  | Some e => mret e
  | None =>
      deadline ← deadline_in timeout_secs;
      gone ← await_exit fuel deadline id;
      if gone : bool then now (finalize_stopped id)
      else
        _ ← now (kill_hard id);
        _ ← now (await_death 100 id);
        now (finalize_stopped id)
  end.

(** ** [pause] and [unpause] *)

Definition pause (id : string) : HM H unit :=
  _ ← lock id;
  st ← load_reconciled id;
  if negb (bool_decide (ContainerState.status st = Status.Running))
  then host.fail (InvalidState (is_msg id st +:+ ", not running"))
  else
    c ← cgroup_of st;
    c ← host.lift (ok_or (Unsupported "pausing needs a cgroup; this container was started without one") c);
    _ ← cgroup.freeze c;
    st ← transition st Status.Paused;
    save st.

Definition unpause (id : string) : HM H unit :=
  _ ← lock id;
  st ← load_reconciled id;
  if negb (bool_decide (ContainerState.status st = Status.Paused))
  then host.fail (InvalidState (is_msg id st +:+ ", not paused"))
  else
    c ← cgroup_of st;
    c ← host.lift (ok_or (Unsupported "this container has no cgroup to unfreeze") c);
    _ ← cgroup.thaw c;
    st ← transition st Status.Running;
    save st.

(** ** [delete] *)

(** What [delete] works on once the container is not live. *)
Definition stopped_for_delete (fuel : nat) (id : string) (force : bool) : LP H ST :=
  st ← now (_ ← lock id; load_reconciled id);
  if Status.is_live (ContainerState.status st) then
    if negb force then now (host.fail (InvalidState (is_msg id st +:+ "; stop it first or use --force")))
    else _ ← stop fuel id 5; now (load id)
  else mret st.

Definition delete (fuel : nat) (id : string) (force : bool) : LP H unit :=
  st ← stopped_for_delete fuel id force;
  _ ← now (lock id);
  _ ← now (teardown st);
  now (on_files (Store.remove root id)).

(** ** [wait] *)

Definition timed_out (id : string) : Error :=
  Container ("timed out waiting for container " +:+ util.short_id id).

Definition past (deadline : option Z) (h : H) : bool :=
  match deadline with Some d => d <=? instant_ms h | None => false end.

Definition check_deadline (deadline : option Z) (id : string) : HM H unit := fun h =>
  (if past deadline h then Err (timed_out id) else Ok tt, h).

Fixpoint wait_go (fuel : nat) (deadline : option Z) (id : string) : LP H process.ExitStatus :=
  match fuel with
  | O => pending
  | S k =>
      st ← now (load_reconciled id);
      if negb (Status.is_live (ContainerState.status st)) then mret (recorded st)
      else
        _ ← now (check_deadline deadline id);
        _ ← now (sleep 100);
        wait_go k deadline id
  end.

Definition wait (fuel : nat) (id : string) (timeout_secs : option Z) : LP H process.ExitStatus :=
  deadline ← match timeout_secs with
             | Some t => d ← deadline_in t; mret (Some d)
             | None => mret None
             end;
  wait_go fuel deadline id.

(** ** [logs] *)

Definition tail (n : nat) (text : string) : string :=
  let l := lines text in join (String "010" "") (drop (length l - n)%nat l).

Definition logs (id : string) (n : option nat) : HM H string :=
  let p := Store.log_path root id in
  there ← on_files (ufs.exists_ p);
  if negb there then mret ""
  else
    text ← on_files (ufs.read_to_string p);
    mret (match n with Some n => tail n text | None => text end).

End ops.
End lifecycle.
