(* ===== verification/Steady.v ===== *)
(** * What the parts of the runtime do to the host, relation by relation

    A relation between the host before and after that every basic call of some
    kind respects is respected by the programs built from them.  One class per
    kind of call, one lemma per program. *)
From S2P Require Import Prelude RustStr Error Fault Process State Fs Host KernFs Mount NatRules NatFacts Ipam Cgroup Network Spawn Store Supervisor Loop.

Section classes.
Context {H : Type} (R : H -> H -> Prop).

Class KernSteady `{KernFs H} := {
  ks_read : forall p h, R h (snd (kf_read p h));
  ks_write : forall p v h, R h (snd (kf_write p v h));
  ks_rmdir : forall p h, R h (snd (kf_rmdir p h));
  ks_read_dir : forall p h, R h (snd (kf_read_dir p h))
}.
Class KillSteady `{Processes H} := ks_kill : forall pid sig h, R h (snd (sys_kill pid sig h)).
Class SleepSteady `{Processes H} := ks_sleep : forall ms h, R h (sleep_ms ms h).
Class WaitSteady `{Spawner H} := ks_wait : forall pid nohang, pres R (wait_child pid nohang).
Class NetSteady `{Links H} `{Iptables H} := {
  ks_netlink : forall q, pres R (netlink q);
  ks_iptables : forall args h, R h (snd (iptables args h))
}.
End classes.

Section steady.
Context {H : Type} `{HasWorld H} `{Iptables H} `{Links H} `{KernFs H} `{Processes H} `{Spawner H}.
Context (R : H -> H -> Prop) `{!PreOrder R}.

(** ** Processes and control groups *)

Lemma kill_steady `{!KillSteady R} pid sig : pres R (kill_pid pid sig).
Proof. intros h. pose proof (ks_kill R pid sig h). unfold kill_pid. by destruct (sys_kill pid sig h) as [[e|] h1]. Qed.

Lemma sleep_steady `{!SleepSteady R} ms : pres R (sleep ms).
Proof. intros h. exact (ks_sleep R ms h). Qed.

Section kern.
Context `{!KernSteady R}.

Lemma read_steady p : pres R (kfs.read_trimmed p).
Proof. intros h. pose proof (ks_read R p h). unfold kfs.read_trimmed. by destruct (kf_read p h) as [[e|s] h1]. Qed.
Lemma write_steady p v : pres R (kfs.write_file p v).
Proof. intros h. pose proof (ks_write R p v h). unfold kfs.write_file. by destruct (kf_write p v h) as [[e|s] h1]. Qed.
Lemma exists_steady p : pres R (kfs.exists_ p).
Proof. intros h. cbn. reflexivity. Qed.
Lemma is_dir_steady p : pres R (kfs.is_dir p).
Proof. intros h. cbn. reflexivity. Qed.
#[local] Hint Resolve read_steady write_steady exists_steady is_dir_steady : core.

Lemma mount_point_steady : pres R cgroup.mount_point.
Proof.
  intros h. unfold cgroup.mount_point, mount.find_cgroup2_mount, mount.mountinfo_for.
  match goal with |- context [kf_read ?p h] => pose proof (ks_read R p h) as C end.
  destruct (kf_read _ h) as [[e|s] h1]; cbn [snd] in C; repeat (case_match; simplify_eq); done.
Qed.
Lemma attach_steady p : pres R (cgroup.attach p).
Proof. unfold cgroup.attach, cgroup.available_controllers, cgroup.read_list. pres_tac. Qed.
Lemma write_cg_steady c f v : pres R (cgroup.write c f v).
Proof. unfold cgroup.write. pres_tac. Qed.
#[local] Hint Resolve mount_point_steady attach_steady write_cg_steady : core.
Lemma freeze_steady c : pres R (cgroup.freeze c).
Proof. apply write_cg_steady. Qed.
Lemma thaw_steady c : pres R (cgroup.thaw c).
Proof. apply write_cg_steady. Qed.
Lemma oom_steady c : pres R (cgroup.was_oom_killed c).
Proof.
  unfold cgroup.was_oom_killed, cgroup.stats, cgroup.read_u64, cgroup.keyed_value, cgroup.read_keyed, cgroup.read.
  pres_tac.
Qed.
Lemma pids_steady c : pres R (cgroup.pids c).
Proof. unfold cgroup.pids, cgroup.read. pres_tac. Qed.
#[local] Hint Resolve oom_steady pids_steady : core.
Lemma mark_oom_steady st c : pres R (supervisor.mark_oom st c).
Proof. unfold supervisor.mark_oom. pres_tac. Qed.

Lemma kill_all_steady `{!KillSteady R} c : pres R (cgroup.kill_all c).
Proof. unfold cgroup.kill_all. pres_tac. apply kill_steady. Qed.

Context `{!KillSteady R} `{!SleepSteady R}.

Lemma remove_go_steady c n : forall first, pres R (cgroup.remove_go n first c).
Proof.
  induction n as [|n IH]; intros first h; cbn [cgroup.remove_go]; [cbn; reflexivity|].
  pose proof (ks_rmdir R (cgroup.path c) h) as C.
  destruct (kf_rmdir (cgroup.path c) h) as [[e|[]] h1]; cbn [snd] in *; [|done].
  set (busy := match e with Os k => k =? EBUSY | Other _ => false end).
  destruct (negb busy && negb (kf_exists (cgroup.path c) h1)); [done|]. etrans; [exact C|].
  set (h2 := if first && busy then snd (cgroup.kill_all c h1) else h1).
  assert (R h1 h2) as C2 by (unfold h2; destruct (first && busy); [by apply kill_all_steady|reflexivity]).
  etrans; [exact C2|]. etrans; [exact (ks_sleep R 20 h2)|]. apply IH.
Qed.
Lemma remove_steady c : pres R (cgroup.remove c).
Proof. unfold cgroup.remove. pres_tac. apply remove_go_steady. Qed.

Lemma release_cgroup_steady st : pres R (supervisor.release_cgroup st).
Proof.
  unfold supervisor.release_cgroup. pres_tac; [apply mark_oom_steady|by apply kill_all_steady|apply remove_steady].
Qed.

Lemma gc_go_steady base live names : forall n, pres R (cgroup.gc_go base live names n).
Proof.
  induction names as [|m names IH]; intros n; cbn [cgroup.gc_go]; pres_tac. apply remove_steady.
Qed.
Lemma gc_empty_steady live : pres R (cgroup.gc_empty live).
Proof.
  unfold cgroup.gc_empty. pres_tac. intros h. unfold cgroup.gc_base.
  match goal with |- context [kf_read_dir ?p h] => pose proof (ks_read_dir R p h) as C; destruct (kf_read_dir p h) as [[e|l] h1] end;
    cbn [snd] in *; [done|]. etrans; [exact C|apply gc_go_steady].
Qed.
End kern.

Lemma kill_if_alive_steady `{!KillSteady R} `{!WaitSteady R} st : pres R (supervisor.kill_if_alive st).
Proof.
  unfold supervisor.kill_if_alive. apply pres_bind; [exact _|intros h; cbn; reflexivity|intros a].
  pres_tac; (by apply kill_steady) || exact (ks_wait R _ _).
Qed.

(** ** The network *)

Section net.
Context `{!NetSteady R}.

Lemma netlink_steady q : pres R (netlink q).
Proof. exact (ks_netlink R q). Qed.
Lemma run_steady args : pres R (nat.run args).
Proof. intros h. destruct (run_eq args h) as [e ->]. apply (ks_iptables R). Qed.
Lemma is_run_ok_steady args : pres R (nat.is_run_ok args).
Proof. intros h. rewrite is_run_ok_eq. apply (ks_iptables R). Qed.
#[local] Hint Resolve run_steady is_run_ok_steady : core.

Ltac net_tac := pres_tac; match goal with |- pres _ (netlink ?q) => exact (netlink_steady q) | _ => idtac end.

Lemma tagged_steady id : pres R (nat.tagged_rules id).
Proof.
  unfold nat.tagged_rules. match goal with |- pres _ (nat.tagged_go _ ?l) => generalize l end. intros ts.
  induction ts as [|t ts IH]; cbn [nat.tagged_go]; net_tac.
Qed.
Lemma delete_rules_steady l : forall n, pres R (nat.delete_rules l n).
Proof. induction l as [|[t a] l IH]; intros n; cbn [nat.delete_rules]; unfold nat.run_ok; net_tac. Qed.
#[local] Hint Resolve tagged_steady delete_rules_steady : core.
Lemma cleanup_steady id : pres R (nat.cleanup id).
Proof. unfold nat.cleanup. net_tac. Qed.
Lemma undo_veth_steady n : pres R (network.undo_veth n).
Proof. unfold network.undo_veth. net_tac. Qed.
#[local] Hint Resolve cleanup_steady undo_veth_steady : core.

Lemma net_teardown_steady root self id n :
  pres R (on_files (ipam.release root self id)) -> pres R (network.teardown root self id n).
Proof. intros Hl. unfold network.teardown, network.undo_lease. net_tac. Qed.

Lemma delete_veth_steady v : pres R (supervisor.delete_veth v).
Proof. unfold supervisor.delete_veth, network.link_index_required. net_tac. Qed.
Lemma gc_veths_steady l : forall rep, pres R (supervisor.gc_veths l rep).
Proof. induction l as [|v l IH]; intros rep; cbn [supervisor.gc_veths]; net_tac. apply delete_veth_steady. Qed.
Lemma orphaned_steady live : pres R (network.orphaned_veths live).
Proof. unfold network.orphaned_veths. net_tac. Qed.
Lemma gc_shared_steady rep : pres R (supervisor.gc_shared rep).
Proof.
  unfold supervisor.gc_shared, network.remove_bridge_if_unused, nat.rule_count, nat.teardown_base, nat.run_all_ok, nat.run_ok.
  net_tac.
Qed.
End net.
End steady.

(** ** Computations that cannot fail *)

Section sure.
Context {H : Type}.

Definition sure {A} (m : HM H A) : Prop := forall h, exists a h', m h = (Ok a, h').

Lemma sure_ret {A} (a : A) : sure (mret a).
Proof. intros h. by exists a, h. Qed.
Lemma sure_try {A} (m : HM H A) : sure (host.try m).
Proof. intros h. unfold host.try. destruct (m h) as [r h']. by exists r, h'. Qed.
Lemma sure_bind {A B} (m : HM H A) (k : A -> HM H B) : sure m -> (forall a, sure (k a)) -> sure (m ≫= k).
Proof. intros Hm Hk h. destruct (Hm h) as (a & h' & E). rewrite hm_bind_eq, E. apply Hk. Qed.

Lemma ignore_bind_eq {A B} (m : HM H A) (k : unit -> HM H B) h : (host.ignore m ≫= k) h = k tt (snd (m h)).
Proof. rewrite hm_bind_eq. unfold host.ignore. by destruct (m h). Qed.

Lemma was_oom_sure `{KernFs H} `{Processes H} c : sure (cgroup.was_oom_killed c).
Proof.
  unfold cgroup.was_oom_killed, cgroup.stats, cgroup.read_u64, cgroup.keyed_value, cgroup.read_keyed, cgroup.read.
  repeat (apply sure_bind || apply sure_try || apply sure_ret || intros ?).
Qed.
End sure.
