(* ===== verification/Evolve.v ===== *)
(** * How the stored state of containers may change

    [evolves a b]: from the recorded state [a] the lifecycle may lead to [b].
    [moved w w']: between the two worlds every container's record evolved, and
    none was lost.  The file operations of the runtime respect it. *)
From S2P Require Import Prelude RustStr Num Utf8 Error Json JsonFacts JsonUtf8 Util UtilFacts Process Net Caps Seccomp Config ConfigFacts State StateFacts Fs FsFacts FsTree Ipam IpamFacts Store StoreFacts.
Import ContainerState.

(** ** One record *)

(** One step of the status machine. *)
Definition status_step (s t : Status.t) : Prop := Status.can_transition_to s t = true.

(** The container has been launched. *)
Definition begun (s : Status.t) : Prop := s <> Status.Creating /\ s <> Status.Created.

(** The same container: identity, configuration (but for [detach], which is
    not stored) and creation time. *)
Definition kin (a b : t) : Prop :=
  id b = id a /\ name b = name a /\ created_at b = created_at a /\
  container_config.without_detach (config b) = container_config.without_detach (config a).

Definition same_init (a b : t) : Prop := init_pid b = init_pid a /\ init_start_time b = init_start_time a.

Definition evolves (a b : t) : Prop :=
  kin a b /\ rtc status_step (status a) (status b) /\ (begun (status a) -> same_init a b).

#[export] Instance begun_dec s : Decision (begun s).
Proof. unfold begun. apply _. Defined.

#[export] Instance kin_pre : PreOrder kin.
Proof.
  split; [done|]. intros a b c (?&?&?&?) (?&?&?&?). unfold kin. split_and!; congruence.
Qed.
#[export] Instance kin_sym : Symmetric kin.
Proof. intros a b (?&?&?&?). unfold kin. split_and!; congruence. Qed.

Lemma step_begun s t : status_step s t -> begun s -> begun t.
Proof. unfold status_step, begun. destruct s, t; cbn; naive_solver. Qed.

Lemma rtc_begun s t : rtc status_step s t -> begun s -> begun t.
Proof. induction 1; eauto using step_begun. Qed.

#[export] Instance evolves_pre : PreOrder evolves.
Proof.
  split; [intros a; by split_and!|]. intros a b c (Ka & Ra & Ia) (Kb & Rb & Ib).
  split_and!; [by etrans|by etrans|]. intros Hb. destruct (Ia Hb) as [E1 E2].
  destruct (Ib (rtc_begun _ _ Ra Hb)) as [E3 E4]. split; congruence.
Qed.

Lemma to_stopped s : rtc status_step s Status.Stopped.
Proof. destruct s; try apply rtc_refl; by apply rtc_once. Qed.

(** Once stopped, a record stays so. *)
Lemma stopped_final s t : rtc status_step s t -> s = Status.Stopped -> t = Status.Stopped.
Proof. intros R. induction R as [|s u t St R IH]; [done|]. intros ->. by destruct u. Qed.

Lemma evolves_kin a b : evolves a b -> kin a b.
Proof. by intros []. Qed.

Lemma evolves_init a b : evolves a b -> begun (status a) -> same_init a b.
Proof. intros (_ & _ & I). exact I. Qed.

(** What is written for [st] reads back as the same container in the same
    status. *)
Lemma evolves_stored a b : evolves a b -> evolves a (container_state.without_detach b).
Proof. intros ((?&?&?&?) & R & I). split_and!; [|done|done]. split_and!; done. Qed.

Lemma transition_evolves now st next st' : transition now st next = Ok st' ->
  evolves st st' /\ status st' = next.
Proof.
  unfold transition. destruct (decide (status st = next)) as [<-|]; [by intros [= <-]|].
  destruct (Status.can_transition_to (status st) next) eqn:E; cbn [negb]; [|done]. intros [= <-].
  assert (rtc status_step (status st) next) by (by apply rtc_once).
  destruct next; cbn in *; repeat case_match; (split; [split_and!|]); done.
Qed.

Lemma transition_wf now st next st' : size_ok now -> container_state.wf st ->
  transition now st next = Ok st' -> container_state.wf st'.
Proof.
  intros Hn Hwf. unfold transition. destruct (decide _); [by intros [= <-]|]. destruct (negb _); [done|]. intros [= <-].
  destruct Hwf as (H1 & H2 & H3 & H4 & H5 & H6 & H7 & H8 & H9 & H10 & H11 & H12 & H13 & H14).
  unfold container_state.wf.
  destruct next; cbn; repeat case_match; cbn; split_and!; done.
Qed.

Lemma stored_wf st : container_state.wf st -> container_state.wf (container_state.without_detach st).
Proof.
  intros (H1 & H2 & H3 & H4 & H5 & H6 & H7 & H8 & H9 & H10 & H11 & H12 & H13 & H14).
  unfold container_state.wf. split_and!; done.
Qed.

(** ** The store *)

Section store.
Context (root : string) (self : Z) (Hroot : path.dir_ok root).
Import Store.

(** The tree is closed and every record is one the runtime could have written. *)
Definition good (w : World) : Prop :=
  tree_ok (fs w) /\
  forall i st, path.name_ok i -> loaded root (fs w) i = Some st -> container_state.wf st /\ id st = i.

(** [X] is a container that is not looked at. *)
Definition moved (X : option string) (w w' : World) : Prop :=
  good w -> good w' /\
  forall i st, path.name_ok i -> X <> Some i -> loaded root (fs w) i = Some st ->
    exists st', loaded root (fs w') i = Some st' /\ evolves st st'.

#[export] Instance moved_pre X : PreOrder (moved X).
Proof.
  split; [intros w Hg; split; [done|]; intros i st Hi _ Hl; by exists st|].
  intros w1 w2 w3 M1 M2 Hg. destruct (M1 Hg) as [Hg2 E1]. destruct (M2 Hg2) as [Hg3 E2]. split; [done|].
  intros i st Hi HX Hl. destruct (E1 i st Hi HX Hl) as (a & Ha & Ea). destruct (E2 i a Hi HX Ha) as (b & Hb & Eb).
  exists b. split; [done|]. by etrans.
Qed.

Lemma moved_weaken X w w' : moved None w w' -> moved X w w'.
Proof. intros M Hg. destruct (M Hg) as [Hg' E]. split; [done|]. intros i st Hi _. by apply E. Qed.

(** Operations that leave the records alone. *)
Definition aside (w w' : World) : Prop :=
  (tree_ok (fs w) -> tree_ok (fs w')) /\
  forall i, path.name_ok i -> keeps (state_path root i) w w'.

#[export] Instance idle_pre : PreOrder aside.
Proof.
  split; [by intros w|]. intros w1 w2 w3 [T1 K1] [T2 K2]. split; [by auto|].
  intros i Hi. eapply keeps_trans; eauto.
Qed.

Lemma idle_moved X w w' : aside w w' -> moved X w w'.
Proof.
  intros [T K] [Ht Hg]. assert (forall i, path.name_ok i -> loaded root (fs w') i = loaded root (fs w) i) as L.
  { intros i Hi. apply loaded_same. by apply K. }
  split.
  - split; [by auto|]. intros i st Hi. rewrite L by done. by apply Hg.
  - intros i st Hi _ Hl. exists st. by rewrite L.
Qed.

Lemma same_fs_idle w w' : same_fs w w' -> aside w w'.
Proof. intros (E & _). unfold aside, keeps. by rewrite E. Qed.

Lemma mkdir_idle d w : aside w (ufs.mkdir_p d w).2.
Proof.
  split; [|intros i _; apply mkdir_p_keeps]. destruct (ufs.mkdir_p d w) as [r w'] eqn:E.
  intros Ht. by apply (mkdir_p_tree d w r w' E Ht).
Qed.

Lemma flock_tree p w : tree_ok (fs w) -> tree_ok (fs (flock_acquire p w).2).
Proof.
  intros Ht. unfold flock_acquire, mbind, M_bind, io_err.
  destruct (next_fault w) as [[|e n] w1] eqn:E; apply next_fault_same in E as (E & _); cbn; [|by rewrite E].
  assert (forall x y, sys_flock x = y -> fs y.2 = fs x) as Fl.
  { intros x y <-. by destruct (sys_flock_spec x). }
  rewrite E. destruct (files (fs w) !! p) eqn:Ef.
  { destruct (sys_flock w1) as [[e|[]] w2] eqn:Es; apply Fl in Es; cbn in *; by rewrite Es, E. }
  case_bool_decide; [cbn; by rewrite E|]. destruct (in_dir (fs w) p) eqn:Ei; cbn [negb]; [|cbn; by rewrite E].
  assert (tree_ok (MkFs (<[p := ""]> (files (fs w))) (dirs (fs w)))) as Ht'.
  { intros q Hq. apply (in_dir_mono (fs w)); [done|]. cbn in Hq. destruct (decide (q = p)) as [->|N]; [done|].
    apply Ht. by rewrite lookup_insert_ne in Hq. }
  destruct (sys_flock _) as [[e|[]] w2] eqn:Es; apply Fl in Es; cbn in *; by rewrite Es.
Qed.

Lemma flock_idle p w : (forall i, path.name_ok i -> p <> state_path root i) -> aside w (flock_acquire p w).2.
Proof. intros N. split; [apply flock_tree|]. intros i Hi. by apply flock_keeps, N. Qed.

Lemma bind_idle {A B} (m : M A) (k : A -> M B) w :
  aside w (m w).2 -> (forall a w1, aside w1 (k a w1).2) -> aside w ((m ≫= k) w).2.
Proof.
  intros Hm Hk. unfold mbind, M_bind. destruct (m w) as [[a|e] w1]; cbn in *; [|done]. etrans; [exact Hm|apply Hk].
Qed.

Lemma lock_idle i w : path.name_ok i -> aside w (lock root i w).2.
Proof.
  intros Hi. unfold lock. apply bind_idle; [apply mkdir_idle|]. intros _ w1. apply flock_idle.
  intros j Hj E. destruct (decide (i = j)) as [<-|N]; [|by apply files_differ in E].
  by apply path.join_inj in E; [|apply dir_dir_ok|..].
Qed.

Lemma load_idle i w : aside w (load root i w).2.
Proof.
  pose proof (load_spec root i w) as L. destruct (load root i w) as [r w']. by apply same_fs_idle, L.
Qed.

(** The lease file and its lock are not records. *)
Lemma root_file_other n i : path.name_ok n -> path.name_ok i -> path.join root n <> state_path root i.
Proof.
  intros Hn Hi E%(f_equal path.parent). rewrite path.parent_join in E by done.
  unfold state_path in E. rewrite parent_in_dir in E by done. injection E as E%(f_equal String.length).
  unfold dir, containers_dir in E. rewrite !path.join_eq in E by (done || by apply containers_dir_ok).
  rewrite !str_length_app in E. cbn in E. lia.
Qed.

Lemma guard_idle w : aside w (ipam.guard root w).2.
Proof.
  unfold ipam.guard. apply bind_idle; [apply mkdir_idle|]. intros _ w1. apply flock_idle.
  intros i Hi. by apply root_file_other.
Qed.

Lemma lease_load_idle w : aside w (ipam.load root w).2.
Proof.
  unfold ipam.load, ufs.exists_, mbind, M_bind. destruct (path_exists _ _); [|reflexivity].
  pose proof (read_to_string_spec (ipam.state_path root) w) as S.
  destruct (ufs.read_to_string _ w) as [[s|e] w1]; by apply same_fs_idle, S.
Qed.

Lemma lease_store_idle l w : aside w (ipam.store root self l w).2.
Proof.
  unfold ipam.store, mbind, M_bind. pose proof (mkdir_idle root w) as I.
  destruct (ufs.mkdir_p root w) as [[[]|e] w1] eqn:Em; [|done]. cbn in *.
  destruct (ufs.write_atomic self _ _ w1) as [r w2] eqn:E. cbn [snd].
  destruct (write_atomic.write_atomic_spec self _ _ _ eq_refl
    (write_atomic.tmp_path_ne self root "ipam.json" Hroot ipam_json_ok) _ _ _ E) as ((_ & (_ & K & D) & _) & _).
  split.
  - intros Ht. destruct (mkdir_p_tree _ _ _ _ Em Ht) as (Ht1 & _ & _ & Hin).
    exact (write_atomic_tree self root "ipam.json" _ w1 r w2 Hroot ipam_json_ok (Hin eq_refl) E Ht1).
  - intros i Hi. eapply keeps_trans; [by apply I|]. apply K; [by apply not_eq_sym, root_file_other|].
    rewrite write_atomic.tmp_path_join by done. by apply not_eq_sym, root_file_other; [apply write_atomic.tmp_name_ok|].
Qed.

Lemma release_idle i w : aside w (ipam.release root self i w).2.
Proof.
  unfold ipam.release. apply bind_idle; [apply guard_idle|]. intros _ w1.
  apply bind_idle; [apply lease_load_idle|]. intros l w2. case_match; [reflexivity|apply lease_store_idle].
Qed.

Lemma lease_gc_idle live w : aside w (ipam.gc root self live w).2.
Proof.
  unfold ipam.gc. apply bind_idle; [apply guard_idle|]. intros _ w1.
  apply bind_idle; [apply lease_load_idle|]. intros l w2. case_match; [|reflexivity].
  apply bind_idle; [apply lease_store_idle|]. reflexivity.
Qed.

(** ** Writing a record *)

(** The record of the container has not changed since [st] was made from it. *)
Definition current (st : t) (w : World) : Prop :=
  exists cur, loaded root (fs w) (id st) = Some cur /\ evolves cur st.

(** The record has evolved from [st]. *)
Definition seen (st : t) (w : World) : Prop :=
  exists cur, loaded root (fs w) (id st) = Some cur /\ evolves st cur.

Lemma seen_moved st w w' : path.name_ok (id st) -> good w -> moved None w w' -> seen st w -> seen st w'.
Proof.
  intros Hi Hg M (cur & Hl & E). destruct (M Hg) as [_ Ev]. destruct (Ev _ _ Hi ltac:(done) Hl) as (c & Hc & E').
  exists c. split; [done|]. by etrans.
Qed.

(** A record of a container that was launched may be replaced by a stopped
    one of the same container, however it evolved meanwhile. *)
Lemma seen_stop st st' w : seen st w -> begun (status st) -> kin st st' -> same_init st st' ->
  status st' = Status.Stopped -> current st' w.
Proof.
  intros (cur & Hl & E) Hb K [I1 I2] Hs. pose proof K as (Hid & _). exists cur. split; [by rewrite Hid|].
  destruct E as (Kc & Rc & Ic). destruct (Ic Hb) as [J1 J2]. split_and!.
  - etrans; [symmetry; exact Kc|exact K].
  - rewrite Hs. apply to_stopped.
  - intros _. split; congruence.
Qed.

Lemma save_moved X st w r w' :
  path.name_ok (id st) -> container_state.wf st -> save root self st w = (r, w') ->
  (X = Some (id st) \/ current st w) ->
  moved X w w' /\ (good w -> is_ok r = true -> loaded root (fs w') (id st) = Some (container_state.without_detach st)).
Proof.
  intros Hi Hwf E Hc. split.
  2: { intros [Ht _] Hr. destruct (save_spec root self Hroot st w r w' Hi Hwf Ht E) as (_ & _ & L & _). by destruct r. }
  intros [Ht Hg]. destruct (save_spec root self Hroot st w r w' Hi Hwf Ht E) as ((_ & Hs & _) & Ht' & L & _).
  destruct Hs as [_ Ho].
  pose proof (stored_wf st Hwf) as Hwf'.
  split.
  - split; [done|]. intros i o Hio Hl. destruct (decide (i = id st)) as [->|N].
    + rewrite L in Hl. destruct r; [|by apply Hg]. injection Hl as <-. done.
    + rewrite Ho in Hl by done. by apply Hg.
  - intros i o Hio HX Hl. destruct (decide (i = id st)) as [->|N].
    + destruct Hc as [->|(cur & Hcur & Ev)]; [done|]. rewrite L. rewrite Hl in Hcur. injection Hcur as <-.
      destruct r; [|by exists o]. exists (container_state.without_detach st). split; [done|]. by apply evolves_stored.
    + exists o. by rewrite Ho.
Qed.

(** ** Listing and removing *)

Lemma load_all_spec l : forall w, Forall path.name_ok l ->
  let '(r, w') := load_all root l w in
  same_fs w w' /\ forall out st, r = Ok out -> st ∈ out -> exists i, path.name_ok i /\ loaded root (fs w) i = Some st.
Proof.
  induction l as [|i l IH]; intros w Hl; cbn [load_all].
  { split; [done|]. by intros out st [= <-] ?%elem_of_nil. }
  apply Forall_cons in Hl as [Hi Hl]. unfold mbind, M_bind, try. pose proof (load_spec root i w) as L.
  destruct (load root i w) as [r1 w1]. destruct L as (S1 & L1 & _). specialize (IH w1 Hl).
  destruct (load_all root l w1) as [[out|e] w2]; destruct IH as [S2 IH]; (split; [|intros out' st E]).
  - by eapply same_fs_trans.
  - injection E as <-. destruct S1 as (E1 & _). rewrite E1 in IH. destruct r1 as [s|e1]; [|by apply IH].
    intros [->|Hin]%elem_of_cons; [|by eapply IH]. exists i. split; [done|]. by apply L1.
  - by eapply same_fs_trans.
  - discriminate E.
Qed.

Lemma list_spec w : let '(r, w') := list root w in
  same_fs w w' /\ forall l st, r = Ok l -> st ∈ l -> exists i, path.name_ok i /\ loaded root (fs w) i = Some st.
Proof.
  unfold list, mbind, M_bind. pose proof (ids_spec root Hroot w) as I. destruct (ids root w) as [[l|e] w1].
  2: { split; [apply I|done]. }
  destruct I as (S1 & _ & Hl & _). pose proof (load_all_spec l w1) as A.
  destruct (load_all root l w1) as [[out|e] w2]; destruct A as [S2 A]; try (by apply Forall_forall; intros i Hi; apply Hl).
  - pose proof S1 as (E1 & _). split; [by eapply same_fs_trans|]. intros l' st [= <-].
    rewrite E1 in A. rewrite sort_perm. by apply A.
  - split; [by eapply same_fs_trans|done].
Qed.

Lemma remove_moved i w : path.name_ok i -> moved (Some i) w (remove root i w).2.
Proof.
  intros Hi [Ht Hg]. destruct (remove root i w) as [r w'] eqn:E.
  destruct (remove_spec root Hroot i w r w' Hi Ht E) as (Ht' & Ho & Hs & _). cbn [snd]. split.
  - split; [done|]. intros j st Hj Hl. destruct (decide (j = i)) as [->|N].
    + destruct Hs as [Hs|Hs]; rewrite Hs in Hl; [by apply Hg|done].
    + rewrite Ho in Hl by done. by apply Hg.
  - intros j st Hj HX Hl. exists st. rewrite Ho; [done|done|congruence].
Qed.
End store.
