(* ===== verification/LifecycleFacts.v ===== *)
(** * Theorems about the lifecycle verbs

    The other processes of the runtime act while this one sleeps or waits for a
    shim; what they may do to the records of the containers is what the verbs
    themselves are shown to do. *)
From S2P Require Import Prelude RustStr Num Utf8 Error Json Util UtilFacts Process Net Caps Seccomp Config ConfigFacts State StateFacts Fs FsFacts FsTree Host KernFs NatRules NatFacts Ipam IpamFacts Store StoreFacts Cgroup Network Ipc Spawn Supervisor Loop Shim Lifecycle Steady Evolve.
Import lifecycle.

Section facts.
Context {H : Type} `{HasWorld H} `{!HasWorldLaws H} `{Iptables H} `{Links H} `{KernFs H} `{Processes H} `{Spawner H} `{Shims H}.
Context (f : option string) (root : string) (self : Z) (Hroot : path.dir_ok root).

Definition untouched (h h' : H) : Prop := world h' = world h.

#[export] Instance untouched_pre : PreOrder untouched.
Proof. split; [done|]. intros h1 h2 h3. unfold untouched. congruence. Qed.

(** What is relied on: the calls on control groups, processes and interfaces
    leave the files alone, other processes evolve the records meanwhile, and
    times and process ids fit their types. *)
Class Rely := {
  rely_kern :: KernSteady untouched;
  rely_kill :: KillSteady untouched;
  rely_wait :: WaitSteady untouched;
  rely_net :: NetSteady untouched;
  rely_sleep : forall ms h, moved root None (world h) (world (sleep_ms ms h));
  rely_pipe : forall h, moved root None (world h) (world (snd (notify_pipe h)));
  rely_fork : forall d h, moved root None (world h) (world (snd (fork_shim d h)));
  rely_read : forall n h, moved root None (world h) (world (snd (pipe_read n h)));
  rely_pid : forall d h pid h', fork_shim d h = (Ok pid, h') -> in_s 32 pid;
  rely_now : forall h, size_ok (now_ms h)
}.
Context `{!Rely}.

(** The container that is not looked at. *)
Context (X : option string).

Definition follows (h h' : H) : Prop := moved root X (world h) (world h').

#[export] Instance follows_pre : PreOrder follows.
Proof. split; [intros h; red; reflexivity|]. intros h1 h2 h3. unfold follows. apply transitivity. Qed.

Lemma untouched_follows h h' : untouched h h' -> follows h h'.
Proof. unfold untouched, follows. intros ->. reflexivity. Qed.

#[local] Instance follows_kern : KernSteady follows.
Proof.
  split; intros; apply untouched_follows; [apply (ks_read untouched)|apply (ks_write untouched)
    |apply (ks_rmdir untouched)|apply (ks_read_dir untouched)].
Qed.
#[local] Instance follows_kill : KillSteady follows.
Proof. intros pid sig h. apply untouched_follows, (ks_kill untouched). Qed.
#[local] Instance follows_wait : WaitSteady follows.
Proof. intros pid b h. apply untouched_follows, (ks_wait untouched). Qed.
#[local] Instance follows_net : NetSteady follows.
Proof. split; intros; [intros h|]; apply untouched_follows; [apply (ks_netlink untouched)|apply (ks_iptables untouched)]. Qed.
#[local] Instance follows_sleep : SleepSteady follows.
Proof. intros ms h. apply moved_weaken, rely_sleep. Qed.

(** ** Guarantees *)

(** From a world with [P], [m] evolves the records; where it succeeds, [Q]. *)
Definition guar {A} (P : World -> Prop) (m : HM H A) (Q : A -> World -> Prop) : Prop :=
  forall h, good root (world h) -> P (world h) ->
    follows h (snd (m h)) /\ match fst (m h) with Ok a => Q a (world (snd (m h))) | Err _ => True end.

Definition lguar {A} (P : World -> Prop) (m : LP H A) (Q : A -> World -> Prop) : Prop :=
  forall h, good root (world h) -> P (world h) ->
    follows h (snd (m h)) /\ match fst (m h) with Answer (Ok a) => Q a (world (snd (m h))) | _ => True end.

Lemma follows_good h h' : follows h h' -> good root (world h) -> good root (world h').
Proof. intros F G. by destruct (F G). Qed.

Lemma guar_bind {A B} P Q S (m : HM H A) (k : A -> HM H B) :
  guar P m Q -> (forall a, guar (Q a) (k a) S) -> guar P (m ≫= k) S.
Proof.
  intros Hm Hk h Hg Hp. destruct (Hm h Hg Hp) as [F1 Q1]. rewrite hm_bind_eq.
  destruct (m h) as [[a|e] h1]; cbn [fst snd] in *; [|done].
  destruct (Hk a h1 (follows_good _ _ F1 Hg) Q1) as [F2 Q2]. split; [by etrans|done].
Qed.

Lemma lguar_bind {A B} P Q S (m : LP H A) (k : A -> LP H B) :
  lguar P m Q -> (forall a, lguar (Q a) (k a) S) -> lguar P (m ≫= k) S.
Proof.
  intros Hm Hk h Hg Hp. destruct (Hm h Hg Hp) as [F1 Q1]. rewrite lp_bind_eq.
  destruct (m h) as [[[a|e]| |] h1]; cbn [fst snd] in *; try done.
  destruct (Hk a h1 (follows_good _ _ F1 Hg) Q1) as [F2 Q2]. split; [by etrans|done].
Qed.

Lemma lguar_now {A} P Q (m : HM H A) : guar P m Q -> lguar P (now m) Q.
Proof. intros Hm h Hg Hp. destruct (Hm h Hg Hp) as [F1 Q1]. unfold now. by destruct (m h) as [[a|e] h1]. Qed.

Lemma lguar_ret {A} (P : World -> Prop) (Q : A -> World -> Prop) (a : A) :
  (forall w, P w -> Q a w) -> lguar P (mret a) Q.
Proof. intros I h Hg Hp. split; [cbn; reflexivity|]. cbn. by apply I. Qed.

Lemma guar_ret {A} (P : World -> Prop) (Q : A -> World -> Prop) (a : A) :
  (forall w, P w -> Q a w) -> guar P (mret a) Q.
Proof. intros I h Hg Hp. split; [cbn; reflexivity|]. cbn. by apply I. Qed.

Lemma guar_end {A} P (a : A) : guar P (mret a) (fun _ _ => True).
Proof. by apply guar_ret. Qed.

Lemma guar_fail {A} P (Q : A -> World -> Prop) e : guar P (host.fail e) Q.
Proof. intros h Hg Hp. split; [cbn; reflexivity|done]. Qed.

Lemma guar_lift {A} (P : World -> Prop) (Q : A -> World -> Prop) (r : result A) :
  (forall a w, r = Ok a -> P w -> Q a w) -> guar P (host.lift r) Q.
Proof. intros I h Hg Hp. split; [cbn; reflexivity|]. cbn. destruct r; [by apply I|done]. Qed.

(** A computation that leaves the files alone. *)
Lemma guar_quiet {A} P (m : HM H A) : pres untouched m -> guar P m (fun _ => P).
Proof.
  intros Hm h Hg Hp. pose proof (Hm h) as U. split; [by apply untouched_follows|]. rewrite U.
  by destruct (fst (m h)).
Qed.

Lemma guar_steady {A} (m : HM H A) P : pres follows m -> guar P m (fun _ _ => True).
Proof. intros Hm h Hg Hp. split; [apply Hm|]. by destruct (fst (m h)). Qed.

Lemma guar_weaken {A} (P P' : World -> Prop) (Q Q' : A -> World -> Prop) (m : HM H A) :
  guar P m Q -> (forall w, P' w -> P w) -> (forall a w, Q a w -> Q' a w) -> guar P' m Q'.
Proof.
  intros Hm HP HQ h Hg Hp. destruct (Hm h Hg (HP _ Hp)) as [F1 Q1]. split; [done|].
  destruct (fst (m h)); [by apply HQ|done].
Qed.

(** A condition that does not depend on the world. *)
Lemma guar_pure {A} (phi : Prop) P Q (m : HM H A) : (phi -> guar P m Q) -> guar (fun w => phi /\ P w) m Q.
Proof. intros Hm h Hg [Hphi Hp]. by apply Hm. Qed.

Lemma lguar_weaken {A} (P P' : World -> Prop) (Q Q' : A -> World -> Prop) (m : LP H A) :
  lguar P m Q -> (forall w, P' w -> P w) -> (forall a w, Q a w -> Q' a w) -> lguar P' m Q'.
Proof.
  intros Hm HP HQ h Hg Hp. destruct (Hm h Hg (HP _ Hp)) as [F1 Q1]. split; [done|].
  destruct (fst (m h)) as [[a|e]| |]; [by apply HQ|done..].
Qed.

Lemma guar_ignore {A} P Q (m : HM H A) : guar P m Q -> guar P (host.ignore m) (fun _ _ => True).
Proof. intros Hm h Hg Hp. destruct (Hm h Hg Hp) as [F1 _]. unfold host.ignore. by destruct (m h). Qed.

(** *** Files *)

Lemma idle_follows {A} (m : M A) : (forall w, aside root w (m w).2) -> pres follows (on_files m).
Proof.
  intros I h. specialize (I (world h)). unfold on_files, follows. destruct (m (world h)) as [r w]. cbn in *.
  rewrite world_set. by apply idle_moved.
Qed.

Lemma lock_guar i P : path.name_ok i -> guar P (lock root i) (fun _ _ => True).
Proof. intros Hi. apply guar_steady, idle_follows. intros w. by apply lock_idle. Qed.

(** The record that was read. *)
Definition fresh (i : string) (st : ContainerState.t) (w : World) : Prop :=
  container_state.wf st /\ ContainerState.id st = i /\ current root st w /\ seen root st w.

Lemma load_guar i P : path.name_ok i ->
  guar P (load root i) (fun st w => fresh i st w /\ loaded root (fs w) i = Some st).
Proof.
  intros Hi h [Ht Hg] _. pose proof (load_spec root i (world h)) as L. unfold load, on_files.
  destruct (Store.load root i (world h)) as [r w]. destruct L as (S & Hl & _). cbn [fst snd]. split.
  - unfold follows. rewrite world_set. by apply idle_moved, same_fs_idle.
  - destruct r as [st|e]; [|done]. rewrite world_set. specialize (Hl st eq_refl). destruct S as (Ef & _).
    rewrite Ef. destruct (Hg i st Hi Hl) as [Hwf <-]. split; [|done]. split_and!; try done; exists st; by rewrite Ef.
Qed.

Lemma save_guar st P : path.name_ok (ContainerState.id st) -> container_state.wf st ->
  (forall w, P w -> X = Some (ContainerState.id st) \/ current root st w) ->
  guar P (save root self st) (fun _ w => loaded root (fs w) (ContainerState.id st) = Some (container_state.without_detach st)).
Proof.
  intros Hi Hwf HP h Hg Hp. unfold save, on_files. destruct (Store.save root self st (world h)) as [r w] eqn:E.
  destruct (save_moved root self Hroot X st (world h) r w Hi Hwf E (HP _ Hp)) as [M L]. cbn [fst snd].
  unfold follows. rewrite world_set. split; [done|]. destruct r; [|done]. by apply L.
Qed.

(** *** Conditions other processes keep *)

Definition stable (P : World -> Prop) : Prop :=
  forall w w', good root w -> moved root X w w' -> P w -> P w'.

Lemma guar_stable {A} P (m : HM H A) : stable P -> pres follows m -> guar P m (fun _ => P).
Proof.
  intros HS Hm h Hg Hp. pose proof (Hm h) as F. split; [done|]. assert (P (world (snd (m h)))) by (by eapply HS).
  by destruct (fst (m h)).
Qed.

Lemma lguar_stable {A} P (m : LP H A) : stable P -> lpres follows m -> lguar P m (fun _ => P).
Proof.
  intros HS Hm h Hg Hp. pose proof (Hm h) as F. split; [done|]. assert (P (world (snd (m h)))) by (by eapply HS).
  by destruct (fst (m h)) as [[a|e]| |].
Qed.

(** The container has been launched. *)
Definition launched (i : string) (w : World) : Prop :=
  exists cur, loaded root (fs w) i = Some cur /\ begun (ContainerState.status cur).

Lemma launched_stable i : path.name_ok i -> X <> Some i -> stable (launched i).
Proof.
  intros Hi HX w w' Hg M (cur & Hl & Hb). destruct (M Hg) as [_ E]. destruct (E i cur Hi HX Hl) as (c & Hc & Ev).
  exists c. split; [done|]. eapply rtc_begun; [apply Ev|done].
Qed.

Lemma seen_stable st : path.name_ok (ContainerState.id st) -> X <> Some (ContainerState.id st) -> stable (seen root st).
Proof.
  intros Hi HX w w' Hg M (cur & Hl & Hb). destruct (M Hg) as [_ E]. destruct (E _ cur Hi HX Hl) as (c & Hc & Ev).
  exists c. split; [done|]. by etrans.
Qed.

(** ** The steps of the verbs *)

(** A record made from the current one. *)
Definition ready (i : string) (st : ContainerState.t) (w : World) : Prop :=
  container_state.wf st /\ ContainerState.id st = i /\ current root st w.

Lemma fresh_ready i st w : fresh i st w -> ready i st w.
Proof. by intros (? & ? & ? & _). Qed.

Lemma stored_fresh st w : container_state.wf st ->
  loaded root (fs w) (ContainerState.id st) = Some (container_state.without_detach st) -> fresh (ContainerState.id st) st w.
Proof.
  intros Hwf Hl. split_and!; [done..| |]; exists (container_state.without_detach st); (split; [done|]).
  - split_and!; [|apply rtc_refl|done]. by split_and!.
  - by apply evolves_stored.
Qed.

Lemma save_ready i st : path.name_ok i -> guar (ready i st) (save root self st) (fun _ => fresh i st).
Proof.
  intros Hi h Hg (Hwf & <- & Hc).
  destruct (save_guar st (current root st) Hi Hwf ltac:(auto) h Hg Hc) as [F Q]. split; [done|].
  destruct (fst _); [by apply stored_fresh|done].
Qed.

Lemma transition_guar i st next :
  guar (ready i st) (transition st next) (fun st' w => ready i st' w /\ ContainerState.status st' = next).
Proof.
  intros h Hg (Hwf & Hid & (cur & Hl & Ev)). unfold transition, supervisor.clock. rewrite hm_bind_eq. cbn.
  split; [reflexivity|]. destruct (ContainerState.transition _ _ _) as [st'|e] eqn:E; [|done].
  destruct (transition_evolves _ _ _ _ E) as [Ev' Hs]. pose proof Ev' as ((Hi & _) & _).
  split; [|done]. split_and!; [by eapply transition_wf; [apply rely_now|..]|congruence|].
  exists cur. rewrite Hi. split; [done|]. by etrans.
Qed.

Lemma lost_evolves now st : Status.is_live (ContainerState.status st) = true ->
  kin st (lost now st) /\ same_init st (lost now st) /\ ContainerState.status (lost now st) = Status.Stopped /\
  begun (ContainerState.status st).
Proof.
  intros Hl. split_and!.
  3: unfold lost; repeat case_match; done.
  3: by destruct (ContainerState.status st).
  all: unfold lost; cbn; repeat case_match; by split_and!.
Qed.

(** [reconcile] keeps what is known of the record, or stops it. *)
Lemma reconcile_guar st P : path.name_ok (ContainerState.id st) -> container_state.wf st ->
  (forall w, P w -> seen root st w) ->
  guar P (supervisor.reconcile root self st) (fun p w =>
    (p = (false, st) /\ P w) \/
    (p.1 = true /\ kin st p.2 /\ ContainerState.status p.2 = Status.Stopped /\ fresh (ContainerState.id st) p.2 w)).
Proof.
  intros Hi Hwf HP h Hg Hp. unfold supervisor.reconcile, Store.reconcile.
  destruct (Status.is_live (ContainerState.status st)) eqn:El; cbn [negb].
  2: { unfold follows. cbn. rewrite world_set. split; [reflexivity|by left]. }
  destruct (ContainerState.init_is_alive _ st).
  { unfold follows. cbn. rewrite world_set. split; [reflexivity|by left]. }
  cbv zeta. fold (lost (now_ms h) st). destruct (lost_evolves (now_ms h) st El) as (K & I & Hs & Hb).
  pose proof (lost_wf _ _ (rely_now h) Hwf) as Hwf'. pose proof (lost_id (now_ms h) st) as Hid.
  destruct (Store.save root self (lost (now_ms h) st) (world h)) as [r w] eqn:E.
  destruct (save_moved root self Hroot X (lost (now_ms h) st) (world h) r w ltac:(by rewrite Hid) Hwf' E) as [M L].
  { right. by eapply seen_stop; [apply HP| | | |]. }
  destruct r as [[]|e]; cbn; unfold follows; rewrite world_set; (split; [done|]); [|done]. right.
  split_and!; [done..|]. rewrite <- Hid. apply stored_fresh; [done|]. by apply L.
Qed.

Lemma load_reconciled_guar i P : path.name_ok i -> guar P (load_reconciled root self i) (fun st => fresh i st).
Proof.
  intros Hi. unfold load_reconciled, supervisor.load_reconciled. eapply guar_bind; [by apply load_guar|]. intros st.
  intros h Hg [(Hwf & Hid & Hc & Hs) Hl]. revert h Hg Hl Hc Hs. intros h Hg Hl Hc Hs.
  refine (guar_bind (fun w => fresh i st w) (fun p w => fresh i p.2 w) (fun st' w => fresh i st' w) _ _ _ _ h Hg _);
    [|intros [b st']; by apply guar_ret|by split_and!].
  eapply guar_weaken; [apply (reconcile_guar st (fresh i st))|done|]; [by rewrite Hid|done|by intros w (_ & _ & _ & ?)|].
  intros [b st'] w [[[= -> ->] F]|(_ & _ & _ & F)]; [done|]. by rewrite Hid in F.
Qed.

Lemma cgroup_of_quiet st : pres untouched (cgroup_of st).
Proof. unfold cgroup_of. pres_tac. apply (attach_steady untouched). Qed.

Lemma wake_guar i st :
  guar (ready i st) (wake st) (fun st' w => ready i st' w /\
    (Status.is_live (ContainerState.status st) = true -> Status.is_live (ContainerState.status st') = true)).
Proof.
  unfold wake. case_bool_decide as Hp; [|apply guar_ret; by auto].
  eapply guar_bind; [apply guar_quiet, cgroup_of_quiet|]. intros c.
  eapply guar_bind; [apply guar_quiet|]. { pres_tac. apply (thaw_steady untouched). }
  intros ?. eapply guar_weaken; [apply transition_guar|done|]. cbn. intros st' w [R ->]. done.
Qed.

Lemma signal_guar i st sig : path.name_ok i -> guar (ready i st) (signal_init root self i st sig) (fun _ => fresh i st).
Proof.
  intros Hi. unfold signal_init. eapply guar_bind; [apply guar_quiet; pres_tac; apply (kill_steady untouched)|].
  intros ?. exact (save_ready i _ Hi).
Qed.

Lemma kill_guar i sig all : path.name_ok i -> guar (fun _ => True) (kill root self i sig all) (fun _ _ => True).
Proof.
  intros Hi. unfold kill. eapply guar_bind; [by apply lock_guar|]. intros ?.
  eapply guar_bind; [by apply load_reconciled_guar|]. intros st. destruct (negb _); [apply guar_fail|].
  eapply guar_bind; [eapply guar_weaken; [apply wake_guar|apply fresh_ready|]|]; [by intros st' w [R _]|]. cbn. intros st'.
  eapply guar_bind. { apply guar_quiet. destruct (all && _); [apply cgroup_of_quiet|apply pres_ret, _]. }
  intros [c|]; cbn.
  - eapply guar_bind; [apply guar_quiet; apply (kill_all_steady untouched)|]. intros ?.
    eapply guar_weaken; [exact (save_ready i _ Hi)|done|done].
  - eapply guar_weaken; [exact (signal_guar i _ _ Hi)|done|done].
Qed.

(** The common end of [pause] and [unpause]. *)
Lemma toggle_guar i st (op : cgroup.Cgroup -> HM H unit) e next : path.name_ok i -> (forall c, pres untouched (op c)) ->
  guar (fresh i st) (c ← cgroup_of st; c ← host.lift (ok_or e c); _ ← op c; st ← transition st next; save root self st)
    (fun _ _ => True).
Proof.
  intros Hi Hop. eapply guar_bind; [apply guar_quiet, cgroup_of_quiet|]. intros c.
  eapply guar_bind; [apply guar_quiet, pres_lift, _|]. intros c'.
  eapply guar_bind; [apply guar_quiet, Hop|]. intros ?.
  eapply guar_bind; [eapply guar_weaken; [apply transition_guar|apply fresh_ready|]|]; [by intros st' w [R _]|].
  cbn. intros st'. eapply guar_weaken; [exact (save_ready i _ Hi)|done|done].
Qed.

Lemma pause_guar i : path.name_ok i -> guar (fun _ => True) (pause root self i) (fun _ _ => True).
Proof.
  intros Hi. unfold pause. eapply guar_bind; [by apply lock_guar|]. intros ?.
  eapply guar_bind; [by apply load_reconciled_guar|]. intros st. destruct (negb _); [apply guar_fail|].
  apply toggle_guar; [done|]. intros c. apply (freeze_steady untouched).
Qed.

Lemma unpause_guar i : path.name_ok i -> guar (fun _ => True) (unpause root self i) (fun _ _ => True).
Proof.
  intros Hi. unfold unpause. eapply guar_bind; [by apply lock_guar|]. intros ?.
  eapply guar_bind; [by apply load_reconciled_guar|]. intros st. destruct (negb _); [apply guar_fail|].
  apply toggle_guar; [done|]. intros c. apply (thaw_steady untouched).
Qed.

(** ** Teardown *)

Lemma release_result st h : exists st', fst (supervisor.release_cgroup st h) = Ok st' /\
  (st' = st \/ st' = ContainerState.set_oom st true).
Proof.
  unfold supervisor.release_cgroup. destruct (ContainerState.cgroup_path st) as [p|]; [|by eauto].
  rewrite hm_bind_eq. unfold host.try at 1. destruct (cgroup.attach p h) as [[c|e] h1]; [|by eauto].
  unfold supervisor.mark_oom. rewrite !hm_bind_eq. destruct (was_oom_sure c h1) as (b & h2 & E).
  rewrite E. cbv beta iota delta [mret HM_ret]. rewrite !ignore_bind_eq. destruct b; eauto.
Qed.

(** The record may be replaced by a stopped one. *)
Definition tearable (st : ContainerState.t) (w : World) : Prop :=
  X = Some (ContainerState.id st) \/ (seen root st w /\ begun (ContainerState.status st)).

Lemma tearable_stable st : path.name_ok (ContainerState.id st) -> stable (tearable st).
Proof.
  intros Hi w w' Hg M [->|[Hs Hb]]; [by left|]. destruct (decide (X = Some (ContainerState.id st))); [by left|].
  right. split; [|done]. by eapply seen_stable.
Qed.

Lemma mark_stopped_kin now st : begun (ContainerState.status st) ->
  kin st (supervisor.mark_stopped now st) /\ same_init st (supervisor.mark_stopped now st) /\
  ContainerState.status (supervisor.mark_stopped now st) = Status.Stopped.
Proof.
  intros [B1 B2]. unfold supervisor.mark_stopped. destruct (Status.is_live (ContainerState.status st)) eqn:E.
  - split_and!; [|case_match; by split_and!..|by case_match]. case_match; by split_and!.
  - split_and!; [done..|]. by destruct (ContainerState.status st).
Qed.

Lemma mark_stopped_wf now st : size_ok now -> container_state.wf st -> container_state.wf (supervisor.mark_stopped now st).
Proof.
  intros Hn Hwf. unfold supervisor.mark_stopped. destruct (Status.is_live _); [|done].
  destruct Hwf as (H1' & H2' & H3' & H4' & H5' & H6' & H7' & H8' & H9' & H10 & H11 & H12 & H13 & H14).
  case_match; unfold container_state.wf; cbn; split_and!; done.
Qed.

Lemma mark_stopped_id now st : ContainerState.id (supervisor.mark_stopped now st) = ContainerState.id st.
Proof. unfold supervisor.mark_stopped. repeat case_match; done. Qed.

Lemma finish_teardown st : path.name_ok (ContainerState.id st) -> container_state.wf st ->
  guar (tearable st)
    (now ← supervisor.clock; let st := supervisor.mark_stopped now st in _ ← host.ignore (save root self st); mret st)
    (fun _ _ => True).
Proof.
  intros Hi Hwf. intros h Hg Ht. unfold supervisor.clock. rewrite hm_bind_eq. cbn -[save supervisor.mark_stopped].
  set (st' := supervisor.mark_stopped (now_ms h) st). pose proof (mark_stopped_id (now_ms h) st) as Hid.
  refine (guar_bind (fun w => X = Some (ContainerState.id st') \/ current root st' w) (fun _ _ => True) (fun _ _ => True) _ _ _ _ h Hg _).
  - eapply guar_ignore, save_guar; [by unfold st'; rewrite Hid|by apply mark_stopped_wf; [apply rely_now|]|done].
  - intros ?. by apply guar_ret.
  - destruct Ht as [->|[Hs Hb]]; [left; by unfold st'; rewrite Hid|right].
    destruct (mark_stopped_kin (now_ms h) st Hb) as (K & I & E). by eapply seen_stop.
Qed.

Lemma net_teardown_follows i n : pres follows (network.teardown root self i n).
Proof. apply net_teardown_steady; [exact _..|]. apply idle_follows. intros w. by apply release_idle. Qed.

Lemma set_oom_tearable st w : tearable st w -> tearable (ContainerState.set_oom st true) w.
Proof.
  intros [->|[(cur & Hl & Ev) Hb]]; [by left|right]. split; [|done]. exists cur. split; [done|].
  destruct Ev as (K & R & I). split_and!; done.
Qed.

Lemma teardown_guar st : path.name_ok (ContainerState.id st) -> container_state.wf st ->
  guar (tearable st) (teardown f root self st) (fun _ _ => True).
Proof.
  intros Hi Hwf. pose proof (tearable_stable st Hi) as Hst. unfold teardown, supervisor.teardown.
  eapply guar_bind; [apply guar_quiet; unfold supervisor.check; pres_tac|]. intros ?.
  eapply guar_bind; [apply guar_stable; [done|apply kill_if_alive_steady; exact _]|]. intros ?.
  eapply (guar_bind _ (fun st' w => tearable st' w /\ container_state.wf st' /\ ContainerState.id st' = ContainerState.id st)).
  - intros h Hg Ht. destruct (guar_stable _ _ Hst (release_cgroup_steady follows st) h Hg Ht) as [F Q]. split; [done|].
    destruct (release_result st h) as (st' & E & Hc). rewrite E in Q |- *. destruct Hc as [-> | ->]; [done|].
    split_and!; [by apply set_oom_tearable|by destruct Hwf as (? & ?)|done].
  - intros st' h Hg (Ht & Hwf' & Hid). revert h Hg Ht.
    change (guar (tearable st') (_ ← network.teardown root self (ContainerState.id st') (ContainerState.network st');
      now ← supervisor.clock; let st := supervisor.mark_stopped now st' in _ ← host.ignore (save root self st); mret st)
      (fun _ _ => True)).
    eapply guar_bind; [apply guar_stable; [apply tearable_stable; by rewrite Hid|apply net_teardown_follows]|].
    intros ?. apply finish_teardown; [by rewrite Hid|done].
Qed.

(** ** Stopping and waiting *)

Lemma load_follows i : pres follows (load root i).
Proof. apply idle_follows. intros w. apply load_idle. Qed.

Lemma lock_follows i : path.name_ok i -> pres follows (lock root i).
Proof. intros Hi. apply idle_follows. intros w. by apply lock_idle. Qed.

Lemma is_alive_follows st : pres follows (supervisor.is_alive st).
Proof. intros h. cbn. reflexivity. Qed.

Lemma cgroup_of_follows st : pres follows (cgroup_of st).
Proof. intros h. apply untouched_follows, cgroup_of_quiet. Qed.

Lemma await_shim_follows n i : pres follows (await_shim root n i).
Proof.
  induction n as [|n IH]; cbn [await_shim]; pres_tac; [apply load_follows|apply (sleep_steady follows)].
Qed.

Lemma await_death_follows n i : pres follows (await_death root n i).
Proof.
  induction n as [|n IH]; cbn [await_death]; pres_tac;
    [apply load_follows|apply is_alive_follows|apply (sleep_steady follows)].
Qed.

Lemma await_exit_follows fuel d i : lpres follows (await_exit root fuel d i).
Proof.
  induction fuel as [|k IH]; cbn [await_exit]; [intros h; cbn; reflexivity|].
  apply lpres_bind; [exact _|apply lpres_now; intros h; cbn; reflexivity|intros early].
  destruct early; cbn [negb]; [|apply lpres_ret, _].
  apply lpres_bind; [exact _|apply lpres_now, load_follows|intros st].
  apply lpres_bind; [exact _|apply lpres_now, is_alive_follows|intros alive].
  destruct alive; cbn [negb]; [|apply lpres_ret, _].
  apply lpres_bind; [exact _|apply lpres_now, (sleep_steady follows)|done].
Qed.

Lemma kill_hard_follows i : path.name_ok i -> pres follows (kill_hard root i).
Proof.
  intros Hi. unfold kill_hard. pres_tac;
    [by apply lock_follows|apply load_follows|apply cgroup_of_follows|apply (kill_all_steady follows)|apply (kill_steady follows)].
Qed.

(** Loading the record of a launched container. *)
Lemma load_launched i : path.name_ok i -> X <> Some i ->
  guar (launched i) (load root i) (fun st w =>
    container_state.wf st /\ ContainerState.id st = i /\ tearable st w /\ launched i w).
Proof.
  intros Hi HX h Hg Hl. destruct (guar_stable _ _ (launched_stable i Hi HX) (load_follows i) h Hg Hl) as [F Q].
  destruct (load_guar i (launched i) Hi h Hg Hl) as [_ L]. split; [done|].
  destruct (fst (load root i h)) as [st|e]; [|done]. destruct L as [(Hwf & Hid & _ & Hs) Hl'].
  split_and!; [done..| |done]. right. split; [done|]. destruct Q as (cur & E & Hb). rewrite Hl' in E. by injection E as <-.
Qed.

Lemma teardown_recorded i st : path.name_ok i ->
  guar (fun w => container_state.wf st /\ ContainerState.id st = i /\ tearable st w /\ launched i w)
    (st ← teardown f root self st; mret (recorded st)) (fun _ _ => True).
Proof.
  intros Hi. eapply (guar_weaken (fun w => (container_state.wf st /\ ContainerState.id st = i) /\ tearable st w)); [|tauto|done].
  apply guar_pure. intros [Hwf <-]. eapply guar_bind; [by apply teardown_guar|]. intros ?. apply guar_end.
Qed.

Lemma finalize_guar i : path.name_ok i -> X <> Some i ->
  guar (launched i) (finalize_stopped f root self i) (fun _ _ => True).
Proof.
  intros Hi HX. pose proof (launched_stable i Hi HX) as HS. unfold finalize_stopped.
  eapply guar_bind; [apply guar_stable; [done|by apply lock_follows]|]. intros ?.
  eapply guar_bind; [by apply load_launched|]. intros st.
  eapply guar_bind; [apply guar_quiet; intros h; cbn; reflexivity|]. intros alive. destruct alive; [apply guar_fail|].
  eapply guar_bind; [apply guar_quiet; intros h; cbn; reflexivity|]. intros sh. destruct sh; [|by apply teardown_recorded].
  eapply guar_bind; [eapply guar_weaken; [apply guar_stable; [exact HS|apply await_shim_follows]| |]; [by intros w (_ & _ & _ & ?)|done]|].
  intros [e|]; [apply guar_end|]. eapply guar_bind; [by apply load_launched|]. intros cur. by apply teardown_recorded.
Qed.

(** What [stop] does before it waits. *)
Lemma stop_request_guar i : path.name_ok i ->
  guar (fun _ => True) (stop_request root self i) (fun r w => r = None -> launched i w).
Proof.
  intros Hi. unfold stop_request. eapply guar_bind; [by apply lock_guar|]. intros ?.
  eapply guar_bind; [by apply load_reconciled_guar|]. intros st. destruct (negb _); [by apply guar_ret|].
  eapply guar_bind; [eapply guar_weaken; [apply wake_guar|apply fresh_ready|]|]; [by intros st' w [R _]|]. cbn. intros st1.
  eapply guar_bind; [apply transition_guar|]. intros st2.
  eapply (guar_bind _ (fun _ w => launched i w)).
  { intros h Hg [R Hs]. destruct (save_ready i st2 Hi h Hg R) as [F Q]. split; [done|]. destruct (fst _); [|done].
    destruct Q as (_ & <- & _ & (cur & Hl & Ev)). exists cur. split; [done|]. eapply rtc_begun; [apply Ev|]. by rewrite Hs. }
  intros ?. eapply guar_bind; [apply guar_quiet; pres_tac; apply (kill_steady untouched)|]. intros ?. by apply guar_ret.
Qed.

Lemma stop_guar fuel i t : path.name_ok i -> X <> Some i ->
  lguar (fun _ => True) (stop f root self fuel i t) (fun _ _ => True).
Proof.
  intros Hi HX. pose proof (launched_stable i Hi HX) as HS. unfold stop.
  eapply lguar_bind; [by apply lguar_now, stop_request_guar|]. intros [e|]; [by apply lguar_ret|].
  eapply (lguar_weaken (launched i)); [|by auto|done].
  eapply lguar_bind; [apply lguar_stable; [exact HS|intros h; unfold deadline_in; case_match; cbn; reflexivity]|]. intros d.
  eapply lguar_bind; [apply lguar_stable; [exact HS|apply await_exit_follows]|]. intros gone.
  destruct gone; [by apply lguar_now, finalize_guar|].
  eapply lguar_bind; [apply lguar_now, guar_stable; [exact HS|by apply kill_hard_follows]|]. intros ?.
  eapply lguar_bind; [apply lguar_now, guar_stable; [exact HS|apply await_death_follows]|]. intros ?.
  by apply lguar_now, finalize_guar.
Qed.

Lemma wait_go_guar fuel d i : path.name_ok i ->
  lguar (fun _ => True) (wait_go root self fuel d i) (fun _ _ => True).
Proof.
  intros Hi. induction fuel as [|k IH]; cbn [wait_go]; [intros h Hg _; cbn; by split|].
  eapply lguar_bind; [by apply lguar_now, load_reconciled_guar|]. intros st. destruct (negb _); [by apply lguar_ret|].
  eapply lguar_bind; [apply lguar_now, guar_quiet; intros h; cbn; reflexivity|]. intros ?.
  eapply lguar_bind; [apply lguar_now; eapply guar_steady, (sleep_steady follows)|]. done.
Qed.

Lemma wait_guar fuel i t : path.name_ok i -> lguar (fun _ => True) (wait root self fuel i t) (fun _ _ => True).
Proof.
  intros Hi. unfold wait. eapply (lguar_bind _ (fun _ _ => True)); [|intros d; by apply wait_go_guar].
  destruct t as [t|]; [|by apply lguar_ret]. eapply (lguar_bind _ (fun _ _ => True)); [|intros d; by apply lguar_ret].
  intros h Hg _. unfold deadline_in. case_match; cbn; by split.
Qed.

(** ** Starting *)

Lemma read_go_follows fuel cap : forall got, lpres follows (shim.read_go fuel cap got).
Proof.
  induction fuel as [|k IH]; intros got h; cbn [shim.read_go]; [cbn; reflexivity|].
  pose proof (moved_weaken root X _ _ (rely_read (cap - String.length got)%nat h)) as M. fold (follows h (snd (pipe_read (cap - String.length got)%nat h))) in M.
  destruct (pipe_read _ h) as [[e|[|a c]] h1]; cbn [snd] in M.
  - destruct (e =? _); [etrans; [exact M|apply IH]|exact M].
  - exact M.
  - cbv zeta. destruct (Nat.eqb _ _); [exact M|etrans; [exact M|apply IH]].
Qed.

Lemma spawn_guar fuel st P : lguar P (shim.spawn root fuel st) (fun s _ => in_s 32 (shim.shim_pid s)).
Proof.
  unfold shim.spawn. eapply lguar_bind; [apply lguar_now; eapply guar_steady; intros h; apply moved_weaken, rely_pipe|].
  intros ?. eapply (lguar_bind _ (fun pid _ => in_s 32 pid)).
  { apply lguar_now. intros h Hg _. split; [apply moved_weaken, rely_fork|].
    destruct (fork_shim _ h) as [[pid|e] h1] eqn:E; [|done]. by eapply rely_pid. }
  intros pid. eapply (lguar_bind _ (fun _ _ => in_s 32 pid)).
  { apply lguar_stable; [by intros w w' _ _|apply read_go_follows]. }
  intros got. apply lguar_now.
  apply (guar_weaken (fun _ => in_s 32 pid /\ True) _ (fun s _ => in_s 32 (shim.shim_pid s))); [|done|done].
  apply (guar_pure _ (fun _ => True)). intros Hpid. unfold shim.verdict.
  assert (pres untouched (shim.reap pid)) as Q by (unfold shim.reap; pres_tac; apply (ks_wait untouched)).
  destruct got as [|c0 m]; [eapply guar_bind; [by apply guar_quiet|intros ?; apply guar_fail]|].
  destruct (ascii_dec _ _); [eapply guar_bind; [by apply guar_quiet|intros ?; apply guar_fail]|]. by apply guar_ret.
Qed.

Lemma start_guar fuel i : path.name_ok i -> lguar (fun _ => True) (start root self fuel i) (fun _ _ => True).
Proof.
  intros Hi. unfold start. eapply lguar_bind; [by apply lguar_now, lock_guar|]. intros ?.
  eapply lguar_bind; [by apply lguar_now, load_reconciled_guar|]. intros st.
  eapply lguar_bind; [apply lguar_now, guar_quiet, pres_lift, _|]. intros ?.
  eapply lguar_bind; [apply spawn_guar|]. intros sp.
  eapply (lguar_bind _ (fun st w => in_s 32 (shim.shim_pid sp) /\ fresh i st w)).
  { apply lguar_now. intros h Hg Hp. destruct (load_guar i (fun _ => True) Hi h Hg I) as [F Q]. split; [done|].
    destruct (fst _); [|done]. by destruct Q. }
  intros st'. cbv zeta. eapply lguar_bind; [|intros ?; by apply lguar_ret]. apply lguar_now. apply guar_pure. intros Hp.
  eapply guar_weaken; [exact (save_ready i _ Hi)| |done]. intros w (Hwf & Hid & (cur & Hl & Ev) & _).
  split_and!; [|done|].
  - destruct Hwf as (H1' & H2' & H3' & H4' & H5' & H6' & H7' & H8' & H9' & H10 & H11 & H12 & H13 & H14).
    unfold container_state.wf. cbn. split_and!; done.
  - exists cur. split; [done|]. destruct Ev as (K & R & I). by split_and!.
Qed.

(** ** Collecting *)

(** A record read a while ago. *)
Definition known (st : ContainerState.t) (w : World) : Prop :=
  container_state.wf st /\ path.name_ok (ContainerState.id st) /\ seen root st w.

Lemma list_guar : guar (fun _ => True) (on_files (Store.list root)) (fun l w => forall st, st ∈ l -> known st w).
Proof.
  intros h [Ht Hg] _. pose proof (list_spec root Hroot (world h)) as L. unfold on_files.
  destruct (Store.list root (world h)) as [r w]. destruct L as [S L]. cbn [fst snd]. unfold follows. rewrite world_set. split.
  { by apply idle_moved, same_fs_idle. }
  destruct r as [l|e]; [|done]. intros st Hin. destruct (L l st eq_refl Hin) as (i & Hi & Hl).
  destruct (Hg i st Hi Hl) as [Hwf Hid]. destruct S as (E & _). split_and!; [done|by rewrite Hid|].
  exists st. rewrite E, Hid. done.
Qed.

Context (HX : X = None).

Lemma known_stable st : stable (known st).
Proof. intros w w' Hg M (Hwf & Hi & Hs). split_and!; [done..|]. eapply seen_stable; [done|by rewrite HX|done..]. Qed.

(** A record that reconciling corrected may be torn down. *)
Lemma corrected_guar st P : (forall w, P w -> known st w) ->
  guar P (supervisor.reconcile root self st) (fun p w =>
    (p.1 = false /\ P w) \/
    (p.1 = true /\ (container_state.wf p.2 /\ path.name_ok (ContainerState.id p.2)) /\ tearable p.2 w)).
Proof.
  intros HP h Hg Hp. destruct (HP _ Hp) as (Hwf & Hi & _).
  destruct (reconcile_guar st P Hi Hwf ltac:(intros w Hw; by apply HP) h Hg Hp) as [F Q]. split; [done|].
  destruct (fst _) as [[b st']|e]; [|done].
  destruct Q as [[[= -> ->] Hw]|(-> & _ & Hs & (Hwf' & Hid & _ & Hseen))]; cbn in *; [by left|right].
  split; [done|]. split; [by rewrite Hid|]. right. split; [done|]. by rewrite Hs.
Qed.

Lemma gc_states_guar l : forall report live,
  guar (fun w => forall st, st ∈ l -> known st w) (supervisor.gc_states f root self l report live) (fun _ _ => True).
Proof.
  induction l as [|st l IH]; intros report live; cbn [supervisor.gc_states]; [apply guar_end|].
  set (all := fun w => forall s, s ∈ st :: l -> known s w).
  assert (stable (fun w => forall s, s ∈ l -> known s w)) as HS.
  { intros w w' Hg M Hk s Hs. eapply known_stable; eauto. }
  assert (guar all (supervisor.reconcile root self st) (fun p w => (forall s, s ∈ l -> known s w) /\
    (p.1 = true -> (container_state.wf p.2 /\ path.name_ok (ContainerState.id p.2)) /\ tearable p.2 w))) as HR.
  { intros h Hg Hp. destruct (corrected_guar st all ltac:(intros w Hw; apply Hw; by left) h Hg Hp) as [F Q]. split; [done|].
    destruct (fst _) as [[b st']|e]; [|done]. split; [|destruct Q as [[-> _]|(_ & Q)]; done].
    eapply HS; [exact Hg|exact F|]. intros s Hs. apply Hp. by right. }
  eapply guar_bind; [exact HR|]. intros [b st']. cbn [fst snd].
  eapply (guar_bind _ (fun _ w => forall s, s ∈ l -> known s w)); [|by intros [rep st2]].
  destruct b; [|apply guar_ret; by intros w [? _]].
  eapply (guar_bind _ (fun _ w => forall s, s ∈ l -> known s w)); [|intros st2; by apply guar_ret].
  intros h Hg [Hk Ht]. destruct (Ht eq_refl) as [[Hwf' Hi'] Htear].
  destruct (teardown_guar st' Hi' Hwf' h Hg Htear) as [F _]. split; [done|].
  assert (forall s, s ∈ l -> known s (world (snd (teardown f root self st' h)))) by (by eapply HS).
  unfold teardown in *. by destruct (fst _).
Qed.

Lemma gc_guar : guar (fun _ => True) (supervisor.gc f root self) (fun _ _ => True).
Proof.
  unfold supervisor.gc. eapply guar_bind; [apply list_guar|]. intros l.
  eapply guar_bind; [apply gc_states_guar|]. intros [rep live].
  eapply guar_bind; [apply guar_steady, (gc_empty_steady follows)|]. intros n.
  apply guar_steady. pres_tac.
  - apply idle_follows. intros w. by apply lease_gc_idle.
  - apply (orphaned_steady follows).
  - apply (gc_veths_steady follows).
  - apply (gc_shared_steady follows).
Qed.
End facts.

(** ** Removing, and any sequence of verbs *)

Section verbs.
Context {H : Type} `{HasWorld H} `{!HasWorldLaws H} `{Iptables H} `{Links H} `{KernFs H} `{Processes H} `{Spawner H} `{Shims H}.
Context (f : option string) (root : string) (Hroot : path.dir_ok root) `{!Rely root}.

Lemma lguar_other {A} X P Q (m : LP H A) : lguar root None P m Q -> lguar root X P m Q.
Proof. intros Hm h Hg Hp. destruct (Hm h Hg Hp) as [F Hq]. split; [by apply moved_weaken|done]. Qed.

Lemma guar_other {A} X P Q (m : HM H A) : guar root None P m Q -> guar root X P m Q.
Proof. intros Hm h Hg Hp. destruct (Hm h Hg Hp) as [F Hq]. split; [by apply moved_weaken|done]. Qed.

Lemma delete_guar self fuel i force : path.name_ok i ->
  lguar root (Some i) (fun _ => True) (delete f root self fuel i force) (fun _ _ => True).
Proof.
  intros Hi. set (mine := fun (st : ContainerState.t) (_ : World) => container_state.wf st /\ ContainerState.id st = i).
  assert (forall st w, fresh root i st w -> mine st w) as FM by (intros st w (? & ? & _); done).
  unfold delete. eapply (lguar_bind _ _ _ mine).
  - unfold stopped_for_delete. eapply (lguar_bind _ _ _ (fun st => fresh root i st)).
    { apply lguar_now. eapply guar_bind; [by apply lock_guar|]. intros ?. by apply load_reconciled_guar. }
    intros st. destruct (Status.is_live _); [|apply lguar_ret, FM]. destruct (negb force); [by apply lguar_now, guar_fail|].
    eapply lguar_bind.
    { apply lguar_other. apply (lguar_weaken root None (fun _ => True) _ (fun _ _ => True) (fun _ _ => True)); [|done|done].
      by apply stop_guar. }
    intros ?. apply lguar_now. apply (guar_weaken root (Some i) (fun _ => True) _ _ _ _ (load_guar root (Some i) i _ Hi)); [done|].
    intros st' w [F _]. by apply (FM st' w).
  - intros st. eapply (lguar_bind _ _ _ (fun _ => mine st)).
    { apply lguar_now, guar_stable; [by intros w w' _ _|by apply lock_follows]. }
    intros ?. eapply (lguar_bind _ _ _ (fun _ _ => True)).
    { apply lguar_now. apply (guar_weaken root (Some i) (fun w => (container_state.wf st /\ ContainerState.id st = i) /\ True) _
        (fun _ _ => True)); [|done|done].
      apply (guar_pure _ _ _ (fun _ => True)). intros [Hwf Hid].
      refine (guar_weaken root (Some i) _ _ _ _ _ (teardown_guar f root self Hroot (Some i) st _ Hwf) _ _);
        [by rewrite Hid|intros w _; left; by rewrite Hid|done]. }
    intros ?. apply lguar_now. eapply guar_steady. intros h. unfold on_files, follows.
    pose proof (remove_moved root Hroot i (world h) Hi) as M. destruct (Store.remove root i (world h)) as [r w]. cbn in *.
    by rewrite world_set.
Qed.

Inductive verb :=
| VStart (id : string) | VKill (id : string) (signal : Z) (all : bool) | VStop (id : string) (timeout : Z)
| VPause (id : string) | VUnpause (id : string) | VWait (id : string) (timeout : option Z)
| VDelete (id : string) (force : bool) | VGc.

Definition target (v : verb) : option string :=
  match v with
  | VStart i | VKill i _ _ | VStop i _ | VPause i | VUnpause i | VWait i _ | VDelete i _ => Some i
  | VGc => None
  end.

Definition deletes (v : verb) (i : string) : Prop := match v with VDelete j _ => j = i | _ => False end.

(** The host after the process [self] did [v], or gave up waiting. *)
Definition perform (fuel : nat) (self : Z) (v : verb) (h : H) : H :=
  match v with
  | VStart i => snd (start root self fuel i h)
  | VKill i s a => snd (kill root self i s a h)
  | VStop i t => snd (stop f root self fuel i t h)
  | VPause i => snd (pause root self i h)
  | VUnpause i => snd (unpause root self i h)
  | VWait i t => snd (wait root self fuel i t h)
  | VDelete i b => snd (delete f root self fuel i b h)
  | VGc => snd (supervisor.gc f root self h)
  end.

(** Verbs of several processes one after the other. *)
Fixpoint perform_all (l : list (nat * Z * verb)) (h : H) : H :=
  match l with
  | [] => h
  | (fuel, self, v) :: l' => perform_all l' (perform fuel self v h)
  end.

Definition valid_verb (v : verb) : Prop :=
  match target v with Some i => util.validate_id i = Ok tt | None => True end.

Lemma perform_moved fuel self v h : valid_verb v ->
  moved root (match v with VDelete i _ => Some i | _ => None end) (world h) (world (perform fuel self v h)).
Proof.
  intros Hv Hg. revert Hg. unfold valid_verb in Hv.
  destruct v; cbn [target] in Hv; try (apply valid_id_name_ok in Hv); cbn [perform]; intros Hg.
  - by apply (start_guar root self Hroot None fuel id Hv h Hg I).
  - by apply (kill_guar root self Hroot None id signal all Hv h Hg I).
  - by apply (stop_guar f root self Hroot None fuel id timeout Hv ltac:(done) h Hg I).
  - by apply (pause_guar root self Hroot None id Hv h Hg I).
  - by apply (unpause_guar root self Hroot None id Hv h Hg I).
  - by apply (wait_guar root self Hroot None fuel id timeout Hv h Hg I).
  - by apply (delete_guar self fuel id force Hv h Hg I).
  - by apply (gc_guar f root self Hroot None eq_refl h Hg I).
Qed.

(** The verbs keep to the state machine.  Whatever verbs processes perform
    on containers, one after the other, whatever calls fail and whatever other
    processes that keep to it do meanwhile: the stored record of a container
    that is not deleted is never lost, it stays the record of the same
    container with the same configuration, its status only moves along the
    allowed transitions, and the identity of its init process never changes
    once it was launched. *)
Theorem verbs_follow_machine (l : list (nat * Z * verb)) (h : H) (i : string) (st : ContainerState.t) :
  good root (world h) -> util.validate_id i = Ok tt ->
  (forall fuel self v, (fuel, self, v) ∈ l -> valid_verb v /\ ~ deletes v i) ->
  loaded root (fs (world h)) i = Some st ->
  good root (world (perform_all l h)) /\
  exists st', loaded root (fs (world (perform_all l h))) i = Some st' /\ evolves st st'.
Proof.
  intros Hg Hi%valid_id_name_ok. revert h st Hg. induction l as [|[[fuel self] v] l IH]; intros h st Hg Hl Hst; cbn [perform_all].
  { split; [done|]. by exists st. }
  destruct (Hl fuel self v ltac:(by left)) as [Hv Hd]. destruct (perform_moved fuel self v h Hv Hg) as [Hg' E].
  destruct (E i st Hi) as (st1 & H1' & E1); [by destruct v; cbn in Hd; congruence|done|].
  destruct (IH _ st1 Hg') as (Hg2 & st2 & H2' & E2); [intros fuel' self' v' Hin; apply (Hl fuel' self'); by right|done|].
  split; [done|]. exists st2. split; [done|]. by etrans.
Qed.
End verbs.
