(* ===== verification/Waiting.v ===== *)
(** * Theorems about waiting: the verbs end, and a stopped container is dead *)
From S2P Require Import Prelude RustStr Num Utf8 Error Json Util UtilFacts Process Net Caps Seccomp Config ConfigFacts State StateFacts Fs FsFacts FsTree Host KernFs NatRules NatFacts Ipam IpamFacts Store StoreFacts Cgroup Network Ipc Spawn Supervisor Loop Shim Lifecycle Steady Evolve LifecycleFacts.
Import lifecycle.

(** ** The verbs end *)

Section clock.
Context {H : Type} `{HasWorld H} `{Iptables H} `{Links H} `{KernFs H} `{Processes H} `{Spawner H} `{Shims H}.
Context (f : option string) (root : string) (self : Z).

(** The clock of [Instant] does not go back, and [thread::sleep] sleeps at
    least the time it is given. *)
Class Clock := {
  clock_files : forall w h, instant_ms h <= instant_ms (set_world w h);
  clock_sleep : forall ms h, 0 <= ms -> instant_ms h + ms <= instant_ms (sleep_ms ms h)
}.
Context `{!Clock}.

Definition later (h h' : H) : Prop := instant_ms h <= instant_ms h'.
#[local] Instance later_pre : PreOrder later.
Proof. split; [intros h; red; lia|]. intros h1 h2 h3. unfold later. lia. Qed.

Lemma files_later {A} (m : M A) : pres later (on_files m).
Proof. intros h. unfold on_files. destruct (m (world h)) as [r w]. apply clock_files. Qed.

Lemma reconcile_later st : pres later (supervisor.reconcile root self st).
Proof.
  intros h. unfold supervisor.reconcile. destruct (Store.reconcile _ _ _ _ _ _) as [[r st'] w]. apply clock_files.
Qed.

Lemma load_reconciled_later i : pres later (load_reconciled root self i).
Proof. unfold load_reconciled, supervisor.load_reconciled. pres_tac; [apply files_later|apply reconcile_later]. Qed.

(** Rounds of [n] milliseconds each last until the deadline. *)
Definition lasts (fuel : nat) (n deadline : Z) (h : H) : Prop :=
  (0 < fuel)%nat /\ deadline - instant_ms h <= n * (Z.of_nat fuel - 1).

Lemma await_exit_ends fuel d i : forall h, lasts fuel 50 d h -> exists r, fst (await_exit root fuel d i h) = Answer r.
Proof.
  induction fuel as [|k IH]; intros h [Hf Hl]; [lia|]. cbn [await_exit]. rewrite now_bind_eq. cbn [before].
  destruct (instant_ms h <? d) eqn:Ed; cbn [negb]; [|eauto]. apply Z.ltb_lt in Ed.
  rewrite now_bind_eq. pose proof (files_later (Store.load root i) h) as L. unfold load.
  destruct (on_files _ h) as [[st|e] h1]; cbn [snd] in L; [|eauto]. rewrite now_bind_eq. unfold supervisor.is_alive.
  destruct (supervisor.alive_now st h1); cbn [negb]; [|eauto]. rewrite now_bind_eq. unfold sleep.
  pose proof (clock_sleep 50 h1 ltac:(lia)) as C. apply IH. unfold later in L. split; lia.
Qed.

Lemma wait_go_ends fuel d i : forall h, lasts fuel 100 d h -> exists r, fst (wait_go root self fuel (Some d) i h) = Answer r.
Proof.
  induction fuel as [|k IH]; intros h [Hf Hl]; [lia|]. cbn [wait_go]. rewrite now_bind_eq.
  pose proof (load_reconciled_later i h) as L. destruct (load_reconciled root self i h) as [[st|e] h1]; cbn [snd] in L; [|eauto].
  destruct (negb _); [eauto|]. rewrite now_bind_eq. unfold check_deadline, past.
  destruct (d <=? instant_ms h1) eqn:Ed; [eauto|]. apply Z.leb_gt in Ed. rewrite now_bind_eq. unfold sleep.
  pose proof (clock_sleep 100 h1 ltac:(lia)) as C. apply IH. unfold later in L. split; lia.
Qed.

(** An answer, or a deadline that does not fit an [Instant]. *)
Definition answers {A} (o : outcome A) (now secs : Z) : Prop :=
  match o with Answer _ => True | Panicked => 2 ^ 63 <= now / 1000 + secs | Pending => False end.

Lemma answers_now {A} (m : HM H A) h a b : answers (fst (now m h)) a b.
Proof. unfold now. by destruct (m h). Qed.

Lemma answers_bind {A B} (m : HM H A) (k : A -> LP H B) h a b :
  (forall x h1, m h = (Ok x, h1) -> answers (fst (k x h1)) a b) -> answers (fst ((now m ≫= k) h)) a b.
Proof. intros Hk. rewrite now_bind_eq. destruct (m h) as [[x|e] h1]; [by apply Hk|done]. Qed.

Lemma deadline_cases secs h :
  (exists d, deadline_in secs h = (Answer (Ok d), h) /\ d = instant_ms h + 1000 * secs) \/
  (deadline_in secs h = (Panicked, h) /\ 2 ^ 63 <= instant_ms h / 1000 + secs).
Proof.
  unfold deadline_in, instant_add. destruct (_ <? _) eqn:E; [left; eauto|right]. apply Z.ltb_ge in E. done.
Qed.

Lemma stop_answers fuel i t h : 0 <= t -> 20 * t + 1 <= Z.of_nat fuel ->
  answers (fst (stop f root self fuel i t h)) (instant_ms (snd (stop_request root self i h))) t.
Proof.
  intros Ht Hf. unfold stop. apply answers_bind. intros [e|] h1 E; [done|]. rewrite E. cbn [snd].
  rewrite lp_bind_eq. destruct (deadline_cases t h1) as [(d & -> & ->)|[-> Hp]]; [|done].
  destruct (await_exit_ends fuel (instant_ms h1 + 1000 * t) i h1) as [r Hr]; [split; lia|].
  rewrite lp_bind_eq. destruct (await_exit _ _ _ _ h1) as [o h2]. cbn in Hr. subst o.
  destruct r as [[]|e]; [apply answers_now| |done].
  apply answers_bind. intros ? h3 _. apply answers_bind. intros ? h4 _. apply answers_now.
Qed.

Lemma delete_answers fuel i force h : (101 <= fuel)%nat -> fst (delete f root self fuel i force h) <> Pending.
Proof.
  intros Hf. unfold delete. rewrite lp_bind_eq. unfold stopped_for_delete. rewrite now_bind_eq.
  destruct ((_ ← lock root i; load_reconciled root self i) h) as [[st|e] h1]; [|done].
  assert (forall (st : ContainerState.t) h2,
    fst ((_ ← now (lock root i); _ ← now (teardown f root self st); now (on_files (Store.remove root i))) h2) <> Pending) as Hend.
  { intros s h2 E. assert (answers (fst ((_ ← now (lock root i); _ ← now (teardown f root self s);
      now (on_files (Store.remove root i))) h2)) 0 0) as A; [|by rewrite E in A].
    apply answers_bind. intros ? h3 _. apply answers_bind. intros ? h4 _. apply answers_now. }
  destruct (Status.is_live _); [|apply Hend]. destruct (negb force); [done|]. rewrite lp_bind_eq.
  pose proof (stop_answers fuel i 5 h1 ltac:(lia) ltac:(lia)) as A.
  destruct (stop f root self fuel i 5 h1) as [[[e|e]| |] h2]; cbn in A; try done. unfold now at 1.
  destruct (load root i h2) as [[s|e'] h3]; [apply Hend|done].
Qed.


(** *** What [wait] reports *)

(** The host when [wait] looks for the [k]-th time. *)
Fixpoint look (k : nat) (i : string) (h : H) : H :=
  match k with
  | O => h
  | S k' => look k' i (sleep_ms 100 (snd (load_reconciled root self i h)))
  end.

(** C16: [wait] without a timeout reports the exit as soon as it sees it: when
    the container is live the first [k] times it looks and stopped the next
    time, any further fuel gives the exit status recorded then, and without
    that fuel it is still waiting. *)
Theorem wait_reports_exit k i h st h' fuel :
  (forall j, (j < k)%nat -> exists s h1, load_reconciled root self i (look j i h) = (Ok s, h1) /\
     Status.is_live (ContainerState.status s) = true) ->
  load_reconciled root self i (look k i h) = (Ok st, h') -> Status.is_live (ContainerState.status st) = false ->
  wait root self fuel i None h =
    if (k <? fuel)%nat then (Answer (Ok (recorded st)), h') else (Pending, look fuel i h).
Proof.
  intros Hlive Hst Hs. unfold wait. rewrite lp_bind_eq. cbn [mret LP_ret].
  revert k h Hlive Hst. induction fuel as [|n IH]; intros k h Hlive Hst; [by rewrite (proj2 (Nat.ltb_ge _ _)) by lia|].
  cbn [wait_go]. rewrite now_bind_eq. destruct k as [|k].
  - cbn [look] in Hst. by rewrite Hst, Hs.
  - destruct (Hlive O ltac:(lia)) as (s & h1 & E & Hl). cbn [look] in E. cbn [look] in Hst. rewrite E in Hst |- *.
    rewrite Hl. cbn [negb snd] in *. rewrite now_bind_eq. cbn [check_deadline past]. rewrite now_bind_eq. unfold sleep.
    rewrite (IH k (sleep_ms 100 h1)).
    + cbn [look]. rewrite E. cbn [snd]. done.
    + intros j Hj. destruct (Hlive (S j) ltac:(lia)) as (s' & h2 & E' & Hl'). cbn [look] in E'. rewrite E in E'.
      cbn [snd] in E'. eauto.
    + done.
Qed.
End clock.

(** ** A stopped container is dead *)

Section death.
Context {H : Type} `{HasWorld H} `{!HasWorldLaws H} `{Iptables H} `{Links H} `{KernFs H} `{Processes H} `{Spawner H} `{Shims H}.
Context (f : option string) (root : string) (self : Z) (Hroot : path.dir_ok root) `{!Rely root}.

(** A process that is dead stays dead: its number may be used again, but not
    with the same start time. *)
Definition gone (h h' : H) : Prop :=
  forall pid start, spawn.alive pid (Some start) h = false -> spawn.alive pid (Some start) h' = false.

#[export] Instance gone_pre : PreOrder gone.
Proof. split; [by intros h pid s|]. intros h1 h2 h3 A B pid s D. by apply B, A. Qed.

Class Mortal := {
  gone_kern :: KernSteady gone;
  gone_kill :: KillSteady gone;
  gone_wait :: WaitSteady gone;
  gone_net :: NetSteady gone;
  gone_sleep :: SleepSteady gone;
  gone_files : forall w h, gone h (set_world w h)
}.
Context `{!Mortal}.

Lemma files_gone {A} (m : M A) : pres gone (on_files m).
Proof. intros h. unfold on_files. destruct (m (world h)) as [r w]. apply gone_files. Qed.

Lemma teardown_gone st : pres gone (teardown f root self st).
Proof.
  unfold teardown, supervisor.teardown, supervisor.check, supervisor.clock. pres_tac.
  - apply (kill_if_alive_steady gone).
  - apply (release_cgroup_steady gone).
  - apply (net_teardown_steady gone), files_gone.
  - intros h. cbn. reflexivity.
  - apply files_gone.
Qed.

Lemma await_shim_gone n i : pres gone (await_shim root n i).
Proof. induction n as [|n IH]; cbn [await_shim]; pres_tac; [apply files_gone|apply (sleep_steady gone)]. Qed.

(** The record of a launched container names its init process. *)
Lemma alive_same st st' h : same_init st st' -> supervisor.alive_now st' h = supervisor.alive_now st h.
Proof. intros [E1 E2]. unfold supervisor.alive_now, ContainerState.init_is_alive. by rewrite E1, E2. Qed.

Lemma dead_stays st h h' : ContainerState.init_start_time st <> 0 -> gone h h' ->
  supervisor.alive_now st h = false -> supervisor.alive_now st h' = false.
Proof.
  intros Hn G. unfold supervisor.alive_now, ContainerState.init_is_alive. destruct (_ <=? 0); [done|].
  rewrite (proj2 (Z.eqb_neq _ _) Hn). apply (G (ContainerState.init_pid st) (ContainerState.init_start_time st)).
Qed.

Lemma lp_bind_inv {A B} (m : LP H A) (k : A -> LP H B) h b h' :
  (m ≫= k) h = (Answer (Ok b), h') -> exists a h1, m h = (Answer (Ok a), h1) /\ k a h1 = (Answer (Ok b), h').
Proof. rewrite lp_bind_eq. destruct (m h) as [[[a|e]| |] h1]; [eauto|done..]. Qed.

Lemma now_inv {A} (m : HM H A) h a h' : now m h = (Answer (Ok a), h') -> m h = (Ok a, h').
Proof. unfold now. destruct (m h) as [r h1]. by intros [= -> ->]. Qed.

(** [finalize_stopped] succeeds only on a dead process. *)
Lemma finalize_dead i h e h' : path.name_ok i -> good root (world h) -> finalize_stopped f root self i h = (Ok e, h') ->
  exists st h2, loaded root (fs (world h2)) i = Some st /\ moved root None (world h) (world h2) /\
    supervisor.alive_now st h2 = false /\ gone h2 h'.
Proof.
  intros Hi Hg E. unfold finalize_stopped in E. apply hm_bind_inv in E as (u & h1 & E1 & E).
  pose proof (lock_follows root Hroot None i Hi h) as F1. rewrite E1 in F1. cbn [snd] in F1.
  apply hm_bind_inv in E as (st & h2 & E2 & E). pose proof (follows_good _ _ _ _ F1 Hg) as Hg1.
  destruct (load_guar root None i (fun _ => True) Hi h1 Hg1 I) as [F2 L]. rewrite E2 in F2, L. cbn [fst snd] in F2, L.
  exists st, h2. split; [apply L|]. split; [etrans; [exact F1|exact F2]|].
  apply hm_bind_inv in E as (alive & h3 & [= <- <-] & E). destruct (supervisor.alive_now st h2); [done|]. split; [done|].
  apply hm_bind_inv in E as (sh & h4 & [= <- <-] & E). revert E.
  match goal with |- (if ?b then _ else _) _ = _ -> _ => destruct b end; apply pres_eq.
  - pres_tac; [apply await_shim_gone|apply files_gone|apply teardown_gone].
  - pres_tac. apply teardown_gone.
Qed.

Lemma stop_body_follows fuel d i : path.name_ok i ->
  lpres (follows root None) (gone' ← await_exit root fuel d i;
     if gone' : bool then mret tt else _ ← now (kill_hard root i); now (await_death root 100 i)).
Proof.
  intros Hi. apply lpres_bind; [exact _|apply (await_exit_follows root)|]. intros [].
  - apply lpres_ret, _.
  - apply lpres_bind; [exact _|by apply lpres_now, (kill_hard_follows root)|]. intros ?.
    apply lpres_now, (await_death_follows root).
Qed.

(** A live record that is reconciled to another one was that of a dead
    process. *)
Lemma reconciled_dead i h st s h' : ContainerState.init_start_time st <> 0 ->
  loaded root (fs (world h)) i = Some st -> Status.is_live (ContainerState.status st) = true ->
  load_reconciled root self i h = (Ok s, h') -> Status.is_live (ContainerState.status s) = false ->
  supervisor.alive_now st h' = false.
Proof.
  intros Hn Hl Hlive E Hs. unfold load_reconciled, supervisor.load_reconciled in E.
  apply hm_bind_inv in E as (st0 & h1 & E1 & E). unfold on_files in E1. pose proof (load_spec root i (world h)) as L.
  destruct (Store.load root i (world h)) as [r w]. injection E1 as -> <-. destruct L as (_ & L & _).
  specialize (L st0 eq_refl). rewrite Hl in L. injection L as <-.
  apply hm_bind_inv in E as ([b s'] & h2 & E2 & [= <- <-]). unfold supervisor.reconcile, Store.reconcile in E2.
  rewrite Hlive in E2. cbn [negb] in E2. fold (supervisor.alive_now st (set_world w h)) in E2.
  destruct (supervisor.alive_now st (set_world w h)) eqn:Ea.
  - injection E2 as <- <- <-. congruence.
  - destruct (Store.save _ _ _ _) as [[u|e] w2]; [|done]. injection E2 as _ _ <-.
    by eapply dead_stays; [|apply gone_files|].
Qed.

Lemma request_dead i h st e h' : path.name_ok i -> ContainerState.init_start_time st <> 0 ->
  loaded root (fs (world h)) i = Some st -> Status.is_live (ContainerState.status st) = true ->
  stop_request root self i h = (Ok (Some e), h') -> supervisor.alive_now st h' = false.
Proof.
  intros Hi Hn Hl Hlive E. unfold stop_request in E. apply hm_bind_inv in E as (u & h1 & E1 & E).
  assert (loaded root (fs (world h1)) i = Some st) as Hl1.
  { unfold lock, on_files in E1. destruct (lock_idle root Hroot i (world h) Hi) as [_ K].
    destruct (Store.lock root i (world h)) as [r w]. injection E1 as _ <-. rewrite world_set, <- Hl. by apply loaded_same, K. }
  apply hm_bind_inv in E as (s & h2 & E2 & E). destruct (Status.is_live (ContainerState.status s)) eqn:Es; cbn [negb] in E.
  - apply hm_bind_inv in E as (s1 & h3 & _ & E). apply hm_bind_inv in E as (s2 & h4 & _ & E).
    apply hm_bind_inv in E as (u1 & h5 & _ & E). by apply hm_bind_inv in E as (u2 & h6 & _ & [=]).
  - injection E as _ <-. by eapply reconciled_dead.
Qed.

(** C14: A container that [stop] reports as stopped is dead.  When [stop] of a
    live container succeeds, whichever way it took (the process ended in the
    grace period, it had to be killed, its record was out of date), and
    whatever the other processes did meanwhile, the init process the container
    had is not alive any more. *)
Theorem stop_means_dead fuel i t h st e h' :
  good root (world h) -> util.validate_id i = Ok tt -> loaded root (fs (world h)) i = Some st ->
  Status.is_live (ContainerState.status st) = true -> ContainerState.init_start_time st <> 0 ->
  stop f root self fuel i t h = (Answer (Ok e), h') -> supervisor.alive_now st h' = false.
Proof.
  intros Hg Hi%valid_id_name_ok Hl Hlive Hn E. unfold stop in E. apply lp_bind_inv in E as (r & h1 & E1%now_inv & E).
  destruct r as [e0|]. { injection E as -> <-. by eapply request_dead. }
  assert (follows root None h h1) as F1.
  { destruct (stop_request_guar root self Hroot None i Hi h Hg I) as [F _]. by rewrite E1 in F. }
  assert (exists h2, follows root None h1 h2 /\ finalize_stopped f root self i h2 = (Ok e, h')) as (h2 & F2 & Ef).
  { apply lp_bind_inv in E as (d & h2 & Ed & E). destruct (deadline_cases t h1) as [(d' & Ed' & _)|[Ed' _]]; rewrite Ed' in Ed; [|done].
    injection Ed as _ <-. pose proof (stop_body_follows fuel d i Hi h1) as F. rewrite lp_bind_eq in F.
    apply lp_bind_inv in E as (g & h3 & Eg & E). rewrite Eg in F. destruct g.
    - apply now_inv in E. by exists h3.
    - apply lp_bind_inv in E as (u & h4 & Ek & E). apply lp_bind_inv in E as (v & h5 & Ea & E%now_inv).
      rewrite lp_bind_eq, Ek, Ea in F. by exists h5. }
  assert (follows root None h h2) as F by (by etrans). pose proof (follows_good _ _ _ _ F Hg) as Hg2.
  destruct (finalize_dead i h2 e h' Hi Hg2 Ef) as (s & h3 & Hs & F3 & Hd & G).
  destruct ((transitivity F F3 : moved root None _ _) Hg) as [_ Ev]. destruct (Ev i st Hi ltac:(done) Hl) as (s' & Hs' & Ev').
  rewrite Hs in Hs'. injection Hs' as <-.
  eapply dead_stays; [done|exact G|]. rewrite <- Hd. symmetry. apply alive_same, (evolves_init _ _ Ev').
  by destruct (ContainerState.status st).
Qed.
End death.
