(* ===== verification/ShimFacts.v ===== *)
(** * Theorems about the pipe between the shim and its caller *)
From S2P Require Import Prelude RustStr Num Utf8 F64 F64Facts Error Json JsonUtf8 Util UtilFacts Process Net Caps Seccomp Config ConfigFacts State Fs Host KernFs NatRules Ipam Store Cgroup Network NetworkFacts Ipc IpcFacts Spawn Supervisor Loop Shim.
Import shim.

(** ** What the shim writes *)

Section write.
Context {H : Type} `{Shims H}.
(** The bytes the shim has written. *)
Context (piped : H -> string).

(** [write(2)] on the pipe takes at least a byte, and what it takes is the
    beginning of the buffer. *)
Class PipeWrites := {
  pw_takes : forall s h, s <> "" ->
    let '(n, h') := pipe_write s h in
    0 < n <= Z.of_nat (String.length s) /\ piped h' = piped h +:+ ipc.take_str (Z.to_nat n) s;
  pw_close : forall h, piped (pipe_close h) = piped h
}.
Context `{!PipeWrites}.

Lemma write_go_all fuel : forall buf h, (String.length buf <= fuel)%nat -> piped (write_go fuel buf h) = piped h +:+ buf.
Proof.
  induction fuel as [|k IH]; intros buf h Hl; cbn [write_go].
  { destruct buf; cbn in Hl; [|lia]. by rewrite app_nil_r. }
  destruct buf as [|a0 s0]; cbn [str_is_empty]; [by rewrite app_nil_r|]. set (buf := String a0 s0) in *.
  pose proof (pw_takes buf h ltac:(done)) as W. destruct (pipe_write buf h) as [n h']. destruct W as [Hn W].
  rewrite (proj2 (Z.leb_gt _ _)) by lia. rewrite IH, W.
  - by rewrite <- app_assoc, take_drop_str.
  - pose proof (f_equal String.length (take_drop_str (Z.to_nat n) buf)) as L. rewrite str_length_app, length_take_str in L. lia.
Qed.

(** [notify] writes its whole message, in however many pieces. *)
Lemma notify_writes fd status msg h : 0 <= fd -> piped (notify fd status msg h) = piped h +:+ String status msg.
Proof. intros Hf. unfold notify. rewrite (proj2 (Z.ltb_ge _ _) Hf), pw_close. by apply write_go_all. Qed.
End write.

(** ** What the caller reads *)

Lemma str_nil_app s : "" +:+ s = s.
Proof. done. Qed.

Lemma show_dec_word n : word_ok (show_dec n).
Proof.
  destruct (Z_lt_ge_dec n 0) as [Hn|Hn].
  - rewrite show_dec_neg by done. split; [done|]. apply (net.show_u_graph (- n)). lia.
  - rewrite show_dec_nonneg by lia. split; [|apply net.show_u_graph; lia].
    destruct (show_u_cons 10 n) as (c & s & ->). done.
Qed.

(** The message of a shim whose container runs. *)
Lemma running_words id child : util.validate_id id = Ok tt ->
  split_whitespace (ipc.from_utf8_lossy (id +:+ " " +:+ show_dec child)) = [id; show_dec child].
Proof.
  intros Hi. assert (valid_utf8 (id +:+ " " +:+ show_dec child) = true) as Hv.
  { apply valid_utf8_app; [by apply valid_id_utf8|]. apply low_utf8. cbn [str_all String.append]. apply show_dec_low. }
  unfold ipc.from_utf8_lossy. rewrite lossy_go_valid by done.
  apply (split_whitespace_join [id; show_dec child]). repeat constructor; [..|apply show_dec_word|apply show_dec_word].
  all: apply validate_id_spec in Hi as (Hl & Ha & _).
  - intros ->. by destruct Hl as [Hl _].
  - revert Ha. apply str_all_impl. intros c. destruct c as [[] [] [] [] [] [] [] []]; vm_compute; congruence.
Qed.

Section read.
Context {H : Type} `{HasWorld H} `{Spawner H} `{Shims H} (piped : H -> string) `{!PipeWrites piped}.

(** The pipe gives these pieces, interrupted where there is none, and ends; of
    a piece that is longer than the buffer it gives the beginning. *)
Fixpoint delivers (l : list (option string)) (h h' : H) : Prop :=
  match l with
  | [] => forall n, (0 < n)%nat -> pipe_read n h = (inr "", h')
  | None :: l' => exists h1, (forall n, pipe_read n h = (inl EINTR, h1)) /\ delivers l' h1 h'
  | Some c :: l' => c <> "" /\
      (forall n, (0 < n < String.length c)%nat -> fst (pipe_read n h) = inr (ipc.take_str n c)) /\
      exists h1, (forall n, (String.length c <= n)%nat -> pipe_read n h = (inr c, h1)) /\ delivers l' h1 h'
  end.

Definition text (l : list (option string)) : string := foldr (fun o s => match o with Some c => c +:+ s | None => s end) "" l.

Lemma text_cons o l : text (o :: l) = match o with Some c => c +:+ text l | None => text l end.
Proof. done. Qed.

Lemma take_str_more n a b : (String.length a <= n)%nat ->
  ipc.take_str n (a +:+ b) = a +:+ ipc.take_str (n - String.length a) b.
Proof.
  revert n. induction a as [|x a IH]; intros n Hn; [cbn; by rewrite Nat.sub_0_r|].
  destruct n as [|n]; cbn [String.length] in Hn; [lia|]. rewrite !app_cons. cbn [ipc.take_str String.length Nat.sub].
  f_equal. apply IH. lia.
Qed.

(** The buffer is filled with the beginning of what the pipe gives. *)
Lemma read_go_delivers cap l : forall got fuel h h', delivers l h h' ->
  (String.length got < cap)%nat -> (length l < fuel)%nat ->
  exists h2, read_go fuel cap got h = (Answer (Ok (got +:+ ipc.take_str (cap - String.length got) (text l))), h2).
Proof.
  induction l as [|[c|] l IH]; intros got fuel h h' D Hg Hf; (destruct fuel as [|k]; [cbn in Hf; lia|]);
    rewrite ?text_cons in *; cbn [delivers length read_go] in *.
  - rewrite D by lia. cbn [text foldr]. destruct (cap - String.length got)%nat; cbn; rewrite app_nil_r; eauto.
  - destruct D as (Hne & Hcut & h1 & R & D). destruct (decide (String.length c <= cap - String.length got)%nat) as [Hc|Hc].
    + rewrite R by done. destruct c as [|a0 c0]; [done|]. set (c := String a0 c0) in *. cbv zeta.
      rewrite take_str_more by done. destruct (Nat.eqb (String.length (got +:+ c)) cap) eqn:En.
      * apply Nat.eqb_eq in En. rewrite str_length_app in En.
        replace (cap - String.length got - String.length c)%nat with 0%nat by lia. cbn [ipc.take_str]. rewrite app_nil_r. eauto.
      * apply Nat.eqb_neq in En. rewrite str_length_app in En.
        destruct (IH (got +:+ c) k h1 h' D) as [h2 E]; [rewrite str_length_app; lia|lia|].
        exists h2. rewrite E, str_length_app, Nat.sub_add_distr. by rewrite app_assoc.
    + specialize (Hcut (cap - String.length got)%nat ltac:(lia)).
      destruct (pipe_read (cap - String.length got) h) as [r h2]. cbn [fst] in Hcut. subst r.
      rewrite take_str_le by lia. set (t := ipc.take_str _ c).
      assert (String.length t = (cap - String.length got)%nat) as Lt by (subst t; rewrite length_take_str; lia).
      destruct t as [|a0 t0]; [cbn in Lt; lia|]. cbv zeta. rewrite (proj2 (Nat.eqb_eq _ _)); [eauto|].
      rewrite str_length_app, Lt. lia.
  - destruct D as (h1 & R & D). rewrite R. rewrite Z.eqb_refl. apply (IH got k h1 h' D); [done|lia].
Qed.

Lemma show_dec_short n : in_s 32 n -> (String.length (show_dec n) <= 40)%nat.
Proof.
  intros [Hlo Hhi]. assert (forall m, 0 <= m <= 2 ^ 32 -> (String.length (show_u 10 m) <= 33)%nat) as Hu.
  { intros m Hm. unfold show_u. pose proof (digits_go_short (S (Z.to_nat (Z.log2 m))) 10 m) as Hl.
    pose proof (Z.log2_le_mono m (2 ^ 32) ltac:(lia)) as Hm'. change (Z.log2 (2 ^ 32)) with 32 in Hm'. lia. }
  destruct (Z_lt_ge_dec n 0).
  - rewrite show_dec_neg by done. cbn [String.length]. specialize (Hu (- n) ltac:(lia)). lia.
  - rewrite show_dec_nonneg by lia. specialize (Hu n ltac:(lia)). lia.
Qed.

(** C22: How the launch went reaches the caller.  The shim writes its whole
    report; however the pipe cuts it up and however often the caller is
    interrupted, [spawn] answers with the process ids when the container runs,
    with the shim's own message when the launch failed, and with an error of
    its own when the shim died without a word.  The caller reads 4096 bytes at
    most: of the message of a failed launch the first 4095 bytes arrive, and so
    the whole message when it is not longer than that. *)
Theorem shim_report_arrives (root : string) (st : ContainerState.t) (l : list (option string)) (fuel : nat) (pid fd : Z) (h h1 h2 h3 hs : H) :
  notify_pipe h = (Ok tt, h1) -> fork_shim (Store.dir root (ContainerState.id st)) h1 = (Ok pid, h2) -> delivers l h2 h3 ->
  (length l < fuel)%nat -> 0 <= fd -> piped hs = "" ->
  (forall child, util.validate_id (ContainerState.id st) = Ok tt -> in_s 32 child ->
     text l = piped (notify fd NOTIFY_OK (ContainerState.id st +:+ " " +:+ show_dec child) hs) ->
     fst (spawn root fuel st h) = Answer (Ok (MkSpawned pid child))) /\
  (forall msg, text l = piped (notify fd NOTIFY_ERR msg hs) -> exists said,
     fst (spawn root fuel st h) = Answer (Err (Container said)) /\
     said = ipc.from_utf8_lossy (ipc.take_str 4095 msg) /\
     (valid_utf8 msg = true -> (String.length msg <= 4095)%nat -> said = msg)) /\
  (text l = piped hs -> exists msg, fst (spawn root fuel st h) = Answer (Err (Container msg))).
Proof.
  intros E1 E2 D Hf Hfd Hs0. unfold spawn. rewrite now_bind_eq, E1, now_bind_eq, E2, lp_bind_eq.
  destruct (read_go_delivers 4096 l "" fuel h2 h3 D) as [h4 E]; [cbn; lia|done|].
  change (4096 - String.length "")%nat with 4096%nat in E. rewrite E. clear E. rewrite str_nil_app.
  split_and!; [intros child Hi Hs|intros msg|]; rewrite ?(notify_writes piped), Hs0 by done; intros ->;
    rewrite ?str_nil_app.
  - rewrite take_str_all.
    2: { cbn [String.length]. rewrite !str_length_app. pose proof (show_dec_short child Hs).
         apply validate_id_spec in Hi as ([_ Hl] & _). unfold str_len in Hl. cbn [String.length]. lia. }
    cbv beta iota zeta delta [verdict].
    destruct (ascii_dec NOTIFY_OK NOTIFY_ERR); [done|]. rewrite (running_words _ _ Hi). unfold now. cbn [mret HM_ret fst].
    do 3 f_equal. cbn. by rewrite parse_i_show by (done || lia).
  - exists (ipc.from_utf8_lossy (ipc.take_str 4095 msg)).
    assert (ipc.take_str 4096 (String NOTIFY_ERR msg) = String NOTIFY_ERR (ipc.take_str 4095 msg)) as -> by reflexivity.
    cbv beta iota zeta delta [verdict]. split; [|split; [done|]].
    + destruct (ascii_dec NOTIFY_ERR NOTIFY_ERR); [|done].
      unfold now, reap. rewrite hm_bind_eq. unfold host.ignore. by destruct (wait_child pid true h4).
    + intros Hu Hl. rewrite take_str_all by done. unfold ipc.from_utf8_lossy. by rewrite lossy_go_valid.
  - cbn [ipc.take_str]. cbv beta iota zeta delta [verdict].
    unfold now, reap. rewrite hm_bind_eq. unfold host.ignore. destruct (wait_child pid true h4). by eexists.
Qed.
End read.
