(* ===== verification/SupervisorFacts.v ===== *)
(** * Theorems about the supervisor: a launch that fails leaves the host as it
    was, and init is let go only when everything is in place *)
From S2P Require Import Prelude RustStr Num Utf8 Error Json Rollback Fault Util UtilFacts Process Net Caps Seccomp Config ConfigFacts State Fs FsFacts Host KernFs Mount NatRules NatFacts Ipam IpamFacts Store StoreFacts Cgroup CgroupFacts Network NetworkFacts Ipc Spawn Supervisor.
Import supervisor.

(** ** What the kernel promises about processes, and what the parts of the
    host have to do with each other *)

(** The children not waited for, the control group each process was put in,
    and the messages sent to init. *)
Class ProcView (H : Type) := {
  children : H -> gset Z;
  member : H -> Z -> option string;
  sent : H -> list ascii
}.

Section relations.
Context {H : Type} `{LinksLaws H} `{CgroupLaws H} `{ProcView H}.

Definition same_procs (h h' : H) : Prop :=
  children h' = children h /\ (forall p, member h' p = member h p) /\ sent h' = sent h.

Definition same_cgroups (h h' : H) : Prop :=
  CgroupFacts.dirs h' = CgroupFacts.dirs h /\ forall f, CgroupFacts.value h' f = CgroupFacts.value h f.

(** Interfaces may go, with the other ends of their pairs. *)
Definition net_shrinks (h h' : H) : Prop :=
  names h' ⊆ names h /\
  (forall a b, a ∈ names h' -> paired h a b -> paired h' a b) /\
  (forall a b, a ∈ names h -> a ∉ names h' -> paired h a b -> b ∉ names h').

(** What a system call on processes or on the channel leaves alone. *)
Definition proc_frame (h h' : H) : Prop := same_world h h' /\ net_shrinks h h' /\ same_cgroups h h'.

#[export] Instance same_procs_pre : PreOrder same_procs.
Proof.
  split; [done|]. intros h1 h2 h3 (?&M1&?) (?&M2&?). unfold same_procs.
  split_and!; [congruence|intros p; by rewrite M2, M1|congruence].
Qed.
#[export] Instance same_cgroups_pre : PreOrder same_cgroups.
Proof.
  split; [done|]. intros h1 h2 h3 [E1 V1] [E2 V2]. split; [congruence|]. intros f. by rewrite V2, V1.
Qed.
#[export] Instance net_shrinks_pre : PreOrder net_shrinks.
Proof.
  split; [by intros h|]. intros h1 h2 h3 (A1&A2&A3) (B1&B2&B3). split_and!; [set_solver|eauto|].
  intros a b Ha Ha' Hp. destruct (decide (a ∈ names h2)) as [Hi|Hi].
  - by eapply B3; [| |apply A2].
  - intros Hb. apply (A3 a b Ha Hi Hp). set_solver.
Qed.
#[export] Instance same_world_pre' : PreOrder (same_world (H := H)).
Proof. split; [done|]. intros h1 h2 h3. unfold same_world. congruence. Qed.
#[export] Instance same_net_pre' : PreOrder (same_net (H := H)).
Proof. split; [done|]. intros h1 h2 h3 (?&?&?) (?&?&?). unfold same_net. split_and!; congruence. Qed.
#[export] Instance proc_frame_pre : PreOrder proc_frame.
Proof.
  split; [by intros h|]. intros h1 h2 h3 (?&?&?) (?&?&?). split_and!; by etrans.
Qed.

Lemma same_net_shrinks h h' : same_net h h' -> net_shrinks h h'.
Proof. intros (N & _ & P). unfold net_shrinks. rewrite N, P. done. Qed.
End relations.

Class HostLaws (H : Type) `{LinksLaws H} `{CgroupLaws H} `{Spawner H} `{ProcView H} := {
  (** The kernel's files are neither interfaces nor ordinary files, and only a
      write to [cgroup.procs] moves a process. *)
  kf_read_rest : forall p h, let h' := snd (kf_read p h) in same_world h h' /\ same_net h h' /\ same_procs h h';
  kf_read_dir_rest : forall p h, let h' := snd (kf_read_dir p h) in same_world h h' /\ same_net h h' /\ same_procs h h';
  kf_mkdir_rest : forall p h, let h' := snd (kf_mkdir p h) in same_world h h' /\ same_net h h' /\ same_procs h h';
  kf_rmdir_rest : forall p h, let h' := snd (kf_rmdir p h) in same_world h h' /\ same_net h h' /\ same_procs h h';
  kf_write_rest : forall p v h, let h' := snd (kf_write p v h) in
    same_world h h' /\ same_net h h' /\ children h' = children h /\ sent h' = sent h;
  kf_procs : forall d pid h h', path.dir_ok d -> kf_write (path.join d "cgroup.procs") (show_dec pid) h = (inr tt, h') ->
    member h' pid = Some d;
  (** Interfaces, packet filter and files have nothing to do with control
      groups and processes. *)
  nl_rest : forall q h, same_cgroups h (snd (netlink q h)) /\ same_procs h (snd (netlink q h));
  ipt_rest : forall args h, same_cgroups h (snd (iptables args h)) /\ same_procs h (snd (iptables args h));
  files_rest : forall w h, same_cgroups h (set_world w h) /\ same_procs h (set_world w h);
  (** Calls on processes and on the channel. *)
  kill_rest : forall pid sig h, proc_frame h (snd (sys_kill pid sig h)) /\ same_procs h (snd (sys_kill pid sig h));
  sleep_rest : forall ms h, proc_frame h (sleep_ms ms h) /\ same_procs h (sleep_ms ms h);
  seal_rest : forall h, proc_frame h (snd (seal_self h)) /\ same_procs h (snd (seal_self h));
  pair_rest : forall h, proc_frame h (snd (channel_pair h)) /\ same_procs h (snd (channel_pair h));
  dup_rest : forall h, proc_frame h (snd (dup_high h)) /\ same_procs h (snd (dup_high h));
  open_rest : forall p h, proc_frame h (snd (open_dir p h)) /\ same_procs h (snd (open_dir p h));
  recv_rest : forall h, proc_frame h (snd (ch_recv h)) /\ same_procs h (snd (ch_recv h));
  send_rest : forall t h, proc_frame h (snd (ch_send t h)) /\ children (snd (ch_send t h)) = children h /\
    (forall p, member (snd (ch_send t h)) p = member h p);
  send_ok : forall t h u h', ch_send t h = (Ok u, h') -> sent h' = sent h ++ [t];
  send_failed : forall t h e h', ch_send t h = (Err e, h') -> sent h' = sent h;
  clone_rest : forall fl pl h, proc_frame h (snd (sys_clone fl pl h)) /\ sent (snd (sys_clone fl pl h)) = sent h;
  clone3_rest : forall fl c pl h, proc_frame h (snd (sys_clone3 fl c pl h)) /\ sent (snd (sys_clone3 fl c pl h)) = sent h;
  clone_ok : forall fl pl h pid h', sys_clone fl pl h = (inr pid, h') -> children h' = {[pid]} ∪ children h;
  clone_failed : forall fl pl h e h', sys_clone fl pl h = (inl e, h') -> same_procs h h';
  clone3_ok : forall fl c pl h pid h', sys_clone3 fl c pl h = (inr pid, h') ->
    children h' = {[pid]} ∪ children h /\ (forall d, c = Some d -> member h' pid = Some d);
  clone3_failed : forall fl c pl h e h', sys_clone3 fl c pl h = (inl e, h') -> same_procs h h';
  wait_rest : forall pid nohang h, let h' := snd (wait_child pid nohang h) in
    proc_frame h h' /\ children h' ⊆ children h /\ sent h' = sent h;
  (** A wait that blocks ends when the child is dead and collected. *)
  wait_collects : forall pid h, pid ∉ children (snd (wait_child pid false h))
}.

Section facts.
Context {H : Type} `{HostLaws H} `{!HasWorldLaws H}.

(** ** What the parts leave alone *)

(** The code on control groups. *)
Definition calm (h h' : H) : Prop :=
  same_world h h' /\ net_shrinks h h' /\ children h' = children h /\ sent h' = sent h.
(** The code on processes and on the channel. *)
Definition quiet_proc (h h' : H) : Prop := proc_frame h h' /\ same_procs h h'.
(** The code on interfaces, packet filter and files. *)
Definition soft (h h' : H) : Prop := same_cgroups h h' /\ same_procs h h'.

#[local] Instance calm_pre : PreOrder calm.
Proof.
  split; [by intros h|]. intros h1 h2 h3 (?&?&?&?) (?&?&?&?). split_and!; [by etrans|by etrans|congruence..].
Qed.
#[local] Instance quiet_proc_pre : PreOrder quiet_proc.
Proof. split; [by intros h|]. intros h1 h2 h3 (?&?) (?&?). split; by etrans. Qed.
#[local] Instance soft_pre : PreOrder soft.
Proof. split; [by intros h|]. intros h1 h2 h3 (?&?) (?&?). split; by etrans. Qed.

Lemma rest_calm h h' : same_world h h' -> same_net h h' -> children h' = children h -> sent h' = sent h -> calm h h'.
Proof. intros. split_and!; try done. by apply same_net_shrinks. Qed.

Lemma rest_calm' h h' : same_world h h' /\ same_net h h' /\ same_procs h h' -> calm h h'.
Proof. intros (? & ? & (?&?&?)). by apply rest_calm. Qed.

Lemma quiet_calm h h' : quiet_proc h h' -> calm h h'.
Proof. intros ((?&?&?) & (?&?&?)). by split_and!. Qed.

(** *** Control groups *)

Lemma read_calm p : pres calm (kfs.read_trimmed p).
Proof. intros h. pose proof (kf_read_rest p h). unfold kfs.read_trimmed. destruct (kf_read p h) as [[e|s] h1]; by apply rest_calm'. Qed.
Lemma write_calm p v : pres calm (kfs.write_file p v).
Proof.
  intros h. pose proof (kf_write_rest p v h) as (?&?&?&?). unfold kfs.write_file.
  destruct (kf_write p v h) as [[e|s] h1]; by apply rest_calm.
Qed.
Lemma mkdir_calm what p : pres calm (kfs.create_dir what p).
Proof. intros h. pose proof (kf_mkdir_rest p h). unfold kfs.create_dir. destruct (kf_mkdir p h) as [[e|s] h1]; by apply rest_calm'. Qed.
Lemma exists_calm p : pres calm (kfs.exists_ p).
Proof. intros h. cbn. reflexivity. Qed.
Lemma is_dir_calm p : pres calm (kfs.is_dir p).
Proof. intros h. cbn. reflexivity. Qed.
Lemma rmdir_calm p : pres calm (cgroup.remove_dir_ignored p).
Proof. intros h. apply rest_calm', kf_rmdir_rest. Qed.
Lemma kill_calm pid sig : pres calm (kill_pid pid sig).
Proof. intros h. pose proof (kill_rest pid sig h). unfold kill_pid. destruct (sys_kill pid sig h) as [[e|] h1]; by apply quiet_calm. Qed.
Lemma mount_point_calm : pres calm cgroup.mount_point.
Proof.
  intros h. unfold cgroup.mount_point, mount.find_cgroup2_mount, mount.mountinfo_for.
  match goal with |- context [kf_read ?p h] => pose proof (rest_calm' _ _ (kf_read_rest p h)) as C end.
  destruct (kf_read _ h) as [[e|s] h1]; cbn [snd] in C; repeat (case_match; simplify_eq); done.
Qed.

#[local] Hint Resolve read_calm write_calm mkdir_calm exists_calm is_dir_calm rmdir_calm kill_calm mount_point_calm : core.

Lemma read_list_calm p : pres calm (cgroup.read_list p).
Proof. unfold cgroup.read_list. pres_tac. Qed.
#[local] Hint Resolve read_list_calm : core.
Lemma enable_go_calm d a w : pres calm (cgroup.enable_go d a w).
Proof. induction w as [|c w IH]; cbn [cgroup.enable_go]; pres_tac. Qed.
#[local] Hint Resolve enable_go_calm : core.
Lemma write_cg_calm c f v : pres calm (cgroup.write c f v).
Proof. unfold cgroup.write. pres_tac. Qed.
#[local] Hint Resolve write_cg_calm : core.
Lemma apply_calm c res : pres calm (cgroup.apply c res).
Proof. unfold cgroup.apply, cgroup.when_some, cgroup.write_if. pres_tac. Qed.
#[local] Hint Resolve apply_calm : core.

Lemma create_calm f a id res : pres calm (cgroup.create f a id res).
Proof.
  unfold cgroup.create, cgroup.enable_subtree, cgroup.check_missing, cgroup.available_controllers, cgroup.finish. pres_tac.
Qed.
Lemma attach_calm p : pres calm (cgroup.attach p).
Proof. unfold cgroup.attach, cgroup.available_controllers. pres_tac. Qed.
Lemma kill_all_calm c : pres calm (cgroup.kill_all c).
Proof. unfold cgroup.kill_all, cgroup.pids, cgroup.read. pres_tac. Qed.
Lemma remove_go_calm c n : forall first, pres calm (cgroup.remove_go n first c).
Proof.
  induction n as [|n IH]; intros first h; cbn [cgroup.remove_go]; [cbn; reflexivity|].
  pose proof (rest_calm' _ _ (kf_rmdir_rest (cgroup.path c) h)) as C.
  destruct (kf_rmdir (cgroup.path c) h) as [[e|[]] h1]; cbn [snd] in *; [|done].
  set (busy := match e with Os k => k =? EBUSY | Other _ => false end).
  destruct (negb busy && negb (kf_exists (cgroup.path c) h1)); [done|]. etrans; [exact C|].
  set (h2 := if first && busy then snd (cgroup.kill_all c h1) else h1).
  assert (calm h1 h2) as C2 by (unfold h2; destruct (first && busy); [apply kill_all_calm|reflexivity]).
  etrans; [exact C2|]. etrans; [apply quiet_calm, (sleep_rest 20)|]. apply IH.
Qed.
Lemma remove_calm c : pres calm (cgroup.remove c).
Proof. unfold cgroup.remove. pres_tac. apply remove_go_calm. Qed.
Lemma undo_cgroup_calm p : pres calm (undo_cgroup p).
Proof. unfold undo_cgroup. apply pres_bind; [exact _|apply attach_calm|intros c; apply remove_calm]. Qed.

(** *** Processes *)

Lemma check_quiet f p : pres quiet_proc (check f p).
Proof. unfold check. pres_tac. Qed.
Lemma seal_quiet : pres quiet_proc seal_self.
Proof. intros h. apply seal_rest. Qed.
Lemma pair_quiet : pres quiet_proc channel_pair.
Proof. intros h. apply pair_rest. Qed.
Lemma dup_quiet : pres quiet_proc dup_high.
Proof. intros h. apply dup_rest. Qed.
Lemma open_quiet p : pres quiet_proc (open_dir p).
Proof. intros h. apply open_rest. Qed.
Lemma recv_quiet : pres quiet_proc ch_recv.
Proof. intros h. apply recv_rest. Qed.
#[local] Hint Resolve check_quiet seal_quiet pair_quiet dup_quiet open_quiet recv_quiet : core.

Lemma expect_quiet t : pres quiet_proc (spawn.expect t).
Proof. unfold spawn.expect. pres_tac. Qed.
Lemma clone_target_quiet c : pres quiet_proc (clone_target c).
Proof. unfold clone_target. pres_tac. Qed.

(** A clone adds at most the child it gives. *)
Definition one_child (pid : Z) (h h' : H) : Prop :=
  proc_frame h h' /\ sent h' = sent h /\ children h' = {[pid]} ∪ children h.

Lemma quiet_one_child pid h1 h2 h3 : quiet_proc h1 h2 -> one_child pid h2 h3 -> one_child pid h1 h3.
Proof.
  intros (P & C & _ & S) (P' & S' & C'). split_and!; [by etrans|congruence|]. by rewrite C', C.
Qed.

Lemma clone_legacy_spec req h r h' : spawn.clone_child_legacy req h = (r, h') ->
  match r with Ok pid => one_child pid h h' | Err _ => quiet_proc h h' end.
Proof.
  unfold spawn.clone_child_legacy. rewrite hm_bind_eq. pose proof (dup_quiet h) as Q1.
  destruct (dup_high h) as [[u|e] h1]; cbn [snd] in Q1; [|by intros [= <- <-]].
  rewrite hm_bind_eq. pose proof (dup_quiet h1) as Q2.
  destruct (dup_high h1) as [[v|e] h2]; cbn [snd] in Q2; [|intros [= <- <-]; by etrans].
  assert (Q : quiet_proc h h2) by (by etrans). unfold spawn.cloned.
  match goal with |- context [sys_clone ?fl ?pl h2] =>
    pose proof (clone_rest fl pl h2) as [P S]; destruct (sys_clone fl pl h2) as [[e|pid] h3] eqn:E; cbn [snd] in P, S end.
  - intros [= <- <-]. etrans; [exact Q|]. split; [done|]. by eapply clone_failed.
  - intros [= <- <-]. apply (quiet_one_child _ _ _ _ Q). split_and!; [done..|]. by eapply clone_ok.
Qed.

(** The kernel has [clone3]. *)
Definition has_clone3 : Prop :=
  forall fl c pl h e, fst (sys_clone3 (H := H) fl c pl h) = inl e -> e <> spawn.ENOSYS /\ e <> spawn.EINVAL.

Lemma clone_spec req h r h' : spawn.clone_child req h = (r, h') ->
  match r with
  | Ok pid => one_child pid h h' /\
              (has_clone3 -> forall d, spawn.cgroup_fd req = Some d -> member h' pid = Some d)
  | Err _ => quiet_proc h h'
  end.
Proof.
  unfold spawn.clone_child. rewrite hm_bind_eq. pose proof (dup_quiet h) as Q1.
  destruct (dup_high h) as [[u|e] h1]; cbn [snd] in Q1; [|by intros [= <- <-]].
  rewrite hm_bind_eq. pose proof (dup_quiet h1) as Q2.
  destruct (dup_high h1) as [[v|e] h2]; cbn [snd] in Q2; [|intros [= <- <-]; by etrans].
  assert (Q : quiet_proc h h2) by (by etrans). cbv zeta. unfold spawn.cloned.
  match goal with |- context [sys_clone3 ?fl ?c ?pl h2] =>
    pose proof (clone3_rest fl c pl h2) as [P S]; destruct (sys_clone3 fl c pl h2) as [[e|pid] h3] eqn:E; cbn [snd] in P, S end.
  - assert (Q3 : quiet_proc h h3).
    { etrans; [exact Q|]. split; [done|]. by eapply clone3_failed. }
    destruct ((e =? spawn.ENOSYS) || (e =? spawn.EINVAL)) eqn:Ee; [|by intros [= <- <-]].
    intros L. apply clone_legacy_spec in L. destruct r as [pid|e']; [|by etrans].
    split; [by eapply quiet_one_child|]. intros Hc. exfalso.
    match type of E with sys_clone3 ?fl ?c ?pl _ = _ => destruct (Hc fl c pl h2 e ltac:(by rewrite E)) as [N1 N2] end.
    apply orb_true_iff in Ee as [Ee%Z.eqb_eq|Ee%Z.eqb_eq]; congruence.
  - intros [= <- <-]. destruct (clone3_ok _ _ _ _ _ _ E) as [C M]. split; [|by auto].
    apply (quiet_one_child _ _ _ _ Q). by split_and!.
Qed.

(** *** The network *)

Lemma netlink_soft q : pres soft (netlink q).
Proof. intros h. apply nl_rest. Qed.
Lemma run_soft args : pres soft (nat.run args).
Proof. intros h. destruct (run_eq args h) as [e ->]. apply ipt_rest. Qed.
Lemma is_run_ok_soft args : pres soft (nat.is_run_ok args).
Proof. intros h. rewrite is_run_ok_eq. apply ipt_rest. Qed.
Lemma on_files_soft {A} (m : M A) : pres soft (on_files m).
Proof. intros h. unfold on_files. destruct (m (world h)) as [r w]. apply files_rest. Qed.
Lemma available_soft : pres soft nat.available.
Proof.
  intros h. unfold nat.available. pose proof (ipt_rest ["-t"; "nat"; "-S"] h).
  by destruct (iptables _ h) as [[m|ok o e] h'].
Qed.
#[local] Hint Resolve run_soft is_run_ok_soft on_files_soft available_soft : core.

Ltac soft_tac := pres_tac; match goal with |- pres soft (netlink ?q) => exact (netlink_soft q) | _ => idtac end.

Lemma ensure_chains_soft : pres soft nat.ensure_chains.
Proof. unfold nat.ensure_chains, nat.ensure_chain, nat.chain_exists, nat.insert_unique, nat.rule_exists. soft_tac. Qed.
#[local] Hint Resolve ensure_chains_soft : core.
Lemma cleanup_soft id : pres soft (nat.cleanup id).
Proof.
  unfold nat.cleanup, nat.tagged_rules. apply pres_bind; [exact _| |].
  - match goal with |- pres _ (nat.tagged_go _ ?l) => generalize l end. intros ts.
    induction ts as [|t ts IH]; cbn [nat.tagged_go]; soft_tac.
  - intros l. generalize 0. induction l as [|[t a] l IH]; intros n; cbn [nat.delete_rules]; unfold nat.run_ok; soft_tac.
Qed.
#[local] Hint Resolve cleanup_soft : core.

Section rb.
Context (f : option string) (root : string) (self : Z).

Lemma undo_veth_soft n : pres soft (network.undo_veth n).
Proof. unfold network.undo_veth. soft_tac. Qed.
#[local] Hint Resolve undo_veth_soft : core.
Lemma undo_lease_soft id : pres soft (network.undo_lease root self id).
Proof. unfold network.undo_lease. soft_tac. Qed.
#[local] Hint Resolve undo_lease_soft : core.
Lemma undo_rules_soft id : pres soft (network.undo_rules id).
Proof. unfold network.undo_rules. soft_tac. Qed.
Lemma teardown_soft id n : pres soft (network.teardown root self id n).
Proof. unfold network.teardown. soft_tac. Qed.
Lemma ensure_bridge_soft b g p : pres soft (network.ensure_bridge f b g p).
Proof. unfold network.ensure_bridge, network.check, network.link_index_required. soft_tac. Qed.
Lemma make_veth_soft a b : pres soft (network.make_veth a b).
Proof. unfold network.make_veth. soft_tac. Qed.
Lemma connect_veth_soft cfg pid i a b : pres soft (network.connect_veth f cfg pid i a b).
Proof. unfold network.connect_veth, network.check, network.link_index_required. soft_tac. Qed.
Lemma publish_all_soft cfg ip : pres soft (network.publish_all f cfg ip).
Proof.
  unfold network.publish_all, nat.setup_bridge, nat.publish, nat.enable_ip_forwarding, nat.enable_route_localnet,
    nat.enable_knob, nat.append_unique, nat.rule_exists. soft_tac.
Qed.
#[local] Hint Resolve ensure_bridge_soft make_veth_soft connect_veth_soft publish_all_soft : core.

(** The undo actions below and above. *)
Definition stacked (rb rb' : @network.Rb H) : @network.Rb H :=
  {| rollback.actions := rollback.actions rb ++ rollback.actions rb'; rollback.committed := rollback.committed rb |}.

(** A computation that only adds undo actions, and changes the host in a [soft] way. *)
Definition adds {A : Type} (m : HM (H * @network.Rb H) A) : Prop := forall h rb, exists r h' rb',
  m (h, rollback.new) = (r, (h', rb')) /\ m (h, rb) = (r, (h', stacked rb rb')) /\ soft h h'.

Lemma stacked_new rb : stacked rb rollback.new = rb.
Proof. destruct rb as [a c]. unfold stacked. cbn. by rewrite List.app_nil_r. Qed.

Lemma stack_same {A} (m : HM (H * @network.Rb H) A) :
  (forall h rb, exists r h', m (h, rb) = (r, (h', rb)) /\ m (h, rollback.new) = (r, (h', rollback.new)) /\ soft h h') -> adds m.
Proof. intros Hm h rb. destruct (Hm h rb) as (r & h' & E1 & E2 & S). exists r, h', rollback.new. by rewrite stacked_new. Qed.

Lemma adds_ret {A} (a : A) : adds (mret a).
Proof. apply stack_same. intros h rb. by exists (Ok a), h. Qed.
Lemma adds_fail {A} e : adds (host.fail (A := A) e).
Proof. apply stack_same. intros h rb. by exists (Err e), h. Qed.
Lemma adds_lift {A} (r : result A) : adds (host.lift r).
Proof. apply stack_same. intros h rb. by exists r, h. Qed.
Lemma adds_act {A} (m : HM H A) : pres soft m -> adds (network.act m).
Proof.
  intros Hm. apply stack_same. intros h rb. specialize (Hm h). unfold network.act. cbn [fst snd].
  destruct (m h) as [r h']. by exists r, h'.
Qed.
Lemma adds_push name u : adds (network.push name u).
Proof.
  intros h rb. exists (Ok tt), h, (rollback.push rollback.new name u). split_and!; [done| |done].
  unfold network.push, rollback.push, stacked. by destruct rb.
Qed.
Lemma adds_bind {A B} (m : HM (H * @network.Rb H) A) (k : A -> HM (H * @network.Rb H) B) :
  adds m -> (forall a, adds (k a)) -> adds (m ≫= k).
Proof.
  intros Hm Hk h rb. destruct (Hm h rb) as (r & h1 & rb1 & E & E' & S). rewrite !hm_bind_eq, E, E'.
  destruct r as [a|e]; [|by exists (Err e), h1, rb1].
  destruct (Hk a h1 rb1) as (r2 & h2 & rb2 & K1 & K2 & S2).
  destruct (Hk a h1 (stacked rb rb1)) as (r2' & h2' & rb2' & K1' & K3 & _). rewrite K1 in K1'. simplify_eq.
  exists r2', h2', (stacked rb1 rb2'). split_and!; [done| |by etrans].
  rewrite K3. unfold stacked. cbn. by rewrite List.app_assoc.
Qed.

Lemma setup_adds cfg pid : adds (network.setup_host f root self cfg pid).
Proof.
  unfold network.setup_host, network.setup_bridge_mode.
  repeat first [ apply adds_ret | apply adds_fail | apply adds_lift | apply adds_push
               | apply adds_act; first [apply (netlink_soft Open) | unfold network.check; soft_tac | by auto]
               | apply adds_bind; [|intros ?]
               | match goal with |- adds (match ?x with _ => _ end) => destruct x end ].
Qed.

(** Undoing what is above first. *)
Lemma unwind_stacked rb rb' h fl rb2 h2 :
  rollback.unwind (stacked rb rb') h = (fl, rb2, h2) ->
  exists fl1 fl2 h1 rb1, rollback.unwind rb' h = (fl1, rb1, h1) /\ rollback.unwind rb h1 = (fl2, rb2, h2) /\ fl = fl1 ++ fl2.
Proof.
  unfold rollback.unwind, stacked. cbn [rollback.actions rollback.committed]. rewrite reverse_app.
  assert (forall l1 l2 (s : H), rollback.unwind_go (l1 ++ l2) s
          = let '(f1, s1) := rollback.unwind_go l1 s in let '(f2, s2) := rollback.unwind_go l2 s1 in (f1 ++ f2, s2)) as Happ.
  { induction l1 as [|[n u] l1 IH]; intros l2 s; cbn; [by destruct (rollback.unwind_go l2 s)|].
    destruct (u s) as [[[]|e] s1]; rewrite IH; destruct (rollback.unwind_go l1 s1) as [f1 s2];
      by destruct (rollback.unwind_go l2 s2). }
  rewrite Happ. destruct (rollback.unwind_go (reverse (rollback.actions rb')) h) as [f1 s1] eqn:E1.
  destruct (rollback.unwind_go (reverse (rollback.actions rb)) s1) as [f2 s2] eqn:E2. intros [= <- <- <-].
  exists f1, f2, s1, {| rollback.actions := []; rollback.committed := rollback.committed rb' |}. by rewrite E2.
Qed.
End rb.

(** ** Undoing a launch *)

Section launch.
Context (f allow log : option string) (root : string) (self : Z) (Hroot : path.dir_ok root).
Context (cfg : ContainerConfig.t) (h0 : H).

Abbreviation hv := (NetworkFacts.hv cfg).
Abbreviation pv := (NetworkFacts.pv cfg).
Abbreviation br := (NetworkConfig.bridge (ncfg cfg)).
Abbreviation tab h := (NetworkFacts.table root h).

(** Files of containers are not the lease file. *)
Lemma container_file_keeps i n data w : path.name_ok i -> path.name_ok n ->
  keeps (ipam.state_path root) w (ufs.write_atomic self (path.join (Store.dir root i) n) data w).2.
Proof.
  intros Hi Hn. pose proof (dir_dir_ok root Hroot i Hi) as Hd.
  destruct (ufs.write_atomic self _ data w) as [r w'] eqn:E.
  destruct (write_atomic.write_atomic_spec self _ data _ eq_refl (write_atomic.tmp_path_ne self _ n Hd Hn) _ _ _ E)
    as ((_ & (_ & Hk & _) & _) & _).
  assert (forall m, path.name_ok m -> ipam.state_path root <> path.join (Store.dir root i) m) as Hne.
  { intros m Hm Heq. assert (path.parent (ipam.state_path root) = Some root) as P1 by (by apply path.parent_join).
    rewrite Heq, path.parent_join in P1 by done. injection P1 as P1. revert P1. unfold Store.dir, Store.containers_dir.
    rewrite !path.join_eq by (done || apply containers_dir_ok, Hroot). intros P1%(f_equal String.length).
    rewrite !str_length_app in P1. cbn in P1. lia. }
  apply Hk; [by apply Hne|]. rewrite write_atomic.tmp_path_join by done. by apply Hne, write_atomic.tmp_name_ok.
Qed.

(** The stages of the network: nothing of the container; a lease; the pair. *)
Definition tidy (h : H) : Prop :=
  names h ⊆ {[br]} ∪ names h0 /\ forall x, x ∈ ipam.entries (tab h) -> x ∈ ipam.entries (tab h0).
Definition with_lease (h : H) : Prop :=
  names h ⊆ {[br]} ∪ names h0 /\ leased root cfg h0 h.
Definition with_pair (h : H) : Prop :=
  names h ⊆ {[hv; pv; br]} ∪ names h0 /\ leased root cfg h0 h /\
  ((hv ∈ names h /\ paired h hv pv) \/ names h ⊆ {[br]} ∪ names h0).

(** What the code around the network keeps of them. *)
Definition around (h h' : H) : Prop := net_shrinks h h' /\ same_table root h h'.

#[local] Instance around_pre : PreOrder around.
Proof.
  split; [by intros h|]. intros h1 h2 h3 (?&T1) (?&T2). split; [by etrans|]. unfold same_table in *. congruence.
Qed.

Lemma calm_around h h' : calm h h' -> around h h'.
Proof. intros (W & N & _). split; [done|]. by apply world_table. Qed.
Lemma quiet_around h h' : quiet_proc h h' -> around h h'.
Proof. intros C. by apply calm_around, quiet_calm. Qed.
Lemma proc_around h h' : proc_frame h h' -> around h h'.
Proof. intros (W & N & _). split; [done|]. by apply world_table. Qed.
Lemma net_table_around h h' : same_net h h' -> same_table root h h' -> around h h'.
Proof. intros N T. split; [by apply same_net_shrinks|done]. Qed.

Lemma tidy_around h h' : tidy h -> around h h' -> tidy h'.
Proof. intros [N E] [(S & _) T]. split; [clear -N S; set_solver|]. unfold NetworkFacts.table in *. by rewrite T. Qed.
Lemma lease_around h h' : with_lease h -> around h h' -> with_lease h'.
Proof. intros [N L] [(S & _) T]. split; [clear -N S; set_solver|]. by eapply leased_table. Qed.
Lemma pair_around h h' : with_pair h -> around h h' -> with_pair h'.
Proof.
  intros (N & L & P) [(S & S2 & S3) T]. split_and!; [clear -N S; set_solver|by eapply leased_table|].
  destruct P as [[Hv Hp]|Hs]; [|right; clear -Hs S; set_solver].
  destruct (decide (hv ∈ names h')) as [Hi|Hi]; [left; eauto|right].
  pose proof (S3 _ _ Hv Hi Hp) as Hpv. clear -N S Hi Hpv. set_solver.
Qed.

(** *** The undo actions of the network *)

(** Giving the lease back: the interfaces stay, the table loses entries. *)
Lemma release_spec h r h1 : leases_wf (tab h) -> network.undo_lease root self (cid cfg) h = (r, h1) ->
  same_net h h1 /\ leases_wf (tab h1) /\ (forall x, x ∈ ipam.entries (tab h1) -> x ∈ ipam.entries (tab h)) /\
  (r = Ok tt -> forall x, x ∈ ipam.entries (tab h1) -> ipam.id x <> cid cfg).
Proof.
  intros Hw E. pose proof (pres_eq _ _ _ _ _ (on_files_net (ipam.release root self (cid cfg))) E) as N.
  unfold network.undo_lease, on_files in E. destruct (ipam.release root self (cid cfg) (world h)) as [r' w] eqn:Er.
  injection E as -> <-. pose proof (release_sim root self Hroot (cid cfg) _ _ _ Hw Er) as S. cbv zeta in S.
  unfold NetworkFacts.table in *. rewrite world_set. split; [done|]. destruct r as [[]|e]; rewrite S in *; [|done].
  split_and!.
  - destruct Hw as [Hu Hf]. split; [done|]. cbn [ipam.entries]. rewrite Forall_forall in *.
    intros x [Hx _]%elem_of_without. by apply Hf.
  - by intros x [Hx _]%elem_of_without.
  - by intros _ x [_ Hx]%elem_of_without.
Qed.

Lemma release_leased h r h1 : leased root cfg h0 h -> network.undo_lease root self (cid cfg) h = (r, h1) ->
  same_net h h1 /\ leased root cfg h0 h1.
Proof.
  intros [Hw Ht] E. destruct (release_spec h r h1 Hw E) as (N & W & S & _). split; [done|]. split; [done|]. auto.
Qed.

Lemma lease_undone h h1 : with_lease h -> network.undo_lease root self (cid cfg) h = (Ok tt, h1) -> tidy h1.
Proof.
  intros (N & Hw & Ht) E. destruct (release_spec h _ h1 Hw E) as ((N1 & _) & _ & S & S'). split; [by rewrite N1|].
  intros x Hx. destruct (Ht x (S x Hx)) as [Hi|]; [|done]. by apply S' in Hi.
Qed.

Lemma undo_veth_failed h e h1 : network.undo_veth hv h = (Err e, h1) -> same_net h h1.
Proof.
  intros E. unfold network.undo_veth in E. rewrite hm_bind_eq in E. pose proof (quiet_net Open eq_refl h) as S1.
  destruct (netlink Open h) as [[u|e1] h2]; cbn [snd] in S1; [|by injection E as _ <-].
  rewrite hm_bind_eq in E. pose proof (quiet_net (LinkIndex hv) eq_refl h2) as S2.
  destruct (netlink (LinkIndex hv) h2) as [[o|e2] h3]; cbn [snd] in S2; [|injection E as _ <-; by etrans].
  destruct o as [i|]; [|done]. apply (nl_failed (DeleteLink i)) in E. etrans; [exact S1|]. by etrans.
Qed.

Lemma pair_undone h r h1 : with_pair h -> network.undo_veth hv h = (r, h1) ->
  with_pair h1 /\ (r = Ok tt -> with_lease h1).
Proof.
  intros Hp E. assert (T : same_table root h h1).
  { apply world_table. eapply pres_eq; [apply undo_veth_world|exact E]. }
  destruct r as [[]|e].
  - destruct (undo_veth_spec hv h _ _ E) as (D1 & _ & D3). destruct (D3 eq_refl) as [D4 D5].
    destruct Hp as (N & L & P). assert (names h1 ⊆ {[br]} ∪ names h0) as N1.
    { destruct P as [[Hv Hpair]|Hs]; [specialize (D5 pv Hv Hpair); clear -D1 D4 D5 N|clear -D1 Hs]; set_solver. }
    assert (leased root cfg h0 h1) by (by eapply leased_table). split; [|done].
    split_and!; [clear -N1; set_solver|done|by right].
  - split; [|done]. apply (pair_around h); [done|]. apply net_table_around; [by eapply undo_veth_failed|done].
Qed.

(** *** Tearing the network down *)

Definition veth_known (n : NetworkState.t) : Prop :=
  NetworkState.host_veth n = None \/ NetworkState.host_veth n = Some hv.

Lemma cleanup_around id : pres around (nat.cleanup id).
Proof.
  intros h. apply net_table_around; [apply cleanup_net|]. apply world_table, cleanup_world.
Qed.

(** A stage survives a tear down when it survives its parts. *)
Lemma teardown_keeps (P : H -> Prop) n h r h1 :
  (forall h h', P h -> around h h' -> P h') ->
  (forall h r h', P h -> network.undo_lease root self (cid cfg) h = (r, h') -> P h') ->
  (forall h r h', P h -> NetworkState.host_veth n = Some hv -> network.undo_veth hv h = (r, h') -> P h') ->
  veth_known n -> P h -> network.teardown root self (cid cfg) n h = (r, h1) -> P h1.
Proof.
  intros HA HL HV Hk Hp E. unfold network.teardown in E.
  assert (HI : forall h r h1, P h -> host.ignore (network.undo_lease root self (cid cfg)) h = (r, h1) -> P h1).
  { intros g r' g1 Hg Eg. unfold host.ignore in Eg. destruct (network.undo_lease root self (cid cfg) g) as [r2 g2] eqn:E2.
    injection Eg as _ <-. by eapply HL. }
  destruct (negb _); [by eapply HI|]. rewrite hm_bind_eq in E.
  destruct (host.ignore (nat.cleanup (cid cfg)) h) as [[u|e] h2] eqn:E2.
  2: { unfold host.ignore in E2. by destruct (nat.cleanup (cid cfg) h). }
  assert (P h2) as Hp2.
  { apply (HA h); [done|]. unfold host.ignore in E2. pose proof (cleanup_around (cid cfg) h) as C.
    destruct (nat.cleanup (cid cfg) h) as [r2 g2]. by injection E2 as _ <-. }
  rewrite hm_bind_eq in E. destruct Hk as [Hn|Hn]; rewrite Hn in E; [by eapply HI|].
  unfold host.ignore at 1 in E. destruct (network.undo_veth hv h2) as [r3 h3] eqn:E3. eapply HI; [|exact E]. by eapply HV.
Qed.

Lemma tidy_teardown n h r h1 : leases_wf (tab h) -> NetworkState.host_veth n = None -> tidy h ->
  network.teardown root self (cid cfg) n h = (r, h1) -> tidy h1 /\ leases_wf (tab h1).
Proof.
  intros Hw Hn Ht E. apply (teardown_keeps (fun h => tidy h /\ leases_wf (tab h)) n h r h1); [..|by left|done|exact E].
  - intros g g' [T W] A. split; [by apply (tidy_around g)|]. destruct A as [_ A]. unfold NetworkFacts.table, same_table in *. by rewrite A.
  - intros g r' g' [[T1 T2] W] Er. destruct (release_spec g r' g' W Er) as ((N & _) & W' & S & _).
    split; [|done]. split; [by rewrite N|auto].
  - congruence.
Qed.

Lemma pair_teardown n h r h1 : veth_known n -> with_pair h ->
  network.teardown root self (cid cfg) n h = (r, h1) -> with_pair h1.
Proof.
  apply teardown_keeps.
  - apply pair_around.
  - intros g r' g' (N & L & P) E. destruct (release_leased g r' g' L E) as ((N1 & _ & P1) & L1).
    unfold with_pair. rewrite N1, P1. by split_and!.
  - intros g r' g' Hp _ E. by eapply pair_undone.
Qed.

(** *** Undoing the set-up *)

Abbreviation rbL := (rb1 (H := H) root self cfg).
Abbreviation rbV := (rb2 (H := H) root self cfg).
Abbreviation rbR := (rb3 (H := H) root self cfg).

Lemma unwind1 h rb' h1 : with_lease h -> rollback.unwind rbL h = ([], rb', h1) -> tidy h1.
Proof. intros Hl (h2 & E & [= _ <-])%unwind_push_clean. by eapply lease_undone. Qed.

Lemma unwind2 h rb' h1 : with_pair h -> rollback.unwind rbV h = ([], rb', h1) -> tidy h1.
Proof.
  intros Hp (h2 & E & U)%unwind_push_clean. eapply unwind1; [|exact U]. by apply (proj2 (pair_undone _ _ _ Hp E)).
Qed.

Lemma unwind3 h rb' h1 : with_pair h -> rollback.unwind rbR h = ([], rb', h1) -> tidy h1.
Proof.
  intros Hp (h2 & E & U)%unwind_push_clean. eapply unwind2; [|exact U]. apply (pair_around h); [done|].
  unfold network.undo_rules in E. rewrite hm_bind_eq in E. pose proof (cleanup_around (cid cfg) h) as C.
  destruct (nat.cleanup (cid cfg) h) as [[n|e] g]; cbn [snd] in C; by inversion E; subst.
Qed.

(** Undo actions that change the host in a way that keeps [R]. *)
Lemma unwind_pres (R : H -> H -> Prop) `{!PreOrder R} (rb : @network.Rb H) h fl rb' h1 :
  Forall (fun a : string * @rollback.Action H => pres R (snd a)) (rollback.actions rb) ->
  rollback.unwind rb h = (fl, rb', h1) -> R h h1.
Proof.
  intros Hf. unfold rollback.unwind. apply Forall_reverse in Hf. revert Hf. generalize (reverse (rollback.actions rb)).
  intros l Hl. destruct (rollback.unwind_go l h) as [f1 s1] eqn:E. intros [= _ _ <-].
  revert h f1 s1 E Hl. induction l as [|[n u] l IH]; intros h f1 s1 E Hl; cbn in E; [by injection E as _ <-|].
  apply Forall_cons in Hl as [Hu Hl]. specialize (Hu h). cbn [snd] in Hu. destruct (u h) as [[[]|e] g]; cbn [snd] in Hu.
  - etrans; [exact Hu|]. by eapply IH.
  - destruct (rollback.unwind_go l g) as [f2 s2] eqn:E2. injection E as _ <-. etrans; [exact Hu|]. by eapply IH.
Qed.

Ltac soft_actions :=
  repeat (apply Forall_cons; split; [first [apply undo_lease_soft | apply undo_veth_soft | apply undo_rules_soft]|]);
  apply Forall_nil; done.

Definition all_soft (rb : @network.Rb H) : Prop :=
  Forall (fun a : string * @rollback.Action H => pres soft (snd a)) (rollback.actions rb).

Lemma rb_soft : all_soft rbL /\ all_soft rbV /\ all_soft rbR.
Proof. split_and!; soft_actions. Qed.

(** A stage of the network after a set-up that gave [n]: it survives what comes
    after, and undoing gives a tidy network. *)
Definition undoable (P : H -> Prop) (n : NetworkState.t) (nrb : @network.Rb H) : Prop :=
  (forall h h', P h -> around h h' -> P h') /\
  (forall h r h', P h -> network.teardown root self (cid cfg) n h = (r, h') -> P h') /\
  (forall h rb' h', P h -> rollback.unwind nrb h = ([], rb', h') -> tidy h').

Lemma pair_undoable n nrb : veth_known n -> nrb = rbV \/ nrb = rbR -> undoable with_pair n nrb.
Proof.
  intros Hk Hn. split_and!.
  - apply pair_around.
  - intros h r h'. by apply pair_teardown.
  - intros h rb' h' Hp U. destruct Hn as [-> | ->]; [by eapply unwind2|by eapply unwind3].
Qed.

Lemma tidy_undoable n : NetworkState.host_veth n = None ->
  undoable (fun h => tidy h /\ leases_wf (tab h)) n rollback.new.
Proof.
  intros Hk. split_and!.
  - intros g g' [T W] A. split; [by apply (tidy_around g)|]. destruct A as [_ A]. unfold NetworkFacts.table, same_table in *. by rewrite A.
  - intros g r g' [T W]. by apply tidy_teardown.
  - by intros g rb' g' [T _] [= _ <-].
Qed.

Lemma leased_from h h1 : same_table root h0 h -> leased root cfg h h1 -> leased root cfg h0 h1.
Proof. intros T [W L]. split; [done|]. unfold NetworkFacts.table, same_table in *. by rewrite T in L. Qed.

Lemma setup_veth_known pid h rb n s : network.setup_bridge_mode f root self cfg pid (h, rb) = (Ok n, s) ->
  NetworkState.host_veth n = Some hv.
Proof.
  unfold network.setup_bridge_mode. intros (ok & s1 & _ & E)%hm_bind_inv. destruct (negb ok); [done|].
  apply hm_bind_inv in E as ([a p] & s2 & _ & E). apply hm_bind_inv in E as (gw & s3 & _ & E).
  apply hm_bind_inv in E as (u & s4 & _ & E). apply hm_bind_inv in E as (bi & s5 & _ & E).
  apply hm_bind_inv in E as (rq & s6 & _ & E). apply hm_bind_inv in E as ([ip pf] & s7 & _ & E).
  apply hm_bind_inv in E as (u1 & s8 & _ & E). apply hm_bind_inv in E as (u2 & s9 & _ & E).
  unfold NetworkFacts.hv, cid. destruct (util.veth_names (ContainerConfig.id cfg)) as [a1 a2].
  do 6 (apply hm_bind_inv in E as (? & ? & _ & E)). by injection E as <- _.
Qed.

Lemma setup_stage pid h r h1 nrb :
  util.validate_id (cid cfg) = Ok tt -> utf8 (NetworkConfig.subnet (ncfg cfg)) ->
  leases_wf (tab h0) -> table_ok (tab h0) -> names h ⊆ names h0 -> same_table root h0 h ->
  network.setup_host f root self cfg pid (h, rollback.new) = (r, (h1, nrb)) ->
  all_soft nrb /\
  match r with
  | Ok n => exists P, P h1 /\ undoable P n nrb
  | Err _ => forall rb' h', rollback.unwind nrb h1 = ([], rb', h') -> tidy h'
  end.
Proof.
  intros Hid Hs Hwf Hok Hn T E. destruct rb_soft as (HL & HV & HR).
  assert (Ht : tidy h) by (split; [clear -Hn; set_solver|unfold NetworkFacts.table, same_table in *; by rewrite T]).
  assert (Hw : leases_wf (tab h)) by (unfold NetworkFacts.table, same_table in *; by rewrite T).
  unfold network.setup_host in E. destruct (NetworkConfig.mode (ContainerConfig.network cfg)).
  1,3: injection E as <- <- <-; split; [constructor|]; eexists; split; [|by apply tidy_undoable]; done.
  assert (Hok' : table_ok (tab h)) by (unfold NetworkFacts.table, same_table in *; by rewrite T).
  assert (Hv : forall n, r = Ok n -> veth_known n) by (intros n ->; right; by eapply setup_veth_known).
  assert (HG : gone root cfg h h1 -> tidy h1).
  { intros (G1 & _ & G3). split; [clear -G1 Hn; set_solver|]. unfold NetworkFacts.table, same_table in *. by rewrite T in G3. }
  assert (HS1 : stage1 root cfg h h1 -> with_lease h1).
  { intros (S1 & _ & S3). split; [clear -S1 Hn; set_solver|]. by apply (leased_from h). }
  assert (HS2 : stage2 root cfg h h1 -> with_pair h1).
  { intros (S1 & _ & S3 & S4 & S5). split_and!; [clear -S1 Hn; set_solver|by apply (leased_from h)|by left]. }
  destruct (setup_ended f root self Hroot cfg pid h r h1 nrb Hw Hok' Hs (valid_id_utf8 _ Hid) E)
    as [(Hr & -> & Hg)|[(Hr & -> & Hg)|[(_ & -> & Hg)|(-> & Hg)]]].
  - split; [constructor|]. destruct r; [done|]. intros rb' h' [= _ <-]. auto.
  - split; [done|]. destruct r; [done|]. intros rb' h' U. by eapply unwind1; [apply HS1|].
  - split; [done|]. destruct r as [n|e]; [exists with_pair; split; [auto|apply pair_undoable; auto]|].
    intros rb' h' U. by eapply unwind2; [apply HS2|].
  - split; [done|]. destruct r as [n|e]; [exists with_pair; split; [auto|apply pair_undoable; auto]|].
    intros rb' h' U. by eapply unwind3; [apply HS2|].
Qed.

(** ** The launch, step by step *)

Abbreviation res := (ContainerConfig.resources cfg).

(** The groups there may be: those of before, the base group, and the
    container's. *)
Definition is_base (d : string) : Prop :=
  exists mount, fst (cgroup.mount_point h0) = Ok mount /\ d = path.join mount cgroup.BASE_NAME.
Definition dirs_ok (o : option string) (h : H) : Prop :=
  forall d, d ∈ CgroupFacts.dirs h -> d ∈ CgroupFacts.dirs h0 \/ is_base d \/ o = Some d.

(** The limits are in place in the container's group. *)
Definition limited (o : option string) (h : H) : Prop :=
  match o with
  | Some p => path.dir_ok p /\ p ∈ CgroupFacts.dirs h /\
      (cgroup.allow_missing_controllers allow = false ->
       Forall (fun l => must l = true -> CgroupFacts.value h (path.join p (file l)) = Some (text l)) (limits res))
  | None => Resources.is_empty res = true
  end.

Lemma dirs_ok_same o h h' : dirs_ok o h -> CgroupFacts.dirs h' = CgroupFacts.dirs h -> dirs_ok o h'.
Proof. unfold dirs_ok. by intros Hd ->. Qed.

Lemma limited_same o h h' : limited o h -> same_cgroups h h' -> limited o h'.
Proof.
  intros Hl [D V]. destruct o as [p|]; [|done]. destruct Hl as (Hp & Hi & Hv). split_and!; [done|by rewrite D|].
  intros Ha. specialize (Hv Ha). rewrite Forall_forall in *. intros l Hin Hm. rewrite V. by apply Hv.
Qed.

(** What the undo actions of the launch do. *)
Definition rbC (o : option string) : @network.Rb H :=
  match o with Some p => rollback.push rollback.new "cgroup" (undo_cgroup p) | None => rollback.new end.
Definition rbP (o : option string) (pid : Z) : @network.Rb H :=
  rollback.push (rbC o) "container process" (undo_process pid).

Lemma rbC_undone o h rb' h1 : dirs_ok o h -> rollback.unwind (rbC o) h = ([], rb', h1) -> dirs_ok None h1 /\ calm h h1.
Proof.
  intros Hd U. destruct o as [p|]; [|by injection U as _ <-]. apply unwind_push_clean in U as (h2 & E & [= _ <-]).
  split; [|by eapply pres_eq; [apply undo_cgroup_calm|exact E]].
  unfold undo_cgroup in E. rewrite hm_bind_eq in E. destruct (attach_spec p h) as (r & h3 & Ea & D3 & Hp). rewrite Ea in E.
  destruct r as [c|e]; [|done]. destruct (group_remove_spec c h3) as (r & h4 & Er & D4). rewrite Er in E. injection E as -> ->.
  unfold removed_at in D4. cbn [is_ok] in D4. rewrite Hp, D3 in D4. intros d Hd2. rewrite D4 in Hd2.
  apply elem_of_difference in Hd2 as [Hd2 Hne]. destruct (Hd d Hd2) as [?|[?|[= ->]]]; [by left|by right; left|].
  exfalso. apply Hne. by apply elem_of_singleton.
Qed.

Lemma undo_process_spec pid h r h1 : undo_process pid h = (r, h1) ->
  r = Ok tt /\ proc_frame h h1 /\ children h1 ⊆ children h /\ (pid ∉ children h1) /\ sent h1 = sent h.
Proof.
  unfold undo_process. rewrite hm_bind_eq. intros E.
  assert (exists h2, host.ignore (kill_pid pid SIGKILL) h = (Ok tt, h2) /\ quiet_proc h h2) as (h2 & E2 & P & (C & _ & S)).
  { unfold host.ignore, kill_pid. pose proof (kill_rest pid SIGKILL h) as K.
    destruct (sys_kill pid SIGKILL h) as [[e|] h2]; by exists h2. }
  rewrite E2 in E. unfold host.ignore in E. pose proof (wait_rest pid false h2) as (P' & C' & S').
  pose proof (wait_collects pid h2) as W. destruct (wait_child pid false h2) as [r' h3]. cbn [snd] in *.
  injection E as <- <-. split_and!; [done|by etrans|by rewrite <- C|done|congruence].
Qed.

(** No new process; only the fault injected between the clone and the
    registration of its undo action leaves one, the child. *)
Definition no_stray (h : H) : Prop :=
  children h ⊆ children h0 \/
  fault.check f "after_clone" <> Ok tt /\ exists pid, children h ⊆ {[pid]} ∪ children h0.

(** What is left when a launch has been undone. *)
Definition restored (h : H) : Prop := tidy h /\ no_stray h /\ dirs_ok None h.

Lemma rbC_restores o h rb' h1 : tidy h -> no_stray h -> dirs_ok o h ->
  rollback.unwind (rbC o) h = ([], rb', h1) -> restored h1.
Proof.
  intros Ht Hc Hd U. destruct (rbC_undone o h rb' h1 Hd U) as [D C]. pose proof C as (_ & _ & C' & _).
  split_and!; [by apply (tidy_around h), calm_around|by unfold no_stray; rewrite C'|done].
Qed.

Lemma rbP_restores o pid h rb' h1 : tidy h -> children h ⊆ {[pid]} ∪ children h0 -> dirs_ok o h ->
  rollback.unwind (rbP o pid) h = ([], rb', h1) -> restored h1.
Proof.
  intros Ht Hc Hd (h2 & E & U)%unwind_push_clean. destruct (undo_process_spec pid h _ h2 E) as (_ & P & C & Hp & _).
  apply (rbC_restores o h2 rb' h1); [by apply (tidy_around h), proc_around|left; clear -C Hc Hp; set_solver| |done].
  apply (dirs_ok_same o h); [done|]. apply P.
Qed.

(** *** Going through the program *)

Abbreviation LM := (HM (ContainerState.t * (H * @network.Rb H))).

Lemma on_host_inv {A B} (m : HM H A) (k : A -> LM B) st h rb r s1 :
  (on_host m ≫= k) (st, (h, rb)) = (r, s1) ->
  (exists e h2, m h = (Err e, h2) /\ r = Err e /\ s1 = (st, (h2, rb))) \/
  (exists a h2, m h = (Ok a, h2) /\ k a (st, (h2, rb)) = (r, s1)).
Proof.
  rewrite hm_bind_eq. unfold on_host, on_net, network.act. cbn [fst snd].
  destruct (m h) as [[a|e] h2]; [by right; exists a, h2|]. intros [= <- <-]. left. by exists e, h2.
Qed.

Lemma undo_bind {B} name u (k : unit -> LM B) st h rb :
  (undo name u ≫= k) (st, (h, rb)) = k tt (st, (h, rollback.push rb name u)).
Proof. done. Qed.
Lemma update_bind {B} g (k : unit -> LM B) (st : ContainerState.t) (x : H * @network.Rb H) :
  (update g ≫= k) (st, x) = k tt (g st, x).
Proof. done. Qed.
Lemma the_state_bind {B} (k : ContainerState.t -> LM B) st (x : H * @network.Rb H) :
  (the_state ≫= k) (st, x) = k st (st, x).
Proof. done. Qed.
Lemma the_host_bind {B} (k : H -> LM B) st h (rb : @network.Rb H) :
  (the_host ≫= k) (st, (h, rb)) = k h (st, (h, rb)).
Proof. done. Qed.
Lemma lift_inv {A B} (x : result A) (k : A -> LM B) s r s1 :
  (host.lift x ≫= k) s = (r, s1) -> (exists e, r = Err e /\ s1 = s) \/ (exists a, x = Ok a /\ k a s = (r, s1)).
Proof.
  rewrite hm_bind_eq. unfold host.lift. destruct x as [a|e]; [by right; exists a|]. intros [= <- <-]. left. by exists e.
Qed.

(** *** Control group and child *)

Context (Hid : util.validate_id (cid cfg) = Ok tt)
        (Hmount : forall mount, fst (cgroup.mount_point h0) = Ok mount -> path.dir_ok mount).

Lemma cg_created r h1 : cgroup.create f allow (cid cfg) res h0 = (r, h1) ->
  match r with
  | Ok c => dirs_ok (Some (cgroup.path c)) h1 /\ limited (Some (cgroup.path c)) h1
  | Err _ => dirs_ok None h1
  end.
Proof.
  intros E. destruct (fst (cgroup.mount_point h0)) as [mount|e] eqn:Em.
  - pose proof (Hmount mount eq_refl) as Hm. pose proof (group_create_spec _ _ _ _ _ _ _ _ Hid Hm Em E) as S.
    cbv zeta in S. destruct r as [c|e'].
    + destruct S as (Hp & Hin & _ & Hd & Hl). rewrite Hp. split.
      * intros d Hd'. apply Hd in Hd'. rewrite !elem_of_union, !elem_of_singleton in Hd'.
        destruct Hd' as [[->| ->]|?]; [by right; right|right; left; by exists mount|by left].
      * split_and!; [|done|done]. apply join_dir_ok; [by apply join_dir_ok|by apply valid_id_name_ok].
    + destruct S as [Hd _]. intros d Hd'. apply Hd in Hd'. rewrite elem_of_union, elem_of_singleton in Hd'.
      destruct Hd' as [->|?]; [right; left; by exists mount|by left].
  - unfold cgroup.create in E. rewrite hm_bind_eq in E. destruct (mount_point_spec h0) as (r0 & h2 & E0 & [D _]).
    rewrite E0 in E, Em. cbn [fst] in Em. subst r0. injection E as <- <-. intros d Hd. rewrite D in Hd. by left.
Qed.

(** Before and after the clone. *)
Definition phaseA (o : option string) (h : H) : Prop := calm h0 h /\ dirs_ok o h.
Definition phaseB (o : option string) (pid : Z) (h : H) : Prop :=
  same_world h0 h /\ net_shrinks h0 h /\ children h = {[pid]} ∪ children h0 /\ sent h = sent h0 /\ dirs_ok o h.
Definition placed_in (o : option string) (pid : Z) (h : H) : Prop :=
  has_clone3 -> forall p, o = Some p -> member h pid = Some p.

Lemma phaseA_quiet o h h' : phaseA o h -> quiet_proc h h' -> phaseA o h'.
Proof.
  intros [C D] Q. split; [by etrans; [exact C|apply quiet_calm]|]. apply (dirs_ok_same o h); [done|]. apply Q.
Qed.
Lemma phaseA_tidy o h : phaseA o h -> tidy h.
Proof.
  intros [C _]. apply (tidy_around h0); [|by apply calm_around]. split; [set_solver|done].
Qed.
Lemma phaseB_quiet o pid h h' : phaseB o pid h -> quiet_proc h h' -> phaseB o pid h'.
Proof.
  intros (W & N & C & S & D) ((W' & N' & G' & V') & (C' & _ & S')).
  split_and!; [by etrans|by etrans|congruence|congruence|by apply (dirs_ok_same o h)].
Qed.
Lemma phaseB_tidy o pid h : phaseB o pid h -> tidy h.
Proof.
  intros (W & N & _). apply (tidy_around h0); [split; [set_solver|done]|]. split; [done|]. by apply world_table.
Qed.
Lemma placed_same o pid h h' : placed_in o pid h -> same_procs h h' -> placed_in o pid h'.
Proof. intros Hp (_ & M & _) Hc p Ho. rewrite M. by apply Hp. Qed.

Lemma make_cgroup_spec st r st' h1 rb :
  make_cgroup f allow (cid cfg) res (st, (h0, rollback.new)) = (r, (st', (h1, rb))) ->
  exists o, rb = rbC o /\ phaseA o h1 /\ ContainerState.id st' = ContainerState.id st /\
  match r with Ok c => o = cgroup.path <$> c /\ limited o h1 | Err _ => o = None end.
Proof.
  unfold make_cgroup. rewrite hm_bind_eq. unfold host.try, on_host, on_net, network.act. cbn [fst snd].
  destruct (cgroup.create f allow (cid cfg) res h0) as [[c|e] h2] eqn:E;
    pose proof (pres_eq _ _ _ _ _ (create_calm f allow (cid cfg) res) E) as C; apply cg_created in E.
  - intros [= <- <- <- <-]. exists (Some (cgroup.path c)). destruct E. by split_and!.
  - destruct (Resources.is_empty res && (exit_code e =? exit.UNSUPPORTED)) eqn:Ee; intros [= <- <- <- <-];
      exists None; split_and!; try done. by apply andb_true_iff in Ee as [Ee _].
Qed.

Lemma start_child_spec st c o h r st' h1 rb : o = cgroup.path <$> c ->
  phaseA o h -> limited o h ->
  start_child f log root (cid cfg) (ContainerConfig.namespaces cfg) c (st, (h, rbC o)) = (r, (st', (h1, rb))) ->
  st' = st /\
  match r with
  | Ok (pid, placed) => rb = rbP o pid /\ phaseB o pid h1 /\ limited o h1 /\ (placed = true -> placed_in o pid h1)
  | Err _ => rb = rbC o /\ (phaseA o h1 \/ fault.check f "after_clone" <> Ok tt /\ exists pid, phaseB o pid h1)
  end.
Proof.
  intros Ho HA HL E. unfold start_child in E.
  assert (Hstep : forall A (m : HM H A) g g' ra, phaseA o g /\ limited o g -> pres quiet_proc m -> m g = (ra, g') ->
                  phaseA o g' /\ limited o g').
  { intros A m g g' ra [PA PL] Hm Eg. pose proof (pres_eq _ _ _ _ _ Hm Eg) as Q. split; [by apply (phaseA_quiet o g)|].
    apply (limited_same o g); [done|]. apply Q. }
  assert (HAL : phaseA o h /\ limited o h) by done. clear HA HL.
  apply on_host_inv in E as [(e & h2 & E2 & -> & [= -> -> ->])|(b & h2 & E2 & E)];
    (eapply Hstep in E2; [|exact HAL|auto]); [by destruct E2; auto|].
  apply on_host_inv in E as [(e & h3 & E3 & -> & [= -> -> ->])|(u & h3 & E3 & E)];
    (eapply Hstep in E3; [|exact E2|auto]); [by destruct E3; auto|].
  apply lift_inv in E as [(e & -> & [= -> -> ->])|(plan & _ & E)]; [by destruct E3; auto|].
  apply on_host_inv in E as [(e & h4 & E4 & -> & [= -> -> ->])|(target & h4 & E4 & E)];
    pose proof E4 as Et; (eapply Hstep in E4; [|exact E3|apply clone_target_quiet]); [by destruct E4; auto|].
  apply on_host_inv in E as [(e & h5 & E5 & -> & [= -> -> ->])|(v & h5 & E5 & E)];
    (eapply Hstep in E5; [|exact E4|auto]); [by destruct E5; auto|].
  destruct E5 as [(C5 & D5) L5].
  apply on_host_inv in E as [(e & h6 & E6 & -> & [= -> -> ->])|(pid & h6 & E6 & E)]; apply clone_spec in E6.
  { split; [done|]. split; [done|]. left. by apply (phaseA_quiet o h5). }
  destruct E6 as [(P6 & S6 & C6) M6]. cbn [spawn.cgroup_fd] in M6.
  assert (phaseB o pid h6) as HB6.
  { destruct C5 as (W5 & N5 & Ch5 & S5'). destruct P6 as (W6 & N6 & G6).
    split_and!; [by etrans|by etrans|congruence|congruence|]. apply (dirs_ok_same o h5); [done|]. apply G6. }
  apply on_host_inv in E as [(e & h7 & E7 & -> & [= -> -> ->])|(w & h7 & E7 & E)];
    unfold check, host.lift in E7; injection E7 as E7 <-.
  { split; [done|]. split; [done|]. right. split; [congruence|by exists pid]. }
  rewrite undo_bind in E. injection E as <- <- <- <-. split; [done|]. split; [done|].
  destruct P6 as (W6 & N6 & G6). split_and!; [done|..].
  - by apply (limited_same o h5).
  - intros Hpl Hc3 p Hop. apply M6; [done|]. destruct target as [d|]; [|done]. f_equal.
    subst o. destruct c as [c|]; [|done]. injection Hop as <-. unfold clone_target in Et.
    apply hm_bind_inv in Et as (rr & g & _ & Et). destruct rr; by inversion Et.
Qed.

Lemma place_child_spec c o placed pid h r h1 : o = cgroup.path <$> c ->
  phaseB o pid h -> limited o h -> (placed = true -> placed_in o pid h) ->
  place_child c placed pid h = (r, h1) ->
  phaseB o pid h1 /\ (r = Ok tt -> limited o h1 /\ placed_in o pid h1).
Proof.
  intros -> HB HL HP E. unfold place_child in E. destruct c as [c|]; [|by injection E as <- <-].
  destruct placed; [by injection E as <- <-; auto|]. unfold cgroup.add_pid in E. rewrite CgroupFacts.write_eq in E.
  set (p := path.join (cgroup.path c) "cgroup.procs") in *.
  pose proof (kf_write_rest p (show_dec pid) h) as (W & N & C & S).
  pose proof (cg_write_dirs p (show_dec pid) h) as D. pose proof (cg_write_value p (show_dec pid) h) as V.
  pose proof (kf_procs (cgroup.path c) pid h) as M. fold p in M.
  destruct (kf_write p (show_dec pid) h) as [w h2]. cbn [fst snd] in *. injection E as <- <-.
  destruct HB as (W0 & N0 & C0 & S0 & D0). split.
  { split_and!; [by etrans|etrans; [exact N0|by apply same_net_shrinks]|congruence|congruence|by apply (dirs_ok_same _ h)]. }
  intros Hr. destruct w as [e|[]]; [done|]. destruct HL as (Hp & Hi & Hv).
  split; [|intros _ q [= <-]; by apply M]. split_and!; [done|by rewrite D|]. intros Ha. specialize (Hv Ha).
  pose proof (limits_names res) as Hn. rewrite Forall_forall in *. intros l Hl Hm. rewrite V, bool_decide_eq_false_2, andb_false_l.
  - by apply Hv.
  - intros Heq. destruct (Hn l Hl) as [Hnl Hne]. by apply path.join_inj in Heq.
Qed.

Definition launched (o : option string) (pid : Z) (P : H -> Prop) (n : NetworkState.t) (nrb : @network.Rb H)
    (h : H) (rb : @network.Rb H) : Prop :=
  rb = rollback.push (stacked (rbP o pid) nrb) "container network" (undo_network root self (cid cfg) n) /\
  all_soft nrb /\ undoable P n nrb /\ P h /\ children h ⊆ {[pid]} ∪ children h0 /\ dirs_ok o h.

Lemma soft_dirs_ok o h h' : soft h h' -> dirs_ok o h -> dirs_ok o h'.
Proof. intros [[D _] _] Hd. by apply (dirs_ok_same o h). Qed.
Lemma soft_children h h' : soft h h' -> children h' = children h.
Proof. by intros [_ (C & _)]. Qed.

Lemma launched_restores o pid P n nrb h rb rb' h1 : launched o pid P n nrb h rb ->
  rollback.unwind rb h = ([], rb', h1) -> restored h1.
Proof.
  intros (-> & HS & (_ & HT & HU) & Hp & Hc & Hd) (h2 & E & U)%unwind_push_clean.
  pose proof (pres_eq _ _ _ _ _ (teardown_soft root self (cid cfg) n) E) as S2. apply HT in E; [|done].
  apply unwind_stacked in U as (f1 & f2 & h3 & rb3 & U1 & U2 & Hf). symmetry in Hf. apply app_eq_nil in Hf as [-> ->].
  pose proof (unwind_pres soft nrb h2 [] rb3 h3 HS U1) as S3.
  apply (rbP_restores o pid h3 rb' h1); [by eapply HU| |by do 2 (eapply soft_dirs_ok; [done|])|done].
  by rewrite (soft_children _ _ S3), (soft_children _ _ S2).
Qed.

(** *** Up to the message that lets init go *)

Context (Hsub : utf8 (NetworkConfig.subnet (ncfg cfg))) (Hwf : leases_wf (tab h0)) (Htab : table_ok (tab h0)).

Lemma phaseB_soft o pid h h' : phaseB o pid h -> soft h h' -> same_world h h' -> net_shrinks h h' -> phaseB o pid h'.
Proof.
  intros (W & N & C & S & D) ([G V] & (C' & _ & S')) W' N'.
  split_and!; [by etrans|by etrans|congruence|congruence|by apply (dirs_ok_same o h)].
Qed.

(** What holds when the set-up is complete. *)
Definition complete (st : ContainerState.t) (run : Running) (h : H) : Prop :=
  let o := cgroup.path <$> cg run in
  sent h = sent h0 /\ limited o h /\ placed_in o (child run) h /\
  files (fs (world h)) !! netstate_path root (cid cfg)
    = Some (json.to_string_pretty (netstate_json (ContainerState.network st))).

(** Nothing is sent to init while undoing, and nothing is committed. *)
Definition still (h h' : H) : Prop := sent h' = sent h.
#[local] Instance still_pre : PreOrder still.
Proof. split; [done|]. intros h1 h2 h3. unfold still. congruence. Qed.
Definition open_stack (rb : @network.Rb H) : Prop :=
  rollback.committed rb = false /\
  Forall (fun a : string * @rollback.Action H => pres still (snd a)) (rollback.actions rb).

Lemma open_push rb name (u : HM H unit) : open_stack rb -> pres still u -> open_stack (rollback.push rb name u).
Proof. intros [C F] Hu. split; [done|]. apply Forall_app. split; [done|]. by apply Forall_singleton. Qed.
Lemma open_rbC o : open_stack (rbC o).
Proof.
  destruct o as [p|]; [|by split]. apply open_push; [by split|]. intros h. apply (undo_cgroup_calm p h).
Qed.
Lemma open_rbP o pid : open_stack (rbP o pid).
Proof.
  apply open_push; [apply open_rbC|]. intros h. destruct (undo_process pid h) as [r h1] eqn:E. by apply undo_process_spec in E as (_ & _ & _ & _ & ?).
Qed.
Lemma soft_still h h' : soft h h' -> still h h'.
Proof. by intros [_ (_ & _ & S)]. Qed.
Lemma open_stacked o pid nrb : all_soft nrb -> open_stack (stacked (rbP o pid) nrb).
Proof.
  intros HS. destruct (open_rbP o pid) as [C F]. split; [done|]. apply Forall_app. split; [done|].
  eapply Forall_impl; [exact HS|]. intros a Ha h. by apply soft_still, Ha.
Qed.
Lemma open_launched o pid P n nrb h rb : launched o pid P n nrb h rb -> open_stack rb.
Proof.
  intros (-> & HS & _). apply open_push; [by apply open_stacked|]. intros h2. by apply soft_still, teardown_soft.
Qed.

Lemma unwound_still rb h : open_stack rb -> still h (rollback.drop rb h).
Proof.
  intros [C F]. unfold rollback.drop. rewrite C. destruct (negb (rollback.is_empty rb)); [|done]. cbn [negb andb].
  destruct (rollback.unwind rb h) as [[fl rb'] h1] eqn:E. exact (unwind_pres still rb h fl rb' h1 F E).
Qed.
Lemma drop_unwind rb h fl rb' h1 : open_stack rb -> rollback.unwind rb h = (fl, rb', h1) -> rollback.drop rb h = h1.
Proof.
  intros [C _] U. unfold rollback.drop. rewrite C, U. destruct (rollback.is_empty rb) eqn:E; [|done].
  destruct rb as [[|a l] c]; [|done]. by injection U as _ _ <-.
Qed.

(** What keeps a launch that is set up as it is. *)
Lemma launched_step o pid P n nrb h h' rb : launched o pid P n nrb h rb -> around h h' ->
  children h' = children h -> CgroupFacts.dirs h' = CgroupFacts.dirs h -> launched o pid P n nrb h' rb.
Proof.
  intros (-> & HS & HU & Hp & Hc & Hd) A C D. do 3 (split; [done|]). split; [by apply (proj1 HU h)|].
  split; [by rewrite C|]. by apply (dirs_ok_same o h).
Qed.
Lemma launched_soft o pid P n nrb h h' rb : launched o pid P n nrb h rb -> soft h h' -> around h h' ->
  launched o pid P n nrb h' rb.
Proof. intros HL [[D _] (C & _)] A. by apply (launched_step o pid P n nrb h). Qed.

(** The files of the container. *)
Lemma container_file_around i n data h r h1 : path.name_ok i -> path.name_ok n ->
  on_files (ufs.write_atomic self (path.join (Store.dir root i) n) data) h = (r, h1) ->
  soft h h1 /\ around h h1 /\
  (r = Ok tt -> files (fs (world h1)) !! path.join (Store.dir root i) n = Some data).
Proof.
  intros Hi Hn E. split; [by eapply pres_eq; [apply on_files_soft|exact E]|].
  pose proof (pres_eq _ _ _ _ _ (on_files_net _) E) as N. unfold on_files in E.
  pose proof (container_file_keeps i n data (world h) Hi Hn) as K.
  destruct (ufs.write_atomic self _ data (world h)) as [rw w] eqn:Ea. injection E as -> <-. split.
  - apply net_table_around; [done|]. unfold same_table. rewrite world_set. by apply keeps_table.
  - intros ->. rewrite world_set. pose proof (dir_dir_ok root Hroot i Hi) as Hdd.
    by destruct (write_atomic.write_atomic_spec self _ _ _ eq_refl (write_atomic.tmp_path_ne self _ _ Hdd Hn) _ _ _ Ea) as (_ & ? & _).
Qed.

(** The child is there: what follows up to the network. *)
Lemma child_failed o pid h : phaseB o pid h ->
  sent h = sent h0 /\ forall rb' h2, rollback.unwind (rbP o pid) h = ([], rb', h2) -> restored h2.
Proof.
  intros HB. split; [apply HB|]. intros rb' h' U. eapply rbP_restores; [by eapply phaseB_tidy| |apply HB|exact U].
  destruct HB as (_ & _ & -> & _). done.
Qed.

(** The network. *)
Lemma network_spec o pid h st r h1 rb : phaseB o pid h ->
  on_net (network.setup_host f root self cfg pid) (st, (h, rbP o pid)) = (r, (st, (h1, rb))) ->
  sent h1 = sent h0 /\ soft h h1 /\
  match r with
  | Ok n => exists P nrb, rb = stacked (rbP o pid) nrb /\
      launched o pid P n nrb h1 (rollback.push rb "container network" (undo_network root self (cid cfg) n))
  | Err _ => open_stack rb /\ forall rb' h2, rollback.unwind rb h1 = ([], rb', h2) -> restored h2
  end.
Proof.
  intros HB E. unfold on_net in E. cbn [fst snd] in E.
  destruct (setup_adds f root self cfg pid h (rbP o pid)) as (rn & h6 & nrb & En & En' & S6). rewrite En' in E.
  injection E as <- <- <-. pose proof HB as (W5 & N5 & C5 & S5 & D5).
  destruct (setup_stage pid h rn h6 nrb Hid Hsub Hwf Htab (proj1 N5) (world_table _ _ _ W5) En) as [HS Hn].
  assert (Hc6 : children h6 ⊆ {[pid]} ∪ children h0) by (by rewrite (soft_children _ _ S6), C5).
  assert (Hd6 : dirs_ok o h6) by (by eapply soft_dirs_ok).
  split; [by rewrite (soft_still _ _ S6)|]. split; [done|]. destruct rn as [n|e].
  - destruct Hn as (P & HP & HU). exists P, nrb. by split.
  - split; [by apply open_stacked|]. intros rb' h' U.
    apply unwind_stacked in U as (f1 & f2 & h7 & rb7 & U1 & U2 & Hf). symmetry in Hf. apply app_eq_nil in Hf as [-> ->].
    pose proof (unwind_pres soft nrb h6 [] rb7 h7 HS U1) as S7.
    eapply (rbP_restores o pid h7); [by eapply Hn| |by eapply soft_dirs_ok|exact U2]. by rewrite (soft_children _ _ S7).
Qed.

(** A launch that stopped there. *)
Definition failed_at (h : H) (rb : @network.Rb H) : Prop :=
  sent h = sent h0 /\ open_stack rb /\ forall rb' h2, rollback.unwind rb h = ([], rb', h2) -> restored h2.

Lemma launch_prepare_spec st r st' h1 rb : ContainerState.id st = cid cfg ->
  prepare f allow log root self cfg (st, (h0, rollback.new)) = (r, (st', (h1, rb))) ->
  match r with
  | Ok run => ContainerState.id st' = cid cfg /\
      (exists o P n nrb, launched o (child run) P n nrb h1 rb) /\ complete st' run h1
  | Err _ => failed_at h1 rb
  end.
Proof.
  intros Hst E. unfold prepare in E. rewrite the_state_bind in E. cbv zeta in E. rewrite Hst in E.
  rewrite hm_bind_eq in E. destruct (make_cgroup _ _ _ _ _) as [rc [st1 [h2 rbc]]] eqn:Ec.
  apply make_cgroup_spec in Ec as (o & -> & HA & Hid1 & Hrc). destruct rc as [c|e].
  2: { injection E as <- <- <- <-. subst o. split_and!; [apply HA|apply open_rbC|]. intros rb' h' [= _ <-].
       split_and!; [by eapply phaseA_tidy|left; by destruct HA as [(_ & _ & -> & _) _]|apply HA]. }
  destruct Hrc as [Ho HL]. rewrite hm_bind_eq in E.
  destruct (start_child _ _ _ _ _ _ _) as [rs [st2 [h3 rbs]]] eqn:Es.
  destruct (start_child_spec st1 c o h2 rs st2 h3 rbs Ho HA HL Es) as [-> Hs]. destruct rs as [[pid placed]|e].
  2: { injection E as <- <- <- <-. destruct Hs as [-> [HA3|(Hc & pid & HB)]]; (split_and!; [|apply open_rbC|intros rb' h' U]).
       - apply HA3.
       - eapply (rbC_restores o); [by eapply phaseA_tidy| |apply HA3|exact U]. left. by destruct HA3 as [(_ & _ & -> & _) _].
       - apply HB.
       - eapply (rbC_restores o); [by eapply phaseB_tidy| |apply HB|exact U]. right. split; [done|]. exists pid.
         by destruct HB as (_ & _ & -> & _). }
  destruct Hs as (-> & HB & HL3 & HP3).
  assert (Hfail : forall h, phaseB o pid h -> failed_at h (rbP o pid)).
  { intros h HBh. destruct (child_failed o pid h HBh). split_and!; [done|apply open_rbP|done]. }
  apply on_host_inv in E as [(e & h4 & E4 & -> & [= -> -> ->])|([] & h4 & E4 & E)];
    apply (place_child_spec c o placed pid h3 _ h4 Ho HB HL3 HP3) in E4 as [HB4 HL4]; [by apply Hfail|].
  destruct (HL4 eq_refl) as [HL4' HP4]. clear HL4. rewrite the_host_bind, update_bind in E.
  apply on_host_inv in E as [(e & h5 & E5 & -> & [= -> -> ->])|(v & h5 & E5 & E)];
    pose proof (pres_eq _ _ _ _ _ (expect_quiet ipc.TAG_READY) E5) as Q5;
    assert (HB5 : phaseB o pid h5) by (by apply (phaseB_quiet o pid h4)); [by apply Hfail|].
  rewrite hm_bind_eq in E. set (st2 := ContainerState.set_init _ _ _) in E.
  destruct (on_net _ _) as [rn [st2' [h6 rb6]]] eqn:En. assert (st2' = st2) as ->.
  { unfold on_net in En. cbn [fst snd] in En. destruct (network.setup_host _ _ _ _ _ _). by injection En as _ <- _. }
  destruct (network_spec o pid h5 st2 rn h6 rb6 HB5 En) as (Hs6 & S6 & Hn). destruct rn as [n|e].
  2: { injection E as <- <- <- <-. by destruct Hn. }
  destruct Hn as (P & nrb & -> & HLa). rewrite update_bind, undo_bind, the_state_bind in E.
  set (st3 := ContainerState.set_network _ n) in *.
  assert (Hi3 : ContainerState.id st3 = cid cfg) by (unfold st3, st2; cbn; by rewrite Hid1, Hst).
  apply on_host_inv in E. unfold write_netstate, netstate_path in E. rewrite Hi3 in E.
  assert (Hni : path.name_ok (cid cfg)) by (by apply valid_id_name_ok).
  assert (Hnn : path.name_ok "netstate.json") by done.
  destruct E as [(e & h7 & E7 & -> & [= -> -> ->])|([] & h7 & E7 & E)];
    destruct (container_file_around _ _ _ _ _ _ Hni Hnn E7) as (S7 & A7 & Hfile);
    pose proof (launched_soft _ _ _ _ _ _ _ _ HLa S7 A7) as HL7; pose proof (soft_still _ _ S7) as Hs7; unfold still in Hs7.
  { split_and!; [congruence|by eapply open_launched|]. intros rb' h' U. by eapply launched_restores. }
  injection E as <- <- <- <-. split; [done|]. split; [by exists o, P, n, nrb|].
  unfold complete. cbn [cg child]. rewrite <- Ho. split_and!.
  - congruence.
  - apply (limited_same o h6); [|apply S7]. apply (limited_same o h5); [|apply S6]. apply (limited_same o h4); [done|apply Q5].
  - apply (placed_same o pid h6); [|apply S7]. apply (placed_same o pid h5); [|apply S6].
    apply (placed_same o pid h4); [done|apply Q5].
  - by apply Hfile.
Qed.

(** *** From there on *)

Lemma save_around st h r h1 : ContainerState.id st = cid cfg ->
  on_files (Store.save root self st) h = (r, h1) -> soft h h1 /\ around h h1.
Proof.
  intros Hst E. split; [by eapply pres_eq; [apply on_files_soft|exact E]|].
  pose proof (pres_eq _ _ _ _ _ (on_files_net _) E) as N. apply net_table_around; [done|].
  assert (Hni : path.name_ok (cid cfg)) by (by apply valid_id_name_ok).
  unfold on_files, Store.save, Store.state_path, mbind, M_bind in E. rewrite Hst in E. unfold same_table.
  pose proof (mkdir_p_keeps (ipam.state_path root) (Store.dir root (cid cfg)) (world h)) as K1.
  destruct (ufs.mkdir_p _ _) as [[u|e] w1]; cbn [snd] in K1; [|injection E as _ <-; rewrite world_set; by apply keeps_table].
  pose proof (container_file_keeps (cid cfg) "state.json" (json.to_string_pretty (ContainerState.to_json st)) w1 Hni ltac:(done)) as K2.
  destruct (ufs.write_atomic _ _ _ w1) as [r2 w2].
  injection E as _ <-. rewrite world_set. apply keeps_table. by eapply keeps_trans.
Qed.

Lemma let_go_spec o P n nrb run st h r st' h1 rb rb1 : ContainerState.id st = cid cfg ->
  launched o (child run) P n nrb h rb ->
  let_go f root self run (st, (h, rb)) = (r, (st', (h1, rb1))) ->
  rb1 = rb /\ launched o (child run) P n nrb h1 rb /\ (sent h1 = sent h \/ sent h1 = sent h ++ [ipc.TAG_GO]) /\
  match r with
  | Ok run' => run' = run /\ ContainerState.status st' = Status.Running /\
      exists h2 w, on_files (Store.save root self st') h2 = (Ok tt, h1) /\ w = world h1
  | Err _ => True
  end.
Proof.
  intros Hst HL E. unfold let_go in E.
  apply on_host_inv in E as [(e & h2 & E2 & -> & [= -> -> ->])|(u & h2 & E2 & E)];
    pose proof (send_rest ipc.TAG_GO h) as (P2 & C2 & _); rewrite E2 in P2, C2; cbn [snd] in P2, C2;
    assert (HL2 : launched o (child run) P n nrb h2 rb) by
      (apply (launched_step o (child run) P n nrb h); [done|by apply proc_around|done|apply P2]).
  { apply send_failed in E2. split; [done|]. split; [done|]. auto. }
  apply send_ok in E2. assert (HS : sent h2 = sent h \/ sent h2 = sent h ++ [ipc.TAG_GO]) by auto.
  apply on_host_inv in E as [(e & h3 & E3 & -> & [= -> -> ->])|(v & h3 & E3 & E)];
    pose proof (pres_eq _ _ _ _ _ (expect_quiet ipc.TAG_STARTED) E3) as Q3;
    assert (HL3 : launched o (child run) P n nrb h3 rb) by
      (apply (launched_step o (child run) P n nrb h2); [done|by apply quiet_around|apply Q3|apply Q3]);
    assert (HS3 : sent h3 = sent h \/ sent h3 = sent h ++ [ipc.TAG_GO]) by (destruct Q3 as [_ (_ & _ & ->)]; done);
    [done|].
  rewrite the_state_bind, the_host_bind in E.
  apply lift_inv in E as [(e & -> & [= -> -> ->])|(st2 & Et & E)]; [done|].
  rewrite update_bind, the_state_bind in E. set (st3 := ContainerState.set_error st2 None) in *.
  assert (Hi3 : ContainerState.id st3 = cid cfg /\ ContainerState.status st3 = Status.Running).
  { unfold ContainerState.transition in Et. unfold st3. destruct (decide _) as [Hd|]; [injection Et as <-; by split; cbn|].
    destruct (negb _); [done|]. injection Et as <-. cbn. by destruct (_ =? 0). }
  apply on_host_inv in E as [(e & h4 & E4 & -> & [= -> -> ->])|([] & h4 & E4 & E)];
    destruct (save_around _ _ _ _ (proj1 Hi3) E4) as [S4 A4];
    pose proof (launched_soft _ _ _ _ _ _ _ _ HL3 S4 A4) as HL4;
    assert (HS4 : sent h4 = sent h \/ sent h4 = sent h ++ [ipc.TAG_GO]) by (by rewrite (soft_still _ _ S4));
    [done|].
  apply on_host_inv in E as [(e & h5 & E5 & -> & [= -> -> ->])|(w & h5 & E5 & E)];
    unfold check, host.lift in E5; injection E5 as _ <-; [done|].
  injection E as <- <- <- <-. split; [done|]. split; [done|]. split; [done|]. split; [done|]. split; [apply Hi3|].
  by exists h3, (world h4).
Qed.


(** C12: Init is let go last.  Whenever a launch sends anything to the
    container's init, it is one message [GO], and at that moment every limit of
    the configuration is in place in the container's control group, init is in
    that group (on a kernel with [clone3]), and [netstate.json] describes the
    network that was set up; without a group no limit was asked for.  (With
    [MYRUN_ALLOW_MISSING_CONTROLLERS] set, limits whose controller is missing
    are skipped.) *)
Theorem init_let_go_last st r st' h' :
  ContainerState.id st = cid cfg -> ContainerState.config st = cfg ->
  launch f allow log root self st h0 = (r, st', h') -> sent h' <> sent h0 ->
  sent h' = sent h0 ++ [ipc.TAG_GO] /\
  exists run stg hg rbg,
    prepare f allow log root self cfg (st, (h0, rollback.new)) = (Ok run, (stg, (hg, rbg))) /\ complete stg run hg.
Proof.
  intros Hst Hcfg E Hs. unfold launch in E. destruct (negb _); [by injection E as _ _ <-|]. rewrite Hcfg in E.
  unfold launch_body in E. rewrite hm_bind_eq in E. destruct (prepare _ _ _ _ _ _ _) as [rp [st2 [h3 rb2]]] eqn:Ep.
  pose proof Ep as Ep'. apply launch_prepare_spec in Ep'; [|done]. destruct rp as [run|e2].
  2: { injection E as _ _ <-. destruct Ep' as (Hs3 & Ho & _). pose proof (unwound_still rb2 h3 Ho) as S. unfold still in S. congruence. }
  destruct Ep' as (Hi & (o & P & n & nrb & HL) & Hcm). rewrite hm_bind_eq in E.
  destruct (let_go _ _ _ _ _) as [rl [st3 [h4 rb3]]] eqn:El.
  destruct (let_go_spec o P n nrb run st2 h3 rl st3 h4 rb2 rb3 Hi HL El) as (-> & HL4 & HS & _).
  assert (sent h' = sent h4) as Eq.
  { destruct rl as [run'|e3]; [by injection E as _ _ <-|]. injection E as _ _ <-.
    exact (unwound_still rb2 h4 (open_launched _ _ _ _ _ _ _ HL4)). }
  rewrite Eq in Hs |- *. pose proof Hcm as (Hs3 & _). rewrite Hs3 in HS. destruct HS as [HS|HS]; [congruence|]. split; [done|].
  by exists run, st2, h3, rb2.
Qed.
End launch.
End facts.
