(* ===== verification/Machine.v ===== *)
(** * A machine on which the theorems about the whole host are tried

    The interfaces and the packet filter of [NetworkFacts.lan], the control
    groups of [CgroupFacts.hierarchy], and children that answer what a script
    says. *)
From S2P Require Import Prelude RustStr Num Utf8 Error Json Rollback Fault Util Process Config ConfigFacts State StateFacts Fs FsTree Host KernFs NatRules NatFacts Cgroup CgroupFacts Network NetworkFacts Ipc IpcFacts Spawn Store StoreFacts Ipam IpamFacts Supervisor Loop Shim Lifecycle Steady Evolve LifecycleFacts Waiting ShimFacts SupervisorFacts.

Module machine.

Record host := mk {
  lan : lan.host;
  cgr : hierarchy.host;
  kids : list Z;                       (** children not waited for *)
  groups_of : list (string * string);  (** process (as text) and group *)
  outbox : list ascii;                 (** tags sent to init *)
  inbox : list (ascii * string);       (** frames init sends *)
  next_pid : Z;
  clone3 : bool;                       (** the kernel has [clone3] *)
  zombies : list Z;                    (** children that were killed *)
  clock : Z;                           (** milliseconds since boot *)
  says : string                        (** what the shim wrote and nobody read yet *)
}.

Definition set_lan (l : NetworkFacts.lan.host) (h : host) : host :=
  mk l (cgr h) (kids h) (groups_of h) (outbox h) (inbox h) (next_pid h) (clone3 h) (zombies h) (clock h) (says h).
Definition set_cgr (c : hierarchy.host) (h : host) : host :=
  mk (lan h) c (kids h) (groups_of h) (outbox h) (inbox h) (next_pid h) (clone3 h) (zombies h) (clock h) (says h).
Definition set_procs (k : list Z) (g : list (string * string)) (n : Z) (h : host) : host :=
  mk (lan h) (cgr h) k g (outbox h) (inbox h) n (clone3 h) (zombies h) (clock h) (says h).
Definition set_chan (o : list ascii) (i : list (ascii * string)) (h : host) : host :=
  mk (lan h) (cgr h) (kids h) (groups_of h) o i (next_pid h) (clone3 h) (zombies h) (clock h) (says h).
Definition set_times (z : list Z) (c : Z) (h : host) : host :=
  mk (lan h) (cgr h) (kids h) (groups_of h) (outbox h) (inbox h) (next_pid h) (clone3 h) z c (says h).
Definition set_says (s : string) (h : host) : host :=
  mk (lan h) (cgr h) (kids h) (groups_of h) (outbox h) (inbox h) (next_pid h) (clone3 h) (zombies h) (clock h) s.

(** ** Interfaces, packet filter and files *)

#[export] Instance machine_world : HasWorld host := {
  world h := world (lan h); set_world w h := set_lan (set_world w (lan h)) h }.
#[export] Instance machine_world_laws : HasWorldLaws host.
Proof. split; [done| |done]. by intros [[[w l] i p] c k g o b n c3 z t y]. Qed.

#[export] Instance machine_iptables : Iptables host := fun args h =>
  let '(o, s) := iptables args (lan h) in (o, set_lan s h).

#[export] Instance machine_ipt_laws : IptablesLaws host.
Proof.
  refine {| rules h t := rules (lan h) t; canon := canon (H := NetworkFacts.lan.host); NatFacts.healthy _ := True |}.
  - apply canon_comment.
  - intros args h t. pose proof (ipt_failed args (lan h) t) as L. unfold iptables, machine_iptables.
    by destruct (iptables args (lan h)).
  - intros table op args h t Hop. pose proof (ipt_query table op args (lan h) t Hop) as L.
    unfold iptables, machine_iptables. by destruct (iptables _ (lan h)).
  - intros table h out err h' Hpl. unfold iptables at 1, machine_iptables.
    destruct (iptables _ (lan h)) as [o s] eqn:E. intros [= -> <-]. by eapply ipt_list.
  - intros table op args h Hop. pose proof (ipt_add table op args (lan h) Hop) as L.
    unfold iptables, machine_iptables. by destruct (iptables _ (lan h)).
  - intros table r h Hr. pose proof (ipt_delete table r (lan h) Hr) as L.
    unfold iptables, machine_iptables. by destruct (iptables _ (lan h)).
  - done.
  - intros table h _ Ht. pose proof (healthy_list table (lan h) I Ht) as L.
    unfold iptables, machine_iptables. by destruct (iptables _ (lan h)).
  - intros table args h _. pose proof (healthy_check table args (lan h) I) as L.
    unfold iptables, machine_iptables. by destruct (iptables _ (lan h)).
  - intros table r h _ Hr. pose proof (healthy_delete table r (lan h) I Hr) as L.
    unfold iptables, machine_iptables. by destruct (iptables _ (lan h)).
Defined.

#[export] Instance machine_links : Links host := fun q h =>
  let '(r, l) := netlink q (lan h) in (r, set_lan l h).

(** A request on the machine is one on its network. *)
Lemma netlink_inv q h r h' : netlink q h = (r, h') -> exists l, netlink q (lan h) = (r, l) /\ h' = set_lan l h.
Proof. unfold netlink at 1, machine_links. destruct (netlink q (lan h)) as [r' l]. intros [= <- <-]. by exists l. Qed.
Lemma netlink_lan q h : lan (snd (netlink q h)) = snd (netlink q (lan h)).
Proof. unfold netlink at 1, machine_links. by destruct (netlink q (lan h)). Qed.

#[export] Instance machine_links_laws : LinksLaws host.
Proof.
  refine {| names h := names (lan h); index_of h := index_of (lan h); paired h := paired (lan h) |}.
  - intros q h e h' (l & E & ->)%netlink_inv. by eapply nl_failed.
  - intros name h o h' E. apply (netlink_inv (LinkIndex name)) in E as (l & E & ->). by eapply nl_index.
  - intros q h. pose proof (nl_quiet q (lan h)) as L. destruct q; try done; cbv zeta; rewrite ?netlink_lan; exact L.
  - intros name h u h' (l & E & ->)%(netlink_inv (CreateBridge name)). by eapply nl_bridge.
  - intros a b h u h' (l & E & ->)%(netlink_inv (CreateVeth a b)). by eapply nl_veth.
  - intros name i h u h' Hi (l & E & ->)%(netlink_inv (DeleteLink i)). by eapply nl_delete.
  - intros a b i h u h' Hi Hp (l & E & ->)%(netlink_inv (DeleteLink i)). by eapply nl_delete_pair.
  - intros h n. apply nl_index_names.
  - intros i pid new h u h' (l & E & ->)%(netlink_inv (MoveToNetns i pid new)). by eapply nl_move.
  - intros h. apply nl_one_pair.
  - intros h. apply nl_index_inj.
  - intros q h t. pose proof (nl_rules q (lan h) t) as L. by rewrite <- netlink_lan in L.
  - done.
  - intros q h. pose proof (nl_world q (lan h)) as L. by rewrite <- netlink_lan in L.
  - intros args h. pose proof (ipt_world args (lan h)) as L. unfold iptables, machine_iptables. by destruct (iptables args (lan h)).
  - intros args h. pose proof (ipt_names args (lan h)) as L. unfold iptables, machine_iptables. by destruct (iptables args (lan h)).
  - done.
  - done.
  - done.
Defined.

(** ** Control groups *)

Definition on_cgr {A : Type} (m : hierarchy.host -> A * hierarchy.host) (h : host) : A * host :=
  let '(a, c) := m (cgr h) in (a, set_cgr c h).

#[export] Instance machine_kf : KernFs host := {|
  kf_read p := on_cgr (kf_read p);
  kf_write p v h :=
    let '(a, c) := kf_write p v (cgr h) in
    let h := set_cgr c h in
    (a, match a, path.file_name p, path.parent p with
        | inr _, Some "cgroup.procs", Some d => set_procs (kids h) ((v, d) :: groups_of h) (next_pid h) h
        | _, _, _ => h
        end);
  kf_mkdir p := on_cgr (kf_mkdir p);
  kf_rmdir p := on_cgr (kf_rmdir p);
  kf_read_dir p := on_cgr (kf_read_dir p);
  kf_exists p h := kf_exists p (cgr h);
  kf_is_dir p h := kf_is_dir p (cgr h);
  kf_message h := kf_message (cgr h)
|}.

#[export] Instance machine_processes : Processes host := {|
  sys_kill pid _ h := (None, set_times (pid :: zombies h) (clock h) h);
  sleep_ms ms h := set_times (zombies h) (clock h + ms) h
|}.

Lemma on_cgr_inv {A} (m : hierarchy.host -> A * hierarchy.host) h a h' :
  on_cgr m h = (a, h') -> exists c, m (cgr h) = (a, c) /\ h' = set_cgr c h.
Proof. unfold on_cgr. destruct (m (cgr h)) as [a' c]. intros [= <- <-]. by exists c. Qed.

Lemma on_cgr_cgr {A} (m : hierarchy.host -> A * hierarchy.host) h : cgr (snd (on_cgr m h)) = snd (m (cgr h)).
Proof. unfold on_cgr. by destruct (m (cgr h)). Qed.

Lemma write_cgr p v h : cgr (snd (kf_write p v h)) = snd (kf_write p v (cgr h)) /\
  fst (kf_write p v h) = fst (kf_write p v (cgr h)).
Proof. unfold kf_write at 1 3. cbn. destruct (hierarchy.known _ _); cbn; repeat case_match; done. Qed.

#[export] Instance machine_cg_laws : CgroupLaws host.
Proof.
  refine {| CgroupFacts.dirs h := CgroupFacts.dirs (cgr h); CgroupFacts.value h := CgroupFacts.value (cgr h);
            idle h := idle (cgr h) |}.
  - intros p h. exact (cg_exists p (cgr h)).
  - intros p h. exact (cg_is_dir p (cgr h)).
  - intros p h. cbv zeta. change (kf_read p h) with (on_cgr (kf_read p) h). rewrite on_cgr_cgr. apply cg_read_keeps.
  - intros p h. cbv zeta. change (kf_read_dir p h) with (on_cgr (kf_read_dir p) h). rewrite on_cgr_cgr. apply cg_read_dir_keeps.
  - intros p v h. rewrite (proj1 (write_cgr p v h)). apply cg_write_dirs.
  - intros p v h f. rewrite (proj1 (write_cgr p v h)), (proj2 (write_cgr p v h)). apply cg_write_value.
  - intros p v h q. rewrite (proj1 (write_cgr p v h)). apply cg_write_idle.
  - intros p h h' (c & E & ->)%on_cgr_inv. by apply cg_mkdir_ok in E.
  - intros p h e h' (c & E & ->)%on_cgr_inv. by apply cg_mkdir_failed in E.
  - intros p h h' (c & E & ->)%on_cgr_inv. by apply cg_rmdir_ok in E.
  - intros p h e h' (c & E & ->)%on_cgr_inv. by apply cg_rmdir_failed in E.
  - intros p h f. change (kf_mkdir p h) with (on_cgr (kf_mkdir p) h). rewrite on_cgr_cgr. apply cg_mkdir_value.
  - intros p h f. change (kf_rmdir p h) with (on_cgr (kf_rmdir p) h). rewrite on_cgr_cgr. apply cg_rmdir_value.
  - intros p h Hp Hi. destruct (cg_rmdir_idle p (cgr h) Hp Hi) as [c E]. exists (set_cgr c h).
    change (kf_rmdir p h) with (on_cgr (kf_rmdir p) h). unfold on_cgr. by rewrite E.
  - done.
  - done.
Defined.

(** ** Children *)

Definition born (o : option string) (h : host) : (Z + Z) * host :=
  let pid := next_pid h in
  (inr pid, set_procs (pid :: kids h)
              (match o with Some d => (show_dec pid, d) :: groups_of h | None => groups_of h end) (pid + 1) h).

(** A line of [/proc/<pid>/stat]; every process started at the same tick. *)
Definition stat_text (zombie : bool) : string :=
  "1 (myrun-init) " +:+ (if zombie then "Z" else "S") +:+ " 1 1 1 0 -1 0 0 0 0 0 0 0 0 0 20 0 1 0 987654".

#[export] Instance machine_spawner : Spawner host := {|
  now_ms _ := 1000;
  instant_ms := clock;
  proc_stat pid h :=
    if bool_decide (pid ∈ kids h) then Some (stat_text (bool_decide (pid ∈ zombies h))) else None;
  wait_child pid nohang h :=
    if (nohang : bool) then (Ok None, h)
    else (Ok (Some (pid, process.MkExit (Some 0) None)),
          set_procs (filter (fun k => k <> pid) (kids h)) (groups_of h) (next_pid h) h);
  seal_self h := (Ok true, h);
  channel_pair h := (Ok tt, h);
  dup_high h := (Ok tt, h);
  open_dir _ h := (Ok tt, h);
  sys_clone3 _ c _ h := if clone3 h then born c h else (inl spawn.ENOSYS, h);
  sys_clone _ _ h := born None h;
  ch_send t h := (Ok tt, set_chan (outbox h ++ [t]) (inbox h) h);
  ch_recv h := match inbox h with
               | m :: l => (Ok (Some m), set_chan (outbox h) l h)
               | [] => (Ok None, h)
               end
|}.

#[export] Instance machine_view : ProcView host := {|
  children h := list_to_set (kids h);
  member h pid := snd <$> List.find (fun kv => bool_decide (fst kv = show_dec pid)) (groups_of h);
  sent := outbox
|}.

Lemma cgr_rest {A} (m : hierarchy.host -> A * hierarchy.host) h :
  let h' := snd (on_cgr m h) in same_world h h' /\ same_net h h' /\ same_procs h h'.
Proof. unfold on_cgr. by destruct (m (cgr h)). Qed.

Lemma lan_rest l h : same_cgroups h (set_lan l h) /\ same_procs h (set_lan l h).
Proof. done. Qed.

Lemma proc_refl h k g n o i : proc_frame h (set_chan o i (set_procs k g n h)).
Proof. done. Qed.

Lemma born_rest o h : proc_frame h (snd (born o h)) /\ sent (snd (born o h)) = sent h /\
  children (snd (born o h)) = {[next_pid h]} ∪ children h.
Proof. done. Qed.

#[export] Instance machine_laws : HostLaws host.
Proof.
  split.
  - intros p h. apply (cgr_rest (kf_read p)).
  - intros p h. apply (cgr_rest (kf_read_dir p)).
  - intros p h. apply (cgr_rest (kf_mkdir p)).
  - intros p h. apply (cgr_rest (kf_rmdir p)).
  - intros p v h. unfold kf_write. cbn. destruct (hierarchy.known _ _); cbn; repeat case_match; done.
  - intros d pid h h' Hd. unfold kf_write. cbn. rewrite path.parent_join, path.file_name_join by done. cbn.
    destruct (hierarchy.known d (cgr h)); [|done]. intros [= <-]. cbn. by rewrite bool_decide_eq_true_2.
  - intros q h. unfold netlink, machine_links. destruct (netlink q (lan h)). apply lan_rest.
  - intros args h. unfold iptables, machine_iptables. destruct (iptables args (lan h)). apply lan_rest.
  - intros w h. apply lan_rest.
  - done.
  - done.
  - done.
  - done.
  - done.
  - done.
  - intros h. cbn. by destruct (inbox h).
  - done.
  - by intros t h u h' [= <- <-].
  - done.
  - done.
  - intros fl c pl h. cbn. by destruct (clone3 h).
  - intros fl pl h pid h' [= <- <-]. done.
  - done.
  - intros fl c pl h pid h'. cbn. destruct (clone3 h); [|done]. intros [= <- <-]. split; [done|].
    intros d ->. cbn. by rewrite bool_decide_eq_true_2.
  - intros fl c pl h e h'. cbn. destruct (clone3 h); [done|]. by intros [= _ <-].
  - intros pid nohang h. cbn. destruct nohang; [done|]. split; [done|]. split; [|done]. cbn.
    intros x. rewrite !elem_of_list_to_set, list_elem_of_filter. tauto.
  - intros pid h. cbn. rewrite elem_of_list_to_set, list_elem_of_filter. tauto.
Qed.

(** ** The shim and the environment of the verbs *)

#[export] Instance machine_shims : Shims host := {|
  notify_pipe h := (Ok tt, h);
  fork_shim _ h := (Ok (wrap_s 32 (next_pid h)), h);
  pipe_read n h := (inr (ipc.take_str n (says h)), set_says (ipc.drop_str n (says h)) h);
  pipe_write s h := (Z.of_nat (String.length s), set_says (says h +:+ s) h);
  pipe_close h := h;
  redirect _ h := (Ok tt, h)
|}.

Lemma write_world p v h : world (snd (kf_write p v h)) = world h.
Proof. unfold kf_write. cbn. destruct (hierarchy.known _ _); cbn; repeat case_match; done. Qed.

#[export] Instance machine_rely root : Rely (H := host) root.
Proof.
  split.
  - split; [intros p h; apply (cgr_rest (kf_read p))|intros p v h; apply write_world
      |intros p h; apply (cgr_rest (kf_rmdir p))|intros p h; apply (cgr_rest (kf_read_dir p))].
  - done.
  - intros pid nohang h. by destruct nohang.
  - split; [intros q h; apply (nl_world q h)|intros args h; apply (ipt_world args h)].
  - intros ms h. change (moved root None (world h) (world h)). reflexivity.
  - intros h. cbn. reflexivity.
  - intros d h. cbn. reflexivity.
  - intros n h. change (moved root None (world h) (world h)). reflexivity.
  - intros d h pid h' [= <- _]. unfold in_s. apply wrap_s_range. lia.
  - intros h. unfold size_ok. cbn. lia.
Qed.

#[export] Instance machine_clock : Clock (H := host).
Proof. split; [by intros w h|]. by intros ms h _. Qed.

Lemma alive_eq pid start h : spawn.alive pid (Some start) h =
  bool_decide (pid ∈ kids h) && negb (bool_decide (pid ∈ zombies h)) && (987654 =? start).
Proof.
  unfold spawn.alive. cbn [proc_stat machine_spawner]. case_bool_decide; [|done]. case_bool_decide; vm_compute; reflexivity.
Qed.

Lemma fewer_gone h h' : kids h' ⊆ kids h -> zombies h ⊆ zombies h' -> gone h h'.
Proof.
  intros K Z pid start. rewrite !alive_eq, !andb_false_iff, !negb_false_iff, !bool_decide_eq_true, !bool_decide_eq_false.
  set_solver.
Qed.

#[export] Instance machine_mortal : Mortal (H := host).
Proof.
  split; [split| | |split| |].
  - intros p h. by apply fewer_gone.
  - intros p v h. unfold kf_write. cbn. destruct (hierarchy.known _ _); cbn; repeat case_match; by apply fewer_gone.
  - intros p h. change (kf_rmdir p h) with (on_cgr (kf_rmdir p) h). unfold on_cgr.
    destruct (kf_rmdir p (cgr h)). by apply fewer_gone.
  - intros p h. by apply fewer_gone.
  - intros pid sig h. apply fewer_gone; [done|]. cbn. set_solver.
  - intros pid [] h; apply fewer_gone; try done. cbn. intros x. rewrite list_elem_of_filter. tauto.
  - intros q h. unfold netlink, machine_links. destruct (netlink q (lan h)). by apply fewer_gone.
  - intros args h. unfold iptables, machine_iptables. destruct (iptables args (lan h)). by apply fewer_gone.
  - intros ms h. by apply fewer_gone.
  - intros w h. by apply fewer_gone.
Qed.

(** ** Samples *)

(** The container "web" has its directory. *)
Definition disk : World :=
  MkWorld (MkFs (files (fs sample_world)) ({["/run/containers"; "/run/containers/web"]} ∪ Fs.dirs (fs sample_world))) [] []
    (fun _ => "No such file").

(** A machine with one interface, the control groups of [hierarchy.start],
    and an init that sends these frames. *)
Definition start (frames : list (ascii * string)) (c3 : bool) : host :=
  mk (lan.mk (sample.mk disk []) ["lo"] []) hierarchy.start [] [] [] frames 100 c3 [] 0 "".

Definition cfg : ContainerConfig.t :=
  ContainerConfig.Mk "web" None "/srv" ["/bin/sh"] [] "/" "web" false [] hierarchy.sample
    (NetworkConfig.Mk NetworkMode.Bridge "myrun0" "10.87.0.0/24" None None 1500 [] true [])
    SecurityConfig.default Namespaces.default false false [].

Definition created : ContainerState.t := ContainerState.set_status (ContainerState.new 5 cfg) Status.Created.

End machine.
Export (hints) machine.

(** ** The theorems about [launch] on this machine *)

Import supervisor.

Definition refusing : machine.host :=
  machine.start [(ipc.TAG_READY, ""); (ipc.TAG_ERROR, "pivot_root: EINVAL")] true.
Definition obliging (clone3 : bool) : machine.host :=
  machine.start [(ipc.TAG_READY, ""); (ipc.TAG_STARTED, "")] clone3.

(** What a launch that failed leaves: what the undo actions report, the
    children, the groups and the interfaces. *)
Definition aftermath (fault : option string) (h : machine.host) :=
  let '(r, (_, (h1, rb))) := launch_body fault None None "/run" 7 machine.cfg (machine.created, (h, rollback.new)) in
  let '(failed, _, h2) := rollback.unwind rb h1 in
  (is_ok r, failed, machine.kids h2, hierarchy.groups (machine.cgr h2), lan.ifs (machine.lan h2)).

Lemma aftermath_inv fault h failed : fst (fst (fst (aftermath fault h))) = (false, failed) ->
  exists e st' h1 rb rb' h2,
    launch_body fault None None "/run" 7 machine.cfg (machine.created, (h, rollback.new)) = (Err e, (st', (h1, rb))) /\
    rollback.unwind rb h1 = (failed, rb', h2).
Proof.
  unfold aftermath. destruct (launch_body _ _ _ _ _ _ _) as [[run|e] [st' [h1 rb]]].
  all: destruct (rollback.unwind rb h1) as [[failed' rb'] h2] eqn:U; cbn; intros [= ->]. by eauto 10.
Qed.

Lemma launch_refused : exists e st' h1 rb rb' h2,
  launch_body None None None "/run" 7 machine.cfg (machine.created, (refusing, rollback.new)) = (Err e, (st', (h1, rb))) /\
  rollback.unwind rb h1 = ([], rb', h2).
Proof. apply aftermath_inv. vm_compute. reflexivity. Qed.

Lemma start_mount frames c3 : fst (cgroup.mount_point (machine.start frames c3)) = Ok "/sys/fs/cgroup".
Proof. vm_compute. reflexivity. Qed.

Lemma start_groups frames c3 mount :
  fst (cgroup.mount_point (machine.start frames c3)) = Ok mount ->
  path.dir_ok mount.
Proof. rewrite start_mount. intros [= <-]. by split. Qed.

Lemma start_leases frames c3 :
  leases_wf (table "/run" (machine.start frames c3)) /\ table_ok (table "/run" (machine.start frames c3)).
Proof. exact default_leases_ok. Qed.

Lemma launched_obliging c3 : exists r st' h',
  launch None None None "/run" 7 machine.created (obliging c3) = (r, st', h') /\ is_ok r = true /\ sent h' = [ipc.TAG_GO].
Proof.
  assert (Hr : forall x, x = launch None None None "/run" 7 machine.created (obliging c3) ->
                         is_ok (fst (fst x)) = true /\ sent (snd x) = [ipc.TAG_GO]).
  { intros x ->. destruct c3; vm_compute; split; reflexivity. }
  destruct (launch _ _ _ _ _ _ _) as [[r st'] h']. destruct (Hr _ eq_refl). by exists r, st', h'.
Qed.

Lemma sample_cfg_ok : util.validate_id (ContainerConfig.id machine.cfg) = Ok tt /\ path.dir_ok "/run" /\
  utf8 (NetworkConfig.subnet (ContainerConfig.network machine.cfg)).
Proof. split_and!; try reflexivity. by split. Qed.


Lemma init_let_go_last_witness :
  exists r st' h' run stg hg rbg,
    launch None None None "/run" 7 machine.created (obliging true) = (r, st', h') /\ is_ok r = true /\
    prepare None None None "/run" 7 machine.cfg (machine.created, (obliging true, rollback.new)) = (Ok run, (stg, (hg, rbg)))
    /\ complete None "/run" machine.cfg (obliging true) stg run hg.
Proof.
  destruct (launched_obliging true) as (r & st' & h' & E & Hr & Hs).
  destruct sample_cfg_ok as (Hid & Hroot & Hsub).
  assert (Hd : sent h' <> sent (obliging true)) by (rewrite Hs; discriminate).
  destruct (init_let_go_last None None None "/run" 7 Hroot machine.cfg (obliging true) Hid (start_groups _ _) Hsub
           (proj1 (start_leases _ _)) (proj2 (start_leases _ _)) machine.created r st' h'
           eq_refl eq_refl E Hd) as (_ & run & stg & hg & rbg & Ep & Hc).
  exists r, st', h', run, stg, hg, rbg. exact (conj E (conj Hr (conj Ep Hc))).
Defined.

(** ** Where [launch] departs from its description *)

(** Without [clone3] the fallback does not place the child, and the caller
    takes it for placed: the container runs outside the group with its limits. *)
Example fallback_escapes_limits :
  let '(r, st', h') := launch None None None "/run" 7 machine.created (obliging false) in
  (is_ok r, ContainerState.cgroup_path st', machine.kids h', member h' 100)
  = (true, Some "/sys/fs/cgroup/myrun/web", [100], None).
Proof. vm_compute. reflexivity. Qed.

(** A fault between the clone and the registration of the undo action leaves
    the process behind. *)
Example clone_fault_leaks_process :
  snd (fst (fst (aftermath (Some "after_clone") (obliging true)))) = [100] /\
  snd (fst (fst (aftermath (Some "before_clone") (obliging true)))) = [].
Proof. split; vm_compute; reflexivity. Qed.

(** A launch that fails at the very end is undone, but neither the state in
    memory nor the one on disk is that of a stopped container. *)
Example failed_launch_claims_running :
  let '(r, st', h') := launch (Some "after_start") None None "/run" 7 machine.created (obliging true) in
  (is_ok r, machine.kids h', ContainerState.status st',
   match fst (Store.load "/run" "web" (world h')) with Ok st => Some (ContainerState.status st) | Err _ => None end)
  = (false, [], Status.Running, Some Status.Running).
Proof. vm_compute. reflexivity. Qed.

(** ** The theorems about the verbs on this machine *)

Import lifecycle.

(** A store with one running container. *)
Definition life_disk : World :=
  MkWorld (MkFs {[Store.state_path "/run" "web-1" := json.to_string_pretty (ContainerState.to_json container_state.sample)]}
             {["/"; "/run"; "/run/containers"; "/run/containers/web-1"]}) [] [] (fun _ => "No such file").

Definition life_lan : lan.host := lan.mk (sample.mk life_disk []) ["lo"] [].

(** Its init process runs in its control group. *)
Definition living : machine.host :=
  machine.mk life_lan
    (hierarchy.mk ("/sys/fs/cgroup/myrun/web-1" :: hierarchy.groups hierarchy.start) [] (hierarchy.table hierarchy.start))
    [4242] [] [] [] 5000 true [] 0 "".

Definition dying : machine.host :=
  machine.mk life_lan hierarchy.start [] [] [] [] 5000 true [] 0 "".

Lemma life_loaded : loaded "/run" (fs life_disk) "web-1" = Some (container_state.without_detach container_state.sample).
Proof. apply loaded_text; [exact container_state.state_sample_wf|]. apply lookup_singleton_eq. Qed.

Lemma life_good : good "/run" life_disk.
Proof.
  split; [apply tree_okb_ok; vm_compute; reflexivity|]. intros i st Hi Hl.
  destruct (decide (i = "web-1")) as [->|N].
  - rewrite life_loaded in Hl. injection Hl as <-. split; [|done].
    apply stored_wf, container_state.state_sample_wf.
  - unfold loaded in Hl. cbn [fs files life_disk] in Hl. rewrite lookup_singleton_ne in Hl; [done|].
    apply files_differ; done.
Qed.

Definition orders : list (nat * Z * verb) :=
  [(300%nat, 7, VPause "web-1"); (300%nat, 8, VKill "web-1" SIGTERM false); (300%nat, 9, VGc);
   (300%nat, 10, VStop "web-1" 10)].

Lemma orders_valid fuel self v : (fuel, self, v) ∈ orders -> valid_verb v /\ ~ deletes v "web-1".
Proof.
  unfold orders. intros Hin. repeat (apply elem_of_cons in Hin as [[= -> -> ->]|Hin]; [split; [first [exact I|reflexivity]|intros []]|]).
  by apply elem_of_nil in Hin.
Qed.

Lemma run_ok_dir : path.dir_ok "/run".
Proof. by split. Qed.

Lemma web_id_ok : util.validate_id "web-1" = Ok tt.
Proof. reflexivity. Qed.

Lemma verbs_follow_machine_witness :
  good "/run" (world (perform_all None "/run" orders living)) /\
  exists st', loaded "/run" (fs (world (perform_all None "/run" orders living))) "web-1" = Some st' /\
    evolves (container_state.without_detach container_state.sample) st'.
Proof.
  exact (verbs_follow_machine None "/run" run_ok_dir orders living "web-1" _ life_good web_id_ok orders_valid life_loaded).
Defined.

(** What is left in the end. *)
Example orders_stop_the_container :
  ContainerState.status <$> loaded "/run" (fs (world (perform_all None "/run" orders living))) "web-1" = Some Status.Stopped.
Proof. vm_compute. reflexivity. Qed.


Lemma dying_looked : exists st h', load_reconciled "/run" 7 "web-1" (look "/run" 7 0 "web-1" dying) = (Ok st, h') /\
  Status.is_live (ContainerState.status st) = false.
Proof.
  assert (R : forall x, x = load_reconciled "/run" 7 "web-1" (look "/run" 7 0 "web-1" dying) ->
    match fst x with Ok st => negb (Status.is_live (ContainerState.status st)) | Err _ => false end = true).
  { intros x ->. vm_compute. reflexivity. }
  destruct (load_reconciled _ _ _ _) as [[st|e] h']; [|by specialize (R _ eq_refl)].
  exists st, h'. split; [done|]. specialize (R _ eq_refl). cbn in R. by apply negb_true_iff.
Qed.

Lemma wait_reports_exit_witness : exists st h', wait "/run" 7 3 "web-1" None dying = (Answer (Ok (recorded st)), h').
Proof.
  destruct dying_looked as (st & h' & E & Hs). exists st, h'.
  exact (wait_reports_exit "/run" 7 0 "web-1" dying st h' 3 ltac:(intros; lia) E Hs).
Defined.

Lemma living_stopped : exists e h', stop None "/run" 7 201 "web-1" 10 living = (Answer (Ok e), h').
Proof.
  assert (R : forall x, x = stop None "/run" 7 201 "web-1" 10 living ->
    match fst x with Answer (Ok _) => true | _ => false end = true).
  { intros x ->. vm_compute. reflexivity. }
  destruct (stop _ _ _ _ _ _ _) as [[[e|e]| |] h']; try (by specialize (R _ eq_refl)). eauto.
Qed.

Lemma stop_means_dead_witness : exists h',
  supervisor.alive_now (container_state.without_detach container_state.sample) living = true /\
  supervisor.alive_now (container_state.without_detach container_state.sample) h' = false.
Proof.
  destruct living_stopped as (e & h' & E). exists h'. split; [vm_compute; reflexivity|].
  exact (stop_means_dead None "/run" 7 run_ok_dir 201 "web-1" 10 living _ e h' life_good web_id_ok life_loaded
           eq_refl ltac:(discriminate) E).
Defined.

(** *** The report of a shim *)

#[export] Instance machine_pipe : PipeWrites machine.says.
Proof.
  split; [|done]. intros s h Hs. cbn. rewrite Nat2Z.id, take_str_all by done. split; [|done].
  destruct s; [done|]. cbn. lia.
Qed.

(** The shim of "web-1" has reported. *)
Definition reported (said : string) : machine.host := machine.set_says said living.

Lemma drop_all n c : (String.length c <= n)%nat -> ipc.drop_str n c = "".
Proof. revert n. induction c as [|a c IH]; intros [|n] Hn; cbn in *; try done; [lia|]. apply IH. lia. Qed.

Lemma reported_delivers c : c <> "" -> delivers [Some c] (reported c) (machine.set_says "" living).
Proof.
  intros Hc. split; [done|]. split; [done|]. exists (machine.set_says "" living). split.
  - intros n Hn. cbn. by rewrite take_str_all, drop_all by done.
  - intros [|n] Hn; [lia|done].
Qed.

Lemma shim_report_arrives_witness :
  fst (shim.spawn "/run" 3 container_state.sample (reported "+web-1 4242")) = Answer (Ok (shim.MkSpawned 5000 4242)) /\
  fst (shim.spawn "/run" 3 container_state.sample (reported "-no space left")) = Answer (Err (Container "no space left")).
Proof.
  pose proof (shim_report_arrives machine.says "/run" container_state.sample [Some "+web-1 4242"] 3 5000 9 (reported "+web-1 4242")
    (reported "+web-1 4242") (reported "+web-1 4242") _ (reported "") eq_refl eq_refl (reported_delivers "+web-1 4242" ltac:(discriminate))
    ltac:(cbn; lia) ltac:(lia) eq_refl) as (R & _ & _).
  pose proof (shim_report_arrives machine.says "/run" container_state.sample [Some "-no space left"] 3 5000 9 (reported "-no space left")
    (reported "-no space left") (reported "-no space left") _ (reported "") eq_refl eq_refl (reported_delivers "-no space left" ltac:(discriminate))
    ltac:(cbn; lia) ltac:(lia) eq_refl) as (_ & E & _).
  split; [apply (R 4242); [reflexivity|split; lia|reflexivity]|].
  destruct (E "no space left" eq_refl) as (said & E1 & _ & E2). rewrite E1, E2; [reflexivity|reflexivity|cbn; lia].
Defined.

(** ** Where the verbs go wrong *)

(** A grace period that does not fit an [Instant] is a panic, after the
    container was told to stop and recorded as stopping. *)
Example huge_timeout_panics :
  let '(o, h') := stop None "/run" 7 3 "web-1" (2 ^ 63) living in
  (o, machine.zombies h', ContainerState.status <$> loaded "/run" (fs (world h')) "web-1")
  = (Panicked, [4242], Some Status.Stopping).
Proof. vm_compute. reflexivity. Qed.

(** When the record cannot be written, [pause] fails but leaves the container
    frozen; it is recorded as running, so it cannot be unpaused, and a stop
    does not thaw it. *)
Definition failing_disk : machine.host :=
  set_world (MkWorld (fs life_disk) [FNone; FNone; FNone; FNone; FErr 28 0] [] (fun _ => "No space left on device")) living.

Example pause_half_done :
  let '(r, h1) := pause "/run" 7 "web-1" failing_disk in
  let '(r2, h2) := unpause "/run" 7 "web-1" h1 in
  (is_ok r, is_ok r2, ContainerState.status <$> loaded "/run" (fs (world h2)) "web-1",
   CgroupFacts.value h2 "/sys/fs/cgroup/myrun/web-1/cgroup.freeze")
  = (false, false, Some Status.Running, Some "1").
Proof. vm_compute. reflexivity. Qed.

(** The shim records the exit without the lock.  When it does so between the
    load and the save of [start], the exit status is lost and the record says
    running. *)
Example start_overwrites_exit :
  match on_files (Store.load "/run" "web-1") living with
  | (Ok st, h) =>
      let exited := supervisor.record_stop 2000 st (process.MkExit (Some 3) None) in
      let h := snd (on_files (Store.save "/run" 4241 exited) h) in
      let recorded_then := loaded "/run" (fs (world h)) "web-1" in
      let h := snd (save "/run" 7 (ContainerState.set_shim st 4241) h) in
      let recorded_now := loaded "/run" (fs (world h)) "web-1" in
      (recorded_then ≫= ContainerState.exit_code, recorded_now ≫= ContainerState.exit_code,
       ContainerState.status <$> recorded_now)
  | _ => (None, None, None)
  end = (Some 3, None, Some Status.Running).
Proof. vm_compute. reflexivity. Qed.

(** The last step of a teardown is a save, which creates the directory: when a
    shim gets to it after the container was deleted, the container is back. *)
Example teardown_brings_back :
  let h := snd (delete None "/run" 7 201 "web-1" true living) in
  let gone := loaded "/run" (fs (world h)) "web-1" in
  let h := snd (supervisor.teardown None "/run" 4241 (container_state.without_detach container_state.sample) h) in
  (gone, ContainerState.status <$> loaded "/run" (fs (world h)) "web-1") = (None, Some Status.Stopped).
Proof. vm_compute. reflexivity. Qed.
