(* ===== verification/Cli.v ===== *)
(** * [src/cli.rs]: the command line; [from_file] of [src/config.rs]; the
    log level of [src/logging.rs] and its place in [main] of [src/main.rs]

    The cursor [Args] is the list of the items from its position on: [next] is
    the head, [rest] the whole.  The loops over the arguments are instances of
    [walk], whose fuel is the number of arguments; [CliFacts.walk_step] shows
    that it is never used up.  [parse] also changes the environment, which is
    a map here, and reads the file of [--config]. *)
From S2P Require Import Prelude RustStr Num Utf8 F64 Error Json Toml Util Process Net Caps Seccomp Config Fs KernFs.
Import json.

(** ** [ContainerConfig::from_file] *)

Module config_file.

(** [Path::extension]: what follows the last dot of the file name, which must
    not be its first character. *)
Fixpoint rsplit_dot (s : string) : option (string * string) :=
  match s with
  | EmptyString => None
  | String a s' =>
      match rsplit_dot s' with
      | Some (l, r) => Some (String a l, r)
      | None => if ascii_dec a "." then Some ("", s') else None
      end
  end.

Definition extension (p : string) : option string :=
  n ← path.file_name p;
  '(stem, ext) ← rsplit_dot n;
  if str_is_empty stem then None else Some ext.

Definition is_json (p text : string) : bool :=
  bool_decide (extension p = Some "json") || starts_with "{" (trim_start text).

(** What a file with this name and text means. *)
Definition decode (p text : string) : toml.tres ContainerConfig.t :=
  toml.tbind (if is_json p text then toml.of_result (json.parse text) else toml.parse text)
    (fun doc => toml.of_result (ContainerConfig.from_json doc)).

Definition from_file (p : string) (w : World) : toml.tres ContainerConfig.t * World :=
  match ufs.read_to_string p w with
  | (Ok text, w') => (decode p text, w')
  | (Err e, w') => (toml.TErr e, w')
  end.

End config_file.

(** ** Assigning to one field of a structure *)

Module cfg.
Import ContainerConfig.
Definition set_name (v : option string) (c : t) : t :=
  Mk (id c) v (rootfs c) (command c) (env c) (cwd c) (hostname c) (read_only c) (mounts c)
    (resources c) (network c) (security c) (namespaces c) (detach c) (auto_remove c) (labels c).
Definition set_rootfs (v : string) (c : t) : t :=
  Mk (id c) (name c) v (command c) (env c) (cwd c) (hostname c) (read_only c) (mounts c)
    (resources c) (network c) (security c) (namespaces c) (detach c) (auto_remove c) (labels c).
Definition set_command (v : list string) (c : t) : t :=
  Mk (id c) (name c) (rootfs c) v (env c) (cwd c) (hostname c) (read_only c) (mounts c)
    (resources c) (network c) (security c) (namespaces c) (detach c) (auto_remove c) (labels c).
Definition set_env (v : list string) (c : t) : t :=
  Mk (id c) (name c) (rootfs c) (command c) v (cwd c) (hostname c) (read_only c) (mounts c)
    (resources c) (network c) (security c) (namespaces c) (detach c) (auto_remove c) (labels c).
Definition set_cwd (v : string) (c : t) : t :=
  Mk (id c) (name c) (rootfs c) (command c) (env c) v (hostname c) (read_only c) (mounts c)
    (resources c) (network c) (security c) (namespaces c) (detach c) (auto_remove c) (labels c).
Definition set_hostname (v : string) (c : t) : t :=
  Mk (id c) (name c) (rootfs c) (command c) (env c) (cwd c) v (read_only c) (mounts c)
    (resources c) (network c) (security c) (namespaces c) (detach c) (auto_remove c) (labels c).
Definition set_read_only (v : bool) (c : t) : t :=
  Mk (id c) (name c) (rootfs c) (command c) (env c) (cwd c) (hostname c) v (mounts c)
    (resources c) (network c) (security c) (namespaces c) (detach c) (auto_remove c) (labels c).
Definition set_mounts (v : list MountSpec.t) (c : t) : t :=
  Mk (id c) (name c) (rootfs c) (command c) (env c) (cwd c) (hostname c) (read_only c) v
    (resources c) (network c) (security c) (namespaces c) (detach c) (auto_remove c) (labels c).
Definition set_resources (v : Resources.t) (c : t) : t :=
  Mk (id c) (name c) (rootfs c) (command c) (env c) (cwd c) (hostname c) (read_only c) (mounts c)
    v (network c) (security c) (namespaces c) (detach c) (auto_remove c) (labels c).
Definition set_network (v : NetworkConfig.t) (c : t) : t :=
  Mk (id c) (name c) (rootfs c) (command c) (env c) (cwd c) (hostname c) (read_only c) (mounts c)
    (resources c) v (security c) (namespaces c) (detach c) (auto_remove c) (labels c).
Definition set_security (v : SecurityConfig.t) (c : t) : t :=
  Mk (id c) (name c) (rootfs c) (command c) (env c) (cwd c) (hostname c) (read_only c) (mounts c)
    (resources c) (network c) v (namespaces c) (detach c) (auto_remove c) (labels c).
Definition set_namespaces (v : Namespaces.t) (c : t) : t :=
  Mk (id c) (name c) (rootfs c) (command c) (env c) (cwd c) (hostname c) (read_only c) (mounts c)
    (resources c) (network c) (security c) v (detach c) (auto_remove c) (labels c).
Definition set_detach (v : bool) (c : t) : t :=
  Mk (id c) (name c) (rootfs c) (command c) (env c) (cwd c) (hostname c) (read_only c) (mounts c)
    (resources c) (network c) (security c) (namespaces c) v (auto_remove c) (labels c).
Definition set_auto_remove (v : bool) (c : t) : t :=
  Mk (id c) (name c) (rootfs c) (command c) (env c) (cwd c) (hostname c) (read_only c) (mounts c)
    (resources c) (network c) (security c) (namespaces c) (detach c) v (labels c).
Definition set_labels (v : list (string * string)) (c : t) : t :=
  Mk (id c) (name c) (rootfs c) (command c) (env c) (cwd c) (hostname c) (read_only c) (mounts c)
    (resources c) (network c) (security c) (namespaces c) (detach c) (auto_remove c) v.
End cfg.

Module res.
Import Resources.
Definition set_memory (v : option Z) (c : t) : t :=
  Mk v (memory_swap c) (cpus c) (cpu_weight c) (pids c).
Definition set_memory_swap (v : option Z) (c : t) : t :=
  Mk (memory c) v (cpus c) (cpu_weight c) (pids c).
Definition set_cpus (v : option f64) (c : t) : t :=
  Mk (memory c) (memory_swap c) v (cpu_weight c) (pids c).
Definition set_cpu_weight (v : option Z) (c : t) : t :=
  Mk (memory c) (memory_swap c) (cpus c) v (pids c).
Definition set_pids (v : option Z) (c : t) : t :=
  Mk (memory c) (memory_swap c) (cpus c) (cpu_weight c) v.
End res.

Module net.
Import NetworkConfig.
Definition set_mode (v : NetworkMode.t) (c : t) : t :=
  Mk v (bridge c) (subnet c) (ip c) (gateway c) (mtu c) (publish c) (nat c) (dns c).
Definition set_bridge (v : string) (c : t) : t :=
  Mk (mode c) v (subnet c) (ip c) (gateway c) (mtu c) (publish c) (nat c) (dns c).
Definition set_subnet (v : string) (c : t) : t :=
  Mk (mode c) (bridge c) v (ip c) (gateway c) (mtu c) (publish c) (nat c) (dns c).
Definition set_ip (v : option string) (c : t) : t :=
  Mk (mode c) (bridge c) (subnet c) v (gateway c) (mtu c) (publish c) (nat c) (dns c).
Definition set_gateway (v : option string) (c : t) : t :=
  Mk (mode c) (bridge c) (subnet c) (ip c) v (mtu c) (publish c) (nat c) (dns c).
Definition set_mtu (v : Z) (c : t) : t :=
  Mk (mode c) (bridge c) (subnet c) (ip c) (gateway c) v (publish c) (nat c) (dns c).
Definition set_publish (v : list PortMapping.t) (c : t) : t :=
  Mk (mode c) (bridge c) (subnet c) (ip c) (gateway c) (mtu c) v (nat c) (dns c).
Definition set_nat (v : bool) (c : t) : t :=
  Mk (mode c) (bridge c) (subnet c) (ip c) (gateway c) (mtu c) (publish c) v (dns c).
Definition set_dns (v : list string) (c : t) : t :=
  Mk (mode c) (bridge c) (subnet c) (ip c) (gateway c) (mtu c) (publish c) (nat c) v.
End net.

Module sec.
Import SecurityConfig.
Definition set_no_new_privs (v : bool) (c : t) : t :=
  Mk v (cap_add c) (cap_drop c) (seccomp c) (masked_paths c) (readonly_paths c) (user c)
    (privileged c).
Definition set_cap_add (v : list string) (c : t) : t :=
  Mk (no_new_privs c) v (cap_drop c) (seccomp c) (masked_paths c) (readonly_paths c) (user c)
    (privileged c).
Definition set_cap_drop (v : list string) (c : t) : t :=
  Mk (no_new_privs c) (cap_add c) v (seccomp c) (masked_paths c) (readonly_paths c) (user c)
    (privileged c).
Definition set_seccomp (v : seccomp.SeccompMode) (c : t) : t :=
  Mk (no_new_privs c) (cap_add c) (cap_drop c) v (masked_paths c) (readonly_paths c) (user c)
    (privileged c).
Definition set_user (v : option (Z * Z)) (c : t) : t :=
  Mk (no_new_privs c) (cap_add c) (cap_drop c) (seccomp c) (masked_paths c) (readonly_paths c) v
    (privileged c).
Definition set_privileged (v : bool) (c : t) : t :=
  Mk (no_new_privs c) (cap_add c) (cap_drop c) (seccomp c) (masked_paths c) (readonly_paths c)
    (user c) v.
End sec.

Module ns.
Import Namespaces.
Definition set_pid (v : bool) (c : t) : t :=
  Mk v (mount c) (uts c) (ipc c) (net c) (cgroup c).
Definition set_uts (v : bool) (c : t) : t :=
  Mk (pid c) (mount c) v (ipc c) (net c) (cgroup c).
Definition set_ipc (v : bool) (c : t) : t :=
  Mk (pid c) (mount c) (uts c) v (net c) (cgroup c).
Definition set_cgroup (v : bool) (c : t) : t :=
  Mk (pid c) (mount c) (uts c) (ipc c) (net c) v.
End ns.

Module cli.

Definition VERSION : string := "0.1.0".

(** ** Help *)

Definition MAIN_HELP : string :=
"myrun - a container runtime

USAGE:
    myrun [global options] <command> [options]

COMMANDS:
    run <rootfs> <cmd>...   Create and start a container
    create <rootfs> <cmd>.. Create a container without starting it
    start <container>       Start a created container
    stop <container>...     SIGTERM, then SIGKILL after a grace period
    kill <container>...     Send a signal (default TERM)
    pause / unpause <c>...  Freeze / thaw via the cgroup freezer
    rm <container>...       Delete a container and its resources
    ls                      List containers
    inspect <container>...  Full JSON state
    stats [container]...    Live resource usage
    logs <container>        Show captured output
    wait <container>...     Block until a container exits
    gc                      Reconcile state and clean up orphans
    info                    Runtime and host capability report

GLOBAL OPTIONS:
    --root <dir>            State directory (default /run/myrun)
    --log <level>           error|warn|info|debug|trace
    --debug                 Shorthand for --log debug
    -h, --help [topic]      Help; topics: run, network, security
    -V, --version

EXAMPLES:
    myrun run ./rootfs /bin/sh
    myrun run -d --name web -m 256m --cpus 1.5 -p 8080:80 ./rootfs /srv/httpd
    myrun ls -a
    myrun stats --follow
".

Definition RUN_HELP : string :=
"myrun run [options] <rootfs> <command> [args...]

CONTAINER:
    --name <name>           Human-readable name (must be unique)
    --rootfs <dir>          Root filesystem (alternative to the positional)
    -e, --env KEY=VALUE     Set an environment variable (repeatable)
    -w, --workdir <dir>     Working directory inside the container
    --hostname <name>       UTS hostname (default: the short container id)
    -v, --volume SRC:DST[:ro]   Bind mount, or tmpfs:DST for a tmpfs
    --read-only             Mount the rootfs read-only
    --label key=value       Attach metadata (repeatable)
    -d, --detach            Run in the background and print the id
    --rm                    Delete the container once it exits
    -c, --config <file>     Load defaults from a TOML or JSON file

RESOURCES:
    -m, --memory <size>     Memory limit, e.g. 512m, 2g
    --memory-swap <size>    Memory + swap limit
    --cpus <n>              Fractional CPU limit, e.g. 1.5
    --cpu-weight <n>        Relative weight, 1-10000 (default 100)
    --pids <n>              Maximum number of processes

NETWORK:            (see `myrun --help network`)
    --network none|bridge|host
    -p, --publish H:C[/tcp|udp]

SECURITY:           (see `myrun --help security`)
    --cap-add / --cap-drop <CAP>
    --seccomp unconfined|default|strict
    -u, --user <uid[:gid]>
    --privileged
".

Definition NETWORK_HELP : string :=
"myrun networking

MODES:
    --network none      Isolated network namespace with only a loopback
                        interface. The default.
    --network bridge    A veth pair into a host bridge, an address from the
                        runtime's IPAM, NAT to the outside world.
    --network host      Share the host's network namespace. No isolation.

OPTIONS:
    --bridge <name>     Bridge to attach to (default myrun0, created on demand)
    --subnet <cidr>     Address pool (default 10.87.0.0/24)
    --ip <addr>         Request a specific address from the pool
    --gateway <addr>    Bridge address (default: first host address)
    --mtu <n>           MTU for both ends of the veth pair
    -p, --publish H:C   Publish a container port on the host (DNAT)
    --no-nat            Skip the MASQUERADE rule
    --dns a,b           Nameservers written to /etc/resolv.conf

NOTES:
    Published ports require --network bridge.
    Packet filtering is done by shelling out to iptables; every rule is
    tagged with the container id so teardown removes exactly its own rules.
".

Definition SECURITY_HELP : string :=
"myrun security

By default a container gets:
  * a Docker-like capability set, minus CAP_NET_RAW
  * PR_SET_NO_NEW_PRIVS
  * a seccomp filter denying ~39 syscalls (mount, pivot_root, kexec, bpf, ...)
  * /proc/kcore and friends masked, /proc/sys and friends read-only
  * a read-only /sys

OPTIONS:
    --cap-add <CAP>       Add a capability (name with or without CAP_)
    --cap-drop <CAP>      Drop one; --cap-drop all clears the set first
    --seccomp <mode>      unconfined | default | strict
    --no-new-privs=false  Disable no_new_privs (incompatible with seccomp)
    -u, --user uid[:gid]  Run the workload as an unprivileged user
    --privileged          Disable all of the above. Use only for debugging.

ORDER OF OPERATIONS (inside the container, after pivot_root):
    capabilities -> no_new_privs -> seccomp -> setgid/setuid -> execve
".

Definition newline : string := String "010" "".

Definition help_text (topic : option string) : string :=
  match topic with
  | Some t =>
      if bool_decide (t = "run") || bool_decide (t = "create") then RUN_HELP
      else if bool_decide (t = "network") then NETWORK_HELP
      else if bool_decide (t = "security") then SECURITY_HELP
      else "no help topic " +:+ debug_str t +:+ newline +:+ newline +:+ MAIN_HELP
  | None => MAIN_HELP
  end.

(** ** Commands *)

Record RunArgs := MkRun { config : ContainerConfig.t; run_detach : bool }.

Inductive Command :=
| Run (a : RunArgs)
| Create (a : RunArgs)
| Start (id : string) (attach : bool)
| Stop (ids : list string) (timeout : Z)
| Kill (ids : list string) (signal : Z)
| Delete (ids : list string) (force : bool)
| List (all json quiet : bool)
| Inspect (ids : list string)
| Stats (ids : list string) (json follow : bool) (interval_ms : Z)
| Pause (ids : list string)
| Unpause (ids : list string)
| Logs (id : string) (follow : bool) (tail : option Z)
| Wait (ids : list string) (timeout : option Z)
| Gc
| Info
| Help (topic : option string)
| Version
| Init (state_dir : string)
| Shim (state_dir : string) (notify_fd : Z).

(** ** The cursor *)

Definition next (args : list string) : option string * list string :=
  match args with a :: args' => (Some a, args') | [] => (None, []) end.

(** [Args::value]. *)
Definition value (flag : string) (inline : option string) (args : list string)
    : result (string * list string) :=
  match inline with
  | Some v => Ok (v, args)
  | None =>
      match next args with
      | (Some v, args') => Ok (v, args')
      | (None, _) => Err (Usage (flag +:+ " requires a value"))
      end
  end.

Definition split_flag (arg : string) : string * option string :=
  match split_once "=" arg with
  | Some (f, v) => if starts_with "-" f then (f, Some v) else (arg, None)
  | None => (arg, None)
  end.

(** One of the literals of a match arm. *)
Definition one_of (flag : string) (names : list string) : bool := bool_decide (flag ∈ names).

Definition parse_bool (flag v : string) : result bool :=
  let t := to_ascii_lowercase (trim v) in
  if one_of t ["1"; "true"; "yes"; "on"] then Ok true
  else if one_of t ["0"; "false"; "no"; "off"] then Ok false
  else Err (Usage (flag +:+ " expects true or false, got " +:+ debug_str t)).

(** [while let Some(raw) = args.next()]: the body gives the new state and
    cursor. *)
Section Walk.
Context {S : Type} (body : string -> list string -> S -> result (S * list string)).

Fixpoint walk_go (fuel : nat) (args : list string) (s : S) : result S :=
  match args, fuel with
  | [], _ => Ok s
  | _ :: _, O => Err (Usage "")
  | raw :: args', Datatypes.S n => '(s', rest) ← body raw args' s; walk_go n rest s'
  end.

Definition walk (args : list string) (s : S) : result S := walk_go (length args) args s.
End Walk.

(** ** [run] and [create] *)

(** What an option of [parse_run_pass] does to the variables of its loop. *)
Inductive effect :=
| Update (f : ContainerConfig.t -> ContainerConfig.t)
| ConfigPath (p : string)
| Detach
| EndOfFlags.

(** An option with a value. *)
Definition valued (flag : string) (inline : option string) (args : list string)
    (arm : string -> result (ContainerConfig.t -> ContainerConfig.t))
    : result (effect * list string) :=
  '(v, args') ← value flag inline args;
  f ← arm v;
  Ok (Update f, args').

Definition upd_resources f c := cfg.set_resources (f (ContainerConfig.resources c)) c.
Definition upd_network f c := cfg.set_network (f (ContainerConfig.network c)) c.
Definition upd_security f c := cfg.set_security (f (ContainerConfig.security c)) c.
Definition upd_namespaces f c := cfg.set_namespaces (f (ContainerConfig.namespaces c)) c.

Definition set_env (kv : string) (c : ContainerConfig.t) : ContainerConfig.t :=
  cfg.set_env (ContainerConfig.set_env (ContainerConfig.env c) kv) c.

Definition label_arm (kv : string) : result (ContainerConfig.t -> ContainerConfig.t) :=
  match split_once "=" kv with
  | Some (k, v) => Ok (fun c => cfg.set_labels (ContainerConfig.labels c ++ [(k, v)]) c)
  | None => Err (Usage "--label expects key=value")
  end.

Definition verb (run : bool) : string := if run then "run" else "create".

(** The [match flag] of [parse_run_pass]. *)
Definition run_option (run : bool) (flag : string) (inline : option string) (args : list string)
    : result (effect * list string) :=
  let valued := valued flag inline args in
  let update f := Ok (Update f, args) in
  if one_of flag ["--"] then Ok (EndOfFlags, args)
  else if one_of flag ["-h"; "--help"] then Err (Usage (help_text (Some (verb run))))
  else if one_of flag ["--config"; "-c"] then
    '(v, args') ← value flag inline args; Ok (ConfigPath v, args')
  else if one_of flag ["--name"] then valued (fun v => Ok (cfg.set_name (Some v)))
  else if one_of flag ["--rootfs"] then valued (fun v => Ok (cfg.set_rootfs v))
  else if one_of flag ["-e"; "--env"] then valued (fun v => Ok (set_env v))
  else if one_of flag ["-w"; "--workdir"; "--cwd"] then valued (fun v => Ok (cfg.set_cwd v))
  else if one_of flag ["--hostname"] then valued (fun v => Ok (cfg.set_hostname v))
  else if one_of flag ["-d"; "--detach"] then Ok (Detach, args)
  else if one_of flag ["--rm"] then update (cfg.set_auto_remove true)
  else if one_of flag ["--read-only"] then update (cfg.set_read_only true)
  else if one_of flag ["-v"; "--volume"; "--mount"] then
    valued (fun v => m ← MountSpec.parse v;
                     Ok (fun c => cfg.set_mounts (ContainerConfig.mounts c ++ [m]) c))
  else if one_of flag ["--label"] then valued label_arm
  (* resources *)
  else if one_of flag ["-m"; "--memory"] then
    valued (fun v => n ← util.parse_size v; Ok (upd_resources (res.set_memory n)))
  else if one_of flag ["--memory-swap"] then
    valued (fun v => n ← util.parse_size v; Ok (upd_resources (res.set_memory_swap n)))
  else if one_of flag ["--cpus"] then
    valued (fun v => n ← ok_or (Usage "--cpus expects a number, e.g. 1.5") (f64_parse v);
                     Ok (upd_resources (res.set_cpus (Some n))))
  else if one_of flag ["--cpu-weight"; "--cpu-shares"] then
    valued (fun v => n ← ok_or (Usage "--cpu-weight expects an integer") (parse_u 64 v);
                     Ok (upd_resources (res.set_cpu_weight (Some n))))
  else if one_of flag ["--pids"; "--pids-limit"] then
    valued (fun v => n ← ok_or (Usage "--pids expects an integer") (parse_u 64 v);
                     Ok (upd_resources (res.set_pids (Some n))))
  (* networking *)
  else if one_of flag ["--network"; "--net"] then
    valued (fun v => m ← NetworkMode.parse v; Ok (upd_network (net.set_mode m)))
  else if one_of flag ["--bridge"] then valued (fun v => Ok (upd_network (net.set_bridge v)))
  else if one_of flag ["--subnet"] then valued (fun v => Ok (upd_network (net.set_subnet v)))
  else if one_of flag ["--ip"] then valued (fun v => Ok (upd_network (net.set_ip (Some v))))
  else if one_of flag ["--gateway"] then valued (fun v => Ok (upd_network (net.set_gateway (Some v))))
  else if one_of flag ["--mtu"] then
    valued (fun v => n ← ok_or (Usage "--mtu expects an integer") (parse_u 32 v);
                     Ok (upd_network (net.set_mtu n)))
  else if one_of flag ["-p"; "--publish"] then
    valued (fun v => p ← PortMapping.parse v;
                     Ok (upd_network (fun n => net.set_publish (NetworkConfig.publish n ++ [p]) n)))
  else if one_of flag ["--no-nat"] then update (upd_network (net.set_nat false))
  else if one_of flag ["--dns"] then
    valued (fun v => Ok (upd_network (net.set_dns (trim <$> split_on "," v))))
  (* security *)
  else if one_of flag ["--cap-add"] then
    valued (fun v => Ok (upd_security (fun s => sec.set_cap_add (SecurityConfig.cap_add s ++ [v]) s)))
  else if one_of flag ["--cap-drop"] then
    valued (fun v => Ok (upd_security (fun s => sec.set_cap_drop (SecurityConfig.cap_drop s ++ [v]) s)))
  else if one_of flag ["--seccomp"] then
    valued (fun v => m ← seccomp.parse v; Ok (upd_security (sec.set_seccomp m)))
  else if one_of flag ["--privileged"] then update (upd_security (sec.set_privileged true))
  else if one_of flag ["--no-new-privs"] then
    b ← match inline with Some v => parse_bool flag v | None => Ok true end;
    update (upd_security (sec.set_no_new_privs b))
  else if one_of flag ["--user"; "-u"] then
    valued (fun v => u ← parse_user v; Ok (upd_security (sec.set_user (Some u))))
  (* namespaces *)
  else if one_of flag ["--no-pid-ns"] then update (upd_namespaces (ns.set_pid false))
  else if one_of flag ["--no-ipc-ns"] then update (upd_namespaces (ns.set_ipc false))
  else if one_of flag ["--no-uts-ns"] then update (upd_namespaces (ns.set_uts false))
  else if one_of flag ["--no-cgroup-ns"] then update (upd_namespaces (ns.set_cgroup false))
  else Err (Usage ("unknown option " +:+ debug_str flag +:+ " for `myrun " +:+ verb run +:+ "`")).

(** The variables of the loop. *)
Record pass := MkPass {
  p_cfg : ContainerConfig.t;
  p_path : option string;
  p_detach : bool;
  p_pos : list string;
  p_end : bool
}.

Definition pass_start (base : ContainerConfig.t) : pass := MkPass base None false [] false.

Definition apply_effect (e : effect) (s : pass) : pass :=
  match e with
  | Update f => MkPass (f (p_cfg s)) (p_path s) (p_detach s) (p_pos s) (p_end s)
  | ConfigPath p => MkPass (p_cfg s) (Some p) (p_detach s) (p_pos s) (p_end s)
  | Detach => MkPass (p_cfg s) (p_path s) true (p_pos s) (p_end s)
  | EndOfFlags => MkPass (p_cfg s) (p_path s) (p_detach s) (p_pos s) true
  end.

Definition add_positional (l : list string) (s : pass) : pass :=
  MkPass (p_cfg s) (p_path s) (p_detach s) (p_pos s ++ l) (p_end s).

Definition is_positional (raw : string) : bool :=
  negb (starts_with "-" raw) || bool_decide (raw = "-").

(** The body of the loop; [break] after [args.rest()] leaves no arguments. *)
Definition pass_body (run : bool) (raw : string) (args : list string) (s : pass)
    : result (pass * list string) :=
  if p_end s || is_positional raw then
    let s' := add_positional [raw] s in
    if (2 <=? length (p_pos s'))%nat then Ok (add_positional args s', [])
    else Ok (s', args)
  else
    let '(flag, inline) := split_flag raw in
    '(e, args') ← run_option run flag inline args;
    Ok (apply_effect e s, args').

(** Positional form: [<rootfs> <command> [args...]]. *)
Definition positional_form (pos : list string) (c : ContainerConfig.t) : ContainerConfig.t :=
  match pos with
  | [] => c
  | p :: pos' =>
      let '(c, pos) := if str_is_empty (ContainerConfig.rootfs c)
                       then (cfg.set_rootfs p c, pos') else (c, pos) in
      match pos with [] => c | _ :: _ => cfg.set_command pos c end
  end.

Definition pass_finish (s : pass) : RunArgs * option string :=
  (MkRun (cfg.set_detach (p_detach s) (positional_form (p_pos s) (p_cfg s))) (p_detach s), p_path s).

Definition parse_run_pass (args : list string) (run : bool) (base : ContainerConfig.t)
    : result (RunArgs * option string) :=
  s ← walk (pass_body run) args (pass_start base);
  Ok (pass_finish s).

Definition parse_run (args : list string) (run : bool) (w : World)
    : toml.tres RunArgs * World :=
  match parse_run_pass args run ContainerConfig.default with
  | Err e => (toml.TErr e, w)
  | Ok (_, config_path) =>
      let '(base, w') := match config_path with
                         | Some p => config_file.from_file p w
                         | None => (toml.TOk ContainerConfig.default, w)
                         end in
      (toml.tbind base (fun base =>
         toml.of_result ('(parsed, _) ← parse_run_pass args run base; Ok parsed)), w')
  end.

(** ** The other commands *)

Definition DEFAULT_STOP_TIMEOUT : Z := 10.

Definition unknown_for {A : Type} (flag cmd : string) : result A :=
  Err (Usage ("unknown option " +:+ debug_str flag +:+ " for " +:+ cmd)).

Definition require_ids (args : list string) (cmd : string) : result (list string) :=
  match filter (fun a => starts_with "-" a = false) args with
  | [] => Err (Usage (cmd +:+ " needs at least one container"))
  | ids => Ok ids
  end.

Definition parse_start (args : list string) : result Command :=
  '(attach, id) ← walk (fun raw rest '(attach, id) =>
     let '(flag, _) := split_flag raw in
     if one_of flag ["-a"; "--attach"] then Ok ((true, id), rest)
     else if starts_with "-" flag then unknown_for flag "start"
     else Ok ((attach, Some raw), rest)) args (false, None);
  id ← ok_or (Usage "start needs a container") id;
  Ok (Start id attach).

Definition some_ids (cmd : string) (ids : list string) : result (list string) :=
  match ids with
  | [] => Err (Usage (cmd +:+ " needs at least one container"))
  | _ => Ok ids
  end.

Definition parse_stop (args : list string) : result Command :=
  '(timeout, ids) ← walk (fun raw rest '(timeout, ids) =>
     let '(flag, inline) := split_flag raw in
     if one_of flag ["-t"; "--timeout"; "--time"] then
       '(v, rest') ← value flag inline rest;
       t ← ok_or (Usage "--timeout expects seconds") (parse_u 64 v);
       Ok ((t, ids), rest')
     else if starts_with "-" flag then unknown_for flag "stop"
     else Ok ((timeout, ids ++ [raw]), rest)) args (DEFAULT_STOP_TIMEOUT, []);
  ids ← some_ids "stop" ids;
  Ok (Stop ids timeout).

Definition parse_kill (args : list string) : result Command :=
  '(signal, ids) ← walk (fun raw rest '(signal, ids) =>
     let '(flag, inline) := split_flag raw in
     if one_of flag ["-s"; "--signal"] then
       '(v, rest') ← value flag inline rest;
       s ← process.parse_signal v;
       Ok ((s, ids), rest')
     else if starts_with "-" flag then unknown_for flag "kill"
     else Ok ((signal, ids ++ [raw]), rest)) args (SIGTERM, []);
  ids ← some_ids "kill" ids;
  Ok (Kill ids signal).

Definition parse_delete (args : list string) : result Command :=
  '(force, ids) ← walk (fun raw rest '(force, ids) =>
     let '(flag, _) := split_flag raw in
     if one_of flag ["-f"; "--force"] then Ok ((true, ids), rest)
     else if starts_with "-" flag then unknown_for flag "rm"
     else Ok ((force, ids ++ [raw]), rest)) args (false, []);
  ids ← some_ids "rm" ids;
  Ok (Delete ids force).

Definition parse_list (args : list string) : result Command :=
  '(all, json, quiet) ← walk (fun raw rest '(all, json, quiet) =>
     let '(flag, _) := split_flag raw in
     if one_of flag ["-a"; "--all"] then Ok ((true, json, quiet), rest)
     else if one_of flag ["--json"] then Ok ((all, true, quiet), rest)
     else if one_of flag ["-q"; "--quiet"] then Ok ((all, json, true), rest)
     else unknown_for flag "list") args (false, false, false);
  Ok (List all json quiet).

Definition parse_stats (args : list string) : result Command :=
  '(json, follow, interval_ms, ids) ← walk (fun raw rest '(json, follow, interval_ms, ids) =>
     let '(flag, inline) := split_flag raw in
     if one_of flag ["--json"] then Ok ((true, follow, interval_ms, ids), rest)
     else if one_of flag ["-f"; "--follow"] then Ok ((json, true, interval_ms, ids), rest)
     else if one_of flag ["-i"; "--interval"] then
       '(v, rest') ← value flag inline rest;
       secs ← ok_or (Usage "--interval expects seconds") (f64_parse v);
       if f64_leb secs (f64_of_Z 0) then Err (Usage "--interval must be positive")
       else Ok ((json, follow, f64_as_u64 (f64_mul secs (f64_of_Z 1000)), ids), rest')
     else if starts_with "-" flag then unknown_for flag "stats"
     else Ok ((json, follow, interval_ms, ids ++ [raw]), rest)) args (false, false, 1000, []);
  Ok (Stats ids json follow interval_ms).

Definition parse_logs (args : list string) : result Command :=
  '(follow, tail, id) ← walk (fun raw rest '(follow, tail, id) =>
     let '(flag, inline) := split_flag raw in
     if one_of flag ["-f"; "--follow"] then Ok ((true, tail, id), rest)
     else if one_of flag ["-n"; "--tail"] then
       '(v, rest') ← value flag inline rest;
       if bool_decide (v = "all") then Ok ((follow, tail, id), rest')
       else
         n ← ok_or (Usage "--tail expects a number or 'all'") (parse_u 64 v);
         Ok ((follow, Some n, id), rest')
     else if starts_with "-" flag then unknown_for flag "logs"
     else Ok ((follow, tail, Some raw), rest)) args (false, None, None);
  id ← ok_or (Usage "logs needs a container") id;
  Ok (Logs id follow tail).

Definition parse_wait (args : list string) : result Command :=
  '(timeout, ids) ← walk (fun raw rest '(timeout, ids) =>
     let '(flag, inline) := split_flag raw in
     if one_of flag ["-t"; "--timeout"] then
       '(v, rest') ← value flag inline rest;
       t ← ok_or (Usage "--timeout expects seconds") (parse_u 64 v);
       Ok ((Some t, ids), rest')
     else if starts_with "-" flag then unknown_for flag "wait"
     else Ok ((timeout, ids ++ [raw]), rest)) args (None, []);
  ids ← some_ids "wait" ids;
  Ok (Wait ids timeout).

Definition parse_shim (args : list string) : result Command :=
  d ← ok_or (Usage "__shim needs a state directory") (next args).1;
  v ← ok_or (Usage "__shim needs a notify fd") (next (next args).2).1;
  fd ← ok_or (Usage "__shim notify fd must be a number") (parse_i 32 v);
  Ok (Shim d fd).

Definition run_command (mk : RunArgs -> Command) (r : toml.tres RunArgs * World)
    : toml.tres Command * World :=
  (toml.tbind r.1 (fun a => toml.TOk (mk a)), r.2).

(** The second [match] of [parse]. *)
Definition parse_sub (sub : string) (args : list string) (w : World) : toml.tres Command * World :=
  let pure (r : result Command) := (toml.of_result r, w) in
  if one_of sub ["run"] then run_command Run (parse_run args true w)
  else if one_of sub ["create"] then run_command Create (parse_run args false w)
  else if one_of sub ["start"] then pure (parse_start args)
  else if one_of sub ["stop"] then pure (parse_stop args)
  else if one_of sub ["kill"] then pure (parse_kill args)
  else if one_of sub ["rm"; "delete"; "remove"] then pure (parse_delete args)
  else if one_of sub ["ls"; "list"; "ps"] then pure (parse_list args)
  else if one_of sub ["inspect"] then pure (ids ← require_ids args "inspect"; Ok (Inspect ids))
  else if one_of sub ["stats"] then pure (parse_stats args)
  else if one_of sub ["pause"] then pure (ids ← require_ids args "pause"; Ok (Pause ids))
  else if one_of sub ["unpause"; "resume"] then pure (ids ← require_ids args "unpause"; Ok (Unpause ids))
  else if one_of sub ["logs"] then pure (parse_logs args)
  else if one_of sub ["wait"] then pure (parse_wait args)
  else if one_of sub ["gc"; "prune"] then pure (Ok Gc)
  else if one_of sub ["info"] then pure (Ok Info)
  else if one_of sub ["help"] then pure (Ok (Help (next args).1))
  else if one_of sub ["version"] then pure (Ok Version)
  else if one_of sub ["__init"] then
    pure (d ← ok_or (Usage "__init needs a state directory") (next args).1; Ok (Init d))
  else if one_of sub ["__shim"] then pure (parse_shim args)
  else pure (Err (Usage ("unknown command " +:+ debug_str sub +:+ "; run `myrun --help` for the list"))).

(** ** Global options *)

Abbreviation Env := (gmap string string).

(** How the first loop of [parse] ends. *)
Inductive global := Done (r : result Command) | Sub (sub : string) (args : list string).

(** The cursor still points at [a]; an arm that uses it moves past it. *)
Fixpoint globals (fuel : nat) (args : list string) (env : Env) : global * Env :=
  match args, fuel with
  | [], _ => (Done (Ok (Help None)), env)
  | _ :: _, O => (Done (Err (Usage "")), env)
  | a :: args', S n =>
      let '(flag, inline) := split_flag a in
      let set_var (k : string) :=
        match value flag inline args' with
        | Ok (v, args'') => globals n args'' (<[k := v]> env)
        | Err e => (Done (Err e), env)
        end in
      if one_of flag ["-h"; "--help"] then (Done (Ok (Help (next args').1)), env)
      else if one_of flag ["-V"; "--version"] then (Done (Ok Version), env)
      else if one_of flag ["--log"] then set_var "MYRUN_LOG"
      else if one_of flag ["--root"] then set_var "MYRUN_ROOT"
      else if one_of flag ["--debug"] then globals n args' (<["MYRUN_LOG" := "debug"]> env)
      else if starts_with "-" flag then
        (Done (Err (Usage ("unknown global option " +:+ debug_str flag +:+ "; run `myrun --help`"))), env)
      else (Sub a args', env)
  end.

Definition parse (argv : list string) (env : Env) (w : World) : toml.tres Command * Env * World :=
  match globals (length argv) argv env with
  | (Done r, env') => (toml.of_result r, env', w)
  | (Sub sub args, env') => let '(r, w') := parse_sub sub args w in (r, env', w')
  end.

End cli.

(** ** [init_from_env] of [src/logging.rs] and its call in [main] *)

Module logging.

Definition ERROR : Z := 1.
Definition WARN : Z := 2.
Definition INFO : Z := 3.
Definition DEBUG : Z := 4.
Definition TRACE : Z := 5.

(** The level [init_from_env] stores. *)
Definition init_from_env (env : cli.Env) : Z :=
  let t := to_ascii_lowercase (trim (default "" (env !! "MYRUN_LOG"))) in
  if cli.one_of t ["error"] then ERROR
  else if cli.one_of t ["warn"; "warning"] then WARN
  else if cli.one_of t ["info"] then INFO
  else if cli.one_of t ["debug"] then DEBUG
  else if cli.one_of t ["trace"] then TRACE
  else WARN.

Definition enabled (level l : Z) : bool := l <=? level.

End logging.

(** How [main] and [real_main] begin: the level of the process, what it is
    asked to do, its environment. *)
Definition startup (argv : list string) (env : cli.Env) (w : World)
    : Z * toml.tres cli.Command * cli.Env * World :=
  let level := logging.init_from_env env in
  let '(cmd, env', w') := cli.parse argv env w in
  (level, cmd, env', w').
