(* ===== verification/CliFacts.v ===== *)
(** * Facts about the command line

    Options are read the same way whatever configuration they are applied to
    and whatever follows them ([local], [pass_frame]).  From this follow the
    independence of the place of [--config], that the words of the workload
    are never read as options, and that the second pass cannot fail. *)
From S2P Require Import Prelude RustStr Num Utf8 F64 Error Json Toml Util Process Net Caps Seccomp Config Fs TomlFacts Cli.
Import cli.

(** ** Readers of arguments *)

(** A reader takes a prefix of the arguments, and the same whatever follows. *)
Definition local {A : Type} (f : list string -> result (A * list string)) : Prop :=
  forall args a rest, f args = Ok (a, rest) ->
  exists t, args = t ++ rest /\ forall post, f (args ++ post) = Ok (a, rest ++ post).

Lemma local_ret {A : Type} (a : A) : local (fun args => Ok (a, args)).
Proof. intros args b rest [= -> ->]. by exists []. Qed.

Lemma local_err {A : Type} (e : Error) : local (fun _ => Err e : result (A * list string)).
Proof. by intros args a rest [=]. Qed.

Lemma local_if {A : Type} (b : bool) (f g : list string -> result (A * list string)) :
  local f -> local g -> local (fun args => if b then f args else g args).
Proof. by destruct b. Qed.

Lemma local_value flag inline : local (value flag inline).
Proof.
  intros args v rest H. destruct inline as [x|]; [|destruct args as [|a args]]; cbn in H; simplify_eq.
  - by exists [].
  - by exists [v].
Qed.

Lemma local_map {A B : Type} (f : list string -> result (A * list string)) (k : A -> B) :
  local f -> local (fun args => '(a, rest) ← f args; Ok (k a, rest)).
Proof.
  intros Hf args b rest H. destruct (f args) as [[a rest']|] eqn:E; [|done].
  injection H as <- <-. destruct (Hf _ _ _ E) as (t & -> & Hp). exists t. split; [done|].
  intros post. by rewrite Hp.
Qed.

Lemma local_pure {A B : Type} (r : result A) (k : A -> B) :
  local (fun args => a ← r; Ok (k a, args)).
Proof. destruct r as [a|e]; [apply (local_ret (k a)) | apply (local_err e)]. Qed.

Lemma local_valued flag inline arm : local (fun args => valued flag inline args arm).
Proof.
  intros args e rest H. unfold valued in *. destruct (value flag inline args) as [[v r]|] eqn:E; [|done].
  cbn in H. destruct (arm v) as [f|] eqn:Ea; [|done]. injection H as <- <-.
  destruct (local_value _ _ _ _ _ E) as (t & -> & Hp). exists t. split; [done|]. intros post.
  rewrite Hp. cbn. by rewrite Ea.
Qed.

#[local] Hint Resolve local_ret local_err local_if local_value local_pure local_valued : core.

(** Every option takes itself and its value. *)
Lemma run_option_local run flag inline : local (run_option run flag inline).
Proof.
  unfold run_option. cbv zeta.
  repeat (apply local_if; [solve [auto | apply local_pure | by apply (local_map (value flag inline) ConfigPath)]|]).
  auto.
Qed.

(** ** The loop *)

(** A body that never gives back more arguments than it got. *)
Definition shrinks {S A : Type} (body : string -> list string -> S -> result (A * list string)) : Prop :=
  forall raw args s a rest, body raw args s = Ok (a, rest) -> (length rest <= length args)%nat.

Section Walk.
Context {S : Type} (body : string -> list string -> S -> result (S * list string)).
Hypothesis Hs : shrinks body.

Lemma walk_go_enough n args s : (length args <= n)%nat -> walk_go body n args s = walk body args s.
Proof.
  unfold walk. remember (length args) as m eqn:Em. assert (length args <= m)%nat as Hm by lia. clear Em.
  revert n args s Hm. induction m as [|m IH]; intros n args s Hm Hn; destruct args as [|a args]; cbn in Hm; try lia.
  - by destruct n.
  - by destruct n.
  - destruct n as [|n]; [lia|]. cbn. destruct (body a args s) as [[s' rest]|] eqn:E; [|done].
    apply Hs in E. cbn. apply IH; lia.
Qed.

(** The loop as its source reads: no fuel. *)
Lemma walk_step raw args s :
  walk body (raw :: args) s = '(s', rest) ← body raw args s; walk body rest s'.
Proof.
  unfold walk at 1. cbn. destruct (body raw args s) as [[s' rest]|] eqn:E; [|done].
  cbn. apply walk_go_enough. by apply Hs in E.
Qed.

End Walk.

Lemma local_shrinks {A : Type} (f : list string -> result (A * list string)) args a rest :
  local f -> f args = Ok (a, rest) -> (length rest <= length args)%nat.
Proof. intros Hf H. destruct (Hf _ _ _ H) as (t & -> & _). rewrite length_app. lia. Qed.

Lemma pass_body_shrinks run : shrinks (pass_body run).
Proof.
  intros raw args s a rest H. unfold pass_body in H.
  destruct (p_end s || is_positional raw).
  - destruct (2 <=? _)%nat; simplify_eq; cbn; lia.
  - destruct (split_flag raw) as [flag inline]. apply bind_ok in H as ([e args'] & H & [= <- <-]).
    by eapply local_shrinks; [apply run_option_local|].
Qed.

#[local] Hint Resolve pass_body_shrinks : core.

(** ** One pass of [run] *)

Definition over (c : ContainerConfig.t) (p : option string) (s : pass) : pass :=
  MkPass c p (p_detach s) (p_pos s) (p_end s).

(** The body of the loop does not look at the configuration nor at the path. *)
Lemma body_frame run raw args s s' rest :
  pass_body run raw args s = Ok (s', rest) ->
  exists u q, s' = over (u (p_cfg s)) (q ∪ p_path s) s' /\
  forall c p, pass_body run raw args (over c p s) = Ok (over (u c) (q ∪ p) s', rest).
Proof.
  unfold pass_body. cbn [p_end over]. destruct (p_end s || is_positional raw).
  - cbn [p_pos add_positional over]. intros H. exists id, None.
    destruct (2 <=? _)%nat; simplify_eq; (split; [|by intros c [p|]]).
    all: unfold over, add_positional; cbn; by destruct (p_path s).
  - destruct (split_flag raw) as [flag inline]. intros ([e args'] & -> & [= <- <-])%bind_ok. cbn.
    exists (match e with Update f => f | _ => id end), (match e with ConfigPath p => Some p | _ => None end).
    split; [|intros c p]; destruct e; cbn; try done; try (by destruct (p_path s)); by destruct p.
Qed.

Lemma body_frame_err run raw args s e c p :
  pass_body run raw args s = Err e -> pass_body run raw args (over c p s) = Err e.
Proof.
  unfold pass_body. cbn [p_end over]. destruct (p_end s || is_positional raw).
  - cbn [p_pos add_positional over]. by destruct (2 <=? _)%nat.
  - destruct (split_flag raw) as [flag inline].
    by destruct (run_option run flag inline args) as [[]|].
Qed.

Lemma opt_union_assoc {A : Type} (a b c : option A) : a ∪ (b ∪ c) = a ∪ b ∪ c.
Proof. by destruct a, b, c. Qed.

(** The same of the whole loop: the options are an update of whatever
    configuration they are applied to, and an error is the same for all. *)
Lemma pass_frame run n args s :
  (length args <= n)%nat ->
  match walk (pass_body run) args s with
  | Ok s' =>
      exists u q, s' = over (u (p_cfg s)) (q ∪ p_path s) s' /\
      forall c p, walk (pass_body run) args (over c p s) = Ok (over (u c) (q ∪ p) s')
  | Err e => forall c p, walk (pass_body run) args (over c p s) = Err e
  end.
Proof.
  revert args s. induction n as [|n IH]; intros [|raw args] s Hn; cbn in Hn; try lia.
  1,2: exists id, None; destruct s as [c [p|] d l e]; by split; [|intros ? [p'|]].
  rewrite walk_step by done. destruct (pass_body run raw args s) as [[s1 rest]|e] eqn:E; cbn [mbind result_bind].
  - assert (length rest <= length args)%nat by by eapply pass_body_shrinks.
    destruct (body_frame _ _ _ _ _ _ E) as (u1 & q1 & E1 & H1).
    specialize (IH rest s1 ltac:(lia)). destruct (walk (pass_body run) rest s1) as [s'|e].
    + destruct IH as (u2 & q2 & E2 & H2). exists (fun c => u2 (u1 c)), (q2 ∪ q1). split.
      * rewrite E2 at 1. rewrite E1. unfold over. cbn. f_equal. apply opt_union_assoc.
      * intros c p. rewrite walk_step by done. rewrite H1. cbn [mbind result_bind].
        rewrite H2.
        by rewrite opt_union_assoc.
    + intros c p. rewrite walk_step by done. rewrite H1. apply IH.
  - intros c p. rewrite walk_step by done. by rewrite (body_frame_err _ _ _ _ _ c p E).
Qed.

(** Positional arguments are kept. *)
Lemma body_pos run raw args s s' rest :
  pass_body run raw args s = Ok (s', rest) ->
  (p_pos s <> [] -> p_pos s' <> []) /\ (p_end s || is_positional raw = true -> p_pos s' <> []).
Proof.
  unfold pass_body. destruct (p_end s || is_positional raw).
  - cbn [p_pos add_positional]. intros H. destruct (2 <=? _)%nat; simplify_eq; cbn;
      split; intros _; by destruct (p_pos s).
  - destruct (split_flag raw) as [flag inline]. intros ([e args'] & _ & [= <- <-])%bind_ok.
    split; [by destruct e|done].
Qed.

Lemma walk_pos run n args s s' :
  (length args <= n)%nat -> walk (pass_body run) args s = Ok s' -> p_pos s' = [] -> p_pos s = [].
Proof.
  revert args s. induction n as [|n IH]; intros [|raw args] s Hn; cbn in Hn; try lia.
  1,2: by intros [= <-].
  rewrite walk_step by done. intros ([s1 rest] & E & H)%bind_ok Hp.
  assert (length rest <= length args)%nat by by eapply pass_body_shrinks.
  assert (p_pos s1 = []) as H1 by (eapply (IH rest); [lia|done|done]).
  destruct (decide (p_pos s = [])) as [|Hne]; [done|]. by apply (body_pos _ _ _ _ _ _ E) in Hne.
Qed.

(** Options are read the same whatever follows them. *)
Lemma walk_options run n pre s s' post :
  (length pre <= n)%nat -> walk (pass_body run) pre s = Ok s' -> p_pos s' = [] ->
  walk (pass_body run) (pre ++ post) s = walk (pass_body run) post s'.
Proof.
  revert pre s. induction n as [|n IH]; intros [|raw pre] s Hn; cbn in Hn; try lia.
  1,2: by intros [= <-].
  rewrite walk_step by done. intros ([s1 rest] & E & H)%bind_ok Hp. cbn [app].
  assert (length rest <= length pre)%nat by by eapply pass_body_shrinks.
  assert (p_pos s1 = []) as H1 by (eapply (walk_pos run n rest); [lia|done|done]).
  rewrite walk_step by done. pose proof E as E'. unfold pass_body in E |- *.
  destruct (p_end s || is_positional raw) eqn:Eb.
  - by apply (body_pos _ _ _ _ _ _ E') in Eb.
  - destruct (split_flag raw) as [flag inline]. apply bind_ok in E as ([e args'] & E & [= <- <-]).
    destruct (run_option_local _ _ _ _ _ _ E) as (t & _ & ->). cbn [mbind result_bind].
    apply IH; [lia|done|done].
Qed.

(** ** What a command line means *)

(** A sequence of complete options: no positional argument and no [--]. *)
Definition options_only (run : bool) (pre : list string) : bool :=
  match walk (pass_body run) pre (pass_start ContainerConfig.default) with
  | Ok s => bool_decide (p_pos s = []) && negb (p_end s)
  | Err _ => false
  end.

(** The file it names, if any. *)
Definition file_named (run : bool) (pre : list string) : option string :=
  match walk (pass_body run) pre (pass_start ContainerConfig.default) with
  | Ok s => p_path s
  | Err _ => None
  end.

(** The ways to write the option. *)
Definition config_option (f : string) (l : list string) : Prop :=
  l ∈ [["--config"; f]; ["-c"; f]; ["--config=" +:+ f]; ["-c=" +:+ f]].

(** What a sequence of options does to every configuration. *)
Lemma options_only_spec run pre :
  options_only run pre = true ->
  exists u d, forall c p post,
    walk (pass_body run) pre (MkPass c p false [] false)
      = Ok (MkPass (u c) (file_named run pre ∪ p) d [] false) /\
    walk (pass_body run) (pre ++ post) (MkPass c p false [] false)
      = walk (pass_body run) post (MkPass (u c) (file_named run pre ∪ p) d [] false).
Proof.
  unfold options_only, file_named.
  pose proof (pass_frame run (length pre) pre (pass_start ContainerConfig.default) ltac:(lia)) as HF.
  destruct (walk _ pre _) as [s|]; [|done]. intros [Hp%bool_decide_eq_true He]%andb_true_iff.
  apply negb_true_iff in He. destruct HF as (u & q & E & H). exists u, (p_detach s). intros c p post.
  assert (p_path s = q) as Hq by (rewrite E; by destruct q).
  assert (walk (pass_body run) pre (MkPass c p false [] false) = Ok (over (u c) (p_path s ∪ p) s)) as HW
    by (rewrite Hq; apply (H c p)).
  unfold over in HW. rewrite Hp, He in HW. split; [done|].
  by apply (walk_options run (length pre) _ _ _ _ (Nat.le_refl _) HW).
Qed.

Lemma walk_config run f l post c p d :
  config_option f l ->
  walk (pass_body run) (l ++ post) (MkPass c p d [] false) = walk (pass_body run) post (MkPass c (Some f) d [] false).
Proof.
  unfold config_option. rewrite !elem_of_cons, elem_of_nil.
  intros [-> | [-> | [-> | [-> | []]]]]; cbn [app]; by rewrite walk_step.
Qed.

(** Two command lines with the same meaning for every configuration. *)
Lemma parse_run_ext args args' run w :
  (forall c, walk (pass_body run) args (pass_start c) = walk (pass_body run) args' (pass_start c)) ->
  parse_run args run w = parse_run args' run w.
Proof.
  intros H. unfold parse_run. assert (forall c, parse_run_pass args run c = parse_run_pass args' run c) as HP
    by (intros c; unfold parse_run_pass; by rewrite H).
  rewrite HP. destruct (parse_run_pass args' run _) as [[a p]|]; [|done].
  destruct (match p with Some _ => _ | None => _ end) as [[b| | |] w']; cbn; by rewrite ?HP.
Qed.

(** The options of a line that names one file are applied over what the file
    says. *)
Lemma parse_run_over_file run pre f l post w base w' args :
  options_only run pre = true -> file_named run pre = None -> config_option f l ->
  config_file.from_file f w = (toml.TOk base, w') ->
  parse_run_pass (pre ++ post) run base = Ok (args, None) ->
  parse_run (pre ++ l ++ post) run w = (toml.TOk args, w').
Proof.
  intros Ho Hf Hl Hfile (s & Hs & Ha)%bind_ok. injection Ha as <- Hpath. destruct (options_only_spec _ _ Ho) as (u & d & H).
  assert (forall c, walk (pass_body run) (pre ++ l ++ post) (pass_start c) =
                    walk (pass_body run) post (over (u c) (Some f) (MkPass c None d [] false))) as HW.
  { intros c. unfold pass_start. by rewrite (proj2 (H c None _)), Hf, (walk_config _ f). }
  unfold pass_start in Hs. rewrite (proj2 (H base None post)), Hf in Hs. change (None ∪ None) with (@None string) in Hs.
  pose proof (pass_frame run (length post) post (MkPass (u base) None d [] false) ltac:(lia)) as HF. rewrite Hs in HF.
  destruct HF as (v & q & Es & HF). assert (q = None) as -> by (rewrite Es in Hpath; by destruct q).
  assert (forall c, parse_run_pass (pre ++ l ++ post) run c = Ok (pass_finish (over (v (u c)) (Some f) s))) as HP.
  { intros c. unfold parse_run_pass. rewrite HW. specialize (HF (u c) (Some f)). unfold over in HF |- *. cbn in HF |- *. by rewrite HF. }
  unfold parse_run. rewrite HP. cbn [pass_finish over p_path]. rewrite Hfile. cbn [toml.tbind]. rewrite HP.
  cbn [mbind result_bind toml.of_result]. do 2 f_equal. rewrite Es. done.
Qed.

(** C31: The place of [--config] among the options does not matter, and the
    options win over the file.  Moving [--config f] (in any of its spellings)
    over a sequence of complete options that names no other file to the front
    changes neither the resulting configuration nor the error nor the files
    read, whatever the file and the words that follow; and when the words that
    follow name no other file either and the file is read as a configuration,
    the result is what all the other words give when they are applied to the
    configuration of the file. *)
Theorem config_flag_anywhere run pre f l post w :
  options_only run pre = true -> file_named run pre = None -> config_option f l ->
  parse_run (pre ++ l ++ post) run w = parse_run (l ++ pre ++ post) run w /\
  (forall base w' args, config_file.from_file f w = (toml.TOk base, w') ->
     parse_run_pass (pre ++ post) run base = Ok (args, None) ->
     parse_run (pre ++ l ++ post) run w = (toml.TOk args, w')).
Proof.
  intros Ho Hf Hl. split; [|intros base w' args; by apply (parse_run_over_file run pre f l post w base w' args)].
  apply parse_run_ext. intros c. destruct (options_only_spec _ _ Ho) as (u & d & H).
  unfold pass_start. rewrite (proj2 (H c None _)), Hf, (walk_config _ f), (walk_config _ f) by done.
  by rewrite (proj2 (H c (Some f) post)), Hf.
Qed.

(** A file system with one file, for the witnesses. *)
Definition desk (name text : string) : World :=
  MkWorld (MkFs {[name := text]} {["/"]}) [] [] (fun _ => "").

Definition demo_toml : string :=
  RustStr.join cli.newline
    ["rootfs = '/tmp'"; "name = 'from-file'"; "hostname = 'file-host'"; "command = ['/bin/true']"].

Lemma config_flag_anywhere_witness :
  parse_run (["--name"; "from-flag"] ++ ["--config"; "c.toml"] ++ ["/bin/echo"; "-n"]) true (desk "c.toml" demo_toml)
  = parse_run (["--config"; "c.toml"] ++ ["--name"; "from-flag"] ++ ["/bin/echo"; "-n"]) true (desk "c.toml" demo_toml).
Proof.
  apply (config_flag_anywhere true _ "c.toml"); [vm_compute; reflexivity | vm_compute; reflexivity |].
  apply elem_of_cons. by left.
Defined.

(** What the flag and the file of the witness give. *)
Example flag_over_file :
  match parse_run ["--name"; "from-flag"; "--config"; "c.toml"; "/bin/echo"; "hi"] true (desk "c.toml" demo_toml) with
  | (toml.TOk a, _) =>
      let c := config a in
      (ContainerConfig.name c, ContainerConfig.hostname c, ContainerConfig.rootfs c, ContainerConfig.command c)
      = (Some "from-flag", "file-host", "/tmp", ["/bin/echo"; "hi"])
  | _ => False
  end.
Proof. vm_compute. reflexivity. Qed.

(** ** The words of the workload *)

Definition place (pos : list string) (r : toml.tres RunArgs * World) : toml.tres RunArgs * World :=
  (toml.tbind r.1 (fun a => toml.TOk (MkRun (positional_form pos (config a)) (run_detach a))), r.2).

Lemma positional_form_detach pos d c :
  positional_form pos (cfg.set_detach d c) = cfg.set_detach d (positional_form pos c).
Proof.
  destruct pos as [|p [|q pos]]; [done| |]; unfold positional_form; cbn [ContainerConfig.rootfs cfg.set_detach];
    by destruct (str_is_empty (ContainerConfig.rootfs c)).
Qed.

(** A command line that gives the options [pre] and the positional arguments
    [pos]. *)
Lemma parse_run_place pre args pos run w :
  options_only run pre = true ->
  (forall c p d, exists e, walk (pass_body run) args (MkPass c p d [] false) = Ok (MkPass c p d pos e)) ->
  parse_run (pre ++ args) run w = place pos (parse_run pre run w).
Proof.
  intros Ho Hargs. destruct (options_only_spec _ _ Ho) as (u & d & H).
  assert (forall c, exists e, parse_run_pass pre run c = Ok (MkRun (cfg.set_detach d (u c)) d, file_named run pre)
            /\ parse_run_pass (pre ++ args) run c
               = Ok (pass_finish (MkPass (u c) (file_named run pre) d pos e))) as HP.
  { intros c. destruct (H c None args) as [H1 H2]. destruct (Hargs (u c) (file_named run pre) d) as [e He].
    exists e. unfold parse_run_pass, pass_start. rewrite H1, H2.
    assert (file_named run pre ∪ None = file_named run pre) as -> by (by destruct (file_named run pre)).
    by rewrite He. }
  unfold parse_run. destruct (HP ContainerConfig.default) as (e0 & -> & ->). cbn [pass_finish p_path].
  destruct (match file_named run pre with Some _ => _ | None => _ end) as [[b| | |] w']; cbn; try done.
  destruct (HP b) as (e & -> & ->). unfold place. cbn. by rewrite positional_form_detach.
Qed.

Lemma body_positional run raw args s :
  is_positional raw = true ->
  pass_body run raw args s =
    let s' := add_positional [raw] s in
    if (2 <=? length (p_pos s'))%nat then Ok (add_positional args s', []) else Ok (s', args).
Proof. intros H. unfold pass_body. by rewrite H, orb_true_r. Qed.

Lemma body_option run raw args s :
  is_positional raw = false -> p_end s = false ->
  pass_body run raw args s =
    let '(flag, inline) := split_flag raw in
    '(e, args') ← run_option run flag inline args; Ok (apply_effect e s, args').
Proof. intros H He. unfold pass_body. by rewrite H, He. Qed.

Lemma walk_two run a b rest c p d :
  is_positional a = true -> is_positional b = true ->
  exists e, walk (pass_body run) (a :: b :: rest) (MkPass c p d [] false) = Ok (MkPass c p d (a :: b :: rest) e).
Proof.
  intros Ha Hb. exists false. rewrite walk_step, body_positional by done. cbn [length p_pos add_positional app].
  cbn [Nat.leb mbind result_bind]. by rewrite walk_step, body_positional.
Qed.

Lemma walk_dashes run rest c p d :
  exists e, walk (pass_body run) ("--" :: rest) (MkPass c p d [] false) = Ok (MkPass c p d rest e).
Proof.
  exists true. transitivity (walk (pass_body run) rest (MkPass c p d [] true)); [by rewrite walk_step|].
  destruct rest as [|a [|b rest]]; [done|by rewrite walk_step|].
  transitivity (walk (pass_body run) (b :: rest) (MkPass c p d [a] true)); by rewrite walk_step.
Qed.



(** ** Errors *)

(** The options [run] and [create] know. *)
Definition run_options : list string :=
  ["--"; "-h"; "--help"; "--config"; "-c"; "--name"; "--rootfs"; "-e"; "--env"; "-w"; "--workdir";
   "--cwd"; "--hostname"; "-d"; "--detach"; "--rm"; "--read-only"; "-v"; "--volume"; "--mount";
   "--label"; "-m"; "--memory"; "--memory-swap"; "--cpus"; "--cpu-weight"; "--cpu-shares"; "--pids";
   "--pids-limit"; "--network"; "--net"; "--bridge"; "--subnet"; "--ip"; "--gateway"; "--mtu"; "-p";
   "--publish"; "--no-nat"; "--dns"; "--cap-add"; "--cap-drop"; "--seccomp"; "--privileged";
   "--no-new-privs"; "--user"; "-u"; "--no-pid-ns"; "--no-ipc-ns"; "--no-uts-ns"; "--no-cgroup-ns"].

Definition unknown_option (run : bool) (flag : string) : Error :=
  Usage ("unknown option " +:+ debug_str flag +:+ " for `myrun " +:+ verb run +:+ "`").

Lemma run_option_unknown run flag inline args :
  flag ∉ run_options -> run_option run flag inline args = Err (unknown_option run flag).
Proof.
  intros Hn. unfold run_option. cbv zeta.
  repeat match goal with
  | |- (if one_of flag ?l then _ else _) = _ =>
      replace (one_of flag l) with false by
        (symmetry; apply bool_decide_eq_false; intros Hin; apply Hn; clear -Hin; unfold run_options; set_solver)
  end.
  done.
Qed.

(** The second pass fails only if the first did. *)
Lemma second_pass_ok args run a p base :
  parse_run_pass args run ContainerConfig.default = Ok (a, p) ->
  exists a', parse_run_pass args run base = Ok (a', p) /\ run_detach a' = run_detach a.
Proof.
  unfold parse_run_pass. intros (s & E & [= <- <-])%bind_ok.
  pose proof (pass_frame run (length args) args (pass_start ContainerConfig.default) ltac:(lia)) as HF.
  rewrite E in HF. destruct HF as (u & q & Es & H).
  change (pass_start base) with (over base None (pass_start ContainerConfig.default)).
  rewrite (H base None). assert (q ∪ None = p_path s) as Hq by (by rewrite Es).
  exists (pass_finish (over (u base) None s)).1. split; [|done]. rewrite Hq. done.
Qed.

Lemma from_file_answers p w w' : config_file.from_file p w <> (toml.TFuel, w').
Proof.
  unfold config_file.from_file, config_file.decode. destruct (ufs.read_to_string p w) as [[text|e] w1]; [|by intros [=]].
  intros [= H _]. revert H. destruct (config_file.is_json p text).
  - destruct (json.parse text) as [j|]; [|done]. cbn. by destruct (ContainerConfig.from_json j).
  - pose proof (parse_no_fuel text) as Hf. destruct (toml.parse text) as [j| | |]; try done.
    cbn. by destruct (ContainerConfig.from_json j).
Qed.

(** The command line of [run] and [create] is strict and its errors do not
    depend on the file.  An option that does not exist, after any complete
    options, is a usage error that names it, raised before any file is read,
    never a positional argument.  A run that fails does so because of the words
    alone, before anything is read, or because the file named cannot be read or
    understood: applying the options to the file's values never fails. *)
Theorem run_errors run args w :
  (forall pre raw post, args = pre ++ raw :: post -> options_only run pre = true ->
     is_positional raw = false -> (split_flag raw).1 ∉ run_options ->
     parse_run args run w = (toml.TErr (unknown_option run (split_flag raw).1), w)) /\
  match parse_run args run w with
  | (toml.TOk a, w') =>
      exists a0 p, parse_run_pass args run ContainerConfig.default = Ok (a0, p) /\ run_detach a = run_detach a0
  | (toml.TErr e, w') =>
      (parse_run_pass args run ContainerConfig.default = Err e /\ w' = w) \/
      exists p, config_file.from_file p w = (toml.TErr e, w')
  | (toml.TPanic, w') => exists p, config_file.from_file p w = (toml.TPanic, w')
  | (toml.TFuel, _) => False
  end.
Proof.
  split.
  - intros pre raw post -> Ho Hp Hn. destruct (options_only_spec _ _ Ho) as (u & d & H).
    unfold parse_run, parse_run_pass, pass_start. rewrite (proj2 (H ContainerConfig.default None _)).
    rewrite walk_step, body_option by done.
    destruct (split_flag raw) as [flag inline]. by rewrite run_option_unknown.
  - unfold parse_run. destruct (parse_run_pass args run ContainerConfig.default) as [[a0 [p|]]|e] eqn:E; cbn.
    + destruct (config_file.from_file p w) as [[b|e| |] w'] eqn:Ef; cbn; [|by eauto..|by apply from_file_answers in Ef].
      destruct (second_pass_ok _ _ _ _ b E) as (a & -> & Ha). cbn. eauto.
    + rewrite E. cbn. eauto.
    + auto.
Qed.

Lemma run_errors_witness :
  parse_run ["-d"; "--memroy"; "256m"; "/tmp"; "/bin/sh"] true (desk "" "")
  = (toml.TErr (unknown_option true "--memroy"), desk "" "").
Proof.
  apply (proj1 (run_errors true ["-d"; "--memroy"; "256m"; "/tmp"; "/bin/sh"] (desk "" "")) ["-d"]
           "--memroy" ["256m"; "/tmp"; "/bin/sh"]); [done | vm_compute; reflexivity.. |].
  apply (bool_decide_unpack _). vm_compute. exact I.
Defined.

(** ** Where the command line departs from its description *)

(** With the root file system given by an option the words after the command
    name are still read as options: [-c ls] is taken for a configuration file. *)
Example rootfs_option_loses_arguments :
  parse_run ["--rootfs"; "/r"; "/bin/sh"; "-c"; "ls"] true (desk "" "")
  = (toml.TErr (Syscall "read" 2 "ls"), desk "" "").
Proof. vm_compute. reflexivity. Qed.

(** Unknown flags of [inspect], [pause] and [unpause] are dropped, and so are
    all containers but the last of [start]. *)
Example lenient_commands :
  cli.parse ["inspect"; "--jsno"; "web"] ∅ (desk "" "") = (toml.TOk (Inspect ["web"]), ∅, desk "" "") /\
  cli.parse ["start"; "a"; "b"] ∅ (desk "" "") = (toml.TOk (Start "b" false), ∅, desk "" "").
Proof. split; vm_compute; reflexivity. Qed.

(** An interval that is no number, or below a millisecond, becomes zero. *)
Example interval_becomes_zero :
  parse_stats ["-i"; "nan"] = Ok (Stats [] false false 0) /\
  parse_stats ["-i"; "0.0001"] = Ok (Stats [] false false 0).
Proof. split; vm_compute; reflexivity. Qed.

(** The log level is set from the environment before [--debug] changes it. *)
Example debug_flag_is_late :
  startup ["--debug"; "ls"] ∅ (desk "" "")
  = (logging.WARN, toml.TOk (List false false false), {["MYRUN_LOG" := "debug"]}, desk "" "").
Proof. vm_compute. reflexivity. Qed.
