(* ===== verification/Stats.v ===== *)
(** * [src/runtime/stats.rs]: what a container uses

    The counters come from the control group ([Cgroup.v]), from [/proc] and
    from the host's end of the veth pair; they are shown as JSON or as the row
    of a table.  [format_bytes] of [src/util/mod.rs] and the formatting of
    floating-point numbers with a precision are here too. *)
From Stdlib Require Import SpecFloat.
From S2P Require Import Prelude RustStr Num F64 Error Json Util Process State Fs Host KernFs Cgroup Network Netlink Spawn.
Import json.

(** ** Floating point *)

Definition f64_div : f64 -> f64 -> f64 := SFdiv 53 1024.

(** [num/den] to the nearest integer, halves to even. *)
Definition round_half_even (num den : Z) : Z :=
  let q := num `div` den in
  let r := num `mod` den in
  if 2 * r <? den then q
  else if den <? 2 * r then q + 1
  else if Z.even q then q else q + 1.

(** [format!("{:.p$}", f)]: the exact value rounded to [p] places. *)
Definition f64_fixed (p : Z) (f : f64) : string :=
  match f with
  | S754_nan => "NaN"
  | S754_infinity neg => if neg then "-inf" else "inf"
  | S754_zero neg => (if neg then "-" else "") +:+ place_point 0 (- p)
  | S754_finite neg m e =>
      let '(num, den) := num_den m e in
      (if neg then "-" else "") +:+ place_point (round_half_even (num * 10 ^ p) den) (- p)
  end.

(** [format_bytes]. *)
Definition format_bytes (b : Z) : string :=
  let K := f64_of_Z 1024 in
  let f := f64_of_Z b in
  if f64_ltb f K then show_dec b +:+ "B"
  else if f64_ltb f (f64_mul K K) then f64_fixed 1 (f64_div f K) +:+ "KiB"
  else if f64_ltb f (f64_mul (f64_mul K K) K) then f64_fixed 1 (f64_div f (f64_mul K K)) +:+ "MiB"
  else f64_fixed 2 (f64_div f (f64_mul (f64_mul K K) K)) +:+ "GiB".

(** ** [struct Stats] *)
Module Stats.
Record t := Mk {
  id : string; name : option string; status : string; pid : Z; uptime_ms : Z;
  cgroup : CgroupStats.t;
  net_rx_bytes : Z; net_tx_bytes : Z; net_rx_packets : Z; net_tx_packets : Z; net_available : bool;
  process_count : option Z
}.

(** [CgroupStats::default()]. *)
Definition no_counters : CgroupStats.t :=
  CgroupStats.Mk None None None 0 None None None 0 0 None None.

Definition set_cgroup (s : t) (c : CgroupStats.t) : t :=
  Mk (id s) (name s) (status s) (pid s) (uptime_ms s) c
    (net_rx_bytes s) (net_tx_bytes s) (net_rx_packets s) (net_tx_packets s) (net_available s) (process_count s).

(** The assignments of [collect] from the counters of the host's interface. *)
Definition set_net (s : t) (l : netlink.LinkStats) : t :=
  Mk (id s) (name s) (status s) (pid s) (uptime_ms s) (cgroup s)
    (netlink.tx_bytes l) (netlink.rx_bytes l) (netlink.tx_packets l) (netlink.rx_packets l) true (process_count s).

Definition cpu_percent_lifetime (s : t) : option f64 :=
  usec ← CgroupStats.cpu_usage_usec (cgroup s);
  if uptime_ms s =? 0 then None
  else Some (f64_mul (f64_div (f64_div (f64_of_Z usec) (f64_of_Z 1000)) (f64_of_Z (uptime_ms s))) (f64_of_Z 100)).

Definition memory_percent (s : t) : option f64 :=
  cur ← CgroupStats.memory_current (cgroup s);
  max ← CgroupStats.memory_max (cgroup s);
  if max =? 0 then None
  else Some (f64_mul (f64_div (f64_of_Z cur) (f64_of_Z max)) (f64_of_Z 100)).

(** [self.cgroup.pids_current.or(self.process_count)]. *)
Definition pids_now (s : t) : option Z :=
  match CgroupStats.pids_current (cgroup s) with Some n => Some n | None => process_count s end.

(** [Json::Int(x as i64)] of a [u64]. *)
Definition int (x : Z) : Json := JInt (wrap_s 64 x).
Definition opt (v : option Z) : Json := match v with Some x => int x | None => JNull end.

Definition to_json (s : t) : Json :=
  let c := cgroup s in
  let mem := set (set (set (set obj
    "current" (opt (CgroupStats.memory_current c)))
    "peak" (opt (CgroupStats.memory_peak c)))
    "limit" (opt (CgroupStats.memory_max c)))
    "oom_kills" (int (CgroupStats.oom_kills c)) in
  let cpu := set (set (set (set (set obj
    "usage_usec" (opt (CgroupStats.cpu_usage_usec c)))
    "user_usec" (opt (CgroupStats.cpu_user_usec c)))
    "system_usec" (opt (CgroupStats.cpu_system_usec c)))
    "nr_throttled" (int (CgroupStats.nr_throttled c)))
    "throttled_usec" (int (CgroupStats.throttled_usec c)) in
  let pids := set (set obj
    "current" (opt (pids_now s)))
    "limit" (opt (CgroupStats.pids_max c)) in
  let net := set (set (set (set (set obj
    "available" (JBool (net_available s)))
    "rx_bytes" (int (net_rx_bytes s)))
    "tx_bytes" (int (net_tx_bytes s)))
    "rx_packets" (int (net_rx_packets s)))
    "tx_packets" (int (net_tx_packets s)) in
  set (set (set (set (set (set (set (set (set obj
    "id" (JStr (id s)))
    "name" (match name s with Some n => JStr n | None => JNull end))
    "status" (JStr (status s)))
    "pid" (JInt (pid s)))
    "uptime_ms" (int (uptime_ms s)))
    "memory" mem) "cpu" cpu) "pids" pids) "network" net.

(** [format!("{:.2}%", p)]. *)
Definition percent (p : f64) : string := f64_fixed 2 p +:+ "%".

Definition table_row (s : t) : list string :=
  [ util.short_id (id s);
    default "-" (name s);
    status s;
    default "-" (percent <$> cpu_percent_lifetime s);
    match CgroupStats.memory_current (cgroup s), CgroupStats.memory_max (cgroup s) with
    | Some c, Some m => format_bytes c +:+ " / " +:+ format_bytes m
    | Some c, None => format_bytes c +:+ " / -"
    | None, _ => "-"
    end;
    default "-" (show_dec <$> pids_now s);
    if net_available s then format_bytes (net_rx_bytes s) +:+ " / " +:+ format_bytes (net_tx_bytes s) else "-" ].

Definition HEADERS : list string :=
  ["CONTAINER"; "NAME"; "STATUS"; "CPU"; "MEM / LIMIT"; "PIDS"; "NET RX / TX"].
End Stats.

(** [Netlink::link_stats] of an interface, after [Netlink::open]. *)
Class LinkCounters (H : Type) := link_counters : string -> HM H netlink.LinkStats.

Module stats.
Section ops.
Context {H : Type} `{Links H} `{KernFs H} `{Processes H} `{Spawner H} `{LinkCounters H}.

Definition process_count_via_proc (pid : Z) : HM H (option Z) := fun h =>
  if pid <=? 0 then (Ok None, h)
  else match kf_read_dir ("/proc/" +:+ show_dec pid +:+ "/task") h with
       | (inr names, h') => (Ok (Some (Z.of_nat (length names))), h')
       | (inl _, h') => (Ok None, h')
       end.

Definition with_cgroup (st : ContainerState.t) (s : Stats.t) : HM H Stats.t :=
  match ContainerState.cgroup_path st with
  | None => mret s
  | Some p =>
      a ← host.try (cgroup.attach p);
      match a with
      | Ok cg => c ← cgroup.stats cg; mret (Stats.set_cgroup s c)
      | Err _ => mret s
      end
  end.

Definition counters (veth : string) : HM H netlink.LinkStats := _ ← netlink Open; link_counters veth.

Definition with_net (st : ContainerState.t) (s : Stats.t) : HM H Stats.t :=
  match NetworkState.host_veth (ContainerState.network st) with
  | None => mret s
  | Some veth =>
      l ← host.try (counters veth);
      mret (match l with Ok l => Stats.set_net s l | Err _ => s end)
  end.

Definition clock : HM H Z := fun h => (Ok (now_ms h), h).

Definition collect (st : ContainerState.t) : HM H Stats.t :=
  now ← clock;
  count ← process_count_via_proc (ContainerState.init_pid st);
  let s := Stats.Mk (ContainerState.id st) (ContainerState.name st) (Status.as_str (ContainerState.status st))
             (ContainerState.init_pid st) (ContainerState.uptime_ms now st) Stats.no_counters 0 0 0 0 false count in
  s ← with_cgroup st s;
  with_net st s.
End ops.

Definition cpu_delta_percent (prev cur : Stats.t) (interval_ms : Z) : option f64 :=
  a ← CgroupStats.cpu_usage_usec (Stats.cgroup prev);
  b ← CgroupStats.cpu_usage_usec (Stats.cgroup cur);
  if (interval_ms =? 0) || (b <? a) then None
  else Some (f64_mul (f64_div (f64_div (f64_of_Z (b - a)) (f64_of_Z 1000)) (f64_of_Z interval_ms)) (f64_of_Z 100)).

(** [container_view]. *)
Definition container_view (l : netlink.LinkStats) : Z * Z := (netlink.tx_bytes l, netlink.rx_bytes l).
End stats.
