(* ===== verification/StatsFacts.v ===== *)
(** * Theorems about statistics

    The sizes shown are the exact ones to the last digit, and the counters of
    the network are the container's. *)
From Stdlib Require Import SpecFloat.
From S2P Require Import Prelude RustStr Num F64 F64Facts Error Json Process State StateFacts Fs Host KernFs Cgroup Network Netlink Spawn Steady Stats.

(** ** Exact division *)

(** Dividing by a power of two changes the exponent only. *)
Lemma double_shift m e : normal m e -> -1073 <= e ->
  shr_fexp 53 1024 (2 * m) (e - 1) loc_Exact = ({| shr_m := m; shr_r := false; shr_s := false |}, e).
Proof.
  intros [Hm He] He'. unfold shr_fexp. rewrite Zdigits2_log by lia.
  rewrite (log2_range (2 * m) 53) by (cbn; lia). unfold fexp, SpecFloat.emin.
  replace (Z.max (53 + 1 + (e - 1) - 53) (3 - 1024 - 53) - (e - 1)) with 1 by lia.
  destruct m as [|p|p]; [lia| |lia]. cbn. f_equal. lia.
Qed.

Lemma div_pow2 m e k : normal m e -> -1073 <= e - k -> e - k <= 971 -> 
  f64_div (S754_finite false (Z.to_pos m) e) (S754_finite false (Z.to_pos (2 ^ 52)) (k - 52)) =
  S754_finite false (Z.to_pos m) (e - k).
Proof.
  intros Hn H1 H2. pose proof Hn as [Hm He]. unfold f64_div, SFdiv, SFdiv_core_binary.
  rewrite !Z2Pos.id by lia. rewrite (normal_digits m e Hn). change (Zdigits2 (2 ^ 52)) with 53.
  assert (Z.min (fexp 53 1024 (53 + e - (53 + (k - 52)))) (e - (k - 52)) = e - k - 1) as ->
    by (unfold fexp, SpecFloat.emin; lia).
  replace (e - (k - 52) - (e - k - 1)) with 53 by lia.
  rewrite Z.shiftl_mul_pow2 by lia.
  assert (Z.div_eucl (m * 2 ^ 53) (2 ^ 52) = (2 * m, 0)) as ->.
  { pose proof (Z.div_eucl_eq (m * 2 ^ 53) (2 ^ 52) ltac:(lia)) as E. unfold Z.div, Z.modulo in *.
    pose proof (Z.mod_pos_bound (m * 2 ^ 53) (2 ^ 52) ltac:(lia)) as B. unfold Z.modulo in B.
    destruct (Z.div_eucl (m * 2 ^ 53) (2 ^ 52)) as [q r]. f_equal; lia. }
  change (new_location (2 ^ 52) 0) with loc_Exact. cbn [xorb]. unfold binary_round_aux.
  assert (normal m (e - k)) as Hn' by (split; lia).
  rewrite (double_shift m (e - k) Hn' ltac:(lia)). cbn [shr_m loc_of_shr_record round_nearest_even].
  rewrite (normal_shift m (e - k) Hn'). cbn [shr_m]. destruct m as [|p|p]; [lia| |lia].
  by rewrite (proj2 (Z.leb_le _ _)) by (cbn; lia).
Qed.

(** ** Sizes *)

(** The double [2^k]. *)
Definition pow_f (k : Z) : f64 := S754_finite false (Z.to_pos (2 ^ 52)) (k - 52).

Lemma units : f64_of_Z 1024 = pow_f 10 /\ f64_mul (f64_of_Z 1024) (f64_of_Z 1024) = pow_f 20 /\
  f64_mul (f64_mul (f64_of_Z 1024) (f64_of_Z 1024)) (f64_of_Z 1024) = pow_f 30.
Proof. vm_compute. split_and!; reflexivity. Qed.

Lemma below_unit b k : 0 < b < 2 ^ 53 -> 0 <= k -> f64_ltb (f64_of_Z b) (pow_f k) = (b <? 2 ^ k).
Proof.
  intros Hb Hk. rewrite f64_of_small by done. destruct (excess_range b Hb) as [_ [Hm _]]. unfold f64_ltb, SFltb, SFcompare, pow_f.
  pose proof (Z.log2_spec b ltac:(lia)) as [L1 L2]. unfold excess in *.
  destruct (Z.compare_spec (- (52 - Z.log2 b)) (k - 52)) as [E|E|E].
  - assert (Z.log2 b = k) as <- by lia. rewrite (proj2 (Z.ltb_ge _ _)) by lia.
    change (Pos.compare_cont Eq) with Pos.compare.
    destruct (Pos.compare_spec (Z.to_pos (b * 2 ^ (52 - Z.log2 b))) (Z.to_pos (2 ^ 52))) as [?|C|?]; try done.
    assert (Zpos (Z.to_pos (b * 2 ^ (52 - Z.log2 b))) < Zpos (Z.to_pos (2 ^ 52))) as C2 by exact C.
    rewrite !Z2Pos.id in C2 by lia. lia.
  - symmetry. apply Z.ltb_lt. eapply Z.lt_le_trans; [exact L2|]. apply Z.pow_le_mono_r; lia.
  - symmetry. apply Z.ltb_ge. etrans; [|exact L1]. apply Z.pow_le_mono_r; lia.
Qed.

Lemma half_even_scale c n d : 0 < c -> 0 < d -> round_half_even (n * c) (d * c) = round_half_even n d.
Proof.
  intros Hc Hd. unfold round_half_even. rewrite Z.div_mul_cancel_r, Z.mul_mod_distr_r by lia.
  replace (2 * (n mod d * c)) with (2 * (n mod d) * c) by lia.
  assert (forall x y, (x * c <? y * c) = (x <? y)) as L.
  { intros x y. destruct (Z.ltb_spec x y); [apply Z.ltb_lt|apply Z.ltb_ge]; nia. }
  by rewrite !L.
Qed.

(** The nearest integer: at most half a unit off. *)
Lemma half_even_near n d : 0 < d -> 2 * Z.abs (round_half_even n d * d - n) <= d.
Proof.
  intros Hd. unfold round_half_even. pose proof (Z.div_mod n d ltac:(lia)) as E. pose proof (Z.mod_pos_bound n d Hd).
  repeat case_match; lia.
Qed.

Lemma fixed_quotient b k p : 0 < b < 2 ^ 53 -> 1 <= k <= 100 -> 0 <= p ->
  f64_fixed p (f64_div (f64_of_Z b) (pow_f k)) = place_point (round_half_even (b * 10 ^ p) (2 ^ k)) (- p).
Proof.
  intros Hb Hk Hp. destruct (excess_range b Hb) as [Hx Hn]. rewrite f64_of_small by done. unfold pow_f.
  rewrite div_pow2 by (done || lia). unfold f64_fixed, num_den. pose proof Hn as [Hm _].
  rewrite (proj2 (Z.leb_gt 0 _)) by lia. rewrite Z2Pos.id by lia. cbn [String.append].
  replace (- (- excess b - k)) with (k + excess b) by lia. rewrite Z.pow_add_r by lia.
  assert (0 < 2 ^ excess b) by (apply Z.pow_pos_nonneg; lia). assert (0 < 2 ^ k) by (apply Z.pow_pos_nonneg; lia).
  replace (b * 2 ^ excess b * 10 ^ p) with (b * 10 ^ p * 2 ^ excess b) by lia. by rewrite half_even_scale.
Qed.

(** How a size is shown: the unit, its size, the places. *)
Definition shown_as (b : Z) : string * Z * Z :=
  if b <? 1024 then ("B", 1, 0)
  else if b <? 1024 ^ 2 then ("KiB", 1024, 1)
  else if b <? 1024 ^ 3 then ("MiB", 1024 ^ 2, 1)
  else ("GiB", 1024 ^ 3, 2).

(** C36: Sizes below 2^53 bytes are shown as they are: the number on the
    terminal is the size in the unit of its magnitude, rounded to the last
    place shown (one for KiB and MiB, two for GiB) and at most half of that
    place off, although it was computed in floating point. *)
Theorem sizes_exact (b : Z) : 0 <= b < 2 ^ 53 ->
  let '(unit, size, p) := shown_as b in
  exists d, format_bytes b = place_point d (- p) +:+ unit /\
    2 * Z.abs (d * size - b * 10 ^ p) <= size /\ (p = 0 -> d = b) /\ (0 < p -> 10 ^ p <= d).
Proof.
  intros Hb. destruct units as (U1 & U2 & U3). unfold format_bytes. cbv zeta. rewrite U3, U2, U1.
  destruct (decide (b = 0)) as [->|Hz].
  { exists 0. split_and!; [vm_compute; reflexivity|cbn; lia|done|lia]. }
  assert (0 < b < 2 ^ 53) as Hp by lia. rewrite !below_unit by lia. unfold shown_as.
  assert (forall k q, 0 < k -> 0 <= q -> 2 ^ k <= b -> 10 ^ q <= round_half_even (b * 10 ^ q) (2 ^ k)) as Big.
  { intros k q Hk Hq Hkb. assert (0 < 2 ^ k) by (apply Z.pow_pos_nonneg; lia). assert (0 < 10 ^ q) by (apply Z.pow_pos_nonneg; lia).
    assert (10 ^ q <= (b * 10 ^ q) / 2 ^ k) by (apply Z.div_le_lower_bound; nia). unfold round_half_even. repeat case_match; lia. }
  change (2 ^ 10) with 1024. change (2 ^ 20) with (1024 ^ 2). change (2 ^ 30) with (1024 ^ 3).
  destruct (Z.ltb_spec b 1024).
  { exists b. split_and!; [|cbn; lia|done|lia]. f_equal. unfold place_point. cbn [Z.opp Z.leb]. rewrite app_nil_r. unfold show_dec. by rewrite (proj2 (Z.ltb_ge _ _)) by lia. }
  destruct (Z.ltb_spec b (1024 ^ 2)); [|destruct (Z.ltb_spec b (1024 ^ 3))].
  - exists (round_half_even (b * 10 ^ 1) (2 ^ 10)). rewrite (fixed_quotient b 10 1) by lia.
    split_and!; [done|apply (half_even_near (b * 10 ^ 1) (2 ^ 10)); lia|lia|intros _; apply Big; lia].
  - exists (round_half_even (b * 10 ^ 1) (2 ^ 20)). rewrite (fixed_quotient b 20 1) by lia.
    split_and!; [done|apply (half_even_near (b * 10 ^ 1) (2 ^ 20)); lia|lia|intros _; apply Big; lia].
  - exists (round_half_even (b * 10 ^ 2) (2 ^ 30)). rewrite (fixed_quotient b 30 2) by lia.
    split_and!; [done|apply (half_even_near (b * 10 ^ 2) (2 ^ 30)); lia|lia|intros _; apply Big; lia].
Qed.

Lemma sizes_exact_witness : let '(unit, size, p) := shown_as 1536 in
  exists d, format_bytes 1536 = place_point d (- p) +:+ unit /\
    2 * Z.abs (d * size - 1536 * 10 ^ p) <= size /\ (p = 0 -> d = 1536) /\ (0 < p -> 10 ^ p <= d).
Proof. apply (sizes_exact 1536). lia. Defined.

(** A size just below a unit is rounded up to it. *)
Example size_texts :
  format_bytes <$> [0; 1023; 1024; 1536; 1048575; 1048576; 52428800; 1073741824; 1610612736] =
  ["0B"; "1023B"; "1.0KiB"; "1.5KiB"; "1024.0KiB"; "1.0MiB"; "50.0MiB"; "1.00GiB"; "1.50GiB"].
Proof. vm_compute. reflexivity. Qed.

(** ** Collecting *)

Section collect.
Context {H : Type} `{Links H} `{KernFs H} `{Processes H} `{Spawner H} `{LinkCounters H}.

(** The counters of the interface, seen from the container. *)
Definition net_seen (st : ContainerState.t) (s : Stats.t) : Prop :=
  if Stats.net_available s then
    exists veth l h1 h2, NetworkState.host_veth (ContainerState.network st) = Some veth /\
      stats.counters veth h1 = (Ok l, h2) /\ (Stats.net_rx_bytes s, Stats.net_tx_bytes s) = stats.container_view l /\
      Stats.net_rx_packets s = netlink.tx_packets l /\ Stats.net_tx_packets s = netlink.rx_packets l
  else Stats.net_rx_bytes s = 0 /\ Stats.net_tx_bytes s = 0.

Definition about (now : Z) (st : ContainerState.t) (s : Stats.t) : Prop :=
  Stats.id s = ContainerState.id st /\ Stats.name s = ContainerState.name st /\
  Stats.status s = Status.as_str (ContainerState.status st) /\ Stats.pid s = ContainerState.init_pid st /\
  Stats.uptime_ms s = ContainerState.uptime_ms now st.

Lemma count_answers pid h : exists c h', stats.process_count_via_proc pid h = (Ok c, h').
Proof. unfold stats.process_count_via_proc. repeat case_match; eauto. Qed.

Lemma stats_answers c : sure (cgroup.stats c).
Proof.
  unfold cgroup.stats, cgroup.read_u64, cgroup.keyed_value, cgroup.read_keyed, cgroup.read.
  repeat first [apply sure_bind; [|intros ?]|apply sure_try|apply sure_ret].
Qed.

Lemma with_cgroup_answers st s h : exists c h', stats.with_cgroup st s h = (Ok (Stats.set_cgroup s c), h').
Proof.
  unfold stats.with_cgroup. assert (Stats.set_cgroup s (Stats.cgroup s) = s) as E by (by destruct s).
  destruct (ContainerState.cgroup_path st) as [p|]; [|exists (Stats.cgroup s), h; by rewrite E].
  rewrite hm_bind_eq. unfold host.try at 1. destruct (cgroup.attach p h) as [[cg|e] h1].
  - rewrite hm_bind_eq. destruct (stats_answers cg h1) as (c & h2 & ->). by exists c, h2.
  - exists (Stats.cgroup s), h1. by rewrite E.
Qed.

(** Collecting never fails, whatever cannot be read; the identity is the
    record's, and the network counters are those of the host's end of the pair
    with their directions exchanged, or none. *)
Theorem collect_reports (st : ContainerState.t) (h : H) :
  exists s h', stats.collect st h = (Ok s, h') /\ about (now_ms h) st s /\ net_seen st s.
Proof.
  unfold stats.collect. rewrite hm_bind_eq. unfold stats.clock. rewrite hm_bind_eq.
  destruct (count_answers (ContainerState.init_pid st) h) as (n & h1 & ->). cbv zeta. rewrite hm_bind_eq.
  match goal with |- context [stats.with_cgroup st ?s h1] => destruct (with_cgroup_answers st s h1) as (c & h2 & ->) end.
  unfold stats.with_net. destruct (NetworkState.host_veth (ContainerState.network st)) as [veth|] eqn:Ev.
  2: { eexists _, h2. split; [done|]. done. }
  rewrite hm_bind_eq. unfold host.try. destruct (stats.counters veth h2) as [[l|e] h3] eqn:El.
  - eexists _, h3. split; [done|]. split; [done|]. exists veth, l, h2, h3. done.
  - eexists _, h3. done.
Qed.
End collect.
