(* ===== verification/Main.v ===== *)
(** * [src/main.rs]: the commands

    What the process does for each command, on the files, the kernel and the
    terminal.  The class [CliHost] has what only the commands need of the host;
    writing to the terminal is taken to succeed, but for the sink of
    [follow_logs].  Lines for the log are left out, and so is the restoring of
    the signal mask when a guard is dropped.  [n] is the fuel of the inner
    loops (reading the shim's verdict, polling, signals), [fuel] that of the
    outer one. *)
From S2P Require Import Prelude RustStr Num Utf8 F64 Error Json Fault Util Process Net Caps Seccomp Toml Config State Fs Host KernFs NatRules Ipam Store.
From S2P Require Import Cgroup Network Netlink Ipc Spawn Security Filesystem Loop Init Supervisor Shim Lifecycle Stats Cli.
Import json.

Class CliHost (H : Type) := {
  (** [print!] and [eprint!]. *)
  stdout : string -> H -> H;
  stderr : string -> H -> H;
  (** [Write::write_all] and [Write::flush] on the locked standard output. *)
  sink_write : string -> H -> (io_error + unit) * H;
  sink_flush : H -> H;
  (** [geteuid(2)], [sysconf(_SC_NPROCESSORS_ONLN)]. *)
  euid : H -> Z;
  online_cpus : H -> Z;
  (** The bytes of [/dev/urandom] and the clock [generate_id] mixes. *)
  entropy : H -> list Z * Z;
  (** [fs::canonicalize], [Path::is_dir] and [Path::exists] of a
      configuration's paths. *)
  canonical : string -> H -> result string;
  names_dir : string -> H -> bool;
  names_file : string -> H -> bool;
  (** [poll(2)] of the signal descriptor and the channel: an [errno], or the
      number of ready descriptors and which of the two are. *)
  sys_poll2 : Z -> H -> (Z + Z * (bool * bool)) * H;
  (** The descriptor of [follow_logs]: [open], [lseek] and [read] of at most
      8192 bytes at a position. *)
  log_open : string -> H -> (io_error + unit) * H;
  log_seek : Z -> H -> (io_error + unit) * H;
  log_read : Z -> H -> (io_error + string) * H
}.

Module main.

(** ** Tables *)

(** The body of the loop over the rows. *)
Definition widen (widths : list nat) (row : list string) : list nat :=
  imap (fun i w => match row !! i with Some c => Nat.max w (String.length c) | None => w end) widths.

Definition table_widths (headers : list string) (rows : list (list string)) : list nat :=
  foldl widen (String.length <$> headers) rows.

(** [format!("{:width$}", c)]. *)
Definition pad (width : nat) (c : string) : string :=
  c +:+ str_repeat (width - length (chars c)) " ".

(** The loop of the closure [line]; [None] is the panic of [widths[i]]. *)
Fixpoint line_go (widths : list nat) (cells : list string) : option string :=
  match cells with
  | [] => Some ""
  | [c] => Some c
  | c :: rest =>
      match widths with
      | [] => None
      | w :: ws => s ← line_go ws rest; Some (pad w c +:+ "   " +:+ s)
      end
  end.

Definition line (widths : list nat) (cells : list string) : option string := trim_end <$> line_go widths cells.

Definition newline : string := String "010" "".

Section commands.
Context {H : Type} `{HasWorld H} `{Iptables H} `{Links H} `{KernFs H} `{Processes H} `{Spawner H} `{Shims H}.
Context `{LinkCounters H} `{InitHost H} `{CliHost H}.
Context (MYRUN_FAULT MYRUN_ALLOW_MISSING_CONTROLLERS MYRUN_LOG : option string) (root : string) (self : Z).

Abbreviation ST := ContainerState.t.

Definition print (s : string) : HM H unit := fun h => (Ok tt, stdout s h).
Definition println (s : string) : HM H unit := print (s +:+ newline).
Definition eprintln (s : string) : HM H unit := fun h => (Ok tt, stderr (s +:+ newline) h).

Definition print_line (widths : list nat) (cells : list string) : LP H unit :=
  match line widths cells with Some s => now (println s) | None => panic end.

Fixpoint print_rows (widths : list nat) (rows : list (list string)) : LP H unit :=
  match rows with
  | [] => mret tt
  | r :: rows' => _ ← print_line widths r; print_rows widths rows'
  end.

Definition print_table (headers : list string) (rows : list (list string)) : LP H unit :=
  print_rows (table_widths headers rows) (headers :: rows).

(** ** Helpers *)

Definition store : HM H unit := _ ← on_files (ensure_root root); mret tt.

Definition resolve (needle : string) : HM H string := on_files (Store.resolve root needle).
Definition load (id : string) : HM H ST := on_files (Store.load root id).
Definition remove (id : string) : HM H unit := on_files (Store.remove root id).

(** [let _ = store.reconcile(&mut st)]. *)
Definition reconciled (st : ST) : HM H ST := fun h =>
  let '(_, st', w) := Store.reconcile root self (now_ms h) (fun pid => proc_stat pid h) st (world h) in
  (Ok st', set_world w h).

Definition require_root (action : string) : HM H unit := fun h =>
  if euid h =? 0 then (Ok tt, h)
  else (Err (Unsupported (action +:+ " needs root: creating namespaces, cgroups and veth pairs are all "
         +:+ "privileged operations. Re-run with sudo. (Rootless containers would "
         +:+ "need user namespaces and a setuid helper for networking; see "
         +:+ "docs/security.md.)")), h).

Definition asks {A} (f : H -> A) : HM H A := fun h => (Ok (f h), h).
Definition clock : HM H Z := asks now_ms.

(** [num_cpus]. *)
Definition num_cpus (h : H) : Z := if online_cpus h <=? 0 then 1 else online_cpus h.

(** ** [info] *)

Definition read_or (p other : string) : HM H string :=
  r ← host.try (kfs.read_trimmed p); mret (match r with Ok s => s | Err _ => other end).

Definition controller_line (avail : list string) (c : string) : string :=
  "  " +:+ pad 14 (c +:+ ":") +:+ " " +:+ (if bool_decide (c ∈ avail) then "available" else "MISSING") +:+ newline.

Definition cgroup_report : HM H string :=
  r ← host.try cgroup.mount_point;
  match r with
  | Ok m =>
      avail ← cgroup.available_controllers m;
      mret ("cgroup v2:         " +:+ m +:+ newline
            +:+ "  controllers:     " +:+ (match avail with [] => "(none delegated)" | _ => join " " avail end) +:+ newline
            +:+ str_concat (controller_line avail <$> cgroup.WANTED))
  | Err e => mret ("cgroup v2:         unavailable (" +:+ error_str e +:+ ")" +:+ newline)
  end.

Definition cmd_info : HM H Z :=
  kernel ← read_or "/proc/sys/kernel/osrelease" "unknown";
  uid ← asks euid;
  cpus ← asks num_cpus;
  report ← cgroup_report;
  ipt ← nat.available;
  seccomp ← kfs.exists_ "/proc/sys/kernel/seccomp/actions_avail";
  forward ← read_or "/proc/sys/net/ipv4/ip_forward" "?";
  _ ← print
    ("myrun " +:+ cli.VERSION +:+ newline
     +:+ "kernel:            " +:+ kernel +:+ newline
     +:+ "running as uid:    " +:+ show_dec uid +:+ newline
     +:+ "state root:        " +:+ root +:+ newline
     +:+ "cpus:              " +:+ show_dec cpus +:+ newline
     +:+ report
     +:+ "iptables:          "
     +:+ (if ipt : bool then "available" else "unavailable (bridge networking will not work)") +:+ newline
     +:+ "seccomp:           " +:+ (if seccomp : bool then "supported" else "unknown") +:+ newline
     +:+ "ip_forward:        " +:+ forward +:+ newline
     +:+ newline +:+ "fault injection points (MYRUN_FAULT=<point>):" +:+ newline
     +:+ str_concat ((fun p => "  " +:+ p +:+ newline) <$> fault.POINTS));
  mret 0.

(** ** [create] and [run] *)

Definition new_id (h : H) : string := let '(bytes, nanos) := entropy h in util.generate_id bytes nanos self.

Definition build_state (c : ContainerConfig.t) (detach : bool) : HM H ST := fun h =>
  (c ← ContainerConfig.finalize_and_validate (new_id h) (fun p => canonical p h) (fun p => names_dir p h)
         (fun p => names_file p h) c true;
   _ ← security.precheck (ContainerConfig.security c);
   Ok (ContainerState.new (now_ms h) (cfg.set_detach detach c)), h).

Definition sup_create (st : ST) : HM H ST := supervisor.create MYRUN_FAULT root self st.

Definition cmd_create (a : cli.RunArgs) : HM H Z :=
  _ ← require_root "creating a container";
  _ ← store;
  st ← build_state (cli.config a) (cli.run_detach a);
  st ← sup_create st;
  _ ← println (ContainerState.id st);
  mret 0.

Definition forwarded : list Z := [signal.SIGINT; SIGTERM; signal.SIGQUIT; signal.SIGHUP].

(** [poll_fds] of the two descriptors. *)
Fixpoint poll_fds (n : nat) (timeout_ms : Z) : LP H (Z * (bool * bool)) := fun h =>
  match n with
  | O => (Pending, h)
  | S k =>
      match sys_poll2 timeout_ms h with
      | (inl e, h') =>
          if e =? process.EINTR then poll_fds k timeout_ms h'
          else (Answer (Err (Syscall "poll" e "2 fds")), h')
      | (inr r, h') => (Answer (Ok r), h')
      end
  end.

(** [while let Ok(Some(info)) = sfd.next_signal()]. *)
Fixpoint forward_signals (n : nat) (pid : Z) : LP H unit :=
  match n with
  | O => pending
  | S k =>
      r ← now (host.try signal.next_signal);
      match r with
      | Ok (Some signo) => _ ← now (host.ignore (kill_pid pid signo)); forward_signals k pid
      | _ => mret tt
      end
  end.

(** The loop of [run_attached]. *)
Fixpoint watch (n fuel : nat) (st : ST) : LP H unit :=
  match fuel with
  | O => pending
  | S k =>
      r ← init.lp_try (poll_fds n 500);
      match r with
      | Ok (ready, (signalled, closed)) =>
          if ready =? 0 then
            alive ← now (supervisor.is_alive st);
            if negb alive then mret tt else watch n k st
          else
            _ ← (if signalled : bool then forward_signals n (ContainerState.init_pid st) else mret tt);
            if closed : bool then mret tt else watch n k st
      | Err _ => watch n k st
      end
  end.

Definition report_exit (st : ST) : HM H unit :=
  if ContainerState.oom_killed st
  then eprintln ("myrun: container " +:+ util.short_id (ContainerState.id st) +:+ " was killed by the kernel OOM killer")
  else mret tt.

(** What follows the loop. *)
Definition finish (fuel : nat) (st : ST) (run : supervisor.Running) : LP H Z := fun h =>
  match supervisor.wait_for_exit root self fuel st run h with
  | None => (Pending, h)
  | Some (Err e, _, h) => (Answer (Err e), h)
  | Some (Ok status, st, h) =>
      now (st ← supervisor.teardown MYRUN_FAULT root self st;
           _ ← (if ContainerConfig.auto_remove (ContainerState.config st)
                then host.ignore (remove (ContainerState.id st)) else mret tt);
           _ ← report_exit st;
           mret (process.exit_code status)) h
  end.

Definition attend (n fuel : nat) (st : ST) (run : supervisor.Running) : LP H Z :=
  _ ← now (signal.block forwarded);
  _ ← now (signal.signalfd forwarded);
  _ ← watch n fuel st;
  finish fuel st run.

Definition run_attached (n fuel : nat) (st : ST) : LP H Z := fun h =>
  match supervisor.launch MYRUN_FAULT MYRUN_ALLOW_MISSING_CONTROLLERS MYRUN_LOG root self st h with
  | (Err e, st, h) => now (_ ← host.ignore (remove (ContainerState.id st)); host.fail e) h
  | (Ok run, st, h) => attend n fuel st run h
  end.

Definition run_detached (n : nat) (st : ST) : LP H Z :=
  r ← init.lp_try (shim.spawn root n st);
  match r with
  | Ok _ => now (_ ← println (ContainerState.id st); mret 0)
  | Err e => now (_ ← host.ignore (remove (ContainerState.id st)); host.fail e)
  end.

Definition cmd_run (n fuel : nat) (a : cli.RunArgs) : LP H Z :=
  _ ← now (require_root "running a container");
  _ ← now store;
  let detach := cli.run_detach a in
  st ← now (build_state (cli.config a) detach);
  st ← now (sup_create st);
  if detach then run_detached n st else run_attached n fuel st.

(** ** [start] *)

Definition set_detach (st : ST) (b : bool) : ST :=
  ContainerState.Mk (ContainerState.id st) (ContainerState.name st) (ContainerState.status st)
    (ContainerState.init_pid st) (ContainerState.init_start_time st) (ContainerState.shim_pid st)
    (ContainerState.created_at st) (ContainerState.started_at st) (ContainerState.finished_at st)
    (ContainerState.exit_code st) (ContainerState.exit_signal st) (ContainerState.oom_killed st)
    (ContainerState.error st) (ContainerState.cgroup_path st) (ContainerState.network st)
    (cfg.set_detach b (ContainerState.config st)).

Definition start_attached (n fuel : nat) (id : string) : LP H Z :=
  st ← now (load id);
  if negb (bool_decide (ContainerState.status st = Status.Created)) then
    now (host.fail (InvalidState ("container " +:+ util.short_id id +:+ " is "
                                  +:+ Status.as_str (ContainerState.status st) +:+ ", not created")))
  else run_attached n fuel (set_detach st false).

Definition cmd_start (n fuel : nat) (needle : string) (attach : bool) : LP H Z :=
  _ ← now (require_root "starting a container");
  _ ← now store;
  id ← now (resolve needle);
  if attach then start_attached n fuel id
  else
    st ← lifecycle.start root self n id;
    _ ← now (println (ContainerState.id st));
    mret 0.

(** ** Verbs on several containers *)

(** The loop of [for_each]; [failures] counts. *)
Fixpoint each (f : string -> LP H string) (ids : list string) (failures : Z) : LP H Z :=
  match ids with
  | [] => mret failures
  | needle :: rest =>
      r ← init.lp_try (id ← now (resolve needle); f id);
      match r with
      | Ok out => _ ← now (println out); each f rest failures
      | Err e => _ ← now (eprintln ("myrun: " +:+ needle +:+ ": " +:+ error_str e)); each f rest (failures + 1)
      end
  end.

Definition for_each (ids : list string) (f : string -> LP H string) : LP H Z :=
  _ ← now store;
  failures ← each f ids 0;
  mret (if 0 <? failures then exit.GENERIC else 0).

Definition cmd_stop (fuel : nat) (ids : list string) (timeout : Z) : LP H Z :=
  for_each ids (fun id => _ ← lifecycle.stop MYRUN_FAULT root self fuel id timeout; mret id).

Definition cmd_kill (ids : list string) (signal : Z) : LP H Z :=
  let all := signal =? SIGKILL in
  for_each ids (fun id => _ ← now (lifecycle.kill root self id signal all); mret id).

Definition cmd_delete (fuel : nat) (ids : list string) (force : bool) : LP H Z :=
  for_each ids (fun id => _ ← lifecycle.delete MYRUN_FAULT root self fuel id force; mret id).

Definition cmd_simple (ids : list string) (op : string -> HM H unit) : LP H Z :=
  for_each ids (fun id => _ ← now (op id); mret id).

(** ** [list] and [inspect] *)

Definition listed (all : bool) (st : ST) : bool :=
  all || Status.is_live (ContainerState.status st) || bool_decide (ContainerState.status st = Status.Created).

Fixpoint reconcile_all (all : bool) (l : list ST) : HM H (list ST) :=
  match l with
  | [] => mret []
  | st :: l' =>
      st ← reconciled st;
      rest ← reconcile_all all l';
      mret (if listed all st then st :: rest else rest)
  end.

Definition exit_column (st : ST) : string :=
  match ContainerState.status st, ContainerState.exit_code st, ContainerState.exit_signal st with
  | Status.Stopped, Some c, _ => "exited(" +:+ show_dec c +:+ ")"
  | Status.Stopped, _, Some sg => "signal(" +:+ process.signal_name sg +:+ ")"
  | _, _, _ => "-"
  end.

Definition list_row (now : Z) (st : ST) : list string :=
  [ util.short_id (ContainerState.id st);
    default "-" (ContainerState.name st);
    Status.as_str (ContainerState.status st);
    if (0 <? ContainerState.init_pid st) && Status.is_live (ContainerState.status st)
    then show_dec (ContainerState.init_pid st) else "-";
    str_concat (take 30 (chars (join " " (ContainerConfig.command (ContainerState.config st)))));
    default "-" (NetworkState.ip (ContainerState.network st));
    if 0 <? ContainerState.started_at st then util.format_duration_ms (ContainerState.uptime_ms now st) else "-";
    exit_column st ].

Definition LIST_HEADERS : list string :=
  ["CONTAINER"; "NAME"; "STATUS"; "PID"; "COMMAND"; "IP"; "UPTIME"; "EXIT"].

Definition cmd_list (all json quiet : bool) : LP H Z :=
  _ ← now store;
  l ← now (on_files (Store.list root));
  states ← now (reconcile_all all l);
  if json then
    _ ← now (println (to_string_pretty (JArr (ContainerState.to_json <$> states)))); mret 0
  else if quiet then
    _ ← now (host.for_each (fun s => println (ContainerState.id s)) states); mret 0
  else
    t ← now clock;
    _ ← print_table LIST_HEADERS (list_row t <$> states);
    mret 0.

Definition inspect_json (now : Z) (st : ST) : Json :=
  let j := set (set (set (ContainerState.to_json st)
    "security_summary" (JStr (security.summary (ContainerConfig.security (ContainerState.config st)))))
    "uptime_ms" (JInt (wrap_s 64 (ContainerState.uptime_ms now st))))
    "created" (JStr (util.format_time (ContainerState.created_at st))) in
  if 0 <? ContainerState.finished_at st
  then set j "finished" (JStr (util.format_time (ContainerState.finished_at st))) else j.

Fixpoint inspect_all (ids : list string) : HM H (list Json) :=
  match ids with
  | [] => mret []
  | needle :: rest =>
      id ← resolve needle;
      st ← load id;
      st ← reconciled st;
      t ← clock;
      out ← inspect_all rest;
      mret (inspect_json t st :: out)
  end.

Definition cmd_inspect (ids : list string) : HM H Z :=
  _ ← store;
  out ← inspect_all ids;
  _ ← println (to_string_pretty (JArr out));
  mret 0.

(** ** [stats] *)

Fixpoint resolve_all (ids : list string) : HM H (list string) :=
  match ids with
  | [] => mret []
  | n :: rest => id ← resolve n; out ← resolve_all rest; mret (id :: out)
  end.

Definition targets (ids : list string) : HM H (list string) :=
  match ids with
  | [] =>
      l ← on_files (Store.list root);
      mret (ContainerState.id <$> filter (fun s => Status.is_live (ContainerState.status s) = true) l)
  | _ => resolve_all ids
  end.

Fixpoint collect_each (ids : list string) : HM H (list Stats.t) :=
  match ids with
  | [] => mret []
  | id :: rest =>
      st ← load id;
      st ← reconciled st;
      s ← stats.collect st;
      out ← collect_each rest;
      mret (s :: out)
  end.

Definition collect_all (ids : list string) : HM H (list Stats.t) := ts ← targets ids; collect_each ts.

Definition stats_once (ids : list string) (json : bool) : LP H Z :=
  all ← now (collect_all ids);
  _ ← (if json then now (println (to_string_pretty (JArr (Stats.to_json <$> all))))
       else match all with
            | [] => now (println "no running containers")
            | _ => print_table Stats.HEADERS (Stats.table_row <$> all)
            end);
  mret 0.

(** The row of [stats -f]: [row[3]] from two samples when there are two. *)
Definition follow_row (previous : list Stats.t) (interval_ms : Z) (s : Stats.t) : list string :=
  let row := Stats.table_row s in
  match List.find (fun p => bool_decide (Stats.id p = Stats.id s)) previous with
  | Some p =>
      match stats.cpu_delta_percent p s interval_ms with
      | Some pct => <[3%nat := Stats.percent pct]> row
      | None => row
      end
  | None => row
  end.

Definition clear_screen : string := String "027" "[2J" +:+ String "027" "[H".

Fixpoint stats_follow (fuel : nat) (ids : list string) (json : bool) (interval_ms : Z) (previous : list Stats.t)
    : LP H Z :=
  match fuel with
  | O => pending
  | S k =>
      current ← now (collect_all ids);
      match current with
      | [] => _ ← now (println "no running containers"); mret 0
      | _ =>
          _ ← (if json then now (println (to_string (JArr (Stats.to_json <$> current))))
               else
                 _ ← now (print clear_screen);
                 print_table Stats.HEADERS (follow_row previous interval_ms <$> current));
          _ ← now (sleep interval_ms);
          stats_follow k ids json interval_ms current
      end
  end.

Definition cmd_stats (fuel : nat) (ids : list string) (json follow : bool) (interval_ms : Z) : LP H Z :=
  _ ← now store;
  if negb follow then stats_once ids json else stats_follow fuel ids json interval_ms [].

(** ** [logs] *)

(** [.map_err(|e| Error::io(..))] of a call on a file. *)
Definition io_call {A} (msg : string -> string) (m : H -> (io_error + A) * H) : HM H A := fun h =>
  match m h with
  | (inr a, h') => (Ok a, h')
  | (inl e, h') => (Err (Io (msg (io_str (world h') e))), h')
  end.

(** The inner loop of [follow_logs]: the new [pos]. *)
Fixpoint drain_log (n : nat) (pos : Z) : LP H Z :=
  match n with
  | O => pending
  | S k =>
      buf ← now (io_call id (log_read pos));
      if str_is_empty buf then mret pos
      else
        _ ← now (io_call id (sink_write buf));
        drain_log k (pos + Z.of_nat (String.length buf))
  end.

Fixpoint follow_go (n fuel : nat) (id : string) (pos : Z) : LP H unit :=
  match fuel with
  | O => pending
  | S k =>
      _ ← now (io_call (fun m => m) (log_seek pos));
      pos ← drain_log n pos;
      _ ← now (fun h => (Ok tt, sink_flush h));
      st ← now (load id);
      if negb (Status.is_live (ContainerState.status st)) then mret tt
      else _ ← now (sleep 150); follow_go n k id pos
  end.

Definition follow_logs (n fuel : nat) (id : string) : LP H unit :=
  let p := Store.log_path root id in
  _ ← now (io_call (fun m => "opening " +:+ p +:+ ": " +:+ m) (log_open p));
  follow_go n fuel id 0.

Definition print_log (id : string) (tail : option Z) : HM H unit :=
  text ← lifecycle.logs root id (Z.to_nat <$> tail);
  _ ← print text;
  if negb (str_is_empty text) && negb (ends_with newline text) then print newline else mret tt.

Definition cmd_logs (n fuel : nat) (needle : string) (follow : bool) (tail : option Z) : LP H Z :=
  _ ← now store;
  id ← now (resolve needle);
  _ ← (if follow then follow_logs n fuel id else now (print_log id tail));
  mret 0.

(** ** [wait] and [gc] *)

Fixpoint wait_all (fuel : nat) (ids : list string) (timeout : option Z) : LP H unit :=
  match ids with
  | [] => mret tt
  | needle :: rest =>
      id ← now (resolve needle);
      status ← lifecycle.wait root self fuel id timeout;
      _ ← now (println (show_dec (process.exit_code status)));
      wait_all fuel rest timeout
  end.

Definition cmd_wait (fuel : nat) (ids : list string) (timeout : option Z) : LP H Z :=
  _ ← now store;
  _ ← wait_all fuel ids timeout;
  mret 0.

Definition cmd_gc : HM H Z :=
  _ ← require_root "garbage collection";
  _ ← store;
  report ← supervisor.gc MYRUN_FAULT root self;
  _ ← match report with
      | [] => println "nothing to clean up"
      | _ => host.for_each println report
      end;
  mret 0.

(** ** The second [match] of [real_main] *)
Definition run_command (n fuel : nat) (c : cli.Command) : LP H Z :=
  match c with
  | cli.Help topic => _ ← now (println (cli.help_text topic)); mret 0
  | cli.Version => _ ← now (println ("myrun " +:+ cli.VERSION)); mret 0
  | cli.Info => now cmd_info
  | cli.Run a => cmd_run n fuel a
  | cli.Create a => now (cmd_create a)
  | cli.Start id attach => cmd_start n fuel id attach
  | cli.Stop ids timeout => cmd_stop fuel ids timeout
  | cli.Kill ids sg => cmd_kill ids sg
  | cli.Delete ids force => cmd_delete fuel ids force
  | cli.List all json quiet => cmd_list all json quiet
  | cli.Inspect ids => now (cmd_inspect ids)
  | cli.Stats ids json follow interval_ms => cmd_stats fuel ids json follow interval_ms
  | cli.Pause ids => cmd_simple ids (lifecycle.pause root self)
  | cli.Unpause ids => cmd_simple ids (lifecycle.unpause root self)
  | cli.Logs id follow tail => cmd_logs n fuel id follow tail
  | cli.Wait ids timeout => cmd_wait fuel ids timeout
  | cli.Gc => now cmd_gc
  | cli.Init _ | cli.Shim _ _ => now (host.fail (Usage "internal subcommands are not invoked directly"))
  end.
End commands.

(** ** [real_main] and [main] *)
Section entry.
Context {H : Type} `{HasWorld H} `{Iptables H} `{Links H} `{KernFs H} `{Processes H} `{Spawner H} `{Shims H}.
Context `{LinkCounters H} `{InitHost H} `{CliHost H} `{MountKernel H} `{!caps.CapKernel H} `{Thread_ops H}.
Context (arch : seccomp.Arch) (self : Z).

(** [cli::parse], with the environment it leaves. *)
Definition parse_args (argv : list string) (env : cli.Env) : LP H (cli.Command * cli.Env) := fun h =>
  let '(r, env', w) := cli.parse argv env (world h) in
  (match r with
   | toml.TOk c => Answer (Ok (c, env'))
   | toml.TErr e => Answer (Err e)
   | toml.TPanic => Panicked
   | toml.TFuel => Pending
   end, set_world w h).

(** What the internal subcommands exit with. *)
Definition shim_process (fuel : nat) (env : cli.Env) (root state_dir : string) (fd : Z) : LP H Z := fun h =>
  match shim.main (env !! "MYRUN_FAULT") (env !! "MYRUN_ALLOW_MISSING_CONTROLLERS") (env !! "MYRUN_LOG") root self
          fuel state_dir fd h with
  | (Some c, h') => (Answer (Ok c), h')
  | (None, h') => (Pending, h')
  end.

Definition root_of (env : cli.Env) (h : H) : string :=
  runtime_root (fun k => env !! k) (euid h) (names_dir "/run" h).

Definition real_main (n fuel : nat) (argv : list string) (env : cli.Env) : LP H Z :=
  '(cmd, env) ← parse_args argv env;
  root ← now (asks (root_of env));
  match cmd with
  | cli.Init state_dir => init.main arch (env !! "MYRUN_FAULT") n fuel state_dir
  | cli.Shim state_dir fd => shim_process fuel env root state_dir fd
  | _ =>
      _ ← now (host.lift (fault.validate_env (env !! "MYRUN_FAULT")));
      run_command (env !! "MYRUN_FAULT") (env !! "MYRUN_ALLOW_MISSING_CONTROLLERS") (env !! "MYRUN_LOG") root self
        n fuel cmd
  end.

(** [main]: what is handed to [process::exit]; [101] is the exit of a panic. *)
Definition main (n fuel : nat) (argv : list string) (env : cli.Env) (h : H) : option Z * H :=
  match real_main n fuel argv env h with
  | (Answer (Ok c), h') => (Some c, h')
  | (Answer (Err e), h') => (Some (exit_code e), stderr ("myrun: " +:+ error_str e +:+ newline) h')
  | (Panicked, h') => (Some 101, h')
  | (Pending, h') => (None, h')
  end.
End entry.
End main.
