(* ===== verification/TableFacts.v ===== *)
(** * Theorems about the tables of [src/main.rs]

    The widths are computed in bytes and the padding in characters; the
    columns line up all the same. *)
From S2P Require Import Prelude RustStr Num Utf8 F64 Error Json JsonUtf8 Process Config ConfigFacts State Fs Host KernFs.
From S2P Require Import NatRules Cgroup Network Spawn Loop Init Shim Stats Cli Main.
Import main.

(** ** Counting characters *)

Definition char_count (s : string) : nat := length (chars s).

(** Enough fuel gives the same characters. *)
Lemma chars_go_enough s : forall n m, (String.length s <= n)%nat -> (String.length s <= m)%nat ->
  chars_go n s = chars_go m s.
Proof.
  remember (String.length s) as k eqn:Ek. assert (String.length s <= k)%nat as Hk by lia. clear Ek.
  revert s Hk. induction k as [|k IH]; intros s Hk n m Hn Hm.
  { destruct s; cbn in Hk; [|lia]. by destruct n, m. }
  destruct s as [|a s]; [by destruct n, m|].
  destruct n as [|n]; [lia|]. destruct m as [|m]; [lia|]. cbn [chars_go]. cbn [String.length] in Hk.
  destruct (bz a <? 0x80); [f_equal; apply IH; lia|].
  destruct (take_bytes (seq_len a) (String a s)) as [[c r]|] eqn:E; [|done]. f_equal.
  apply take_bytes_Some in E as [E El]. apply (f_equal String.length) in E. rewrite str_length_app in E. cbn [String.length] in E.
  assert (1 <= seq_len a)%nat by (unfold seq_len; repeat case_match; lia). apply IH; lia.
Qed.

Lemma chars_app s t : valid_utf8 s = true -> chars (s +:+ t) = chars s ++ chars t.
Proof.
  remember (String.length s) as k eqn:Ek. assert (String.length s <= k)%nat as Hk by lia. clear Ek.
  revert s Hk. induction k as [|k IH]; intros s Hk Hs.
  { by destruct s; cbn in Hk; [|lia]. }
  destruct s as [|a s]; [done|]. unfold chars at 1 2. cbn [String.append String.length chars_go].
  destruct (bz a <? 0x80) eqn:Ea.
  { cbn [List.app]. f_equal. cbn [valid_utf8] in Hs. rewrite Ea in Hs. apply IH; [cbn in Hk; lia|done]. }
  destruct (valid_utf8_seq a s Hs ltac:(apply Z.leb_le; apply Z.ltb_ge in Ea; lia)) as (c & r & E & El & _ & _ & Hr).
  injection E as ->. rewrite <- El.
  change (String a ((c +:+ r) +:+ t)) with (String a (c +:+ r) +:+ t).
  replace (String a (c +:+ r) +:+ t) with (String a c +:+ (r +:+ t)) by (cbn; by rewrite app_assoc).
  change (S (String.length c)) with (String.length (String a c)). rewrite take_bytes_app.
  change (String a (c +:+ r)) with (String a c +:+ r). rewrite take_bytes_app. cbn [List.app]. f_equal.
  cbn [String.length] in Hk. rewrite !str_length_app in *.
  rewrite (chars_go_enough (r +:+ t) _ (String.length (r +:+ t))), (chars_go_enough r _ (String.length r)) by
    (rewrite ?str_length_app; lia).
  apply IH; [lia|done].
Qed.

Lemma char_count_le s : (char_count s <= String.length s)%nat.
Proof.
  unfold char_count, chars. assert (forall n s, (length (chars_go n s) <= n)%nat) as L.
  { clear s. intros n. induction n as [|n IH]; intros s; cbn [chars_go]; [done|]. destruct s as [|a s]; [cbn; lia|].
    case_match; [cbn; specialize (IH s); lia|]. destruct (take_bytes _ _) as [[c r]|]; cbn; [specialize (IH r); lia|lia]. }
  apply L.
Qed.

Lemma spaces_utf8 n : valid_utf8 (str_repeat n " ") = true.
Proof. apply low_utf8. induction n as [|n IH]; [done|]. exact IH. Qed.

Lemma spaces_count n : char_count (str_repeat n " ") = n.
Proof.
  induction n as [|n IH]; [done|]. change (str_repeat (S n) " ") with (" " +:+ str_repeat n " ").
  unfold char_count in *. rewrite chars_app, length_app, IH by done. done.
Qed.

Lemma pad_utf8 w c : valid_utf8 c = true -> valid_utf8 (pad w c) = true.
Proof. intros Hc. apply valid_utf8_app; [done|apply spaces_utf8]. Qed.

(** A cell that fits is brought to exactly the width. *)
Lemma pad_count w c : valid_utf8 c = true -> (String.length c <= w)%nat -> char_count (pad w c) = w.
Proof.
  intros Hc Hw. pose proof (char_count_le c). unfold pad. unfold char_count in *. rewrite chars_app, length_app by done.
  fold (char_count (str_repeat (w - length (chars c)) " ")). rewrite spaces_count. lia.
Qed.

(** ** Widths *)

Definition fits (ws : list nat) (row : list string) : Prop :=
  forall i c w, row !! i = Some c -> ws !! i = Some w -> (String.length c <= w)%nat.

Lemma widen_lookup ws row i : widen ws row !! i =
  (fun w => match row !! i with Some c => Nat.max w (String.length c) | None => w end) <$> ws !! i.
Proof. unfold widen. by rewrite list_lookup_imap. Qed.

Lemma widen_length ws row : length (widen ws row) = length ws.
Proof. apply length_imap. Qed.

Lemma widen_fits ws row : fits (widen ws row) row.
Proof.
  intros i c w Hc Hw. rewrite widen_lookup, Hc in Hw. destruct (ws !! i); [|done]. cbn in Hw. injection Hw as <-. lia.
Qed.

Lemma widen_keeps ws row r : fits ws r -> fits (widen ws row) r.
Proof.
  intros F i c w Hc Hw. rewrite widen_lookup in Hw. destruct (ws !! i) as [v|] eqn:Ev; [|done].
  specialize (F i c v Hc Ev). cbn in Hw. injection Hw as <-. case_match; lia.
Qed.

Lemma widths_length rows : forall ws, length (foldl widen ws rows) = length ws.
Proof. induction rows as [|r rows IH]; intros ws; cbn; [done|]. rewrite IH. apply widen_length. Qed.

Lemma widths_keep rows : forall ws r, fits ws r -> fits (foldl widen ws rows) r.
Proof. induction rows as [|r' rows IH]; intros ws r F; cbn; [done|]. apply IH. by apply widen_keeps. Qed.

Lemma widths_fit rows : forall ws r, r ∈ rows -> fits (foldl widen ws rows) r.
Proof.
  induction rows as [|r' rows IH]; intros ws r; [by intros ?%elem_of_nil|].
  intros [->|Hr]%elem_of_cons; cbn; [apply widths_keep, widen_fits|by apply IH].
Qed.

Lemma table_fits headers rows r : r ∈ headers :: rows -> fits (table_widths headers rows) r.
Proof.
  unfold table_widths. intros [->|Hr]%elem_of_cons; [|by apply widths_fit]. apply widths_keep.
  intros i c w Hc Hw. rewrite list_lookup_fmap, Hc in Hw. cbn in Hw. injection Hw as <-. lia.
Qed.

(** ** Lines *)

(** Where the cells of column [i] start. *)
Definition column (ws : list nat) (i : nat) : nat := sum_list ((fun w => (w + 3)%nat) <$> take i ws).

(** The text of a row: every cell starts at its column. *)
Definition laid_out (ws : list nat) (row : list string) (s : string) : Prop :=
  forall i c, row !! i = Some c -> exists pre post, s = pre +:+ c +:+ post /\ char_count pre = column ws i.

Lemma line_laid_out row : forall ws, (length row <= S (length ws))%nat -> Forall utf8 row -> fits ws row ->
  exists s, line_go ws row = Some s /\ laid_out ws row s.
Proof.
  induction row as [|c row IH]; intros ws Hl Hu F.
  { exists "". split; [by destruct ws|]. intros i c Hx. by rewrite lookup_nil in Hx. }
  apply Forall_cons in Hu as [Hc Hu]. destruct row as [|d row].
  { exists c. split; [by destruct ws|]. intros [|i] x Hx; cbn in Hx; [|done]. injection Hx as <-.
    exists "", "". by rewrite app_nil_r. }
  destruct ws as [|w ws]; [cbn in Hl; lia|].
  destruct (IH ws) as (s & E & L); [cbn in *; lia|done|intros i x v Hx Hv; by apply (F (S i) x v)|].
  exists (pad w c +:+ "   " +:+ s). split; [cbn [line_go] in *; by rewrite E|].
  assert (char_count (pad w c) = w) as Hp by (apply pad_count; [done|by apply (F 0%nat c w)]).
  intros [|i] x Hx.
  - injection Hx as <-. exists "", (str_repeat (w - length (chars c)) " " +:+ "   " +:+ s).
    split; [|done]. unfold pad. rewrite !app_assoc. done.
  - destruct (L i x Hx) as (pre & post & -> & Hn). exists (pad w c +:+ "   " +:+ pre), post. split.
    + by rewrite !app_assoc.
    + unfold char_count in *. rewrite chars_app by (by apply pad_utf8). rewrite length_app, Hp.
      change (column (w :: ws) (S i)) with (w + 3 + column ws i)%nat. rewrite <- Hn.
      rewrite (chars_app "   "), length_app by done. change (length (chars "   ")) with 3%nat. lia.
Qed.

(** ** The whole table *)

Section table.
Context {H : Type} `{CliHost H}.

(** The host after these lines were printed. *)
Definition printed (h : H) (lines : list string) : H := foldl (fun h l => stdout (trim_end l +:+ newline) h) h lines.

Lemma print_rows_ok ws rows : forall h,
  Forall (fun r => (length r <= S (length ws))%nat /\ Forall utf8 r /\ fits ws r) rows ->
  exists lines, Forall2 (laid_out ws) rows lines /\ print_rows ws rows h = (Answer (Ok tt), printed h lines).
Proof.
  induction rows as [|r rows IH]; intros h Hr; cbn [print_rows]; [by exists []|].
  apply Forall_cons in Hr as [(Hl & Hu & F) Hr]. destruct (line_laid_out r ws Hl Hu F) as (s & E & L).
  destruct (IH (stdout (trim_end s +:+ newline) h) Hr) as (lines & L2 & E2). exists (s :: lines). split; [by constructor|].
  rewrite lp_bind_eq. unfold print_line, line. rewrite E. cbn [fmap option_fmap option_map]. exact E2.
Qed.

(** C35: A table is printed without an index out of range, header first and one
    line per row in order, and its columns line up: in every line the cell of
    column [i] starts after the same number of characters, whatever characters
    of several bytes the cells have; only spaces at the end of a line are
    cut. *)
Theorem table_aligned (headers : list string) (rows : list (list string)) (h : H) :
  Forall (fun r => (length r <= S (length headers))%nat /\ Forall utf8 r) (headers :: rows) ->
  exists lines, Forall2 (laid_out (table_widths headers rows)) (headers :: rows) lines /\
    print_table headers rows h = (Answer (Ok tt), printed h lines).
Proof.
  intros Hr. apply print_rows_ok. apply Forall_forall. intros r Hin.
  destruct (proj1 (Forall_forall _ _) Hr r Hin) as [Hl Hu]. split_and!; [|done|by apply table_fits].
  unfold table_widths. by rewrite widths_length, length_fmap.
Qed.
End table.

(** ** A terminal that remembers *)
Module screen.
Record host := mk { disk : World; out : list string; err : list string; log : string; pos : Z }.

#[global] Instance screen_world : HasWorld host := {|
  world := disk; set_world w h := mk w (out h) (err h) (log h) (pos h) |}.
#[global] Instance screen_world_laws : HasWorldLaws host.
Proof. split; [done|by intros []|done]. Qed.

(** A reader of the log gets at most 8192 bytes. *)
#[global] Instance screen_cli : CliHost host := {|
  stdout s h := mk (disk h) (out h ++ [s]) (err h) (log h) (pos h);
  stderr s h := mk (disk h) (out h) (err h ++ [s]) (log h) (pos h);
  sink_write s h := (inr tt, mk (disk h) (out h ++ [s]) (err h) (log h) (pos h));
  sink_flush h := h;
  euid _ := 0;
  online_cpus _ := 2;
  entropy _ := ([1], 0);
  canonical p _ := Ok p;
  names_dir _ _ := true;
  names_file _ _ := true;
  sys_poll2 _ h := (inr (0, (false, false)), h);
  log_open _ h := (inr tt, h);
  log_seek p h := (inr tt, mk (disk h) (out h) (err h) (log h) p);
  log_read p h := (inr (String.substring (Z.to_nat p) (Z.to_nat 8192) (log h)), h)
|}.

Definition empty_disk : World := MkWorld (MkFs ∅ {["/"]}) [] [] (fun _ => "").
Definition start : host := mk empty_disk [] [] "" 0.
End screen.

(** An é has two bytes; the columns still agree. *)
Definition sample_rows : list (list string) := [["a"; String "195" (String "169" "tat"); "x"]; ["bcd"; "y"; "z"]].

Lemma table_aligned_witness :
  exists lines, Forall2 (laid_out (table_widths ["ID"; "NAME"; "N"] sample_rows)) (["ID"; "NAME"; "N"] :: sample_rows) lines /\
    print_table ["ID"; "NAME"; "N"] sample_rows screen.start = (Answer (Ok tt), printed screen.start lines).
Proof.
  apply (table_aligned (H := screen.host)). repeat (constructor; [split; [cbn; lia|repeat constructor]|]). constructor.
Defined.

Example table_text :
  screen.out (snd (print_table ["ID"; "NAME"; "N"] sample_rows screen.start)) =
  (fun s => s +:+ newline) <$>
    ["ID    NAME    N"; "a     " +:+ String "195" (String "169" "tat") +:+ "    x"; "bcd   y       z"].
Proof. vm_compute. reflexivity. Qed.

(** A row two cells longer than the header is an index out of range. *)
Example long_row_panics :
  fst (print_table ["A"] [["1"; "2"; "3"]] screen.start) = Panicked /\
  fst (print_table ["A"] [["1"; "2"]] screen.start) = Answer (Ok tt).
Proof. by vm_compute. Qed.

(** The rows of [list] and of [stats] have as many cells as their headers. *)
Lemma rows_fit now st s : length (list_row now st) = length LIST_HEADERS /\ length (Stats.table_row s) = length Stats.HEADERS.
Proof. done. Qed.

(** The row of [stats -f] has the shape of any other. *)
Lemma follow_row_length prev ms s : length (follow_row prev ms s) = length Stats.HEADERS.
Proof. unfold follow_row. repeat case_match; done. Qed.
