(* ===== verification/MainFacts.v ===== *)
(** * Theorems about the commands of [src/main.rs]

    The commands are the verbs of [Lifecycle.v] behind the resolution of the
    names on the command line, with what is shown on the terminal. *)
From S2P Require Import Prelude RustStr Num Utf8 Error Json Util UtilFacts Process Config ConfigFacts State StateFacts Fs FsFacts FsTree Host KernFs.
From S2P Require Import NatRules NatFacts Ipam IpamFacts Store StoreFacts Cgroup Network Netlink Ipc Spawn Supervisor Loop Init Shim Lifecycle.
From S2P Require Import Steady Evolve LifecycleFacts Stats Cli Main.
Import main.

(** ** What a needle can resolve to *)

Section resolve.
Context (root : string) (Hroot : path.dir_ok root).

(** The needle is a prefix of the id, or the name of the container. *)
Lemma resolve_found needle w : plain needle ->
  let '(r, w') := Store.resolve root needle w in
  same_fs w w' /\
  forall j, r = Ok j -> path.name_ok j /\
    (starts_with needle j = true \/ exists st, loaded root (fs w) j = Some st /\ ContainerState.name st = Some needle).
Proof.
  intros Hs. unfold Store.resolve. destruct (str_is_empty needle) eqn:En; [done|].
  unfold Store.exists_, ufs.exists_, mbind, M_bind.
  destruct (path_exists (fs w) (Store.state_path root needle)).
  { split; [done|]. intros j [= <-]. split; [by destruct Hs as [->|]|]. left. rewrite <- (app_nil_r needle) at 2. apply starts_with_app. }
  pose proof (ids_spec root Hroot w) as I. destruct (Store.ids root w) as [[l|e] w1]; [|by destruct I].
  destruct I as (S1 & _ & Hl & _). pose proof (scan_spec root needle l [] w1) as C.
  destruct (Store.scan root needle l [] w1) as [r w2]. destruct C as (S2 & x & -> & C).
  destruct x as [j|m].
  - split; [by eapply same_fs_trans|]. intros j' [= <-]. destruct C as [Hj (st & Hst & Hn)].
    destruct S1 as (E1 & _). rewrite E1 in Hst. split; [by apply Hl|right; by exists st].
  - destruct C as [Em _]. destruct m as [|j [|j' m]]; (split; [by eapply same_fs_trans|]); try done. intros j' [= <-].
    assert (j ∈ [] ++ filter (fun k => starts_with needle k = true) l) as Hj by (rewrite <- Em; by left).
    apply list_elem_of_filter in Hj as [Hp Hj]. split; [by apply Hl|by left].
Qed.
End resolve.

(** ** Records under the commands *)

Section commands.
Context {H : Type} `{HasWorld H} `{!HasWorldLaws H} `{Iptables H} `{Links H} `{KernFs H} `{Processes H} `{Spawner H} `{Shims H}.
Context `{LinkCounters H} `{InitHost H} `{CliHost H}.
Context (f allow log : option string) (root : string) (self : Z) (Hroot : path.dir_ok root).

(** The terminal, the log's descriptor and the counters of an interface are
    not the files of the runtime. *)
Class CliRely := {
  cr_stdout : forall s h, untouched h (stdout s h);
  cr_stderr : forall s h, untouched h (stderr s h);
  cr_sink : forall s h, untouched h (snd (sink_write s h));
  cr_flush : forall h, untouched h (sink_flush h);
  cr_open : forall p h, untouched h (snd (log_open p h));
  cr_seek : forall p h, untouched h (snd (log_seek p h));
  cr_read : forall p h, untouched h (snd (log_read p h));
  cr_counters : forall n, pres untouched (link_counters n)
}.
Context `{!Rely root} `{!CliRely}.

(** The container that is looked at, and its record at the beginning. *)
Context (i : string) (Hi : path.name_ok i) (st0 : ContainerState.t).

Definition on_track (h : H) : Prop :=
  good root (world h) /\ exists st, loaded root (fs (world h)) i = Some st /\ evolves st0 st.

Definition keeps_track (h h' : H) : Prop := on_track h -> on_track h'.

#[local] Instance keeps_track_pre : PreOrder keeps_track.
Proof. unfold keeps_track. split; [by intros h|]. intros h1 h2 h3. auto. Qed.

Lemma follows_track X h h' : X <> Some i -> follows root X h h' -> keeps_track h h'.
Proof.
  intros HX F [Hg (st & Hl & E)]. destruct (F Hg) as [Hg' M]. split; [done|].
  destruct (M i st Hi HX Hl) as (st' & Hl' & E'). exists st'. split; [done|]. by etrans.
Qed.

Lemma untouched_track h h' : untouched h h' -> keeps_track h h'.
Proof. intros U. apply (follows_track None); [done|by apply untouched_follows]. Qed.

Lemma pres_track {A} (m : HM H A) : pres untouched m -> pres keeps_track m.
Proof. intros U h. apply untouched_track, U. Qed.

Lemma guar_track {A} X P Q (m : HM H A) : X <> Some i -> (forall w, P w) -> guar root X P m Q -> pres keeps_track m.
Proof. intros HX HP G h [Hg T]. destruct (G h Hg (HP _)) as [F _]. by apply (follows_track X h). Qed.

Lemma lguar_track {A} X P Q (m : LP H A) : X <> Some i -> (forall w, P w) -> lguar root X P m Q -> lpres keeps_track m.
Proof. intros HX HP G h [Hg T]. destruct (G h Hg (HP _)) as [F _]. by apply (follows_track X h). Qed.

Lemma idle_track {A} (m : M A) : (forall w, aside root w (m w).2) -> pres keeps_track (on_files m).
Proof. intros I h. apply (follows_track None); [done|]. by apply idle_follows. Qed.

Lemma try_track {A} (m : LP H A) : lpres keeps_track m -> lpres keeps_track (init.lp_try m).
Proof. intros Hm h. specialize (Hm h). unfold init.lp_try. by destruct (m h) as [[[]| |] h']. Qed.

(** *** The terminal and the files *)

Lemma print_track s : pres keeps_track (print s).
Proof. intros h. apply untouched_track, cr_stdout. Qed.
Lemma println_track s : pres keeps_track (println s).
Proof. apply print_track. Qed.
Lemma eprintln_track s : pres keeps_track (eprintln s).
Proof. intros h. apply untouched_track, cr_stderr. Qed.
Lemma store_track : pres keeps_track (store root).
Proof.
  unfold store. apply pres_bind; [exact _| |intros ?; apply pres_ret, _]. apply idle_track. intros w. unfold ensure_root.
  apply bind_idle; [apply mkdir_idle|]. intros ? w1. reflexivity.
Qed.
Lemma clock_track : pres keeps_track clock.
Proof. intros h. cbn. reflexivity. Qed.
Lemma load_track j : pres keeps_track (load root j).
Proof. apply idle_track. intros w. apply load_idle. Qed.
Lemma require_track a : pres keeps_track (require_root a).
Proof. intros h. unfold require_root. case_match; cbn; reflexivity. Qed.

(** *** Needles *)

(** The command line means the container. *)
Definition refers (needle : string) : Prop :=
  starts_with needle i = true \/ ContainerState.name st0 = Some needle.

Lemma resolve_ok needle h j h' : plain needle -> on_track h -> resolve root needle h = (Ok j, h') ->
  path.name_ok j /\ (j = i -> refers needle).
Proof.
  intros Hp [_ (st & Hl & ((_ & En & _) & _))]. unfold resolve, on_files. pose proof (resolve_found root Hroot needle (world h) Hp) as R.
  destruct (Store.resolve root needle (world h)) as [r w]. intros [= -> <-]. destruct R as [_ R].
  destruct (R j eq_refl) as [Hj C]. split; [done|]. intros ->. destruct C as [?|(s & Hs & Hn)]; [by left|right].
  rewrite Hl in Hs. injection Hs as <-. by rewrite <- En.
Qed.

Lemma resolve_track needle : plain needle -> pres keeps_track (resolve root needle).
Proof.
  intros Hp h. apply (follows_track None); [done|]. unfold resolve, on_files, follows.
  pose proof (resolve_found root Hroot needle (world h) Hp) as R.
  destruct (Store.resolve root needle (world h)) as [r w]. destruct R as [S _]. cbn [snd]. rewrite world_set. by apply idle_moved, same_fs_idle.
Qed.

Lemma resolved_track {A} needle (k : string -> HM H A) : plain needle ->
  (forall j, path.name_ok j -> (j = i -> refers needle) -> pres keeps_track (k j)) ->
  pres keeps_track (j ← resolve root needle; k j).
Proof.
  intros Hp Hk h T. rewrite hm_bind_eq. pose proof (resolve_track needle Hp h T) as T1.
  destruct (resolve root needle h) as [[j|e] h1] eqn:E; [|done].
  destruct (resolve_ok needle h j h1 Hp T E) as [Hj Hr]. by apply Hk.
Qed.

Lemma lresolved_track {A} needle (k : string -> LP H A) : plain needle ->
  (forall j, path.name_ok j -> (j = i -> refers needle) -> lpres keeps_track (k j)) ->
  lpres keeps_track (j ← now (resolve root needle); k j).
Proof.
  intros Hp Hk h T. rewrite now_bind_eq. pose proof (resolve_track needle Hp h T) as T1.
  destruct (resolve root needle h) as [[j|e] h1] eqn:E; [|done].
  destruct (resolve_ok needle h j h1 Hp T E) as [Hj Hr]. by apply Hk.
Qed.

(** *** Verbs on several containers *)

Lemma each_track (g : string -> LP H string) ids : Forall plain ids ->
  (forall j, path.name_ok j -> (j = i -> exists n, n ∈ ids /\ refers n) -> lpres keeps_track (g j)) ->
  forall k, lpres keeps_track (each root g ids k).
Proof.
  induction ids as [|n ids IH]; intros Hp Hg k; cbn [each]; [apply lpres_ret, _|].
  apply Forall_cons in Hp as [Hn Hp].
  assert (forall k, lpres keeps_track (each root g ids k)) as IH'.
  { apply IH; [done|]. intros j Hj Hr. apply Hg; [done|]. intros E. destruct (Hr E) as (m & Hm & ?). exists m. split; [by right|done]. }
  apply lpres_bind; [exact _| |].
  - apply try_track, lresolved_track; [done|]. intros j Hj Hr. apply Hg; [done|]. intros E. exists n. split; [by left|auto].
  - intros [out|e]; (apply lpres_bind; [exact _|apply lpres_now|done]); [apply println_track|apply eprintln_track].
Qed.

Lemma for_each_track (g : string -> LP H string) ids : Forall plain ids ->
  (forall j, path.name_ok j -> (j = i -> exists n, n ∈ ids /\ refers n) -> lpres keeps_track (g j)) ->
  lpres keeps_track (for_each root ids g).
Proof.
  intros Hp Hg. unfold for_each. apply lpres_bind; [exact _|apply lpres_now, store_track|intros ?].
  apply lpres_bind; [exact _|by apply each_track|intros ?]. apply lpres_ret, _.
Qed.

Lemma answered_track {A} (m : LP H A) j : lpres keeps_track m -> lpres keeps_track (_ ← m; mret j : LP H string).
Proof. intros Hm. apply lpres_bind; [exact _|done|intros ?; apply lpres_ret, _]. Qed.

(** *** Reading records *)

Lemma reconciled_host st h : snd (reconciled root self st h) = snd (supervisor.reconcile root self st h).
Proof. unfold reconciled, supervisor.reconcile. by destruct (Store.reconcile _ _ _ _ _ _) as [[r s] w]. Qed.

Lemma reconciled_guar st (P : World -> Prop) : (forall w, P w -> known root st w) -> stable root None P ->
  guar root None P (reconciled root self st) (fun _ => P).
Proof.
  intros HP HS h Hg Hp. destruct (HP _ Hp) as (Hwf & Hid & _).
  destruct (reconcile_guar root self Hroot None st P Hid Hwf ltac:(intros w Hw; by apply HP) h Hg Hp) as [F _].
  rewrite <- reconciled_host in F. split; [done|]. unfold stable in HS.
  assert (P (world (snd (reconciled root self st h)))) by (by eapply HS). by destruct (fst _).
Qed.

Lemma reconcile_all_guar all l :
  guar root None (fun w => forall st, st ∈ l -> known root st w) (reconcile_all root self all l) (fun _ _ => True).
Proof.
  induction l as [|st l IH]; cbn [reconcile_all]; [apply guar_end|].
  eapply guar_bind.
  - apply (reconciled_guar st (fun w => forall s, s ∈ st :: l -> known root s w)); [intros w Hw; apply Hw; by left|].
    intros w w' Hg M Hk s Hs. eapply known_stable; [done..|by apply Hk].
  - intros st'. eapply (guar_bind _ _ _ (fun _ _ => True)).
    + eapply guar_weaken; [exact IH| |done]. intros w Hw s Hs. apply Hw. by right.
    + intros ?. apply guar_end.
Qed.

(** The loaded record may be reconciled. *)
Lemma fetch_track {A} j (k : ContainerState.t -> HM H A) : path.name_ok j -> (forall st, pres keeps_track (k st)) ->
  pres keeps_track (st ← load root j; st ← reconciled root self st; k st).
Proof.
  intros Hj Hk h T. rewrite hm_bind_eq. destruct T as [Hg T].
  destruct (load_guar root None j (fun _ => True) Hj h Hg I) as [F Q]. unfold lifecycle.load in *.
  fold (load root j) in *. pose proof (follows_track None h _ ltac:(done) F (conj Hg T)) as T1.
  destruct (load root j h) as [[st|e] h1]; cbn [fst snd] in *; [|done]. destruct Q as [(Hwf & Hid & _ & Hs) Hl].
  rewrite hm_bind_eq. destruct T1 as [Hg1 T1].
  assert (known root st (world h1)) as Kn by (split_and!; [done|by rewrite Hid|done]).
  destruct (reconciled_guar st (known root st) ltac:(done) (known_stable root None eq_refl st) h1 Hg1 Kn) as [F1 _].
  pose proof (follows_track None h1 _ ltac:(done) F1 (conj Hg1 T1)) as T2.
  destruct (reconciled root self st h1) as [[st'|e] h2]; [|done]. by apply Hk.
Qed.

#[local] Hint Resolve print_track println_track eprintln_track store_track clock_track load_track require_track : core.

(** Goes through a program with loops. *)
Ltac lstep :=
  match goal with
  | |- lpres _ (now _) => apply lpres_now
  | |- lpres _ (@mret _ _ _ _) => apply lpres_ret; exact _
  | |- lpres _ (@mbind _ _ _ _ _ _) => apply lpres_bind; [exact _| |intros ?]
  | |- lpres _ (match ?x with _ => _ end) => destruct x
  | |- lpres _ (if ?b then _ else _) => destruct b
  end.
Ltac track := repeat lstep; pres_tac.

Lemma print_rows_track ws rows : lpres keeps_track (print_rows ws rows).
Proof.
  induction rows as [|r rows IH]; cbn [print_rows]; unfold print_line; track. intros h. cbn. reflexivity.
Qed.

Lemma list_track all json quiet : lpres keeps_track (cmd_list root self all json quiet).
Proof.
  unfold cmd_list. apply lpres_bind; [exact _|apply lpres_now, store_track|intros ?].
  assert (lpres keeps_track (l ← now (on_files (Store.list root)); now (reconcile_all root self all l))) as L.
  { eapply (lguar_track None (fun _ => True)); [done|done|]. eapply lguar_bind; [apply lguar_now, (list_guar root Hroot)|].
    intros l. apply lguar_now, reconcile_all_guar. }
  intros h T. specialize (L h T). rewrite !now_bind_eq in *. destruct (on_files (Store.list root) h) as [[l|e] h1]; [|done].
  rewrite now_bind_eq. unfold now in L. destruct (reconcile_all root self all l h1) as [[states|e] h2]; [|done].
  cbn [snd] in L. revert h2 L. refine (_ : lpres keeps_track _). track. apply print_rows_track.
Qed.

Lemma inspect_track ids : Forall plain ids -> pres keeps_track (inspect_all root self ids).
Proof.
  induction ids as [|n ids IH]; intros Hp; cbn [inspect_all]; [pres_tac|]. apply Forall_cons in Hp as [Hn Hp].
  apply resolved_track; [done|]. intros j Hj _. apply fetch_track; [done|]. intros st. pres_tac.
Qed.

(** *** Statistics *)

Lemma stats_quiet c : pres untouched (cgroup.stats c).
Proof.
  unfold cgroup.stats, cgroup.read_u64, cgroup.keyed_value, cgroup.read_keyed, cgroup.read.
  pres_tac; apply (read_steady untouched).
Qed.

Lemma collect_quiet st : pres untouched (stats.collect st).
Proof.
  unfold stats.collect, stats.with_cgroup, stats.with_net, stats.counters, stats.clock. pres_tac.
  - intros h. unfold stats.process_count_via_proc. destruct (_ <=? 0); [done|].
    match goal with |- context [kf_read_dir ?p h] => pose proof (ks_read_dir untouched p h); destruct (kf_read_dir p h) as [[e|l] h1] end; done.
  - apply (attach_steady untouched).
  - apply stats_quiet.
  - apply (netlink_steady untouched).
  - apply cr_counters.
Qed.

Lemma resolve_all_track ids : Forall plain ids -> pres keeps_track (resolve_all root ids).
Proof.
  induction ids as [|n ids IH]; intros Hp; cbn [resolve_all]; [pres_tac|]. apply Forall_cons in Hp as [Hn Hp].
  apply resolved_track; [done|]. intros j Hj _. pres_tac.
Qed.

Lemma collect_each_track ids : Forall path.name_ok ids -> pres keeps_track (collect_each root self ids).
Proof.
  induction ids as [|j ids IH]; intros Hp; cbn [collect_each]; [pres_tac|]. apply Forall_cons in Hp as [Hn Hp].
  apply fetch_track; [done|]. intros st. pres_tac. apply pres_track, collect_quiet.
Qed.

(** What is collected from are containers. *)
Lemma resolve_all_ok ids : forall h l h', Forall plain ids -> on_track h ->
  resolve_all root ids h = (Ok l, h') -> Forall path.name_ok l.
Proof.
  induction ids as [|n ids IH]; intros h l h' Hp T; cbn [resolve_all]; [by intros [= <- _]|].
  apply Forall_cons in Hp as [Hn Hp]. intros (j & h1 & E1 & (l' & h2 & E2 & [= <- <-])%hm_bind_inv)%hm_bind_inv.
  constructor; [by eapply resolve_ok|]. eapply IH; [done| |exact E2].
  pose proof (resolve_track n Hn h T) as T1. by rewrite E1 in T1.
Qed.

Lemma targets_ok ids h l h' : Forall plain ids -> on_track h -> targets root ids h = (Ok l, h') -> Forall path.name_ok l.
Proof.
  intros Hp T. unfold targets. destruct ids as [|n ids]; [|by apply resolve_all_ok].
  rewrite hm_bind_eq. destruct T as [Hg _]. destruct (list_guar root Hroot None h Hg I) as [_ Q].
  destruct (on_files (Store.list root) h) as [[ls|e] h1]; [|done]. cbn [fst snd] in Q. intros [= <- <-].
  apply Forall_fmap, Forall_forall. intros st [_ Hst]%list_elem_of_filter. by destruct (Q st Hst) as (_ & ? & _).
Qed.

Lemma collect_all_track ids : Forall plain ids -> pres keeps_track (collect_all root self ids).
Proof.
  intros Hp h T. unfold collect_all. rewrite hm_bind_eq.
  assert (pres keeps_track (targets root ids)) as Ht.
  { unfold targets. destruct ids; [|by apply resolve_all_track]. pres_tac. eapply (guar_track None (fun _ => True)); [done..|apply (list_guar root Hroot)]. }
  specialize (Ht h T). destruct (targets root ids h) as [[l|e] h1] eqn:E; [|done].
  apply collect_each_track; [exact (targets_ok ids h l h1 Hp T E)|done].
Qed.

Lemma sleep_track ms : pres keeps_track (sleep ms).
Proof. intros h. apply (follows_track None); [done|]. exact (rely_sleep root ms h). Qed.

Lemma table_track hs rows : lpres keeps_track (print_table hs rows).
Proof. apply print_rows_track. Qed.

#[local] Hint Resolve sleep_track table_track : core.

Lemma stats_follow_track fuel ids json ms : Forall plain ids ->
  forall prev, lpres keeps_track (stats_follow root self fuel ids json ms prev).
Proof.
  intros Hp. induction fuel as [|k IH]; intros prev; cbn [stats_follow]; [intros h; cbn; reflexivity|].
  apply lpres_bind; [exact _|by apply lpres_now, collect_all_track|]. intros current. track.
Qed.

Lemma cmd_stats_track fuel ids json follow ms : Forall plain ids -> lpres keeps_track (cmd_stats root self fuel ids json follow ms).
Proof.
  intros Hp. unfold cmd_stats, stats_once. track; [by apply collect_all_track|by apply stats_follow_track].
Qed.

(** *** Logs *)

Lemma io_call_track {A} msg (m : H -> (io_error + A) * H) : (forall h, untouched h (snd (m h))) -> pres keeps_track (io_call msg m).
Proof. intros U h. specialize (U h). unfold io_call. destruct (m h) as [[e|a] h1]; by apply untouched_track. Qed.

Lemma drain_track n : forall pos, lpres keeps_track (drain_log n pos).
Proof.
  induction n as [|n IH]; intros pos; cbn [drain_log]; [intros h; cbn; reflexivity|].
  track; apply io_call_track; intros h; [apply cr_read|apply cr_sink].
Qed.

Lemma follow_go_track n fuel j : forall pos, lpres keeps_track (follow_go root n fuel j pos).
Proof.
  induction fuel as [|k IH]; intros pos; cbn [follow_go]; [intros h; cbn; reflexivity|].
  track; [apply io_call_track; intros h; apply cr_seek|apply drain_track|].
  intros h. apply untouched_track, cr_flush.
Qed.

Lemma read_idle p w : aside root w (ufs.read_to_string p w).2.
Proof.
  pose proof (read_to_string_spec p w) as S. destruct (ufs.read_to_string p w) as [r w1]. by apply same_fs_idle, S.
Qed.

Lemma logs_track j n : pres keeps_track (lifecycle.logs root j n).
Proof.
  unfold lifecycle.logs. pres_tac; apply idle_track; intros w; [reflexivity|apply read_idle].
Qed.

Lemma cmd_logs_track n fuel needle follow tail : plain needle -> lpres keeps_track (cmd_logs root n fuel needle follow tail).
Proof.
  intros Hp. unfold cmd_logs. apply lpres_bind; [exact _|apply lpres_now, store_track|intros ?].
  apply lresolved_track; [done|]. intros j Hj _. unfold follow_logs, print_log. track.
  - apply io_call_track. intros h. apply cr_open.
  - apply follow_go_track.
  - apply logs_track.
Qed.

(** *** The rest *)

Lemma wait_all_track fuel ids t : Forall plain ids -> lpres keeps_track (wait_all root self fuel ids t).
Proof.
  induction ids as [|n ids IH]; intros Hp; cbn [wait_all]; [apply lpres_ret, _|]. apply Forall_cons in Hp as [Hn Hp].
  apply lresolved_track; [done|]. intros j Hj _. track.
  by eapply (lguar_track None (fun _ => True)); [done..|apply (wait_guar root self Hroot)].
Qed.

Lemma gc_track : pres keeps_track (cmd_gc f root self).
Proof.
  unfold cmd_gc. pres_tac. by eapply (guar_track None (fun _ => True)); [done..|apply (gc_guar f root self Hroot)].
Qed.

Lemma info_track : pres keeps_track (cmd_info root).
Proof.
  unfold cmd_info, read_or, cgroup_report, asks, cgroup.available_controllers, cgroup.read_list. pres_tac;
    try (apply pres_track; first [apply (read_steady untouched)|apply (mount_point_steady untouched)]); try (intros h; cbn; reflexivity).
  apply pres_track. intros h. unfold nat.available.
  pose proof (ks_iptables untouched ["-t"; "nat"; "-S"] h) as U. by destruct (iptables _ h) as [[] h1].
Qed.

Lemma start_track n fuel needle : plain needle -> lpres keeps_track (cmd_start f allow log root self n fuel needle false).
Proof.
  intros Hp. unfold cmd_start. apply lpres_bind; [exact _|apply lpres_now, require_track|intros ?].
  apply lpres_bind; [exact _|apply lpres_now, store_track|intros ?].
  apply lresolved_track; [done|]. intros j Hj _. track.
  by eapply (lguar_track None (fun _ => True)); [done..|apply (start_guar root self Hroot)].
Qed.

(** The needles on a command line. *)
Definition needles (c : cli.Command) : list string :=
  match c with
  | cli.Start n _ | cli.Logs n _ _ => [n]
  | cli.Stop ids _ | cli.Kill ids _ | cli.Delete ids _ | cli.Inspect ids | cli.Stats ids _ _ _
  | cli.Pause ids | cli.Unpause ids | cli.Wait ids _ => ids
  | _ => []
  end.

(** The commands that work on the containers there are; the others start a
    container of their own in this process. *)
Definition manages (c : cli.Command) : bool :=
  match c with cli.Run _ | cli.Create _ | cli.Start _ true => false | _ => true end.

Definition deletes_by (c : cli.Command) (needle : string) : Prop :=
  match c with cli.Delete ids _ => needle ∈ ids | _ => False end.

Lemma command_track n fuel c : manages c = true -> Forall plain (needles c) ->
  (forall needle, deletes_by c needle -> ~ refers needle) ->
  lpres keeps_track (run_command f allow log root self n fuel c).
Proof.
  intros Hm Hp Hd. destruct c; cbn [run_command needles] in *; try done.
  - destruct attach; [done|]. apply start_track. exact (Forall_inv Hp).
  - apply for_each_track; [done|]. intros j Hj _. apply answered_track.
    by eapply (lguar_track None (fun _ => True)); [done..|apply (stop_guar f root self Hroot)].
  - apply for_each_track; [done|]. intros j Hj _. apply answered_track, lpres_now.
    by eapply (guar_track None (fun _ => True)); [done..|apply (kill_guar root self Hroot)].
  - apply for_each_track; [done|]. intros j Hj Hr. apply answered_track.
    apply (lguar_track (Some j) (fun _ => True) (fun _ _ => True)); [|done|by apply (delete_guar f root Hroot)].
    intros [= ->]. destruct (Hr eq_refl) as (m & Hm' & Hrm). by apply (Hd m).
  - apply list_track.
  - apply lpres_now. unfold cmd_inspect. pres_tac. by apply inspect_track.
  - by apply cmd_stats_track.
  - apply for_each_track; [done|]. intros j Hj _. apply answered_track, lpres_now.
    by eapply (guar_track None (fun _ => True)); [done..|apply (pause_guar root self Hroot)].
  - apply for_each_track; [done|]. intros j Hj _. apply answered_track, lpres_now.
    by eapply (guar_track None (fun _ => True)); [done..|apply (unpause_guar root self Hroot)].
  - apply cmd_logs_track. exact (Forall_inv Hp).
  - unfold cmd_wait. track. by apply wait_all_track.
  - apply lpres_now, gc_track.
  - apply lpres_now, info_track.
  - track.
  - track.
  - track.
  - track.
Qed.
End commands.

(** ** Any sequence of command lines *)

(** One run of the program: its fuel, its environment, its process id and what
    it was asked to do. *)
Record Invocation := MkInvocation {
  inv_n : nat; inv_fuel : nat; inv_fault : option string; inv_allow : option string; inv_log : option string;
  inv_self : Z; inv_cmd : cli.Command
}.

Section session.
Context {H : Type} `{HasWorld H} `{!HasWorldLaws H} `{Iptables H} `{Links H} `{KernFs H} `{Processes H} `{Spawner H} `{Shims H}.
Context `{LinkCounters H} `{InitHost H} `{CliHost H}.
Context (root : string) (Hroot : path.dir_ok root) `{!Rely root} `{!CliRely}.

(** The host after the command ended, failed or gave up waiting. *)
Definition invoke (v : Invocation) (h : H) : H :=
  snd (run_command (inv_fault v) (inv_allow v) (inv_log v) root (inv_self v) (inv_n v) (inv_fuel v) (inv_cmd v) h).

Fixpoint session (l : list Invocation) (h : H) : H :=
  match l with [] => h | v :: l' => session l' (invoke v h) end.

End session.
