(* ===== verification/BatchFacts.v ===== *)
(** * Theorems about verbs on several containers

    [for_each] of [src/main.rs] goes on after a container that failed; the
    terminal and the exit code tell what happened. *)
From S2P Require Import Prelude RustStr Num Error Json Process State StateFacts Fs Host KernFs Store Loop Init Stats Cli Main TableFacts.
Import main.

Class Terminal (H : Type) := { out_of : H -> list string; err_of : H -> list string }.

Section batch.
Context {H : Type} `{HasWorld H} `{CliHost H} `{Terminal H}.

Definition unprinted (h h' : H) : Prop := out_of h' = out_of h /\ err_of h' = err_of h.

Class TerminalLaws := {
  tm_out : forall s h, out_of (stdout s h) = out_of h ++ [s] /\ err_of (stdout s h) = err_of h;
  tm_err : forall s h, err_of (stderr s h) = err_of h ++ [s] /\ out_of (stderr s h) = out_of h;
  tm_files : forall w h, unprinted h (set_world w h)
}.
Context `{!TerminalLaws} (root : string).

#[local] Instance unprinted_pre : PreOrder unprinted.
Proof. split; [done|]. intros a b c [] []. split; congruence. Qed.

(** The verb itself prints nothing. *)
Context (f : string -> LP H string) (Hf : forall id, lpres unprinted (f id)).

(** One container: its needle is resolved and the verb done. *)
Definition attempt (needle : string) : LP H string := id ← now (resolve root needle); f id.

(** The line that tells of it. *)
Definition report (needle : string) (r : result string) (h : H) : H :=
  match r with
  | Ok out => stdout (out +:+ newline) h
  | Err e => stderr ("myrun: " +:+ needle +:+ ": " +:+ error_str e +:+ newline) h
  end.

(** The attempts one after the other, each on the host the one before left,
    whether it succeeded or not. *)
Inductive tried : list string -> H -> list (result string) -> H -> Prop :=
| tried_nil h : tried [] h [] h
| tried_cons n ns h r h1 rs h2 : attempt n h = (Answer r, h1) -> tried ns (report n r h1) rs h2 ->
    tried (n :: ns) h (r :: rs) h2.

Definition successes (rs : list (result string)) : list string :=
  omap (fun r : result string => match r with Ok o => Some (o +:+ newline) | Err _ => None end) rs.
Definition failures (ns : list string) (rs : list (result string)) : list string :=
  omap (fun p : string * result string =>
    match snd p with Ok _ => None | Err e => Some ("myrun: " +:+ fst p +:+ ": " +:+ error_str e +:+ newline) end) (zip ns rs).

Lemma attempt_unprinted n : lpres unprinted (attempt n).
Proof.
  unfold attempt. apply lpres_bind; [exact _|apply lpres_now|done]. intros h. unfold resolve, on_files.
  destruct (Store.resolve root n (world h)) as [r w]. apply tm_files.
Qed.

Lemma each_spec ns : forall k h, 0 <= k ->
  match each root f ns k h with
  | (Answer (Ok c), h') => exists rs, tried ns h rs h' /\ k <= c /\ (c = k <-> failures ns rs = [])
  | (Answer (Err _), _) => False
  | _ => True
  end.
Proof.
  induction ns as [|n ns IH]; intros k h Hk; cbn [each].
  { cbn. exists []. split; [constructor|]. split; [lia|done]. }
  rewrite lp_bind_eq. unfold init.lp_try. fold (attempt n). destruct (attempt n h) as [[r| |] h1] eqn:E; try done.
  destruct r as [out|e]; rewrite now_bind_eq; unfold println, print, eprintln.
  - specialize (IH k (stdout (out +:+ newline) h1) Hk). destruct (each root f ns k _) as [[[c|e]| |] h2]; try done.
    destruct IH as (rs & T & Hc & Hz). exists (Ok out :: rs). split; [by econstructor|done].
  - specialize (IH (k + 1) (stderr (("myrun: " +:+ n +:+ ": " +:+ error_str e) +:+ newline) h1) ltac:(lia)).
    destruct (each root f ns (k + 1) _) as [[[c|e']| |] h2]; try done.
    destruct IH as (rs & T & Hc & _). exists (Err e :: rs). split.
    + econstructor; [exact E|]. rewrite <- !app_assoc in T. exact T.
    + split; [lia|]. split; [lia|done].
Qed.

Lemma tried_lines ns h rs h' : tried ns h rs h' ->
  length rs = length ns /\ out_of h' = out_of h ++ successes rs /\ err_of h' = err_of h ++ failures ns rs.
Proof.
  induction 1 as [h|n ns h r h1 rs h2 E T (L & Eo & Ee)]; [split_and!; [done|symmetry; apply List.app_nil_r..]|].
  pose proof (attempt_unprinted n h) as [U1 U2]. rewrite E in U1, U2. cbn [snd] in U1, U2.
  split; [cbn; by rewrite L|]. destruct r as [o|e]; cbn [report] in *.
  - destruct (tm_out (o +:+ newline) h1) as [P1 P2]. rewrite Eo, Ee, P1, P2, U1, U2. by rewrite <- (assoc_L (++)).
  - destruct (tm_err ("myrun: " +:+ n +:+ ": " +:+ error_str e +:+ newline) h1) as [P1 P2].
    rewrite Eo, Ee, P1, P2, U1, U2. by rewrite <- (assoc_L (++)).
Qed.

Lemma store_unprinted : pres unprinted (store root).
Proof.
  unfold store. apply pres_bind; [exact _| |intros ?; apply pres_ret, _]. intros h1. unfold on_files.
  destruct (ensure_root root (world h1)). apply tm_files.
Qed.

(** C33: A verb on several containers is tried on every one, in the order of
    the command line and each on what the one before left, failed or not.  The
    results are printed in that order on the standard output and the errors on
    the standard error, one line each with the needle that failed; the exit code
    is 0 when there was no error and 1 otherwise. *)
Theorem batch_reports (ids : list string) (h : H) :
  match for_each root ids f h with
  | (Answer (Ok code), h') =>
      exists h0 rs, store root h = (Ok tt, h0) /\ tried ids h0 rs h' /\ length rs = length ids /\
        out_of h' = out_of h ++ successes rs /\ err_of h' = err_of h ++ failures ids rs /\
        code = (if bool_decide (failures ids rs = []) then 0 else exit.GENERIC)
  | (Answer (Err e), h') => fst (store root h) = Err e /\ unprinted h h'
  | _ => True
  end.
Proof.
  pose proof (store_unprinted h) as U. unfold for_each. rewrite now_bind_eq.
  destruct (store root h) as [[[]|e] h0] eqn:Es; [|done]. rewrite lp_bind_eq.
  pose proof (each_spec ids 0 h0 ltac:(lia)) as E. destruct (each root f ids 0 h0) as [[[c|e]| |] h']; try done.
  destruct E as (rs & T & Hc & Hz). destruct (tried_lines _ _ _ _ T) as (L & Eo & Ee). destruct U as [U1 U2]. cbn [snd] in U1, U2.
  exists h0, rs. rewrite <- U1, <- U2. split_and!; try done. case_bool_decide as Hb.
  - apply Hz in Hb as ->. done.
  - destruct (Z.ltb_spec 0 c) as [?|?]; [done|]. destruct Hb. apply Hz. lia.
Qed.
End batch.

(** ** On the terminal that remembers *)

#[export] Instance screen_terminal : Terminal screen.host := {| out_of := screen.out; err_of := screen.err |}.
#[export] Instance screen_terminal_laws : TerminalLaws (H := screen.host).
Proof. by split. Qed.

Definition one_web : screen.host :=
  screen.mk (MkWorld (MkFs {[Store.state_path "/run" "web-1" := json.to_string_pretty (ContainerState.to_json container_state.sample)]}
               {["/"; "/run"; "/run/containers"; "/run/containers/web-1"]}) [] [] (fun _ => "No such file")) [] [] "" 0.

(** A verb that works. *)
Definition touch (id : string) : LP screen.host string := mret id.

Lemma touch_quiet id : lpres unprinted (touch id).
Proof. by intros h. Qed.

Lemma batch_reports_witness :
  let '(o, h') := for_each "/run" ["web-1"; "nope"; "web"] touch one_web in
  o = Answer (Ok 1) /\
  exists h0 rs, tried "/run" touch ["web-1"; "nope"; "web"] h0 rs h' /\ length rs = 3%nat.
Proof.
  pose proof (batch_reports (H := screen.host) "/run" touch touch_quiet ["web-1"; "nope"; "web"] one_web) as B.
  assert (E : fst (for_each "/run" ["web-1"; "nope"; "web"] touch one_web) = Answer (Ok 1)) by (vm_compute; reflexivity).
  destruct (for_each "/run" ["web-1"; "nope"; "web"] touch one_web) as [o h']. cbn [fst] in E. subst o.
  destruct B as (h0 & rs & _ & T & L & _). split; [reflexivity|]. exists h0, rs. exact (conj T L).
Defined.

Example batch_text :
  let h := snd (for_each "/run" ["web-1"; "nope"; "web"] touch one_web) in
  screen.out h = (fun s => s +:+ newline) <$> ["web-1"; "web-1"] /\
  screen.err h = [("myrun: nope: not found: container " +:+ debug_str "nope") +:+ newline].
Proof. vm_compute. split; reflexivity. Qed.
