(* ===== verification/MainMachine.v ===== *)
(** * The commands on the machine

    The theorems about the commands on the host of [Machine.v], and what a few
    command lines do there from end to end. *)
From S2P Require Import Prelude RustStr Num Utf8 Error Json Util Process Config ConfigFacts State StateFacts Fs Host KernFs.
From S2P Require Import Network NetworkFacts Netlink Ipc Spawn Store StoreFacts Supervisor Loop Init Shim Lifecycle Steady Evolve LifecycleFacts.
From S2P Require Import Machine Stats Cli Main MainFacts.

(** No interface has counters; nothing is signalled, and the channel is closed
    at the first poll; what is written to the terminal is not kept. *)
#[export] Instance machine_counters : LinkCounters machine.host := fun n h => (Err (NotFound n), h).

#[export] Instance machine_init : InitHost machine.host := {|
  ic_send _ _ h := (Ok tt, h);
  ic_recv h := (Ok None, h);
  sys_sethostname _ h := (None, h);
  sys_sigblock _ h := (None, h);
  sys_signalfd _ h := (None, h);
  file_mode _ _ := None;
  sys_fork h := (inl 11, h);
  sys_wait h := (Ok None, h);
  sys_poll _ h := (inr 0, h);
  sys_read_signal h := (inr None, h);
  proc_names _ := None
|}.

#[export] Instance machine_cli : CliHost machine.host := {|
  stdout _ h := h;
  stderr _ h := h;
  sink_write _ h := (inr tt, h);
  sink_flush h := h;
  euid _ := 0;
  online_cpus _ := 1;
  entropy _ := (replicate 16 17, 0);
  canonical p _ := Ok p;
  names_dir _ _ := true;
  names_file _ _ := true;
  sys_poll2 _ h := (inr (1, (false, true)), h);
  log_open _ h := (inr tt, h);
  log_seek _ h := (inr tt, h);
  log_read _ h := (inr "", h)
|}.

#[export] Instance machine_cli_rely : CliRely (H := machine.host).
Proof. split; done. Qed.

(** ** Commands one after the other *)

Definition invocation (c : cli.Command) : Invocation := MkInvocation 50 50 None None None 7 c.

Definition commands : list Invocation :=
  invocation <$> [cli.List true false false; cli.Pause ["web"]; cli.Delete ["db"] true; cli.Stop ["web"] 10;
                  cli.Stats [] true false 1000; cli.Gc].

Lemma commands_valid v : v ∈ commands -> manages (inv_cmd v) = true /\ Forall plain (needles (inv_cmd v)) /\
  forall needle, deletes_by (inv_cmd v) needle -> ~ refers "web-1" (container_state.without_detach container_state.sample) needle.
Proof.
  assert (plain "web" /\ plain "db") as [Pw Pd] by (split; right; by split_and!).
  unfold commands. cbn. intros Hin.
  repeat (apply elem_of_cons in Hin as [->|Hin]; [split; [done|]; split; [repeat (constructor; try done)|]; cbn; try done|]).
  - intros needle ->%list_elem_of_singleton [|]; done.
  - by apply elem_of_nil in Hin.
Qed.


(** The container is stopped in the end. *)
Example commands_stop_it :
  ContainerState.status <$> loaded "/run" (fs (world (session "/run" commands living))) "web-1" = Some Status.Stopped.
Proof. vm_compute. reflexivity. Qed.

(** ** Running a container *)

Definition ask (fault : option string) (c : cli.Command) (h : machine.host) : outcome Z * machine.host :=
  main.run_command fault None None "/run" 7 50 50 c h.

(** What is left of "web": its record, the children and the interfaces. *)
Definition left_of (x : outcome Z * machine.host) :=
  (fst x, (fun st => (ContainerState.status st, ContainerState.exit_code st)) <$> loaded "/run" (fs (world (snd x))) "web",
   machine.kids (snd x), lan.ifs (machine.lan (snd x))).

Definition web_args : cli.RunArgs := cli.MkRun machine.cfg false.
Definition exits_with_3 : machine.host :=
  machine.start [(ipc.TAG_READY, ""); (ipc.TAG_STARTED, ""); (ipc.TAG_EXIT, ipc.le32 3 +:+ ipc.le32 0)] true.

(** The command exits with the workload's code; the record stays, the process
    and the veth pair are gone. *)
Example run_end_to_end :
  left_of (ask None (cli.Run web_args) exits_with_3) =
  (Answer (Ok 3), Some (Status.Stopped, Some 3), [], ["lo"; "myrun0"]).
Proof. vm_compute. reflexivity. Qed.

(** With [--rm] nothing is left of the container. *)
Example run_rm_end_to_end :
  left_of (ask None (cli.Run (cli.MkRun (cfg.set_auto_remove true machine.cfg) false)) exits_with_3) =
  (Answer (Ok 3), None, [], ["lo"; "myrun0"]).
Proof. vm_compute. reflexivity. Qed.

(** A launch that fails leaves no record. *)
Example failed_run_leaves_no_record :
  left_of (ask None (cli.Run web_args) refusing) =
  (Answer (Err (Container "pivot_root: EINVAL")), None, [], ["lo"; "myrun0"]).
Proof. vm_compute. reflexivity. Qed.

(** A creation that fails after the record was written leaves it. *)
Example failed_create_leaves_phantom :
  left_of (ask (Some "after_state_create") (cli.Run web_args) exits_with_3) =
  (Answer (Err (Fault "after_state_create")), Some (Status.Creating, None), [], ["lo"]).
Proof. vm_compute. reflexivity. Qed.

(** [start --attach] of a container whose launch fails deletes it. *)
Example start_attach_deletes :
  let h := snd (ask None (cli.Create web_args) refusing) in
  left_of (Answer (Ok 0), h) = (Answer (Ok 0), Some (Status.Created, None), [], ["lo"]) /\
  left_of (ask None (cli.Start "web" true) h) =
    (Answer (Err (Container "pivot_root: EINVAL")), None, [], ["lo"; "myrun0"]).
Proof. vm_compute. split; reflexivity. Qed.
