(* ===== verification/LogFacts.v ===== *)
(** * Theorems about [logs -f]

    The log is a file other processes append to; what the command has written
    to the terminal is compared with it. *)
From S2P Require Import Prelude RustStr Num Error Json Process State StateFacts Fs Host KernFs Ipc IpcFacts Store Loop Init Spawn Stats Cli Main.
Import main.

Class Tail (H : Type) := {
  (** The contents of the log, and what went to the standard output. *)
  log_text : H -> string;
  shown : H -> string
}.

Section tail.
Context {H : Type} `{HasWorld H} `{Processes H} `{CliHost H} `{Tail H}.

(** The log only grows at its end. *)
Definition appended (h h' : H) : Prop := exists t, log_text h' = log_text h +:+ t.
Definition silent (h h' : H) : Prop := appended h h' /\ shown h' = shown h.

(** What [read(2)], [write(2)] and [lseek(2)] promise, and that nothing else
    here writes to the terminal. *)
Class TailLaws := {
  tl_read : forall pos h, let '(r, h') := log_read pos h in
    silent h h' /\
    match r with
    | inr s => exists rest, ipc.drop_str (Z.to_nat pos) (log_text h') = s +:+ rest /\ (s = "" -> rest = "")
    | inl _ => True
    end;
  tl_write : forall s h, let '(r, h') := sink_write s h in
    appended h h' /\ log_text h' = log_text h /\
    match r with
    | inr _ => shown h' = shown h +:+ s
    | inl _ => exists p q, s = p +:+ q /\ shown h' = shown h +:+ p
    end;
  tl_open : forall p h, silent h (snd (log_open p h));
  tl_seek : forall p h, silent h (snd (log_seek p h));
  tl_flush : forall h, silent h (sink_flush h);
  tl_sleep : forall ms h, silent h (sleep_ms ms h);
  tl_files : forall w h, silent h (set_world w h)
}.
Context `{!TailLaws} (root : string).

#[local] Instance appended_pre : PreOrder appended.
Proof.
  split; [intros h; exists ""; by rewrite app_nil_r|]. intros a b c [t E] [u F]. exists (t +:+ u). by rewrite F, E, app_assoc.
Qed.
#[local] Instance silent_pre : PreOrder silent.
Proof.
  split; [intros h; split; [reflexivity|done]|]. intros a b c [G1 E1] [G2 E2]. split; [by etrans|congruence].
Qed.

(** [s0] and then the first [k] bytes of the log have been shown. *)
Definition so_far (s0 : string) (k : nat) (h : H) : Prop :=
  shown h = s0 +:+ ipc.take_str k (log_text h) /\ (k <= String.length (log_text h))%nat.

Lemma take_drop_more k s c rest : ipc.drop_str k s = c +:+ rest ->
  ipc.take_str (k + String.length c) s = ipc.take_str k s +:+ c /\ (k <= String.length s -> k + String.length c <= String.length s)%nat.
Proof.
  revert s. induction k as [|k IH]; intros s E.
  - cbn in E. subst s. split; [apply take_str_app|intros _; rewrite str_length_app; cbn; lia].
  - destruct s as [|a s]; cbn in *.
    + destruct c; [|done]. split; [done|lia].
    + destruct (IH s E) as [E1 E2]. split; [by rewrite E1|lia].
Qed.

Lemma silent_so_far s0 k h h' : silent h h' -> so_far s0 k h -> so_far s0 k h'.
Proof.
  intros [[t E] Es] [Hs Hk]. split; [|rewrite E, str_length_app; lia]. by rewrite Es, Hs, E, take_str_le.
Qed.

(** Whatever happens, the beginning of the log has been shown. *)
Definition partly (s0 : string) (h : H) : Prop := exists k, so_far s0 k h.

Lemma silent_partly s0 h h' : silent h h' -> partly s0 h -> partly s0 h'.
Proof. intros S [k Hk]. exists k. by eapply silent_so_far. Qed.

Lemma write_appended c h : appended h (snd (sink_write c h)).
Proof. pose proof (tl_write c h) as W. by destruct (sink_write c h) as [r h'], W. Qed.

(** The next bytes of the log are written. *)
Lemma write_next s0 k c rest h : so_far s0 k h -> ipc.drop_str k (log_text h) = c +:+ rest ->
  let '(r, h') := sink_write c h in
  match r with inr _ => so_far s0 (k + String.length c) h' | inl _ => partly s0 h' end.
Proof.
  intros [Hs Hk] Ed. pose proof (tl_write c h) as W. destruct (sink_write c h) as [[e|u] h']; destruct W as (_ & El & W).
  - destruct W as (p & q & -> & W). rewrite <- app_assoc in Ed. destruct (take_drop_more k _ p (q +:+ rest) Ed) as [E1 E2].
    exists (k + String.length p)%nat. split; [|rewrite El; by apply E2]. by rewrite W, El, Hs, E1, app_assoc.
  - destruct (take_drop_more k _ c rest Ed) as [E1 E2]. split; [|rewrite El; by apply E2]. by rewrite W, El, Hs, E1, app_assoc.
Qed.

Lemma io_call_eq {A} msg (m : H -> (io_error + A) * H) h :
  io_call msg m h = (match fst (m h) with inr a => Ok a | inl e => Err (Io (msg (io_str (world (snd (m h))) e))) end, snd (m h)).
Proof. unfold io_call. by destruct (m h) as [[]]. Qed.

(** The inner loop: it ends with all that is in the log. *)
Lemma drain_spec n s0 : forall pos h, 0 <= pos -> so_far s0 (Z.to_nat pos) h ->
  let '(o, h') := drain_log n pos h in
  appended h h' /\
  match o with
  | Answer (Ok p) => 0 <= p /\ so_far s0 (Z.to_nat p) h' /\ shown h' = s0 +:+ log_text h'
  | _ => partly s0 h'
  end.
Proof.
  induction n as [|n IH]; intros pos h Hp Hf; cbn [drain_log]; [split; [reflexivity|by exists (Z.to_nat pos)]|].
  rewrite now_bind_eq, io_call_eq. pose proof (tl_read pos h) as Rd.
  destruct (log_read pos h) as [[e|c] h1]; destruct Rd as [S1 Rd]; cbn [fst snd].
  { split; [apply S1|]. eapply silent_partly; [exact S1|]. by exists (Z.to_nat pos). }
  pose proof (silent_so_far s0 _ h h1 S1 Hf) as Hf1. destruct Rd as (rest & Ed & Hr).
  destruct (str_is_empty c) eqn:Ec.
  { destruct c; [|done]. rewrite (Hr eq_refl) in Ed. cbn in Ed. split; [apply S1|]. split_and!; [done|done|].
    destruct Hf1 as [Hs _]. rewrite Hs. f_equal. rewrite <- (take_drop_str (Z.to_nat pos) (log_text h1)) at 2.
    by rewrite Ed, app_nil_r. }
  rewrite now_bind_eq, io_call_eq. pose proof (write_next s0 _ c rest h1 Hf1 Ed) as W. pose proof (write_appended c h1) as G.
  destruct (sink_write c h1) as [[e|u] h2]; cbn [fst snd] in *; [split; [etrans; [apply S1|exact G]|done]|].
  specialize (IH (pos + Z.of_nat (String.length c)) h2 ltac:(lia)).
  rewrite Z2Nat.inj_add, Nat2Z.id in IH by lia. specialize (IH W).
  destruct (drain_log n (pos + Z.of_nat (String.length c)) h2) as [o h3]. destruct IH as [G3 IH].
  split; [|done]. etrans; [apply S1|]. by etrans.
Qed.

Lemma files_silent {A} (m : M A) h : silent h (snd (on_files m h)).
Proof. unfold on_files. destruct (m (world h)) as [r w]. apply tl_files. Qed.

(** The last round: on a host [h1] all of the log had been shown, then the
    terminal was flushed and the record read, which says that the container is
    not live; nothing follows. *)
Definition complete_at (s0 : string) (id : string) (h h' : H) : Prop :=
  exists h1 st, appended h h1 /\ shown h1 = s0 +:+ log_text h1 /\
    load root id (sink_flush h1) = (Ok st, h') /\ Status.is_live (ContainerState.status st) = false /\
    shown h' = shown h1.

Lemma complete_earlier s0 id h h1 h' : appended h h1 -> complete_at s0 id h1 h' -> complete_at s0 id h h'.
Proof. intros G (a & st & G1 & R). exists a, st. split; [by etrans|done]. Qed.

(** A round after the log has been drained. *)
Lemma round_end s0 id p h : so_far s0 p h -> shown h = s0 +:+ log_text h ->
  let h2 := sink_flush h in
  let '(r, h3) := load root id h2 in
  so_far s0 p h3 /\ appended h h3 /\
  match r with
  | Ok st => Status.is_live (ContainerState.status st) = false -> complete_at s0 id h h3
  | Err _ => True
  end.
Proof.
  intros Hf Hall h2. pose proof (tl_flush h) as S2. fold h2 in S2.
  pose proof (files_silent (Store.load root id) h2) as S3. fold (load root id) in S3.
  destruct (load root id h2) as [r h3] eqn:El. cbn [snd] in S3.
  assert (silent h h3) as S by (by etrans). split_and!; [by eapply silent_so_far|apply S|].
  destruct r as [st|e]; [|done]. intros Lv. exists h, st.
  split_and!; [reflexivity|done|exact El|done|apply S].
Qed.

Lemma follow_go_spec n fuel s0 id : forall pos h, 0 <= pos -> so_far s0 (Z.to_nat pos) h ->
  let '(o, h') := follow_go root n fuel id pos h in
  appended h h' /\ partly s0 h' /\ (o = Answer (Ok tt) -> complete_at s0 id h h').
Proof.
  induction fuel as [|fuel IH]; intros pos h Hp Hf; cbn [follow_go].
  { split_and!; [reflexivity|by exists (Z.to_nat pos)|done]. }
  rewrite now_bind_eq, io_call_eq. pose proof (tl_seek pos h) as S1. destruct (log_seek pos h) as [[e|u] h1]; cbn [fst snd] in *.
  { split_and!; [apply S1| |done]. eapply silent_partly; [exact S1|]. by exists (Z.to_nat pos). }
  pose proof (silent_so_far s0 _ h h1 S1 Hf) as Hf1. rewrite lp_bind_eq.
  pose proof (drain_spec n s0 pos h1 Hp Hf1) as D. destruct (drain_log n pos h1) as [o h2]. destruct D as [G D].
  assert (appended h h2) as G2 by (etrans; [apply S1|exact G]).
  destruct o as [[p|e]| |]; try (split_and!; done). destruct D as (Hp' & Hf2 & Hall).
  pose proof (round_end s0 id _ h2 Hf2 Hall) as Rd. cbv zeta in Rd. rewrite !now_bind_eq.
  destruct (load root id (sink_flush h2)) as [[st|e] h3]; destruct Rd as (Hf3 & G3 & Rd).
  2: { split_and!; [by etrans|by exists (Z.to_nat p)|done]. }
  destruct (Status.is_live (ContainerState.status st)); cbn [negb].
  - rewrite now_bind_eq. unfold sleep. pose proof (tl_sleep 150 h3) as S4.
    specialize (IH p (sleep_ms 150 h3) Hp' (silent_so_far s0 _ _ _ S4 Hf3)).
    destruct (follow_go root n fuel id p (sleep_ms 150 h3)) as [o h5]. destruct IH as (G5 & P5 & C5).
    assert (appended h (sleep_ms 150 h3)) as G4 by (etrans; [exact G2|]; etrans; [exact G3|apply S4]).
    split_and!; [by etrans|done|]. intros E. eapply complete_earlier; [exact G4|by apply C5].
  - cbn. split_and!; [by etrans|by exists (Z.to_nat p)|]. intros _. eapply complete_earlier; [exact G2|by apply Rd].
Qed.


(** ** A container that has stopped *)

(** Nothing fails and nobody writes to the log any more. *)
Class Settled := {
  sd_read : forall pos h, exists s, fst (log_read pos h) = inr s /\ log_text (snd (log_read pos h)) = log_text h;
  sd_write : forall s h, fst (sink_write s h) = inr tt;
  sd_open : forall p h, fst (log_open p h) = inr tt /\ log_text (snd (log_open p h)) = log_text h;
  sd_seek : forall p h, fst (log_seek p h) = inr tt /\ log_text (snd (log_seek p h)) = log_text h
}.
Context `{!Settled}.

Lemma drain_ends s0 n : forall pos h, 0 <= pos -> so_far s0 (Z.to_nat pos) h ->
  (String.length (log_text h) - Z.to_nat pos < n)%nat ->
  exists p h', drain_log n pos h = (Answer (Ok p), h') /\ log_text h' = log_text h.
Proof.
  induction n as [|n IH]; intros pos h Hp Hf Hn; [lia|]. cbn [drain_log]. rewrite now_bind_eq, io_call_eq.
  pose proof (tl_read pos h) as Rd. destruct (sd_read pos h) as (c & Ec & L1). destruct (log_read pos h) as [r h1].
  cbn [fst snd] in *. subst r. destruct Rd as [S1 (rest & Ed & _)].
  pose proof (silent_so_far s0 _ h h1 S1 Hf) as Hf1.
  destruct (str_is_empty c) eqn:Ee; [by exists pos, h1|]. rewrite now_bind_eq, io_call_eq.
  pose proof (write_next s0 _ c rest h1 Hf1 Ed) as W. pose proof (tl_write c h1) as Wl. pose proof (sd_write c h1) as Ew.
  destruct (sink_write c h1) as [r h2]. cbn [fst] in Ew. subst r. cbn [fst snd]. destruct Wl as (_ & L2 & _).
  pose proof (proj2 (take_drop_more _ _ _ _ Ed) (proj2 Hf1)) as B.
  assert (1 <= String.length c)%nat by (destruct c; [done|cbn; lia]). rewrite <- L1, <- L2 in *.
  apply IH; [lia| |]; rewrite Z2Nat.inj_add, Nat2Z.id by lia; [done|lia].
Qed.

(** [logs -f] of a container that is not live ends, after one read more than
    there are bytes at most, with the whole log on the terminal. *)
Theorem follow_of_stopped (n fuel : nat) (id : string) (h : H) :
  (forall h1, exists st, fst (load root id h1) = Ok st /\ Status.is_live (ContainerState.status st) = false) ->
  (String.length (log_text h) < n)%nat ->
  fst (follow_logs root n (S fuel) id h) = Answer (Ok tt) /\
  shown (snd (follow_logs root n (S fuel) id h)) = shown h +:+ log_text h.
Proof.
  intros Hl Hn. unfold follow_logs. cbn [follow_go]. rewrite now_bind_eq, io_call_eq.
  pose proof (tl_open (Store.log_path root id) h) as S1. destruct (sd_open (Store.log_path root id) h) as [-> L1].
  destruct (log_open _ h) as [r h1]. cbn [fst snd] in *. rewrite now_bind_eq, io_call_eq.
  pose proof (tl_seek 0 h1) as S2. destruct (sd_seek 0 h1) as [-> L2]. destruct (log_seek 0 h1) as [r2 h2]. cbn [fst snd] in *.
  assert (silent h h2) as S12 by (by etrans).
  assert (so_far (shown h) 0 h2) as Hf by (split; [rewrite (proj2 S12); cbn; by rewrite app_nil_r|lia]).
  pose proof (drain_spec n (shown h) 0 h2 ltac:(lia) Hf) as D.
  destruct (drain_ends (shown h) n 0 h2 ltac:(lia) Hf) as (p & h3 & E3 & L3); [rewrite L2, L1; lia|].
  rewrite lp_bind_eq. rewrite E3 in D |- *. destruct D as (_ & _ & Hf3 & Hall). rewrite !now_bind_eq.
  pose proof (round_end (shown h) id _ h3 Hf3 Hall) as Rd. cbv zeta in Rd.
  destruct (Hl (sink_flush h3)) as (st & El & Lv). pose proof (files_silent (Store.load root id) (sink_flush h3)) as S4.
  fold (load root id) in S4. destruct (load root id (sink_flush h3)) as [r4 h4]. cbn [fst snd] in *. subst r4. rewrite Lv.
  cbn. split; [done|]. rewrite (proj2 S4), (proj2 (tl_flush h3)), Hall. congruence.
Qed.
End tail.

(** ** A log, a terminal and a container that says something at the end *)
Module tailer.
Record host := mk { disk : World; text : string; out : string; later : string * option World }.

(** While the terminal is flushed the container goes on: it writes and its
    record changes. *)
#[global] Instance tailer_world : HasWorld host := {|
  world := disk; set_world w h := mk w (text h) (out h) (later h) |}.
#[global] Instance tailer_processes : Processes host := {| sys_kill _ _ h := (None, h); sleep_ms _ h := h |}.
#[global] Instance tailer_cli : CliHost host := {|
  stdout s h := mk (disk h) (text h) (out h +:+ s) (later h);
  stderr _ h := h;
  sink_write s h := (inr tt, mk (disk h) (text h) (out h +:+ s) (later h));
  sink_flush h := mk (default (disk h) (snd (later h))) (text h +:+ fst (later h)) (out h) ("", None);
  euid _ := 0;
  online_cpus _ := 1;
  entropy _ := ([], 0);
  canonical p _ := Ok p;
  names_dir _ _ := true;
  names_file _ _ := true;
  sys_poll2 _ h := (inr (0, (false, false)), h);
  log_open _ h := (inr tt, h);
  log_seek _ h := (inr tt, h);
  (** Short reads. *)
  log_read p h := (inr (ipc.take_str 3 (ipc.drop_str (Z.to_nat p) (text h))), h)
|}.
#[global] Instance tailer_tail : Tail host := {| log_text := text; shown := out |}.

Lemma unchanged h h' : text h' = text h -> out h' = out h -> silent h h'.
Proof. intros E F. split; [exists ""; cbn; by rewrite E, app_nil_r|done]. Qed.

#[global] Instance tailer_laws : TailLaws (H := host).
Proof.
  split.
  - intros pos h. set (c := ipc.take_str 3 (ipc.drop_str (Z.to_nat pos) (text h))).
    change (silent h h /\ exists rest, ipc.drop_str (Z.to_nat pos) (text h) = c +:+ rest /\ (c = "" -> rest = "")).
    split; [by apply unchanged|]. unfold c. exists (ipc.drop_str 3 (ipc.drop_str (Z.to_nat pos) (text h))).
    split; [by rewrite take_drop_str|]. by destruct (ipc.drop_str (Z.to_nat pos) (text h)).
  - intros s h. cbn. split; [|done]. exists "". cbn. by rewrite app_nil_r.
  - intros p h. by apply unchanged.
  - intros p h. by apply unchanged.
  - intros h. split; [by exists (fst (later h))|done].
  - intros ms h. by apply unchanged.
  - intros w h. by apply unchanged.
Qed.

#[global] Instance tailer_settled : Settled (H := host).
Proof. split; intros; cbn; eauto. Qed.
End tailer.

Definition log_disk (s : Status.t) : World :=
  MkWorld (MkFs {[Store.state_path "/run" "web-1" := json.to_string_pretty (ContainerState.to_json
                    (ContainerState.set_status container_state.sample s))]}
             {["/"; "/run"; "/run/containers"; "/run/containers/web-1"]}) [] [] (fun _ => "No such file").

Definition talking (later : string * option World) : tailer.host := tailer.mk (log_disk Status.Running) "hello" "$ " later.


(** The container writes and stops after the log was read for the last time
    and before its record is: what it wrote is never shown. *)
Example last_words_lost :
  let '(o, h') := follow_logs "/run" 9 3 "web-1" (talking ("bye", Some (log_disk Status.Stopped))) in
  o = Answer (Ok tt) /\ tailer.text h' = "hellobye" /\ tailer.out h' = "$ hello".
Proof. vm_compute. split_and!; reflexivity. Qed.
